(** * duckOS kernel: virtual-memory range allocator and shared-memory syscalls

    A shallow embedding of [VMSpace.cpp] (the free/used range list of an
    address space, [map_object], [unmap_region], [get_region],
    [reserve_region] and the destructor) and of the memory system calls of
    [Process] ([sys_shmattach], [sys_shmdetach], [sys_shmallow],
    [sys_munmap], [sys_mprotect]), with the properties of the design
    document stated and settled over the embedding.

    The range list is an intrusive doubly-linked list of heap nodes that the
    C++ code mutates in place.  It is modelled as such: a store from node
    addresses to nodes carrying [next]/[prev] pointers, and a small monad for
    the loads, stores, [new] and [delete] of the source.  The development
    has three layers:
    - the pointer-level code, statement by statement;
    - the same operations as functions on the list of [(start, size, used)]
      triples, with the proof that the code computes them on every
      well-formed store;
    - the invariants of reachable states and the properties claimed. *)

From stdpp Require Import base numbers option list gmap.

Local Open Scope Z_scope.

(** ** Machine integers and constants *)

(** [size_t] and [VirtualAddress] are 32-bit unsigned on the i686 target of
    this kernel (the loader in [tasking/ELF.cpp] accepts [ELF32]/[ELF_X86]
    images only).  Unsigned arithmetic wraps around. *)
Definition SIZE_MODULUS : Z := 2 ^ 32.

Definition wrap (x : Z) : Z := x mod SIZE_MODULUS.

Definition in_size_t (x : Z) : Prop := 0 <= x < SIZE_MODULUS.

(** Modelled from the spec: [PAGE_SIZE] is declared in a header that is not
    part of the sources at hand; the scenarios of the design document use
    pages of [0x1000] bytes. *)
Definition PAGE_SIZE : Z := 4096.

(** Modelled from the spec: the [errno] constants come from
    [kstd/unix_types.h], which is not part of the sources at hand.  They are
    the usual positive POSIX numbers; the sources negate them where a
    negative code is wanted ([return -ENOENT] in [tasking/ELF.cpp],
    [return -EINVAL] in [sys_shmallow]). *)
Definition SUCCESS : Z := 0.
Definition ENOENT : Z := 2.
Definition ENOMEM : Z := 12.
Definition EINVAL : Z := 22.

(** [ResultRet<T>]: either a value or the error code of a [Result]. *)
Inductive ResultRet (A : Type) : Type :=
| Value (a : A)
| Error (code : Z).
Arguments Value {A} a.
Arguments Error {A} code.

Definition is_error {A} (r : ResultRet A) : bool :=
  match r with Value _ => false | Error _ => true end.

(** ** The node store *)

(** Addresses of [VMSpaceRegion] nodes; a nullable pointer is an [option]. *)
Definition ptr : Type := positive.

Module region.
(** [struct VMSpaceRegion { start; size; used; next; prev; }] *)
Record t : Type := mk {
  start : Z;
  size : Z;
  used : bool;
  next : option ptr;
  prev : option ptr
}.

Definition set_start (v : Z) (r : t) : t := mk v (size r) (used r) (next r) (prev r).
Definition set_size (v : Z) (r : t) : t := mk (start r) v (used r) (next r) (prev r).
Definition set_used (v : bool) (r : t) : t := mk (start r) (size r) v (next r) (prev r).
Definition set_next (v : option ptr) (r : t) : t := mk (start r) (size r) (used r) v (prev r).
Definition set_prev (v : option ptr) (r : t) : t := mk (start r) (size r) (used r) (next r) v.

(** [VMSpaceRegion::end()]: [start + size] in [size_t] arithmetic. *)
Definition end_ (r : t) : Z := wrap (start r + size r).

(** Modelled from the spec: [VMSpaceRegion::contains] is declared in
    [VMSpace.h], which is not part of the sources at hand.  The design
    document has [alloc_at] "locate the node containing [addr]", a node
    being the range [[start, start+size)]. *)
Definition contains (address : Z) (r : t) : bool :=
  (start r <=? address) && (address <? end_ r).
End region.

(** The part of a [VMSpace] that the range allocator reads and writes: the
    nodes allocated with [new], the head pointer [m_region_map] and the byte
    counter [m_used]. *)
Record RangeMap : Type := {
  heap : gmap ptr region.t;
  m_region_map : option ptr;
  m_used : Z
}.

(** ** A monad for the statements of the source *)

(** A run either completes with a value and a new state, stops the kernel on
    a failed [ASSERT], dereferences a pointer that is not a live node, or
    exhausts the bound put on a loop. *)
Inductive outcome (St A : Type) : Type :=
| Done (a : A) (s : St)
| Panic
| Fault
| OutOfFuel.
Arguments Done {St A} a s.
Arguments Panic {St A}.
Arguments Fault {St A}.
Arguments OutOfFuel {St A}.

Definition M (A : Type) : Type := RangeMap -> outcome RangeMap A.

Definition ret {A} (a : A) : M A := fun s => Done a s.

Definition bind {A B} (m : M A) (k : A -> M B) : M B :=
  fun s =>
    match m s with
    | Done a s' => k a s'
    | Panic => Panic
    | Fault => Fault
    | OutOfFuel => OutOfFuel
    end.

Notation "'let*' x ':=' m 'in' k" := (bind m (fun x => k))
  (at level 10, x name, m at level 100, k at level 200).
Notation "m ;;; k" := (bind m (fun _ => k))
  (at level 100, k at level 200, right associativity).

(** [ASSERT(cond)] *)
Definition ASSERT (cond : bool) : M unit :=
  fun s => if cond then Done tt s else Panic.

(** [*p] read as a whole node *)
Definition load (p : ptr) : M region.t :=
  fun s => match heap s !! p with Some r => Done r s | None => Fault end.

(** [p->field = v], through the field setter [f] *)
Definition update (p : ptr) (f : region.t -> region.t) : M unit :=
  fun s =>
    match heap s !! p with
    | Some r => Done tt {| heap := <[p := f r]> (heap s);
                           m_region_map := m_region_map s;
                           m_used := m_used s |}
    | None => Fault
    end.

(** [new VMSpaceRegion {...}]: a node at an address that is not live *)
Definition new (r : region.t) : M ptr :=
  fun s =>
    let p := fresh (dom (heap s)) in
    Done p {| heap := <[p := r]> (heap s);
              m_region_map := m_region_map s;
              m_used := m_used s |}.

(** [delete p] *)
Definition delete_node (p : ptr) : M unit :=
  fun s =>
    match heap s !! p with
    | Some _ => Done tt {| heap := delete p (heap s);
                           m_region_map := m_region_map s;
                           m_used := m_used s |}
    | None => Fault
    end.

Definition get_region_map : M (option ptr) := fun s => Done (m_region_map s) s.

Definition set_region_map (p : option ptr) : M unit :=
  fun s => Done tt {| heap := heap s; m_region_map := p; m_used := m_used s |}.

(** [m_used += v] and [m_used -= v] on a [size_t] *)
Definition add_used (v : Z) : M unit :=
  fun s => Done tt {| heap := heap s; m_region_map := m_region_map s;
                      m_used := wrap (m_used s + v) |}.

Definition sub_used (v : Z) : M unit :=
  fun s => Done tt {| heap := heap s; m_region_map := m_region_map s;
                      m_used := wrap (m_used s - v) |}.

Definition out_of_fuel {A} : M A := fun _ => OutOfFuel.

Definition panic {A} : M A := fun _ => Panic.

(** [if(p) body(p)] for a nullable pointer [p] *)
Definition when_ptr (p : option ptr) (body : ptr -> M unit) : M unit :=
  match p with Some q => body q | None => ret tt end.

(** The loops of the source walk the [next] chain, which visits each live
    node at most once on a well-formed list; the number of live nodes plus
    one bounds their iterations. *)
Definition loop_bound (s : RangeMap) : nat := S (base.size (heap s)).

(** ** The range allocator of [VMSpace.cpp] *)

(** The constructor: one free node covering the whole space.  [m_used] is
    not in the constructor's initialiser list; it starts at [0] through its
    default member initialiser (declared in [VMSpace.h]). *)
Definition VMSpace_init (start size : Z) : RangeMap :=
  {| heap := {[ 1%positive := region.mk start size false None None ]};
     m_region_map := Some 1%positive;
     m_used := 0 |}.

(** [VMSpace::alloc_space], the body of [while(cur_region)]. *)
Fixpoint alloc_space_loop (fuel : nat) (size : Z) (cur_region : option ptr)
  : M (ResultRet Z) :=
  match fuel with
  | O => out_of_fuel
  | S fuel =>
    match cur_region with
    | None => ret (Error ENOMEM)
    | Some c =>
      let* cur := load c in
      if region.used cur then alloc_space_loop fuel size (region.next cur)
      else if region.size cur =? size then
        (update c (region.set_used true) ;;;
         (let* cur := load c in add_used (region.size cur)) ;;;
         (let* cur := load c in ret (Value (region.start cur))))
      else if region.size cur >=? size then
        (let* new_region :=
           new (region.mk (region.start cur) size true (Some c) (region.prev cur)) in
         ((let* cur := load c in
           when_ptr (region.prev cur)
             (fun p => update p (region.set_next (Some new_region)))) ;;;
          update c (fun r => region.set_start (wrap (region.start r + size)) r) ;;;
          update c (fun r => region.set_size (wrap (region.size r - size)) r) ;;;
          update c (region.set_prev (Some new_region)) ;;;
          (let* n := load new_region in add_used (region.size n)) ;;;
          (let* head := get_region_map in
           if decide (head = Some c) then set_region_map (Some new_region)
           else ret tt) ;;;
          (let* n := load new_region in ret (Value (region.start n)))))
      else alloc_space_loop fuel size (region.next cur)
    end
  end.

Definition alloc_space (size : Z) : M (ResultRet Z) :=
  ASSERT (size mod PAGE_SIZE =? 0) ;;;
  fun s => alloc_space_loop (loop_bound s) size (m_region_map s) s.

(** The two blocks of [VMSpace::alloc_space_at] that the source introduces
    with the comments "Create new region before if needed" and "Create new
    region after if needed"; [c] is [cur_region]. *)
Definition create_region_before (c : ptr) (address : Z) : M unit :=
  let* cur := load c in
  if region.start cur <? address then
    (let* new_region :=
       new (region.mk (region.start cur)
              (wrap (address - region.start cur))
              false (Some c) (region.prev cur)) in
     ((let* cur := load c in
       when_ptr (region.prev cur)
         (fun p => update p (region.set_next (Some new_region)))) ;;;
      update c (region.set_prev (Some new_region)) ;;;
      (let* head := get_region_map in
       if decide (head = Some c) then set_region_map (Some new_region)
       else ret tt)))
  else ret tt.

Definition create_region_after (c : ptr) (size address : Z) : M unit :=
  let* cur := load c in
  if region.end_ cur >? wrap (address + size) then
    (let* new_region :=
       new (region.mk (wrap (address + size))
              (wrap (region.end_ cur - wrap (address + size)))
              false (region.next cur) (Some c)) in
     ((let* cur := load c in
       when_ptr (region.next cur)
         (fun n => update n (region.set_prev (Some new_region)))) ;;;
      update c (region.set_next (Some new_region))))
  else ret tt.

(** [VMSpace::alloc_space_at], the body of [while(cur_region)]. *)
Fixpoint alloc_space_at_loop (fuel : nat) (size address : Z)
  (cur_region : option ptr) : M (ResultRet Z) :=
  match fuel with
  | O => out_of_fuel
  | S fuel =>
    match cur_region with
    | None => ret (Error ENOMEM)
    | Some c =>
      let* cur := load c in
      if region.contains address cur then
        if region.used cur then ret (Error ENOMEM)
        else if region.size cur =? size then
          (update c (region.set_used true) ;;;
           (let* cur := load c in add_used (region.size cur)) ;;;
           (let* cur := load c in ret (Value (region.start cur))))
        else if wrap (region.size cur - wrap (address - region.start cur)) >=? size then
          (create_region_before c address ;;;
           create_region_after c size address ;;;
           update c (region.set_start address) ;;;
           update c (region.set_size size) ;;;
           update c (region.set_used true) ;;;
           (let* cur := load c in add_used (region.size cur)) ;;;
           ret (Value address))
        else ret (Error ENOMEM)
      else alloc_space_at_loop fuel size address (region.next cur)
    end
  end.

Definition alloc_space_at (size address : Z) : M (ResultRet Z) :=
  ASSERT (address mod PAGE_SIZE =? 0) ;;;
  ASSERT (size mod PAGE_SIZE =? 0) ;;;
  fun s => alloc_space_at_loop (loop_bound s) size address (m_region_map s) s.

(** The two blocks of [VMSpace::free_space] that the source introduces with
    the comments "Merge previous region if needed" and "Merge next region if
    needed"; [c] is [cur_region]. *)
Definition merge_previous_region (c : ptr) : M unit :=
  let* cur := load c in
  when_ptr (region.prev cur) (fun to_delete =>
    let* p := load to_delete in
    if negb (region.used p) then
      (update c (region.set_prev (region.prev p)) ;;;
       (let* d := load to_delete in
        when_ptr (region.prev d)
          (fun pp => update pp (region.set_next (Some c)))) ;;;
       (let* d := load to_delete in
        update c (fun r => region.set_start (wrap (region.start r - region.size d)) r)) ;;;
       (let* d := load to_delete in
        update c (fun r => region.set_size (wrap (region.size r + region.size d)) r)) ;;;
       (let* head := get_region_map in
        if decide (head = Some to_delete) then set_region_map (Some c)
        else ret tt) ;;;
       delete_node to_delete)
    else ret tt).

Definition merge_next_region (c : ptr) : M unit :=
  let* cur := load c in
  when_ptr (region.next cur) (fun to_delete =>
    let* n := load to_delete in
    if negb (region.used n) then
      (update c (region.set_next (region.next n)) ;;;
       (let* d := load to_delete in
        when_ptr (region.next d)
          (fun nn => update nn (region.set_prev (Some c)))) ;;;
       (let* d := load to_delete in
        update c (fun r => region.set_size (wrap (region.size r + region.size d)) r)) ;;;
       delete_node to_delete)
    else ret tt).

(** [VMSpace::free_space], the body of [while(cur_region)]; falling out of
    the loop reaches [ASSERT(false)]. *)
Fixpoint free_space_loop (fuel : nat) (size address : Z)
  (cur_region : option ptr) : M Z :=
  match fuel with
  | O => out_of_fuel
  | S fuel =>
    match cur_region with
    | None => panic
    | Some c =>
      let* cur := load c in
      if region.start cur =? address then
        (ASSERT (region.size cur =? size) ;;;
         update c (region.set_used false) ;;;
         merge_previous_region c ;;;
         merge_next_region c ;;;
         sub_used size ;;;
         ret SUCCESS)
      else free_space_loop fuel size address (region.next cur)
    end
  end.

Definition free_space (size address : Z) : M Z :=
  ASSERT (size mod PAGE_SIZE =? 0) ;;;
  ASSERT (address mod PAGE_SIZE =? 0) ;;;
  fun s => free_space_loop (loop_bound s) size address (m_region_map s) s.

(** ** Reading the node list off the store *)

(** What the claims speak of: the [(start, size, used)] triples met when
    following [next] from the head. *)
Record node : Type := Node { n_start : Z; n_size : Z; n_used : bool }.

Definition node_of (r : region.t) : node :=
  Node (region.start r) (region.size r) (region.used r).

Fixpoint walk (fuel : nat) (h : gmap ptr region.t) (p : option ptr) : list node :=
  match fuel, p with
  | S fuel, Some q =>
      match h !! q with
      | Some r => node_of r :: walk fuel h (region.next r)
      | None => []
      end
  | _, _ => []
  end.

Definition node_list (s : RangeMap) : list node :=
  walk (loop_bound s) (heap s) (m_region_map s).

(** ** The representation invariant of the store

    A well-formed store lays a list of cells (node address, node triple) out
    as a doubly-linked chain: each node's [next] is the address of the cell
    after it and its [prev] the address of the cell before it. *)

Definition cell : Type := ptr * node.

Definition to_region (d : node) (nx pv : option ptr) : region.t :=
  region.mk (n_start d) (n_size d) (n_used d) nx pv.

Definition first_ptr (l : list cell) (nx : option ptr) : option ptr :=
  match l with [] => nx | c :: _ => Some c.1 end.

Definition last_ptr (pv : option ptr) (l : list cell) : option ptr :=
  match last l with Some c => Some c.1 | None => pv end.

(** [seg h pv l nx]: the cells of [l] are linked in [h], entered from [pv]
    and left towards [nx]. *)
Fixpoint seg (h : gmap ptr region.t) (pv : option ptr) (l : list cell)
  (nx : option ptr) : Prop :=
  match l with
  | [] => True
  | c :: l' =>
      h !! c.1 = Some (to_region c.2 (first_ptr l' nx) pv) /\
      seg h (Some c.1) l' nx
  end.

Definition rep (s : RangeMap) (l : list cell) : Prop :=
  m_region_map s = first_ptr l None /\
  seg (heap s) None l None /\
  NoDup l.*1.

(** A state is well formed when some list of cells represents it. *)
Definition well_formed (s : RangeMap) : Prop := exists l, rep s l.

(** ** The allocator as a function on node lists *)

Definition fits (size : Z) (d : node) : bool :=
  negb (n_used d) && (size <=? n_size d).

Definition n_end (d : node) : Z := wrap (n_start d + n_size d).

Definition n_contains (address : Z) (d : node) : bool :=
  (n_start d <=? address) && (address <? n_end d).

(** What [alloc_space] puts in the place of the free node [d] it picks. *)
Definition alloc_result (size : Z) (d : node) : list node :=
  if n_size d =? size then [Node (n_start d) (n_size d) true]
  else [Node (n_start d) size true;
        Node (wrap (n_start d + size)) (wrap (n_size d - size)) false].

Fixpoint alloc_nodes (size : Z) (l : list node) : option (Z * list node) :=
  match l with
  | [] => None
  | d :: l' =>
      if fits size d then
        if n_size d =? size then
          Some (n_start d, Node (n_start d) (n_size d) true :: l')
        else
          Some (n_start d,
                Node (n_start d) size true
                  :: Node (wrap (n_start d + size)) (wrap (n_size d - size)) false
                  :: l')
      else
        match alloc_nodes size l' with
        | Some (a, r) => Some (a, d :: r)
        | None => None
        end
  end.

Definition at_prefix (address : Z) (d : node) : list node :=
  if n_start d <? address
  then [Node (n_start d) (wrap (address - n_start d)) false] else [].

Definition at_suffix (size address : Z) (d : node) : list node :=
  if n_end d >? wrap (address + size)
  then [Node (wrap (address + size)) (wrap (n_end d - wrap (address + size))) false]
  else [].

(** What [alloc_space_at] puts in the place of the free node [d] it picks. *)
Definition alloc_at_result (size address : Z) (d : node) : list node :=
  if n_size d =? size then [Node (n_start d) (n_size d) true]
  else at_prefix address d ++ [Node address size true]
         ++ at_suffix size address d.

Fixpoint alloc_at_nodes (size address : Z) (l : list node)
  : option (Z * list node) :=
  match l with
  | [] => None
  | d :: l' =>
      if n_contains address d then
        if n_used d then None
        else if n_size d =? size then
          Some (n_start d, Node (n_start d) (n_size d) true :: l')
        else if wrap (n_size d - wrap (address - n_start d)) >=? size then
          Some (address,
                at_prefix address d ++ [Node address size true]
                  ++ at_suffix size address d ++ l')
        else None
      else
        match alloc_at_nodes size address l' with
        | Some (a, r) => Some (a, d :: r)
        | None => None
        end
  end.

Definition merge_previous_nodes (pre : list node) (d : node) : list node * node :=
  match last pre with
  | Some dp =>
      if n_used dp then (pre, d)
      else (removelast pre,
            Node (wrap (n_start d - n_size dp)) (wrap (n_size d + n_size dp)) (n_used d))
  | None => (pre, d)
  end.

Definition merge_next_nodes (d : node) (l : list node) : node * list node :=
  match l with
  | dn :: l' =>
      if n_used dn then (d, l)
      else (Node (n_start d) (wrap (n_size d + n_size dn)) (n_used d), l')
  | [] => (d, l)
  end.

(** What [free_space] makes of the list [pre ++ d :: l] when it frees [d]. *)
Definition free_result (pre : list node) (d : node) (l : list node) : list node :=
  let '(pre', d1) :=
    merge_previous_nodes pre (Node (n_start d) (n_size d) false) in
  let '(d2, l'') := merge_next_nodes d1 l in
  pre' ++ d2 :: l''.

(** [None] stands for the kernel panic of a failed [ASSERT]. *)
Fixpoint free_nodes (size address : Z) (pre l : list node) : option (list node) :=
  match l with
  | [] => None
  | d :: l' =>
      if n_start d =? address then
        if n_size d =? size then
          let '(pre', d1) :=
            merge_previous_nodes pre (Node (n_start d) (n_size d) false) in
          let '(d2, l'') := merge_next_nodes d1 l' in
          Some (pre' ++ d2 :: l'')
        else None
      else free_nodes size address (pre ++ [d]) l'
  end.

(** ** Properties of node lists *)

(** [chain a l b]: the nodes of [l] tile [[a, b)] from left to right, each
    starting where the one before it ends. *)
Fixpoint chain (a : Z) (l : list node) (b : Z) : Prop :=
  match l with
  | [] => a = b
  | d :: l' => n_start d = a /\ 0 <= n_size d /\ chain (a + n_size d) l' b
  end.

(** No free node follows a free node; [prev_free] tells whether the node
    before the list is free. *)
Fixpoint no_free_pair (prev_free : bool) (l : list node) : Prop :=
  match l with
  | [] => True
  | d :: l' =>
      (prev_free = true -> n_used d = true) /\ no_free_pair (negb (n_used d)) l'
  end.

(** Whether the last node of [l] is free, [pf] when there is none. *)
Definition last_free (pf : bool) (l : list node) : bool :=
  match last l with Some d => negb (n_used d) | None => pf end.

Definition used_bytes (l : list node) : Z :=
  foldr (fun d acc => (if n_used d then n_size d else 0) + acc) 0 l.

Definition total_size (l : list node) : Z :=
  foldr (fun d acc => n_size d + acc) 0 l.

(** The properties of the design document, spelled out on positions. *)
Definition sorted_by_start (l : list node) : Prop :=
  forall (i j : nat) d1 d2, (i < j)%nat ->
    l !! i = Some d1 -> l !! j = Some d2 -> n_start d1 <= n_start d2.

Definition contiguous (l : list node) : Prop :=
  forall (i : nat) d1 d2,
    l !! i = Some d1 -> l !! S i = Some d2 ->
    n_start d1 + n_size d1 = n_start d2.

Definition non_overlapping (l : list node) : Prop :=
  forall (i j : nat) d1 d2 x, i <> j ->
    l !! i = Some d1 -> l !! j = Some d2 ->
    ~ (n_start d1 <= x < n_start d1 + n_size d1 /\
       n_start d2 <= x < n_start d2 + n_size d2).

Definition no_adjacent_free (l : list node) : Prop :=
  forall (i : nat) d1 d2,
    l !! i = Some d1 -> l !! S i = Some d2 ->
    n_used d1 = true \/ n_used d2 = true.

(** The invariant carried along every run: the store is a well-formed list,
    the nodes tile the space, no two neighbours are free, and the counter is
    a [size_t]. *)
Definition state_inv (start size : Z) (s : RangeMap) : Prop :=
  well_formed s /\
  chain start (node_list s) (start + size) /\
  no_free_pair false (node_list s) /\
  in_size_t (m_used s).

(** ** Reachable states *)

(** The address range handed to the [VMSpace] constructor. *)
Definition valid_space (start size : Z) : Prop :=
  0 <= start /\ 0 <= size /\ start + size < SIZE_MODULUS.

Inductive request : Type :=
| Alloc (size : Z)
| AllocAt (size address : Z)
| Free (size address : Z).

(** A call that returns (with a value or an error code) takes [s] to [s'];
    a call that stops the kernel takes it nowhere. *)
Definition step (s : RangeMap) (r : request) (s' : RangeMap) : Prop :=
  match r with
  | Alloc size =>
      in_size_t size /\ exists v, alloc_space size s = Done v s'
  | AllocAt size address =>
      in_size_t size /\ in_size_t address /\
      exists v, alloc_space_at size address s = Done v s'
  | Free size address =>
      in_size_t size /\ in_size_t address /\
      exists v, free_space size address s = Done v s'
  end.

Inductive reachable_by (ok : RangeMap -> request -> Prop) (start size : Z)
  : RangeMap -> Prop :=
| reach_init : reachable_by ok start size (VMSpace_init start size)
| reach_step s r s' :
    reachable_by ok start size s -> ok s r -> step s r s' ->
    reachable_by ok start size s'.

(** Any sequence of calls. *)
Definition reachable : Z -> Z -> RangeMap -> Prop :=
  reachable_by (fun _ _ => True).

(** [free] is called on a node in use: the first node that starts at the
    address, which is the one [free_space] picks, is marked used. *)
Definition frees_used_node (s : RangeMap) (r : request) : Prop :=
  match r with
  | Free size address =>
      exists d, List.find (fun d => n_start d =? address) (node_list s) = Some d /\
                n_used d = true
  | _ => True
  end.

(** Sequences of calls in which every [free] names a node in use. *)
Definition reachable_without_stray_free : Z -> Z -> RangeMap -> Prop :=
  reachable_by frees_used_node.

(** ** [VMSpace::map_object] and the memory system calls *)

(** [struct VMProt { read; write; execute; cow; }] *)
Record VMProt : Type := {
  prot_read : bool;
  prot_write : bool;
  prot_execute : bool;
  prot_cow : bool
}.

(** [VMProt::RW], declared in a header that is not part of the sources at
    hand: read and write.  It only appears in the examples below. *)
Definition VMProt_RW : VMProt :=
  {| prot_read := true; prot_write := true; prot_execute := false; prot_cow := false |}.

(** A [Ptr<VMObject>]: the identity of the object it points to and the
    object's size, which never changes after construction.  Two pointers are
    equal when they denote the same object. *)
Record VMObject : Type := {
  obj_addr : positive;
  obj_size : Z
}.

Global Instance VMObject_eq_dec : EqDecision VMObject.
Proof. solve_decision. Defined.

Global Instance VMProt_eq_dec : EqDecision VMProt.
Proof. solve_decision. Defined.

(** A [VMRegion] as constructed by [map_object]:
    [VMRegion(object, space, start, size, prot)], together with the address
    [reg_addr] of the region object itself, which is what
    [m_regions[i] == &region] compares: two handles denote the same region
    when their addresses are equal.  The back pointer [m_space] is not a
    field: [map_object] sets it when it registers the region in
    [m_regions], and both overloads of [unmap_region] clear it when they
    erase the region, so it is set exactly while the region is registered
    in its space. *)
Record VMRegion : Type := {
  reg_addr : positive;
  reg_object : VMObject;
  reg_start : Z;
  reg_size : Z;
  reg_prot : VMProt
}.

(** Modelled from the spec: [Result::is_error] is declared in
    [kstd/Result.h], which is not part of the sources at hand; results carry
    "POSIX-like error codes", and a result is an error when its code is not
    [SUCCESS]. *)
Definition Result_is_error (code : Z) : bool := negb (code =? SUCCESS).

Section PageDirectory.
(** The page directory is a collaborator whose code is not part of the
    sources at hand: its state and its [map] and [unmap] operations are
    parameters.  They may report anything; [map_object] and [unmap_region]
    call them as statements and drop what they report. *)
Context {PageDirectory : Type}.
Variable PageDirectory_map : VMRegion -> PageDirectory -> ResultRet unit * PageDirectory.
Variable PageDirectory_unmap : VMRegion -> PageDirectory -> ResultRet unit * PageDirectory.

(** The members of [VMSpace] next to the range list, and
    [next_region_addr], the address at which [make_shared<VMRegion>] places
    the next region object.  Region objects are given increasing addresses
    and no address is given out twice, so a region keeps its identity for
    as long as any handle to it is around. *)
Record VMSpace : Type := {
  range_map : RangeMap;
  m_regions : list VMRegion;
  m_page_directory : PageDirectory;
  next_region_addr : positive
}.

(** The statements of [map_object] after the range has been allocated:
    construct the region, [m_regions.push_back], [m_page_directory.map],
    [return region]. *)
Definition register_region (object : VMObject) (vaddr : Z) (prot : VMProt)
  (rm : RangeMap) (sp : VMSpace) : ResultRet VMRegion * VMSpace :=
  let region := {| reg_addr := next_region_addr sp;
                   reg_object := object; reg_start := vaddr;
                   reg_size := obj_size object; reg_prot := prot |} in
  let pd := (PageDirectory_map region (m_page_directory sp)).2 in
  (Value region,
   {| range_map := rm;
      m_regions := m_regions sp ++ [region];
      m_page_directory := pd;
      next_region_addr := Pos.succ (next_region_addr sp) |}).

(** [TRY(alloc)] followed by the rest of [map_object]. *)
Definition try_alloc_then_register (object : VMObject) (prot : VMProt)
  (alloc : outcome RangeMap (ResultRet Z)) (sp : VMSpace)
  : outcome VMSpace (ResultRet VMRegion) :=
  match alloc with
  | Done (Error code) rm =>
      Done (Error code)
        {| range_map := rm; m_regions := m_regions sp;
           m_page_directory := m_page_directory sp;
           next_region_addr := next_region_addr sp |}
  | Done (Value vaddr) rm =>
      let '(r, sp') := register_region object vaddr prot rm sp in Done r sp'
  | Panic => Panic
  | Fault => Fault
  | OutOfFuel => OutOfFuel
  end.

(** [VMSpace::map_object(object, prot)] *)
Definition map_object (object : VMObject) (prot : VMProt) (sp : VMSpace)
  : outcome VMSpace (ResultRet VMRegion) :=
  try_alloc_then_register object prot
    (alloc_space (obj_size object) (range_map sp)) sp.

(** [VMSpace::map_object(object, address, prot)] *)
Definition map_object_at (object : VMObject) (address : Z) (prot : VMProt)
  (sp : VMSpace) : outcome VMSpace (ResultRet VMRegion) :=
  try_alloc_then_register object prot
    (alloc_space_at (obj_size object) address (range_map sp)) sp.

(** [VMSpace::unmap_region(VMRegion& region)]: the region object is looked
    up in [m_regions] by its address; when it is there it is erased, its
    range is freed and it is unmapped from the page directory.  The range
    freed and the region handed to [unmap] are those of the handle
    passed. *)
Definition unmap_region (region : VMRegion) (sp : VMSpace)
  : outcome VMSpace Z :=
  match list_find (fun r => reg_addr r = reg_addr region) (m_regions sp) with
  | Some (i, _) =>
      match free_space (reg_size region) (reg_start region) (range_map sp) with
      | Done free_res rm =>
          if Result_is_error free_res then Panic
          else
            Done free_res
              {| range_map := rm;
                 m_regions := delete i (m_regions sp);
                 m_page_directory :=
                   (PageDirectory_unmap region (m_page_directory sp)).2;
                 next_region_addr := next_region_addr sp |}
      | Panic => Panic
      | Fault => Fault
      | OutOfFuel => OutOfFuel
      end
  | None => Done ENOENT sp
  end.

(** Modelled from the spec: the destructor of [VMRegion] is in
    [VMRegion.cpp], which is not part of the sources at hand.  "Destruction:
    if the region still has a live [VMSpace] weak reference, it calls
    [unmap_region(self)] on that space; otherwise it is a no-op."  The back
    pointer is set exactly while the region is registered in [m_regions]
    (see [VMRegion]), and for a region that is not registered
    [unmap_region] changes nothing, so the call is made either way; what it
    returns is dropped. *)
Definition VMRegion_destroy (region : VMRegion) (sp : VMSpace)
  : outcome VMSpace unit :=
  match unmap_region region sp with
  | Done _ sp' => Done tt sp'
  | Panic => Panic
  | Fault => Fault
  | OutOfFuel => OutOfFuel
  end.

(** *** Shared anonymous objects *)

(** Modelled from the spec: [AnonymousVMObject] is not part of the sources
    at hand.  Per the design document an anonymous object carries a shared
    identifier and "a mapping from [pid -> VMProt] (the sharing table)";
    the registry "indexes anonymous objects by identifier". *)
Record AnonymousVMObject : Type := {
  anon_object : VMObject;
  anon_shm_id : Z;
  anon_shared : gmap Z VMProt
}.

(** Modelled from the spec: "[get_shared(id) -> Arc<Anonymous> | ENOENT]:
    look up the registry". *)
Definition get_shared (id : Z) (registry : gmap Z AnonymousVMObject)
  : ResultRet AnonymousVMObject :=
  match registry !! id with
  | Some o => Value o
  | None => Error ENOENT
  end.

(** Modelled from the spec: "[get_shared_permissions(pid) -> VMProt |
    ENOENT]: return the per-pid entry; [ENOENT] if not listed". *)
Definition get_shared_permissions (pid : Z) (o : AnonymousVMObject)
  : ResultRet VMProt :=
  match anon_shared o !! pid with
  | Some prot => Value prot
  | None => Error ENOENT
  end.

(** Modelled from the spec: "[share(pid, prot)] ... records [(pid -> prot)]
    in its sharing table (overwriting any prior entry for [pid])"; the
    object at hand comes out of the registry, so it is registered
    already. *)
Definition share (pid : Z) (prot : VMProt) (o : AnonymousVMObject)
  : AnonymousVMObject :=
  {| anon_object := anon_object o;
     anon_shm_id := anon_shm_id o;
     anon_shared := <[pid := prot]> (anon_shared o) |}.

(** Modelled from the spec: [TaskManager::process_for_pid] is not part of
    the sources at hand; the design document has a process registry "that
    validates process identifiers".  Only [is_error()] of its result is
    looked at. *)
Definition process_for_pid (pid : Z) (live : gset Z) : ResultRet Z :=
  if decide (pid ∈ live) then Value pid else Error ENOENT.

(** The global state the calls consult: the registry of shared objects and
    the live processes. *)
Record Kernel : Type := {
  shared_objects : gmap Z AnonymousVMObject;
  live_processes : gset Z
}.

(** The fields of [Process] that the memory system calls touch. *)
Record Process : Type := {
  _pid : Z;
  _vm_space : VMSpace;
  _vm_regions : list VMRegion;
  m_used_pmem : Z;
  m_used_shmem : Z
}.

(** [struct shm { void* ptr; size_t size; int id; }] *)
Record shm : Type := { shm_ptr : Z; shm_size : Z; shm_id : Z }.

(** Modelled from the spec: the header declaring [SHM_READ], [SHM_WRITE] and
    [SHM_SHARE] is not part of the sources at hand; the design document gives
    the bitmask [SHM_READ(1) | SHM_WRITE(2) | SHM_SHARE(4)]. *)
Definition SHM_READ : Z := 1.
Definition SHM_WRITE : Z := 2.
Definition SHM_SHARE : Z := 4.

(** [(bool) x] for an [int] *)
Definition to_bool (x : Z) : bool := negb (x =? 0).

(** [Process::sys_shmattach].  The value written through [s] is returned
    next to the code.  The call [map_object(object, perms, VirtualRange
    {addr, object->size()})] is the fixed-address overload of
    [VMSpace.cpp], [map_object(object, address, prot)], which allocates
    [object->size()] bytes at [address]. *)
Definition sys_shmattach (id addr : Z) (k : Kernel) (p : Process)
  : outcome Process (Z * option shm) :=
  match get_shared id (shared_objects k) with
  | Error code => Done (code, None) p
  | Value object =>
    match get_shared_permissions (_pid p) object with
    | Error code => Done (code, None) p
    | Value perms =>
      if negb (prot_read perms) then Done (ENOENT, None) p
      else
        match (if to_bool addr
               then map_object_at (anon_object object) addr perms (_vm_space p)
               else map_object (anon_object object) perms (_vm_space p)) with
        | Done (Error code) sp =>
            Done (code, None)
              {| _pid := _pid p; _vm_space := sp; _vm_regions := _vm_regions p;
                 m_used_pmem := m_used_pmem p; m_used_shmem := m_used_shmem p |}
        | Done (Value region) sp =>
            Done (SUCCESS,
                  Some {| shm_ptr := reg_start region;
                          shm_size := reg_size region;
                          shm_id := anon_shm_id object |})
              {| _pid := _pid p; _vm_space := sp;
                 _vm_regions := _vm_regions p ++ [region];
                 m_used_pmem := m_used_pmem p;
                 m_used_shmem := wrap (m_used_shmem p + reg_size region) |}
        | Panic => Panic
        | Fault => Fault
        | OutOfFuel => OutOfFuel
        end
    end
  end.

(** [Process::sys_shmdetach].  [_vm_regions.erase(i)] drops the handle
    that [sys_shmattach] stored, the only one the code at hand keeps of the
    region, so the region is destroyed: [VMRegion_destroy] runs before the
    call returns. *)
Definition sys_shmdetach (id : Z) (k : Kernel) (p : Process)
  : outcome Process Z :=
  match get_shared id (shared_objects k) with
  | Error code => Done code p
  | Value object =>
    match list_find (fun r => reg_object r = anon_object object) (_vm_regions p) with
    | Some (i, region) =>
        match VMRegion_destroy region (_vm_space p) with
        | Done _ sp =>
            Done SUCCESS
              {| _pid := _pid p; _vm_space := sp;
                 _vm_regions := delete i (_vm_regions p);
                 m_used_pmem := m_used_pmem p;
                 m_used_shmem :=
                   wrap (m_used_shmem p - obj_size (anon_object object)) |}
        | Panic => Panic
        | Fault => Fault
        | OutOfFuel => OutOfFuel
        end
    | None => Done ENOENT p
    end
  end.

(** [Process::sys_shmallow] *)
Definition sys_shmallow (id pid perms : Z) (k : Kernel) : Z * Kernel :=
  if to_bool (Z.land perms SHM_SHARE) then (- EINVAL, k)
  else if negb (to_bool (Z.land perms (Z.lor SHM_READ SHM_WRITE))) then (- EINVAL, k)
  else if to_bool (Z.land perms SHM_WRITE) && negb (to_bool (Z.land perms SHM_READ))
  then (- EINVAL, k)
  else if is_error (process_for_pid pid (live_processes k)) then (- EINVAL, k)
  else
    match get_shared id (shared_objects k) with
    | Error code => (code, k)
    | Value object =>
        (SUCCESS,
         {| shared_objects :=
              <[id := share pid
                        {| prot_read := to_bool (Z.land perms SHM_READ);
                           prot_write := to_bool (Z.land perms SHM_WRITE);
                           prot_execute := false;
                           prot_cow := false |}
                        object]> (shared_objects k);
            live_processes := live_processes k |})
    end.

(** [Process::sys_munmap]; [erase] destroys the region as in
    [sys_shmdetach]. *)
Definition sys_munmap (addr length : Z) (p : Process) : outcome Process Z :=
  match list_find (fun r => reg_start r = addr /\ reg_size r = length)
          (_vm_regions p) with
  | Some (i, region) =>
      match VMRegion_destroy region (_vm_space p) with
      | Done _ sp =>
          Done SUCCESS
            {| _pid := _pid p; _vm_space := sp;
               _vm_regions := delete i (_vm_regions p);
               m_used_pmem := wrap (m_used_pmem p - reg_size region);
               m_used_shmem := m_used_shmem p |}
      | Panic => Panic
      | Fault => Fault
      | OutOfFuel => OutOfFuel
      end
  | None => Done ENOENT p
  end.
End PageDirectory.

Arguments VMSpace : clear implicits.
Arguments Process : clear implicits.

(** ** Concrete states used as examples *)

(** What a run leaves to be seen: the value, the node list and [m_used]. *)
Definition observe {A} (o : outcome RangeMap A) : option (A * list node * Z) :=
  match o with
  | Done a s => Some (a, node_list s, m_used s)
  | _ => None
  end.

(** The state after [alloc(0x1000)], [alloc(0x2000)] on the space
    [[0x1000, 0x10000)] of the split/coalesce scenario. *)
Definition scenario_state : RangeMap :=
  match (alloc_space 4096 ;;; alloc_space 8192) (VMSpace_init 4096 61440) with
  | Done _ s => s
  | _ => VMSpace_init 4096 61440
  end.

(** The state after [alloc_at(0x4000, 0x1000)] on the space [[0, 0x10000)]
    of the fixed-allocation scenario. *)
Definition fixed_alloc_state : RangeMap :=
  match alloc_space_at 4096 16384 (VMSpace_init 0 65536) with
  | Done _ s => s
  | _ => VMSpace_init 0 65536
  end.

(** A page directory whose [map] reports failure every time. *)
Definition failing_map (r : VMRegion) (pd : unit) : ResultRet unit * unit :=
  (Error ENOMEM, pd).

Definition example_space : VMSpace unit :=
  {| range_map := VMSpace_init 0 65536; m_regions := [];
     m_page_directory := tt; next_region_addr := 1 |}.

Definition example_object : VMObject := {| obj_addr := 1; obj_size := 4096 |}.

(** A process with one mapped region of three pages at [0x4000]. *)
Definition example_region : VMRegion :=
  {| reg_addr := 1; reg_object := {| obj_addr := 2; obj_size := 12288 |};
     reg_start := 16384; reg_size := 12288; reg_prot := VMProt_RW |}.

Definition example_process : Process unit :=
  {| _pid := 7; _vm_space := example_space; _vm_regions := [example_region];
     m_used_pmem := 12288; m_used_shmem := 0 |}.

(** A kernel with one shared object, id [5], that grants process [7] write
    access only and lists no other process; processes [7] and [8] are
    live. *)
Definition example_shared : AnonymousVMObject :=
  {| anon_object := example_object; anon_shm_id := 5;
     anon_shared :=
       {[ 7 := {| prot_read := false; prot_write := true;
                  prot_execute := false; prot_cow := false |} ]} |}.

Definition example_kernel : Kernel :=
  {| shared_objects := {[ 5 := example_shared ]};
     live_processes := {[ 7; 8 ]} |}.

(** ** Callers that never ask for an empty range *)

(** The range allocator has no guard against a size of zero; the callers in
    [VMSpace.cpp] pass the size of the object they map.  Runs in which every
    allocation asks for at least one byte: *)
Definition positive_request (s : RangeMap) (r : request) : Prop :=
  match r with
  | Alloc size => 0 < size
  | AllocAt size _ => 0 < size
  | Free _ _ => True
  end.

Definition reachable_with_positive_sizes : Z -> Z -> RangeMap -> Prop :=
  reachable_by positive_request.

(** Runs of a caller that does both: it never asks for an empty range and
    it frees only nodes that are in use. *)
Definition reachable_with_matched_calls : Z -> Z -> RangeMap -> Prop :=
  reachable_by (fun s r => frees_used_node s r /\ positive_request s r).

(** ** Calls made while an allocation is held *)

(** A call other than a [free_space] at address [v]. *)
Definition not_free_at (v : Z) (r : request) : Prop :=
  match r with
  | Free _ address => address <> v
  | _ => True
  end.

(** [s'] is reached from [s] by calls that return, none of them a
    [free_space] at address [v]. *)
Inductive reached_without_free_at (v : Z) (s : RangeMap) : RangeMap -> Prop :=
| held_now : reached_without_free_at v s s
| held_step s1 r s2 :
    reached_without_free_at v s s1 -> not_free_at v r -> step s1 r s2 ->
    reached_without_free_at v s s2.

(** ** The destructor, and counting live nodes *)

(** [VMSpace::~VMSpace], the loop that deletes the nodes of the range list
    ([next] is read before the node is deleted).  The loop before it clears
    the back pointers of the regions, which are not part of [VMRegion]
    here. *)
Fixpoint delete_regions (fuel : nat) (cur_region : option ptr) : M unit :=
  match fuel with
  | O => out_of_fuel
  | S fuel =>
    match cur_region with
    | None => ret tt
    | Some c =>
      let* cur := load c in
      let next := region.next cur in
      (delete_node c ;;; delete_regions fuel next)
    end
  end.

Definition VMSpace_destroy : M unit :=
  fun s => delete_regions (loop_bound s) (m_region_map s) s.

(** The number of nodes allocated with [new] and not yet deleted. *)
Definition live_nodes (s : RangeMap) : nat := base.size (heap s).

(** A run of [m] that returns changes the number of live nodes by at most
    [z]. *)
Definition live_nodes_change_le {A} (z : Z) (m : M A) : Prop :=
  forall s a s', m s = Done a s' ->
    Z.of_nat (live_nodes s') <= Z.of_nat (live_nodes s) + z.

(** The state a run ends in, for the examples; [s] when it does not
    return. *)
Definition state_after {St A} (o : outcome St A) (s : St) : St :=
  match o with Done _ s' => s' | _ => s end.

(** ** The rest of [VMSpace.cpp]: [unmap_region], [get_region],
    [reserve_region] *)

(** Modelled from the spec: [ResultRet<T>::result()] is declared in
    [kstd/Result.h], which is not part of the sources at hand; it is the [Result] inside a [ResultRet], the value being dropped
    ("[reserve(start, size)]: an [alloc_at] whose return value is
    discarded"). *)
Definition result {A} (r : ResultRet A) : Z :=
  match r with Value _ => SUCCESS | Error code => code end.

Section VMSpaceRegions.
(** As for [map], the [unmap] operation of the page directory is a
    parameter; [unmap_region] calls it as a statement. *)
Context {PageDirectory : Type}.
Variable PageDirectory_map : VMRegion -> PageDirectory -> ResultRet unit * PageDirectory.
Variable PageDirectory_unmap : VMRegion -> PageDirectory -> ResultRet unit * PageDirectory.

(** The constructor: the range list of [VMSpace_init], no region yet. *)
Definition VMSpace_new (start size : Z) (pd : PageDirectory) : VMSpace PageDirectory :=
  {| range_map := VMSpace_init start size; m_regions := [];
     m_page_directory := pd; next_region_addr := 1%positive |}.

(** [VMSpace::unmap_region(VirtualAddress address)]: the first region that
    starts at [address] has its range freed, is unmapped from the page
    directory and is erased from [m_regions]. *)
Definition unmap_region_at (address : Z) (sp : VMSpace PageDirectory)
  : outcome (VMSpace PageDirectory) Z :=
  match list_find (fun r => reg_start r = address) (m_regions sp) with
  | Some (i, region) =>
      match free_space (reg_size region) (reg_start region) (range_map sp) with
      | Done free_res rm =>
          if Result_is_error free_res then Panic
          else
            Done free_res
              {| range_map := rm;
                 m_regions := delete i (m_regions sp);
                 m_page_directory :=
                   (PageDirectory_unmap region (m_page_directory sp)).2;
                 next_region_addr := next_region_addr sp |}
      | Panic => Panic
      | Fault => Fault
      | OutOfFuel => OutOfFuel
      end
  | None => Done ENOENT sp
  end.

(** [VMSpace::get_region] *)
Definition get_region (address : Z) (sp : VMSpace PageDirectory)
  : ResultRet VMRegion :=
  match list_find (fun r => reg_start r = address) (m_regions sp) with
  | Some (_, region) => Value region
  | None => Error ENOENT
  end.

(** [VMSpace::reserve_region] *)
Definition reserve_region (start size : Z) (sp : VMSpace PageDirectory)
  : outcome (VMSpace PageDirectory) Z :=
  match alloc_space_at size start (range_map sp) with
  | Done r rm =>
      Done (result r)
        {| range_map := rm; m_regions := m_regions sp;
           m_page_directory := m_page_directory sp;
           next_region_addr := next_region_addr sp |}
  | Panic => Panic
  | Fault => Fault
  | OutOfFuel => OutOfFuel
  end.

(** *** Address spaces reached through the public operations *)

Inductive vm_request : Type :=
| MapObject (object : VMObject) (prot : VMProt)
| MapObjectAt (object : VMObject) (address : Z) (prot : VMProt)
| UnmapRegionAt (address : Z)
| ReserveRegion (start size : Z).

(** A call that returns takes [sp] to [sp'].  Sizes and addresses are
    [size_t] values; the callers considered map objects and reserve ranges
    of at least one byte. *)
Definition vm_step (sp : VMSpace PageDirectory) (r : vm_request)
  (sp' : VMSpace PageDirectory) : Prop :=
  match r with
  | MapObject object prot =>
      0 < obj_size object < SIZE_MODULUS /\
      exists v, map_object PageDirectory_map object prot sp = Done v sp'
  | MapObjectAt object address prot =>
      0 < obj_size object < SIZE_MODULUS /\ in_size_t address /\
      exists v, map_object_at PageDirectory_map object address prot sp = Done v sp'
  | UnmapRegionAt address =>
      exists v, unmap_region_at address sp = Done v sp'
  | ReserveRegion start size =>
      0 < size < SIZE_MODULUS /\ in_size_t start /\
      exists v, reserve_region start size sp = Done v sp'
  end.

Inductive vm_reachable (start size : Z) : VMSpace PageDirectory -> Prop :=
| vm_reach_init pd : vm_reachable start size (VMSpace_new start size pd)
| vm_reach_step sp r sp' :
    vm_reachable start size sp -> vm_step sp r sp' ->
    vm_reachable start size sp'.

(** [sp'] is reached from [sp] by further operations. *)
Inductive vm_reached_from (sp : VMSpace PageDirectory)
  : VMSpace PageDirectory -> Prop :=
| vm_from_here : vm_reached_from sp sp
| vm_from_step sp1 r sp2 :
    vm_reached_from sp sp1 -> vm_step sp1 r sp2 -> vm_reached_from sp sp2.

(** What the operations keep true of an address space: the range list is
    consistent and counted right, no node is empty, node starts are
    page-aligned, and every region of [m_regions] sits on a used node of
    exactly its range, no two regions on the same one. *)
Definition region_node (r : VMRegion) : node :=
  Node (reg_start r) (reg_size r) true.

Definition vm_inv (start size : Z) (sp : VMSpace PageDirectory) : Prop :=
  state_inv start size (range_map sp) /\
  m_used (range_map sp) = used_bytes (node_list (range_map sp)) /\
  Forall (fun d => 0 < n_size d) (node_list (range_map sp)) /\
  Forall (fun d => n_start d mod PAGE_SIZE = 0) (node_list (range_map sp)) /\
  Forall (fun r => region_node r ∈ node_list (range_map sp) /\
                   reg_size r mod PAGE_SIZE = 0) (m_regions sp) /\
  NoDup (reg_start <$> m_regions sp).

(** The region objects of [m_regions] are distinct, and
    [next_region_addr] lies beyond all of them. *)
Definition region_addrs_fresh (sp : VMSpace PageDirectory) : Prop :=
  NoDup (reg_addr <$> m_regions sp) /\
  Forall (fun r => (reg_addr r < next_region_addr sp)%positive) (m_regions sp).

(** *** Processes reached through the system calls *)

(** A process whose address space has just been constructed: it holds no
    region and its counters are zero. *)
Definition fresh_process (pid start size : Z) (pd : PageDirectory)
  : Process PageDirectory :=
  {| _pid := pid; _vm_space := VMSpace_new start size pd; _vm_regions := [];
     m_used_pmem := 0; m_used_shmem := 0 |}.

(** The calls that add and remove regions.  The kernel state a call
    consults is part of the request: other processes change it between the
    calls of this one. *)
Inductive sys_request : Type :=
| ShmAttach (k : Kernel) (id addr : Z)
| ShmDetach (k : Kernel) (id : Z)
| Munmap (addr length : Z).

(** A call that returns takes [p] to [p'].  [ok] says which objects the
    process attaches; [addr] is a [size_t] value. *)
Definition sys_step (ok : VMObject -> Prop) (p : Process PageDirectory)
  (r : sys_request) (p' : Process PageDirectory) : Prop :=
  match r with
  | ShmAttach k id addr =>
      (forall o, shared_objects k !! id = Some o -> ok (anon_object o)) /\
      in_size_t addr /\
      exists v, sys_shmattach PageDirectory_map id addr k p = Done v p'
  | ShmDetach k id =>
      exists v, sys_shmdetach PageDirectory_unmap id k p = Done v p'
  | Munmap addr length =>
      exists v, sys_munmap PageDirectory_unmap addr length p = Done v p'
  end.

Inductive process_reachable_by (ok : VMObject -> Prop) (pid start size : Z)
  : Process PageDirectory -> Prop :=
| proc_reach_init pd :
    process_reachable_by ok pid start size (fresh_process pid start size pd)
| proc_reach_step p r p' :
    process_reachable_by ok pid start size p -> sys_step ok p r p' ->
    process_reachable_by ok pid start size p'.

(** Objects of at least one byte, their size a [size_t] value. *)
Definition sized_object (o : VMObject) : Prop := 0 < obj_size o < SIZE_MODULUS.

(** Processes that attach objects of any size, and processes that attach
    objects of at least one byte only. *)
Definition process_reachable_any : Z -> Z -> Z -> Process PageDirectory -> Prop :=
  process_reachable_by (fun _ => True).

Definition process_reachable : Z -> Z -> Z -> Process PageDirectory -> Prop :=
  process_reachable_by sized_object.
End VMSpaceRegions.

(** ** [Process::sys_mprotect] *)

(** Modelled from the spec: [VMRegion::set_prot] is in [VMRegion.cpp], which
    is not part of the sources at hand; "the only mutating operation is
    [set_prot(new_prot)]". *)
Definition set_prot (prot : VMProt) (r : VMRegion) : VMRegion :=
  {| reg_addr := reg_addr r; reg_object := reg_object r;
     reg_start := reg_start r; reg_size := reg_size r; reg_prot := prot |}.

Section Mprotect.
(** The bits [PROT_READ], [PROT_WRITE] and [PROT_EXEC] come from
    [api/mmap.h], which is not part of the sources at hand: they are
    parameters.  The call reads and writes [_vm_regions] and
    [_page_directory] only, which it takes and gives back. *)
Context {PageDirectory : Type}.
Variable PageDirectory_map : VMRegion -> PageDirectory -> ResultRet unit * PageDirectory.
Variables PROT_READ PROT_WRITE PROT_EXEC : Z.

Definition mprotect_prot (prot_flags : Z) : VMProt :=
  {| prot_read := to_bool (Z.land prot_flags PROT_READ);
     prot_write := to_bool (Z.land prot_flags PROT_WRITE);
     prot_execute := to_bool (Z.land prot_flags PROT_EXEC);
     prot_cow := false |}.

Definition sys_mprotect (addr length prot_flags : Z)
  (_vm_regions : list VMRegion) (_page_directory : PageDirectory)
  : Z * list VMRegion * PageDirectory :=
  let prot := mprotect_prot prot_flags in
  match list_find (fun r => reg_start r = addr /\ reg_size r = length)
          _vm_regions with
  | Some (i, r) =>
      (SUCCESS,
       <[i := set_prot prot r]> _vm_regions,
       (PageDirectory_map (set_prot prot r) _page_directory).2)
  | None => (ENOENT, _vm_regions, _page_directory)
  end.
End Mprotect.

(** ** More concrete states used as examples *)

(** A page directory whose [unmap] does nothing. *)
Definition example_unmap (r : VMRegion) (pd : unit) : ResultRet unit * unit :=
  (Value tt, pd).

(** The example space after [map_object] of the example object: the region
    lands at the start of the space. *)
Definition mapped_region : VMRegion :=
  {| reg_addr := 1; reg_object := example_object; reg_start := 0;
     reg_size := 4096; reg_prot := VMProt_RW |}.

Definition mapped_space : VMSpace unit :=
  state_after (map_object failing_map example_object VMProt_RW example_space)
    example_space.

(** The window server's call [shmallow(id, pid, SHM_WRITE | SHM_READ)] (in
    [ScrollView.h]) on the example kernel, for process [8], and a client
    process [8] with an empty address space that then attaches. *)
Definition granted_kernel : Kernel :=
  (sys_shmallow 5 8 (Z.lor SHM_WRITE SHM_READ) example_kernel).2.

Definition example_client : Process unit :=
  {| _pid := 8; _vm_space := example_space; _vm_regions := [];
     m_used_pmem := 0; m_used_shmem := 0 |}.

Definition attached_client : Process unit :=
  state_after (sys_shmattach failing_map 5 0 granted_kernel example_client)
    example_client.






(** The fixed-allocation scenario continued: a second allocation, which is
    then freed, with the first one still held. *)
Definition fixed_alloc_later_state : RangeMap :=
  state_after
    ((alloc_space 8192 ;;; free_space 8192 0) fixed_alloc_state)
    fixed_alloc_state.

(** The mapped example space after a reservation of two pages at [0x4000],
    and after a further [map_object] and [unmap_region] of that mapping. *)
Definition reserved_space : VMSpace unit :=
  state_after (reserve_region 16384 8192 mapped_space) mapped_space.

Definition reserved_space_later : VMSpace unit :=
  state_after (unmap_region_at example_unmap 4096
     (state_after (map_object failing_map example_object VMProt_RW reserved_space)
        reserved_space))
    (state_after (map_object failing_map example_object VMProt_RW reserved_space)
        reserved_space).

(** The split/coalesce scenario continued: both allocations are freed
    again, the first one first. *)
Definition released_state : RangeMap :=
  state_after
    ((free_space 4096 4096 ;;; free_space 8192 8192) scenario_state)
    scenario_state.
Section SegLemmas.
Implicit Types (h : gmap ptr region.t) (l : list cell) (pv nx : option ptr).

Lemma last_ptr_snoc pv l c : last_ptr pv (l ++ [c]) = Some c.1.
Proof. unfold last_ptr. by rewrite last_snoc. Qed.

Lemma last_ptr_nil pv : last_ptr pv [] = pv.
Proof. reflexivity. Qed.

Lemma last_ptr_cons pv c l : last_ptr pv (c :: l) = last_ptr (Some c.1) l.
Proof.
  unfold last_ptr. destruct l as [|c' l]; [done|].
  rewrite last_cons. by destruct (last (c' :: l)).
Qed.

Lemma last_ptr_app pv l1 l2 :
  last_ptr pv (l1 ++ l2) = last_ptr (last_ptr pv l1) l2.
Proof.
  revert pv. induction l1 as [|c l1 IH]; intros pv; [done|].
  simpl. rewrite !last_ptr_cons. apply IH.
Qed.

Lemma first_ptr_app l1 l2 nx :
  first_ptr (l1 ++ l2) nx = first_ptr l1 (first_ptr l2 nx).
Proof. by destruct l1. Qed.

Lemma seg_app h pv l1 l2 nx :
  seg h pv (l1 ++ l2) nx <->
  seg h pv l1 (first_ptr l2 nx) /\ seg h (last_ptr pv l1) l2 nx.
Proof.
  revert pv. induction l1 as [|c l1 IH]; intros pv; simpl.
  - tauto.
  - rewrite last_ptr_cons, first_ptr_app, IH. tauto.
Qed.

Lemma seg_frame h h' pv l nx :
  (forall x, x ∈ l.*1 -> h' !! x = h !! x) ->
  seg h pv l nx -> seg h' pv l nx.
Proof.
  revert pv. induction l as [|c l IH]; intros pv Hag; simpl; [done|].
  intros [Hc Hl]. split.
  - rewrite Hag; [done|]. apply list_elem_of_here.
  - apply IH; [|done]. intros x Hx. apply Hag.
    apply list_elem_of_further, Hx.
Qed.

Lemma seg_lookup h pv l1 c l2 nx :
  seg h pv (l1 ++ c :: l2) nx ->
  h !! c.1 = Some (to_region c.2 (first_ptr l2 nx) (last_ptr pv l1)).
Proof. rewrite seg_app. simpl. tauto. Qed.

Lemma seg_is_Some h pv l nx x :
  seg h pv l nx -> x ∈ l.*1 -> is_Some (h !! x).
Proof.
  revert pv. induction l as [|c l IH]; intros pv; simpl.
  - intros _ Hx. by apply elem_of_nil in Hx.
  - intros [Hc Hl] Hx. apply elem_of_cons in Hx as [->|Hx]; [eauto|].
    by eapply IH.
Qed.

Lemma last_ptr_elem pv pv' c l :
  exists x, last_ptr pv (c :: l) = Some x /\ last_ptr pv' (c :: l) = Some x /\
            x ∈ (c :: l).*1.
Proof.
  induction l as [|a l _] using rev_ind.
  - exists c.1. repeat split; simpl; apply list_elem_of_here.
  - exists a.1. rewrite app_comm_cons, !last_ptr_snoc, fmap_app.
    repeat split. apply elem_of_app. right. apply list_elem_of_here.
Qed.

(** Redirecting the [next] of the last cell. *)
Lemma seg_change_next h h' pv l nx nx' :
  seg h pv l nx ->
  NoDup l.*1 ->
  (forall x, x ∈ l.*1 ->
     h' !! x = if decide (Some x = last_ptr None l)
               then region.set_next nx' <$> h !! x else h !! x) ->
  seg h' pv l nx'.
Proof.
  revert pv. induction l as [|c l IH]; intros pv; [done|].
  intros [Hc Hl] Hnd Hh'. apply NoDup_cons in Hnd as [Hnin Hnd].
  split.
  - rewrite Hh' by apply list_elem_of_here. rewrite Hc.
    destruct l as [|c' l].
    + rewrite decide_True by done. done.
    + rewrite last_ptr_cons.
      destruct (last_ptr_elem (Some c.1) None c' l) as (x & -> & _ & Hx).
      rewrite decide_False; [done|]. intros [= <-]. done.
  - apply IH; [done..|]. intros x Hx.
    rewrite Hh' by (apply list_elem_of_further; exact Hx).
    destruct l as [|c' l]; [by apply elem_of_nil in Hx|].
    rewrite last_ptr_cons.
    destruct (last_ptr_elem (Some c.1) None c' l) as (y & -> & -> & _).
    done.
Qed.

(** Redirecting the [prev] of the first cell. *)
Lemma seg_change_prev h h' pv pv' l nx :
  seg h pv l nx ->
  NoDup l.*1 ->
  (forall x, x ∈ l.*1 ->
     h' !! x = if decide (Some x = first_ptr l None)
               then region.set_prev pv' <$> h !! x else h !! x) ->
  seg h' pv' l nx.
Proof.
  destruct l as [|c l]; simpl; [done|].
  intros [Hc Hl] Hnd Hh'. apply NoDup_cons in Hnd as [Hnin Hnd]. split.
  - rewrite Hh' by apply list_elem_of_here.
    rewrite decide_True by done. by rewrite Hc.
  - eapply seg_frame; [|done]. intros x Hx.
    rewrite Hh' by (apply list_elem_of_further; exact Hx).
    rewrite decide_False; [done|]. intros [= ->]. done.
Qed.

Lemma walk_seg h pv l fuel :
  seg h pv l None -> (length l < fuel)%nat ->
  walk fuel h (first_ptr l None) = l.*2.
Proof.
  revert pv fuel. induction l as [|c l IH]; intros pv fuel Hs Hf.
  - destruct fuel; [simpl in Hf; lia|done].
  - destruct fuel as [|fuel]; [simpl in Hf; lia|]. simpl in *.
    destruct Hs as [Hc Hl]. rewrite Hc. simpl.
    f_equal; [by destruct c as [? []]|].
    eapply IH; [done|lia].
Qed.

Lemma seg_length_bound h pv l nx :
  seg h pv l nx -> NoDup l.*1 -> (length l <= base.size h)%nat.
Proof.
  intros Hs Hnd.
  assert (length l = base.size (list_to_set (C := gset ptr) l.*1)) as ->.
  { rewrite size_list_to_set by done. by rewrite length_fmap. }
  rewrite <- (size_dom (D := gset ptr) h).
  apply subseteq_size. intros x Hx. apply elem_of_list_to_set in Hx.
  apply elem_of_dom. by eapply seg_is_Some.
Qed.
End SegLemmas.

Lemma rep_node_list s l : rep s l -> node_list s = l.*2.
Proof.
  intros (Hhd & Hs & Hnd). unfold node_list, loop_bound. rewrite Hhd.
  eapply walk_seg; [done|]. apply seg_length_bound in Hs; [lia|done].
Qed.

Lemma rep_length s l : rep s l -> (length l < loop_bound s)%nat.
Proof.
  intros (Hhd & Hs & Hnd). unfold loop_bound.
  apply seg_length_bound in Hs; [lia|done].
Qed.

Lemma VMSpace_init_rep start size :
  rep (VMSpace_init start size) [(1%positive, Node start size false)].
Proof.
  split; [done|]. split.
  - simpl. split; [|done]. by rewrite lookup_singleton_eq.
  - simpl. apply NoDup_singleton.
Qed.
Arguments wrap : simpl never.

Lemma new_spec r s :
  exists q, heap s !! q = None /\
    new r s = Done q {| heap := <[q := r]> (heap s);
                        m_region_map := m_region_map s;
                        m_used := m_used s |}.
Proof.
  exists (fresh (dom (heap s))). split; [|done].
  apply not_elem_of_dom, is_fresh.
Qed.
Opaque new.

Ltac heap_simpl :=
  repeat first
    [ rewrite lookup_insert_eq
    | rewrite lookup_insert_ne by done
    | rewrite lookup_delete_ne by done
    | match goal with
      | H : ?h !! ?p = _ |- context [?h !! ?p] => rewrite H
      end
    | rewrite Z.eqb_refl
    | rewrite decide_True by done
    | rewrite decide_False by done
    | progress simpl ].

Ltac exec := unfold bind, load, update, delete_node, add_used, sub_used,
  get_region_map, set_region_map, ret, when_ptr, ASSERT; heap_simpl.

Ltac exec_new q Hq :=
  match goal with
  | |- context [new ?r ?s] => destruct (new_spec r s) as (q & Hq & ->)
  end; simpl in Hq.

Lemma snoc_cases {A} (l : list A) : l = [] \/ exists l' a, l = l' ++ [a].
Proof. destruct l using rev_ind; eauto. Qed.

Lemma NoDup_mid (l1 : list cell) c l2 :
  NoDup (l1 ++ c :: l2).*1 ->
  NoDup l1.*1 /\ NoDup l2.*1 /\ (c.1 ∉ l1.*1) /\ (c.1 ∉ l2.*1) /\
  (forall x, x ∈ l1.*1 -> x ∉ l2.*1).
Proof.
  rewrite fmap_app, fmap_cons, NoDup_app, NoDup_cons.
  intros (H1 & H2 & H3 & H4). repeat split; try done.
  - intros Hc. apply (H2 _ Hc). apply list_elem_of_here.
  - intros x Hx Hx'. apply (H2 _ Hx). by apply list_elem_of_further.
Qed.


Lemma rep_mid s l1 c d l2 :
  rep s (l1 ++ (c, d) :: l2) ->
  m_region_map s = first_ptr l1 (Some c) /\
  heap s !! c = Some (to_region d (first_ptr l2 None) (last_ptr None l1)) /\
  seg (heap s) None l1 (Some c) /\ seg (heap s) (Some c) l2 None /\
  NoDup l1.*1 /\ NoDup l2.*1 /\ (c ∉ l1.*1) /\ (c ∉ l2.*1) /\
  (forall x, x ∈ l1.*1 -> x ∉ l2.*1) /\
  (forall x, x ∈ l1.*1 -> is_Some (heap s !! x)) /\
  (forall x, x ∈ l2.*1 -> is_Some (heap s !! x)).
Proof.
  intros (Hhd & Hseg & Hnd).
  destruct (NoDup_mid _ _ _ Hnd) as (Hn1 & Hn2 & Hc1 & Hc2 & H12).
  pose proof (seg_lookup _ _ _ _ _ _ Hseg) as Hc.
  apply seg_app in Hseg as [Hs1 Hs2]. simpl in Hs2. destruct Hs2 as [_ Hs2].
  rewrite first_ptr_app in Hhd.
  repeat split; try done.
  - intros x Hx. eapply seg_is_Some; [exact Hs1|done].
  - intros x Hx. eapply seg_is_Some; [exact Hs2|done].
Qed.


Lemma NoDup_splice (l1 mid l2 : list cell) :
  NoDup l1.*1 -> NoDup mid.*1 -> NoDup l2.*1 ->
  (forall x, x ∈ l1.*1 -> x ∉ mid.*1) ->
  (forall x, x ∈ l1.*1 -> x ∉ l2.*1) ->
  (forall x, x ∈ mid.*1 -> x ∉ l2.*1) ->
  NoDup (l1 ++ mid ++ l2).*1.
Proof.
  intros H1 Hm H2 H1m H12 Hm2. rewrite !fmap_app.
  apply NoDup_app. split; [done|]. split.
  - intros x Hx [Hin|Hin]%elem_of_app; [by eapply H1m|by eapply H12].
  - apply NoDup_app. done.
Qed.

Lemma rep_intro h hd u l1 mid l2 :
  hd = first_ptr (l1 ++ mid ++ l2) None ->
  seg h None l1 (first_ptr (mid ++ l2) None) ->
  seg h (last_ptr None l1) mid (first_ptr l2 None) ->
  seg h (last_ptr (last_ptr None l1) mid) l2 None ->
  NoDup l1.*1 -> NoDup mid.*1 -> NoDup l2.*1 ->
  (forall x, x ∈ l1.*1 -> x ∉ mid.*1) ->
  (forall x, x ∈ l1.*1 -> x ∉ l2.*1) ->
  (forall x, x ∈ mid.*1 -> x ∉ l2.*1) ->
  rep {| heap := h; m_region_map := hd; m_used := u |} (l1 ++ mid ++ l2).
Proof.
  intros Hhd H1 Hm H2 ? ? ? ? ? ?. split; [done|]. split.
  - apply seg_app. split; [done|]. apply seg_app. done.
  - by apply NoDup_splice.
Qed.

Ltac ne_tac :=
  match goal with
  | |- ?a ≠ ?b => let E := fresh in intros E; subst; try done; try congruence
  end.

Ltac not_in_tac :=
  match goal with
  | Hs : (forall x, x ∈ ?l -> is_Some (?h !! x)), Hq : ?h !! ?q = None
    |- ?q ∉ ?l =>
      let E := fresh in let y := fresh in
      intros E; apply Hs in E as [y E]; congruence
  end.

(** The pointer of a snoc'ed cell is a member. *)
Lemma elem_of_snoc_fst (l : list cell) p d : p ∈ (l ++ [(p, d)]).*1.
Proof. rewrite fmap_app. apply elem_of_app. right. apply list_elem_of_here. Qed.

Ltac mem_step :=
  first
    [ eassumption
    | apply list_elem_of_here
    | apply list_elem_of_further; eassumption
    | apply elem_of_snoc_fst ].

Ltac mem_tac :=
  unfold not; intros;
  repeat match goal with
  | H : _ ∈ [] |- _ => by apply elem_of_nil in H
  | H : _ ∈ _ :: _ |- _ => apply elem_of_cons in H as [->|H]
  | H : _ ∈ (_ :: _).*1 |- _ => rewrite fmap_cons in H; simpl in H
  | H : _ ∈ [].*1 |- _ => by apply elem_of_nil in H
  | H : _ ∉ _ :: _ |- _ => apply not_elem_of_cons in H as [? ?]
  | H : _ ∉ (_ :: _).*1 |- _ => rewrite fmap_cons in H; simpl in H
  end;
  try done; try congruence;
  try match goal with
  | H : forall x, _ ∈ _ -> _ ∉ _ |- False => eapply H; by mem_step
  | H : _ ∉ _ |- False => apply H; by mem_step
  end.

Ltac nodup_tac :=
  simpl;
  repeat match goal with
  | |- NoDup [] => apply NoDup_nil_2
  | |- NoDup (_ :: _) => apply NoDup_cons_2
  end; try done; mem_tac.

Lemma create_region_before_spec s l1 c d l2 address :
  rep s (l1 ++ (c, d) :: l2) ->
  if n_start d <? address then
    exists q s',
      create_region_before c address s = Done tt s' /\
      rep s' (l1 ++ [(q, Node (n_start d) (wrap (address - n_start d)) false);
                     (c, d)] ++ l2) /\
      m_used s' = m_used s
  else create_region_before c address s = Done tt s.
Proof.
  destruct s as [h hd u], d as [ds dz du].
  intros (Hhd & Hc & Hs1 & Hs2 & Hn1 & Hn2 & Hc1 & Hc2 & H12 & Hi1 & Hi2)%rep_mid.
  simpl in *.
  unfold create_region_before.
  destruct (snoc_cases l1) as [->|(l1' & [p dp] & ->)].
  - simpl in *. subst hd. exec.
    destruct (ds <? address); [|done].
    exec_new q Hq.
    assert (Hqc : q ≠ c) by ne_tac.
    assert (Hq2 : q ∉ l2.*1) by not_in_tac.
    exec.
    eexists q, _. split; [reflexivity|]. split; [|done].
    apply (rep_intro _ _ _ [] [_; _] l2); simpl; try done;
      try (by nodup_tac); try (by mem_tac).
    + split; [by exec|]. split; [by exec|done].
    + eapply seg_frame; [|done]. intros x Hx.
      assert (x ≠ c) by ne_tac. assert (x ≠ q) by ne_tac. by exec.
  - pose proof (seg_lookup _ _ _ _ _ _ Hs1) as Hp. simpl in Hp.
    rewrite last_ptr_snoc in Hc. simpl in Hc.
    pose proof (elem_of_snoc_fst l1' p dp) as Hpin.
    assert (Hpc : p ≠ c) by ne_tac.
    exec.
    destruct (ds <? address); [|done].
    exec_new q Hq.
    assert (Hqc : q ≠ c) by ne_tac.
    assert (Hq1 : q ∉ (l1' ++ [(p, dp)]).*1) by not_in_tac.
    assert (Hq2 : q ∉ l2.*1) by not_in_tac.
    assert (Hpq : p ≠ q) by ne_tac.
    assert (hd ≠ Some c).
    { subst hd. intros E. apply Hc1. destruct l1'; simpl in E; simplify_eq.
      apply list_elem_of_here. }
    exec.
    eexists q, _. split; [reflexivity|]. split; [|done].
    apply (rep_intro _ _ _ (l1' ++ [(p, dp)]) [_; _] l2); simpl; try done;
      try (by nodup_tac); try (by mem_tac).
    + rewrite !first_ptr_app in *. done.
    + eapply seg_change_next; [done..|]. intros x Hx. rewrite last_ptr_snoc. simpl.
      assert (x ≠ c) by ne_tac. assert (x ≠ q) by ne_tac.
      destruct (decide (x = p)) as [->|Hxp];
        [rewrite decide_True by done|rewrite decide_False by congruence];
        by exec.
    + rewrite last_ptr_snoc. simpl. split; [by exec|]. split; [by exec|done].
    + rewrite last_ptr_snoc. simpl. eapply seg_frame; [|done]. intros x Hx.
      assert (x ≠ c) by ne_tac. assert (x ≠ q) by ne_tac.
      assert (x ≠ p) by (intros ->; by eapply H12).
      by exec.
Qed.

Lemma create_region_after_spec s l1 c d l2 size address :
  rep s (l1 ++ (c, d) :: l2) ->
  if wrap (n_start d + n_size d) >? wrap (address + size) then
    exists q s',
      create_region_after c size address s = Done tt s' /\
      rep s' (l1 ++ [(c, d);
                     (q, Node (wrap (address + size))
                              (wrap (wrap (n_start d + n_size d) - wrap (address + size)))
                              false)] ++ l2) /\
      m_used s' = m_used s
  else create_region_after c size address s = Done tt s.
Proof.
  destruct s as [h hd u], d as [ds dz du].
  intros (Hhd & Hc & Hs1 & Hs2 & Hn1 & Hn2 & Hc1 & Hc2 & H12 & Hi1 & Hi2)%rep_mid.
  simpl in *.
  unfold create_region_after, region.end_.
  destruct l2 as [|[n dn] l2'].
  - simpl in *. exec.
    destruct (_ >? _); [|done].
    exec_new q Hq.
    assert (Hqc : q ≠ c) by ne_tac.
    assert (Hq1 : q ∉ l1.*1) by not_in_tac.
    exec.
    eexists q, _. split; [reflexivity|]. split; [|done].
    apply (rep_intro _ _ _ l1 [_; _] []); simpl; try done;
      try (by nodup_tac); try (by mem_tac).
    + by rewrite first_ptr_app in *.
    + eapply seg_frame; [|done]. intros x Hx.
      assert (x ≠ c) by ne_tac. assert (x ≠ q) by ne_tac. by exec.
    + split; [by exec|]. split; [by exec|done].
  - simpl in Hs2, Hc. destruct Hs2 as [Hn Hs2]. simpl in Hn.
    assert (Hnin : n ∈ ((n, dn) :: l2').*1) by apply list_elem_of_here.
    assert (Hnc : n ≠ c) by ne_tac.
    try rewrite fmap_cons in Hn2; simpl in Hn2; apply NoDup_cons in Hn2 as [Hnn Hn2].
    exec.
    destruct (_ >? _); [|done].
    exec_new q Hq.
    assert (Hqc : q ≠ c) by ne_tac.
    assert (Hq1 : q ∉ l1.*1) by not_in_tac.
    assert (Hq2 : q ∉ ((n, dn) :: l2').*1) by not_in_tac.
    assert (Hnq : n ≠ q) by ne_tac.
    exec.
    eexists q, _. split; [reflexivity|]. split; [|done].
    apply (rep_intro _ _ _ l1 [_; _] ((n, dn) :: l2')); simpl; try done;
      try (by nodup_tac); try (by mem_tac).
    + by rewrite first_ptr_app in *.
    + eapply seg_frame; [|done]. intros x Hx.
      assert (x ≠ c) by ne_tac. assert (x ≠ q) by ne_tac.
      assert (x ≠ n) by (intros ->; by eapply H12).
      by exec.
    + split; [by exec|]. split; [by exec|done].
    + split; [by exec|].
      eapply seg_frame; [|done]. intros x Hx.
      assert (x ≠ c). { intros ->. apply Hc2. by apply list_elem_of_further. }
      assert (x ≠ q). { intros ->. apply Hq2. by apply list_elem_of_further. }
      assert (x ≠ n) by ne_tac.
      by exec.
Qed.

(** Writing the data fields of a node leaves the links alone. *)
Lemma update_data_spec s l1 c d d' l2 f :
  rep s (l1 ++ (c, d) :: l2) ->
  (forall nx pv, f (to_region d nx pv) = to_region d' nx pv) ->
  exists s', update c f s = Done tt s' /\
    rep s' (l1 ++ (c, d') :: l2) /\ m_used s' = m_used s.
Proof.
  destruct s as [h hd u].
  intros (Hhd & Hc & Hs1 & Hs2 & Hn1 & Hn2 & Hc1 & Hc2 & H12 & Hi1 & Hi2)%rep_mid Hf.
  simpl in *. exec. rewrite Hf.
  eexists. split; [reflexivity|]. split; [|done].
  apply (rep_intro _ _ _ l1 [_] l2); simpl; try done;
    try (by nodup_tac); try (by mem_tac).
  - by rewrite first_ptr_app in *.
  - eapply seg_frame; [|done]. intros x Hx.
    assert (x ≠ c) by ne_tac. by exec.
  - split; [by exec|done].
  - eapply seg_frame; [|done]. intros x Hx.
    assert (x ≠ c) by ne_tac. by exec.
Qed.

Lemma load_spec s l1 c d l2 :
  rep s (l1 ++ (c, d) :: l2) ->
  load c s = Done (to_region d (first_ptr l2 None) (last_ptr None l1)) s.
Proof.
  intros (Hhd & Hc & _)%rep_mid. unfold load. by rewrite Hc.
Qed.

Lemma merge_previous_none s c d l2 :
  rep s ((c, d) :: l2) -> merge_previous_region c s = Done tt s.
Proof.
  destruct s as [h hd u]. intros (Hhd & [Hc _] & _). simpl in *.
  unfold merge_previous_region. by exec.
Qed.

Lemma merge_previous_used s l1 p dp c d l2 :
  rep s (l1 ++ (p, dp) :: (c, d) :: l2) -> n_used dp = true ->
  merge_previous_region c s = Done tt s.
Proof.
  destruct s as [h hd u].
  intros (Hhd & Hp & Hs1 & Hs2 & Hn1 & Hn2 & Hp1 & Hp2 & H12 & Hi1 & Hi2)%rep_mid Hu.
  simpl in *. destruct Hs2 as [Hc _].
  unfold merge_previous_region. exec. by rewrite Hu.
Qed.

Lemma merge_previous_free s l1 p dp c d l2 :
  rep s (l1 ++ (p, dp) :: (c, d) :: l2) -> n_used dp = false ->
  exists s', merge_previous_region c s = Done tt s' /\
    rep s' (l1 ++ (c, Node (wrap (n_start d - n_size dp))
                           (wrap (n_size d + n_size dp)) (n_used d)) :: l2) /\
    m_used s' = m_used s.
Proof.
  destruct s as [h hd u], d as [ds dz du].
  intros (Hhd & Hp & Hs1 & Hs2 & Hn1 & Hn2 & Hp1 & Hp2 & H12 & Hi1 & Hi2)%rep_mid Hu.
  simpl in *. destruct Hs2 as [Hc Hs2].
  try rewrite fmap_cons in Hn2; simpl in Hn2; apply NoDup_cons in Hn2 as [Hc2 Hn2].
  apply not_elem_of_cons in Hp2 as [Hpc Hp2].
  assert (Hc1 : c ∉ l1.*1). { intros Hx. eapply H12; [done|]. apply list_elem_of_here. }
  assert (H12' : forall x, x ∈ l1.*1 -> x ∉ l2.*1).
  { intros x Hx Hx'. eapply H12; [done|]. by apply list_elem_of_further. }
  unfold merge_previous_region.
  destruct (snoc_cases l1) as [->|(l1' & [pp dpp] & ->)].
  - simpl in *. subst hd. exec. rewrite Hu. exec.
    eexists. split; [reflexivity|]. split; [|done].
    apply (rep_intro _ _ _ [] [_] l2); simpl; try done;
      try (by nodup_tac); try (by mem_tac).
    + split; [by exec|done].
    + eapply seg_frame; [|done]. intros x Hx.
      assert (x ≠ c) by ne_tac. assert (x ≠ p) by ne_tac. by exec.
  - pose proof (seg_lookup _ _ _ _ _ _ Hs1) as Hpp. simpl in Hpp.
    rewrite last_ptr_snoc in Hp. simpl in Hp.
    pose proof (elem_of_snoc_fst l1' pp dpp) as Hppin.
    assert (Hppc : pp ≠ c) by ne_tac.
    assert (Hppp : pp ≠ p) by ne_tac.
    assert (hd ≠ Some p).
    { subst hd. intros E. apply Hp1. destruct l1'; simpl in E; simplify_eq.
      apply list_elem_of_here. }
    exec. rewrite Hu. exec.
    eexists. split; [reflexivity|]. split; [|done].
    apply (rep_intro _ _ _ (l1' ++ [(pp, dpp)]) [_] l2); simpl; try done;
      try (by nodup_tac); try (by mem_tac).
    + rewrite !first_ptr_app in *. done.
    + eapply seg_change_next; [done..|]. intros x Hx. rewrite last_ptr_snoc. simpl.
      assert (x ≠ c) by ne_tac. assert (x ≠ p) by ne_tac.
      destruct (decide (x = pp)) as [->|Hxp];
        [rewrite decide_True by done|rewrite decide_False by congruence];
        by exec.
    + rewrite last_ptr_snoc. simpl. split; [by exec|done].
    + rewrite last_ptr_snoc. simpl. eapply seg_frame; [|done]. intros x Hx.
      assert (x ≠ c) by ne_tac. assert (x ≠ p) by ne_tac.
      assert (x ≠ pp) by (intros ->; by eapply H12').
      by exec.
Qed.

Lemma merge_next_none s l1 c d :
  rep s (l1 ++ [(c, d)]) -> merge_next_region c s = Done tt s.
Proof.
  destruct s as [h hd u]. intros (Hhd & Hc & _)%rep_mid. simpl in *.
  unfold merge_next_region. by exec.
Qed.

Lemma merge_next_used s l1 c d n dn l2 :
  rep s (l1 ++ (c, d) :: (n, dn) :: l2) -> n_used dn = true ->
  merge_next_region c s = Done tt s.
Proof.
  destruct s as [h hd u].
  intros (Hhd & Hc & Hs1 & Hs2 & _)%rep_mid Hu.
  simpl in *. destruct Hs2 as [Hn _].
  unfold merge_next_region. exec. by rewrite Hu.
Qed.

Lemma merge_next_free s l1 c d n dn l2 :
  rep s (l1 ++ (c, d) :: (n, dn) :: l2) -> n_used dn = false ->
  exists s', merge_next_region c s = Done tt s' /\
    rep s' (l1 ++ (c, Node (n_start d) (wrap (n_size d + n_size dn)) (n_used d)) :: l2) /\
    m_used s' = m_used s.
Proof.
  destruct s as [h hd u], d as [ds dz du].
  intros (Hhd & Hc & Hs1 & Hs2 & Hn1 & Hn2 & Hc1 & Hc2 & H12 & Hi1 & Hi2)%rep_mid Hu.
  simpl in *. destruct Hs2 as [Hn Hs2].
  try rewrite fmap_cons in Hn2; simpl in Hn2; apply NoDup_cons in Hn2 as [Hnn Hn2].
  apply not_elem_of_cons in Hc2 as [Hcn Hc2].
  assert (Hn1' : n ∉ l1.*1). { intros Hx. eapply H12; [done|]. apply list_elem_of_here. }
  assert (H12' : forall x, x ∈ l1.*1 -> x ∉ l2.*1).
  { intros x Hx Hx'. eapply H12; [done|]. by apply list_elem_of_further. }
  unfold merge_next_region.
  destruct l2 as [|[nn dnn] l2'].
  - simpl in *. exec. rewrite Hu. exec.
    eexists. split; [reflexivity|]. split; [|done].
    apply (rep_intro _ _ _ l1 [_] []); simpl; try done;
      try (by nodup_tac); try (by mem_tac).
    + by rewrite first_ptr_app in *.
    + eapply seg_frame; [|done]. intros x Hx.
      assert (x ≠ c) by ne_tac. assert (x ≠ n) by ne_tac. by exec.
    + split; [by exec|done].
  - simpl in Hs2, Hn. destruct Hs2 as [Hnn' Hs2].
    try rewrite fmap_cons in Hn2; simpl in Hn2; apply NoDup_cons in Hn2 as [Hnn2 Hn2].
    apply not_elem_of_cons in Hnn as [Hnnn Hnn].
    apply not_elem_of_cons in Hc2 as [Hcnn Hc2].
    exec. rewrite Hu. exec.
    eexists. split; [reflexivity|]. split; [|done].
    apply (rep_intro _ _ _ l1 [_] ((nn, dnn) :: l2')); simpl; try done;
      try (by nodup_tac); try (by mem_tac).
    + by rewrite first_ptr_app in *.
    + eapply seg_frame; [|done]. intros x Hx.
      assert (x ≠ c) by ne_tac. assert (x ≠ n) by ne_tac.
      assert (x ≠ nn). { intros ->. eapply H12'; [done|]. apply list_elem_of_here. }
      by exec.
    + split; [by exec|done].
    + split; [by exec|].
      eapply seg_frame; [|done]. intros x Hx.
      assert (x ≠ c) by ne_tac. assert (x ≠ n) by ne_tac. assert (x ≠ nn) by ne_tac.
      by exec.
Qed.

Lemma bind_Done {A B} (m : M A) (k : A -> M B) s a s' :
  m s = Done a s' -> bind m k s = k a s'.
Proof. unfold bind. by intros ->. Qed.

Lemma alloc_space_exact s l1 c d l2 fuel :
  rep s (l1 ++ (c, d) :: l2) ->
  n_used d = false ->
  exists s',
    alloc_space_loop (S fuel) (n_size d) (Some c) s = Done (Value (n_start d)) s' /\
    rep s' (l1 ++ (c, Node (n_start d) (n_size d) true) :: l2) /\
    m_used s' = wrap (m_used s + n_size d).
Proof.
  destruct s as [h hd u], d as [ds dz du].
  intros (Hhd & Hc & Hs1 & Hs2 & Hn1 & Hn2 & Hc1 & Hc2 & H12 & Hi1 & Hi2)%rep_mid.
  simpl in *. intros ->. exec.
  eexists. split; [reflexivity|]. split; [|done].
  apply (rep_intro _ _ _ l1 [_] l2); simpl; try done;
    try (by nodup_tac); try (by mem_tac).
  - by rewrite first_ptr_app in *.
  - eapply seg_frame; [|done]. intros x Hx.
    assert (x ≠ c) by ne_tac. by exec.
  - split; [by exec|done].
  - eapply seg_frame; [|done]. intros x Hx.
    assert (x ≠ c) by ne_tac. by exec.
Qed.

Lemma alloc_space_split s l1 c d l2 sz fuel :
  rep s (l1 ++ (c, d) :: l2) ->
  n_used d = false -> n_size d ≠ sz -> sz <= n_size d ->
  exists s' q,
    alloc_space_loop (S fuel) sz (Some c) s = Done (Value (n_start d)) s' /\
    rep s' (l1 ++ [(q, Node (n_start d) sz true);
                   (c, Node (wrap (n_start d + sz)) (wrap (n_size d - sz)) false)]
               ++ l2) /\
    m_used s' = wrap (m_used s + sz).
Proof.
  destruct s as [h hd u], d as [ds dz du].
  intros (Hhd & Hc & Hs1 & Hs2 & Hn1 & Hn2 & Hc1 & Hc2 & H12 & Hi1 & Hi2)%rep_mid.
  simpl in *. intros -> Hsz Hle.
  assert (E1 : (dz =? sz) = false) by (by apply Z.eqb_neq).
  assert (E2 : (dz >=? sz) = true) by (apply Z.geb_le; lia).
  destruct (snoc_cases l1) as [->|(l1' & [p dp] & ->)].
  - simpl in *. subst hd. exec. rewrite E1, E2.
    exec_new q Hq.
    assert (Hqc : q ≠ c) by ne_tac.
    assert (Hq2 : q ∉ l2.*1) by not_in_tac.
    exec.
    eexists _, q. split; [reflexivity|]. split; [|done].
    apply (rep_intro _ _ _ [] [_; _] l2); simpl; try done;
      try (by nodup_tac); try (by mem_tac).
    + split; [by exec|]. split; [by exec|done].
    + eapply seg_frame; [|done]. intros x Hx.
      assert (x ≠ c) by ne_tac. assert (x ≠ q) by ne_tac. by exec.
  - pose proof (seg_lookup _ _ _ _ _ _ Hs1) as Hp. simpl in Hp.
    rewrite last_ptr_snoc in Hc. simpl in Hc.
    pose proof (elem_of_snoc_fst l1' p dp) as Hpin.
    assert (Hpc : p ≠ c) by ne_tac.
    exec. rewrite E1, E2.
    exec_new q Hq.
    assert (Hqc : q ≠ c) by ne_tac.
    assert (Hq1 : q ∉ (l1' ++ [(p, dp)]).*1) by not_in_tac.
    assert (Hq2 : q ∉ l2.*1) by not_in_tac.
    assert (Hpq : p ≠ q) by ne_tac.
    assert (hd ≠ Some c).
    { subst hd. intros E. apply Hc1. destruct l1'; simpl in E; simplify_eq.
      apply list_elem_of_here. }
    exec.
    eexists _, q. split; [reflexivity|]. split; [|done].
    apply (rep_intro _ _ _ (l1' ++ [(p, dp)]) [_; _] l2); simpl; try done;
      try (by nodup_tac); try (by mem_tac).
    + rewrite !first_ptr_app in *. done.
    + eapply seg_change_next; [done..|]. intros x Hx. rewrite last_ptr_snoc. simpl.
      assert (x ≠ c) by ne_tac. assert (x ≠ q) by ne_tac.
      destruct (decide (x = p)) as [->|Hxp];
        [rewrite decide_True by done|rewrite decide_False by congruence];
        by exec.
    + rewrite last_ptr_snoc. simpl. split; [by exec|]. split; [by exec|done].
    + rewrite last_ptr_snoc. simpl. eapply seg_frame; [|done]. intros x Hx.
      assert (x ≠ c) by ne_tac. assert (x ≠ q) by ne_tac.
      assert (x ≠ p) by (intros ->; by eapply H12).
      by exec.
Qed.

Lemma alloc_space_loop_refines sz l2 : forall l1 s fuel,
  rep s (l1 ++ l2) -> (length l2 < fuel)%nat ->
  match alloc_nodes sz l2.*2 with
  | None => alloc_space_loop fuel sz (first_ptr l2 None) s = Done (Error ENOMEM) s
  | Some (a, r) =>
      exists s' l2',
        alloc_space_loop fuel sz (first_ptr l2 None) s = Done (Value a) s' /\
        rep s' (l1 ++ l2') /\ l2'.*2 = r /\
        m_used s' = wrap (m_used s + sz)
  end.
Proof.
  induction l2 as [|[c d] l2 IH]; intros l1 s fuel Hrep Hfuel;
    (destruct fuel as [|fuel]; [simpl in Hfuel; lia|]).
  - done.
  - rewrite fmap_cons. cbn [alloc_nodes snd first_ptr fst].
    destruct (fits sz d) eqn:Hfit.
    + apply andb_prop in Hfit as [Hu Hle].
      apply negb_true_iff in Hu. apply Z.leb_le in Hle.
      destruct (Z.eqb_spec (n_size d) sz) as [<-|Hne].
      * destruct (alloc_space_exact s l1 c d l2 fuel Hrep Hu) as (s' & Hrun & Hrep' & Hused).
        exists s', ((c, Node (n_start d) (n_size d) true) :: l2). done.
      * destruct (alloc_space_split s l1 c d l2 sz fuel Hrep Hu Hne Hle)
          as (s' & q & Hrun & Hrep' & Hused).
        eexists s', (_ :: _ :: l2).
        split; [exact Hrun|]. split; [exact Hrep'|]. done.
    + assert (Hskip : alloc_space_loop (S fuel) sz (Some c) s =
                      alloc_space_loop fuel sz (first_ptr l2 None) s).
      { cbn [alloc_space_loop].
        rewrite (bind_Done _ _ _ _ _ (load_spec _ _ _ _ _ Hrep)).
        cbn [to_region region.used region.size region.next].
        unfold fits in Hfit. destruct (n_used d); [done|]. simpl in Hfit.
        apply Z.leb_gt in Hfit.
        destruct (Z.eqb_spec (n_size d) sz); [lia|].
        destruct (Z.geb_spec (n_size d) sz); [lia|done]. }
      rewrite Hskip.
      rewrite (cons_middle _ l1 l2), app_assoc in Hrep.
      specialize (IH (l1 ++ [(c, d)]) s fuel Hrep ltac:(simpl in Hfuel; lia)).
      destruct (alloc_nodes sz l2.*2) as [[a r]|]; [|done].
      destruct IH as (s' & l2' & Hrun & Hrep' & Hl2' & Hused).
      exists s', ((c, d) :: l2'). rewrite <- app_assoc in Hrep'.
      split; [exact Hrun|]. split; [exact Hrep'|].
      split; [simpl; by f_equal|done].
Qed.

Lemma create_region_before_cells s l1 c d l2 address :
  rep s (l1 ++ (c, d) :: l2) ->
  exists s' pc,
    create_region_before c address s = Done tt s' /\
    rep s' ((l1 ++ pc) ++ (c, d) :: l2) /\
    pc.*2 = at_prefix address d /\ m_used s' = m_used s.
Proof.
  intros Hrep. pose proof (create_region_before_spec s l1 c d l2 address Hrep) as H.
  unfold at_prefix. destruct (n_start d <? address).
  - destruct H as (q & s' & Hrun & Hrep' & Hused).
    exists s', [(q, Node (n_start d) (wrap (address - n_start d)) false)].
    rewrite <- app_assoc. done.
  - exists s, []. rewrite app_nil_r. done.
Qed.

Lemma create_region_after_cells s l1 c d l2 size address :
  rep s (l1 ++ (c, d) :: l2) ->
  exists s' sc,
    create_region_after c size address s = Done tt s' /\
    rep s' (l1 ++ (c, d) :: sc ++ l2) /\
    sc.*2 = at_suffix size address d /\ m_used s' = m_used s.
Proof.
  intros Hrep. pose proof (create_region_after_spec s l1 c d l2 size address Hrep) as H.
  unfold at_suffix, n_end. destruct (_ >? _).
  - destruct H as (q & s' & Hrun & Hrep' & Hused).
    eexists s', [(q, _)]. done.
  - exists s, []. done.
Qed.

Lemma alloc_space_at_exact s l1 c d l2 address fuel :
  rep s (l1 ++ (c, d) :: l2) ->
  n_contains address d = true -> n_used d = false ->
  exists s',
    alloc_space_at_loop (S fuel) (n_size d) address (Some c) s
      = Done (Value (n_start d)) s' /\
    rep s' (l1 ++ (c, Node (n_start d) (n_size d) true) :: l2) /\
    m_used s' = wrap (m_used s + n_size d).
Proof.
  destruct s as [h hd u], d as [ds dz du].
  intros (Hhd & Hc & Hs1 & Hs2 & Hn1 & Hn2 & Hc1 & Hc2 & H12 & Hi1 & Hi2)%rep_mid.
  simpl in *. intros Hcont ->. exec.
  change (region.contains address _) with (n_contains address (Node ds dz false)).
  rewrite Hcont. exec.
  eexists. split; [reflexivity|]. split; [|done].
  apply (rep_intro _ _ _ l1 [_] l2); simpl; try done;
    try (by nodup_tac); try (by mem_tac).
  - by rewrite first_ptr_app in *.
  - eapply seg_frame; [|done]. intros x Hx.
    assert (x ≠ c) by ne_tac. by exec.
  - split; [by exec|done].
  - eapply seg_frame; [|done]. intros x Hx.
    assert (x ≠ c) by ne_tac. by exec.
Qed.

Lemma add_used_rep s l v :
  rep s l ->
  rep {| heap := heap s; m_region_map := m_region_map s; m_used := v |} l.
Proof. intros (? & ? & ?). done. Qed.

Lemma alloc_space_at_split s l1 c d l2 size address fuel :
  rep s (l1 ++ (c, d) :: l2) ->
  n_contains address d = true -> n_used d = false ->
  n_size d ≠ size -> size <= wrap (n_size d - wrap (address - n_start d)) ->
  exists s' mid,
    alloc_space_at_loop (S fuel) size address (Some c) s
      = Done (Value address) s' /\
    rep s' (l1 ++ mid ++ l2) /\
    mid.*2 = at_prefix address d ++ [Node address size true]
               ++ at_suffix size address d /\
    m_used s' = wrap (m_used s + size).
Proof.
  intros Hrep Hcont Hu Hne Hle. cbn [alloc_space_at_loop].
  rewrite (bind_Done _ _ _ _ _ (load_spec _ _ _ _ _ Hrep)).
  change (region.contains address _) with (n_contains address d).
  cbn [to_region region.used region.size region.start]. rewrite Hcont, Hu.
  destruct (Z.eqb_spec (n_size d) size); [done|].
  destruct (Z.geb_spec (wrap (n_size d - wrap (address - n_start d))) size); [|lia].
  destruct (create_region_before_cells s l1 c d l2 address Hrep)
    as (s1 & pc & Hrun1 & Hrep1 & Hpc & Hu1).
  rewrite (bind_Done _ _ _ _ _ Hrun1).
  destruct (create_region_after_cells s1 _ c d l2 size address Hrep1)
    as (s2 & sc & Hrun2 & Hrep2 & Hsc & Hu2).
  rewrite (bind_Done _ _ _ _ _ Hrun2).
  destruct (update_data_spec s2 _ c d (Node address (n_size d) (n_used d)) _
              (region.set_start address) Hrep2) as (s3 & Hrun3 & Hrep3 & Hu3); [done|].
  rewrite (bind_Done _ _ _ _ _ Hrun3).
  destruct (update_data_spec s3 _ c _ (Node address size (n_used d)) _
              (region.set_size size) Hrep3) as (s4 & Hrun4 & Hrep4 & Hu4); [done|].
  rewrite (bind_Done _ _ _ _ _ Hrun4).
  destruct (update_data_spec s4 _ c _ (Node address size true) _
              (region.set_used true) Hrep4) as (s5 & Hrun5 & Hrep5 & Hu5); [done|].
  rewrite (bind_Done _ _ _ _ _ Hrun5).
  assert (Hadd : (let* cur := load c in add_used (region.size cur)) s5 =
                 Done tt {| heap := heap s5; m_region_map := m_region_map s5;
                            m_used := wrap (m_used s5 + size) |}).
  { by rewrite (bind_Done _ _ _ _ _ (load_spec _ _ _ _ _ Hrep5)). }
  rewrite (bind_Done _ _ _ _ _ Hadd). unfold ret.
  eexists _, (pc ++ [(c, Node address size true)] ++ sc).
  split; [reflexivity|]. split; [|split].
  - apply add_used_rep with (v := wrap (m_used s5 + size)) in Hrep5.
    rewrite <- !app_assoc in Hrep5 |- *. exact Hrep5.
  - rewrite !fmap_app, Hpc, Hsc. done.
  - simpl. congruence.
Qed.

Lemma alloc_space_at_loop_refines sz addr l2 : forall l1 s fuel,
  rep s (l1 ++ l2) -> (length l2 < fuel)%nat ->
  match alloc_at_nodes sz addr l2.*2 with
  | None =>
      alloc_space_at_loop fuel sz addr (first_ptr l2 None) s = Done (Error ENOMEM) s
  | Some (a, r) =>
      exists s' l2',
        alloc_space_at_loop fuel sz addr (first_ptr l2 None) s = Done (Value a) s' /\
        rep s' (l1 ++ l2') /\ l2'.*2 = r /\
        m_used s' = wrap (m_used s + sz)
  end.
Proof.
  induction l2 as [|[c d] l2 IH]; intros l1 s fuel Hrep Hfuel;
    (destruct fuel as [|fuel]; [simpl in Hfuel; lia|]).
  - done.
  - rewrite fmap_cons. cbn [alloc_at_nodes snd first_ptr fst].
    destruct (n_contains addr d) eqn:Hcont.
    + destruct (n_used d) eqn:Hu.
      { cbn [alloc_space_at_loop].
        rewrite (bind_Done _ _ _ _ _ (load_spec _ _ _ _ _ Hrep)).
        change (region.contains addr _) with (n_contains addr d).
        cbn [to_region region.used]. by rewrite Hcont, Hu. }
      destruct (Z.eqb_spec (n_size d) sz) as [<-|Hne].
      { destruct (alloc_space_at_exact s l1 c d l2 addr fuel Hrep Hcont Hu)
          as (s' & Hrun & Hrep' & Hused).
        exists s', ((c, Node (n_start d) (n_size d) true) :: l2). done. }
      destruct (Z.geb_spec (wrap (n_size d - wrap (addr - n_start d))) sz) as [Hle|Hlt].
      { destruct (alloc_space_at_split s l1 c d l2 sz addr fuel Hrep Hcont Hu Hne Hle)
          as (s' & mid & Hrun & Hrep' & Hmid & Hused).
        exists s', (mid ++ l2).
        split; [exact Hrun|]. split; [exact Hrep'|].
        split; [|done]. rewrite fmap_app, Hmid, <- !app_assoc. done. }
      cbn [alloc_space_at_loop].
      rewrite (bind_Done _ _ _ _ _ (load_spec _ _ _ _ _ Hrep)).
      change (region.contains addr _) with (n_contains addr d).
      cbn [to_region region.used region.size region.start]. rewrite Hcont, Hu.
      destruct (Z.eqb_spec (n_size d) sz); [done|].
      destruct (Z.geb_spec (wrap (n_size d - wrap (addr - n_start d))) sz); [lia|done].
    + assert (Hskip : alloc_space_at_loop (S fuel) sz addr (Some c) s =
                      alloc_space_at_loop fuel sz addr (first_ptr l2 None) s).
      { cbn [alloc_space_at_loop].
        rewrite (bind_Done _ _ _ _ _ (load_spec _ _ _ _ _ Hrep)).
        change (region.contains addr _) with (n_contains addr d).
        by rewrite Hcont. }
      rewrite Hskip.
      rewrite (cons_middle _ l1 l2), app_assoc in Hrep.
      specialize (IH (l1 ++ [(c, d)]) s fuel Hrep ltac:(simpl in Hfuel; lia)).
      destruct (alloc_at_nodes sz addr l2.*2) as [[a r]|]; [|done].
      destruct IH as (s' & l2' & Hrun & Hrep' & Hl2' & Hused).
      exists s', ((c, d) :: l2'). rewrite <- app_assoc in Hrep'.
      split; [exact Hrun|]. split; [exact Hrep'|].
      split; [simpl; by f_equal|done].
Qed.

Lemma merge_previous_cells s l1 c d l2 :
  rep s (l1 ++ (c, d) :: l2) ->
  exists s' l1' d',
    merge_previous_region c s = Done tt s' /\
    rep s' (l1' ++ (c, d') :: l2) /\
    merge_previous_nodes l1.*2 d = (l1'.*2, d') /\
    m_used s' = m_used s.
Proof.
  intros Hrep. unfold merge_previous_nodes.
  destruct (snoc_cases l1) as [->|(l1' & [p dp] & ->)].
  - exists s, [], d. split; [|done]. by eapply merge_previous_none.
  - rewrite fmap_app. change ([(p, dp)].*2) with [dp]. rewrite last_snoc.
    rewrite <- app_assoc in Hrep. simpl in Hrep.
    destruct (n_used dp) eqn:Hu.
    + exists s, (l1' ++ [(p, dp)]), d. rewrite <- app_assoc, fmap_app.
      split; [|done]. by eapply merge_previous_used.
    + destruct (merge_previous_free s l1' p dp c d l2 Hrep Hu) as (s' & Hrun & Hrep' & Hused).
      eexists s', l1', _. rewrite removelast_last.
      split; [exact Hrun|]. split; [exact Hrep'|]. done.
Qed.

Lemma merge_next_cells s l1 c d l2 :
  rep s (l1 ++ (c, d) :: l2) ->
  exists s' d' l2',
    merge_next_region c s = Done tt s' /\
    rep s' (l1 ++ (c, d') :: l2') /\
    merge_next_nodes d l2.*2 = (d', l2'.*2) /\
    m_used s' = m_used s.
Proof.
  intros Hrep. unfold merge_next_nodes.
  destruct l2 as [|[n dn] l2].
  - exists s, d, []. split; [|done]. by eapply merge_next_none.
  - rewrite fmap_cons. simpl.
    destruct (n_used dn) eqn:Hu.
    + exists s, d, ((n, dn) :: l2). split; [|done]. by eapply merge_next_used.
    + destruct (merge_next_free s l1 c d n dn l2 Hrep Hu) as (s' & Hrun & Hrep' & Hused).
      eexists s', _, l2.
      split; [exact Hrun|]. split; [exact Hrep'|]. done.
Qed.

Lemma free_space_loop_refines sz addr l2 : forall l1 s fuel,
  rep s (l1 ++ l2) -> (length l2 < fuel)%nat ->
  match free_nodes sz addr l1.*2 l2.*2 with
  | None => free_space_loop fuel sz addr (first_ptr l2 None) s = Panic
  | Some r =>
      exists s' l',
        free_space_loop fuel sz addr (first_ptr l2 None) s = Done SUCCESS s' /\
        rep s' l' /\ l'.*2 = r /\
        m_used s' = wrap (m_used s - sz)
  end.
Proof.
  induction l2 as [|[c d] l2 IH]; intros l1 s fuel Hrep Hfuel;
    (destruct fuel as [|fuel]; [simpl in Hfuel; lia|]).
  - done.
  - rewrite fmap_cons. cbn [free_nodes snd first_ptr fst].
    cbn [free_space_loop].
    rewrite (bind_Done _ _ _ _ _ (load_spec _ _ _ _ _ Hrep)).
    cbn [to_region region.used region.size region.start region.next].
    destruct (n_start d =? addr) eqn:Hst.
    + destruct (n_size d =? sz) eqn:Hsz; [|done].
      unfold ASSERT at 1. unfold bind at 1.
      destruct (update_data_spec s l1 c d (Node (n_start d) (n_size d) false) l2
                  (region.set_used false) Hrep) as (s1 & Hrun1 & Hrep1 & Hu1); [done|].
      rewrite (bind_Done _ _ _ _ _ Hrun1).
      destruct (merge_previous_cells s1 l1 c _ l2 Hrep1)
        as (s2 & l1' & d1 & Hrun2 & Hrep2 & Hm1 & Hu2).
      rewrite (bind_Done _ _ _ _ _ Hrun2).
      destruct (merge_next_cells s2 l1' c d1 l2 Hrep2)
        as (s3 & d2 & l2' & Hrun3 & Hrep3 & Hm2 & Hu3).
      rewrite (bind_Done _ _ _ _ _ Hrun3).
      rewrite Hm1, Hm2. unfold bind, sub_used, ret.
      eexists _, (l1' ++ (c, d2) :: l2').
      split; [reflexivity|]. split; [|split].
      * by apply add_used_rep.
      * by rewrite fmap_app.
      * simpl. congruence.
    + rewrite (cons_middle _ l1 l2), app_assoc in Hrep.
      specialize (IH (l1 ++ [(c, d)]) s fuel Hrep ltac:(simpl in Hfuel; lia)).
      rewrite fmap_app in IH. exact IH.
Qed.

(** ** The code refines the functions on node lists *)

Lemma alloc_space_refines s size :
  well_formed s -> size mod PAGE_SIZE = 0 ->
  match alloc_nodes size (node_list s) with
  | None => alloc_space size s = Done (Error ENOMEM) s
  | Some (a, r) =>
      exists s', alloc_space size s = Done (Value a) s' /\
        well_formed s' /\ node_list s' = r /\
        m_used s' = wrap (m_used s + size)
  end.
Proof.
  intros [l Hrep] Hal. unfold alloc_space, bind, ASSERT.
  rewrite Hal. simpl.
  pose proof (alloc_space_loop_refines size l [] s (loop_bound s) Hrep
                (rep_length _ _ Hrep)) as H.
  rewrite (rep_node_list _ _ Hrep).
  destruct Hrep as (Hhd & _). rewrite Hhd.
  destruct (alloc_nodes size l.*2) as [[a r]|]; [|done].
  destruct H as (s' & l2' & Hrun & Hrep' & Hl & Hused).
  exists s'. split; [done|]. split; [by exists l2'|].
  split; [|done]. by rewrite (rep_node_list _ _ Hrep').
Qed.

Lemma alloc_space_at_refines s size address :
  well_formed s -> size mod PAGE_SIZE = 0 -> address mod PAGE_SIZE = 0 ->
  match alloc_at_nodes size address (node_list s) with
  | None => alloc_space_at size address s = Done (Error ENOMEM) s
  | Some (a, r) =>
      exists s', alloc_space_at size address s = Done (Value a) s' /\
        well_formed s' /\ node_list s' = r /\
        m_used s' = wrap (m_used s + size)
  end.
Proof.
  intros [l Hrep] Hal Hal'. unfold alloc_space_at, bind, ASSERT.
  rewrite Hal, Hal'. simpl.
  pose proof (alloc_space_at_loop_refines size address l [] s (loop_bound s) Hrep
                (rep_length _ _ Hrep)) as H.
  rewrite (rep_node_list _ _ Hrep).
  destruct Hrep as (Hhd & _). rewrite Hhd.
  destruct (alloc_at_nodes size address l.*2) as [[a r]|]; [|done].
  destruct H as (s' & l2' & Hrun & Hrep' & Hl & Hused).
  exists s'. split; [done|]. split; [by exists l2'|].
  split; [|done]. by rewrite (rep_node_list _ _ Hrep').
Qed.

Lemma free_space_refines s size address :
  well_formed s -> size mod PAGE_SIZE = 0 -> address mod PAGE_SIZE = 0 ->
  match free_nodes size address [] (node_list s) with
  | None => free_space size address s = Panic
  | Some r =>
      exists s', free_space size address s = Done SUCCESS s' /\
        well_formed s' /\ node_list s' = r /\
        m_used s' = wrap (m_used s - size)
  end.
Proof.
  intros [l Hrep] Hal Hal'. unfold free_space, bind, ASSERT.
  rewrite Hal, Hal'. simpl.
  pose proof (free_space_loop_refines size address l [] s (loop_bound s) Hrep
                (rep_length _ _ Hrep)) as H.
  rewrite (rep_node_list _ _ Hrep).
  destruct Hrep as (Hhd & _). rewrite Hhd.
  change ([].*2) with (@nil node) in H.
  destruct (free_nodes size address [] l.*2) as [r|]; [|done].
  destruct H as (s' & l' & Hrun & Hrep' & Hl & Hused).
  exists s'. split; [done|]. split; [by exists l'|].
  split; [|done]. by rewrite (rep_node_list _ _ Hrep').
Qed.

(** Unaligned arguments stop the kernel at the first [ASSERT]. *)
Lemma alloc_space_unaligned s size :
  size mod PAGE_SIZE <> 0 -> alloc_space size s = Panic.
Proof.
  intros H. unfold alloc_space, bind, ASSERT.
  by destruct (Z.eqb_spec (size mod PAGE_SIZE) 0).
Qed.

Lemma alloc_space_at_unaligned s size address :
  size mod PAGE_SIZE <> 0 \/ address mod PAGE_SIZE <> 0 ->
  alloc_space_at size address s = Panic.
Proof.
  intros H. unfold alloc_space_at, bind, ASSERT.
  destruct (Z.eqb_spec (address mod PAGE_SIZE) 0); [|done].
  destruct (Z.eqb_spec (size mod PAGE_SIZE) 0); [|done]. tauto.
Qed.

Lemma free_space_unaligned s size address :
  size mod PAGE_SIZE <> 0 \/ address mod PAGE_SIZE <> 0 ->
  free_space size address s = Panic.
Proof.
  intros H. unfold free_space, bind, ASSERT.
  destruct (Z.eqb_spec (size mod PAGE_SIZE) 0); [|done].
  destruct (Z.eqb_spec (address mod PAGE_SIZE) 0); [|done]. tauto.
Qed.

Lemma aligned_dec x : {x mod PAGE_SIZE = 0} + {x mod PAGE_SIZE <> 0}.
Proof. apply Z.eq_dec. Qed.

Lemma VMSpace_init_well_formed start size : well_formed (VMSpace_init start size).
Proof. eexists. apply VMSpace_init_rep. Qed.

Lemma VMSpace_init_node_list start size :
  node_list (VMSpace_init start size) = [Node start size false].
Proof. by rewrite (rep_node_list _ _ (VMSpace_init_rep start size)). Qed.

(** ** Invariants of the functions on node lists *)

Lemma wrap_small x : 0 <= x < SIZE_MODULUS -> wrap x = x.
Proof. intros H. unfold wrap. by apply Z.mod_small. Qed.

Ltac unwrap :=
  repeat match goal with
  | |- context [wrap ?x] => rewrite (wrap_small x) by lia
  end.

Ltac chain_tac :=
  match goal with
  | H : chain ?y ?k ?e |- chain ?x ?k ?e => replace x with y by lia; exact H
  end.

Lemma wrap_range x : in_size_t (wrap x).
Proof. unfold in_size_t, wrap. apply Z.mod_pos_bound. done. Qed.

Lemma chain_end a l b : chain a l b -> b = a + total_size l /\ a <= b.
Proof.
  revert a. induction l as [|d l IH]; intros a; simpl.
  - lia.
  - intros (Hs & Hz & Hc). apply IH in Hc. lia.
Qed.

Lemma chain_app a l1 l2 b :
  chain a (l1 ++ l2) b <->
  chain a l1 (a + total_size l1) /\ chain (a + total_size l1) l2 b.
Proof.
  revert a. induction l1 as [|d l1 IH]; intros a; simpl.
  - rewrite Z.add_0_r. tauto.
  - rewrite IH. rewrite !Z.add_assoc. tauto.
Qed.

Lemma total_size_app l1 l2 : total_size (l1 ++ l2) = total_size l1 + total_size l2.
Proof. induction l1 as [|d l1 IH]; simpl; lia. Qed.

Lemma used_bytes_app l1 l2 : used_bytes (l1 ++ l2) = used_bytes l1 + used_bytes l2.
Proof. induction l1 as [|d l1 IH]; simpl; lia. Qed.

Lemma chain_size_nonneg a l b : chain a l b -> 0 <= total_size l.
Proof. intros H%chain_end. lia. Qed.

Lemma used_bytes_bound a l b :
  chain a l b -> 0 <= used_bytes l <= total_size l.
Proof.
  revert a. induction l as [|d l IH]; intros a; simpl; [lia|].
  intros (Hs & Hz & Hc). apply IH in Hc. destruct (n_used d); lia.
Qed.

Lemma no_free_pair_weaken pf l : no_free_pair pf l -> no_free_pair false l.
Proof. destruct l; simpl; [done|]. intros [_ ?]. done. Qed.

Lemma last_free_cons pf d l : last_free pf (d :: l) = last_free (negb (n_used d)) l.
Proof.
  unfold last_free. destruct l as [|d' l]; [done|].
  rewrite last_cons. by destruct (last (d' :: l)).
Qed.

Lemma last_free_snoc pf l d : last_free pf (l ++ [d]) = negb (n_used d).
Proof. unfold last_free. by rewrite last_snoc. Qed.

Lemma no_free_pair_app pf l1 l2 :
  no_free_pair pf (l1 ++ l2) <->
  no_free_pair pf l1 /\ no_free_pair (last_free pf l1) l2.
Proof.
  revert pf. induction l1 as [|d l1 IH]; intros pf; simpl.
  - unfold last_free. simpl. tauto.
  - rewrite IH, last_free_cons. tauto.
Qed.

(** *** [alloc_nodes] *)

Lemma alloc_nodes_first_fit size l1 d l2 :
  Forall (fun x => fits size x = false) l1 -> fits size d = true ->
  alloc_nodes size (l1 ++ d :: l2)
  = Some (n_start d, l1 ++ alloc_result size d ++ l2).
Proof.
  intros Hl1 Hd. induction Hl1 as [|x l1 Hx _ IH]; simpl.
  - rewrite Hd. unfold alloc_result. by destruct (n_size d =? size).
  - by rewrite Hx, IH.
Qed.

Lemma alloc_nodes_None size l :
  alloc_nodes size l = None <-> Forall (fun x => fits size x = false) l.
Proof.
  induction l as [|d l IH]; simpl.
  - split; [constructor|done].
  - destruct (fits size d) eqn:Hd.
    + split; [by destruct (n_size d =? size)|].
      intros H. apply Forall_cons in H as [H _]. congruence.
    + destruct (alloc_nodes size l) as [[a r]|].
      * split; [done|]. intros H. apply Forall_cons in H as [_ H].
        apply IH in H. done.
      * split; [|done]. intros _. constructor; [done|]. by apply IH.
Qed.

Lemma alloc_nodes_Some size l a r :
  alloc_nodes size l = Some (a, r) ->
  exists l1 d l2,
    l = l1 ++ d :: l2 /\
    Forall (fun x => fits size x = false) l1 /\ fits size d = true /\
    a = n_start d /\ r = l1 ++ alloc_result size d ++ l2.
Proof.
  revert a r. induction l as [|d l IH]; intros a r; simpl; [done|].
  destruct (fits size d) eqn:Hd.
  - intros H. exists [], d, l. split; [done|]. split; [constructor|].
    split; [done|]. unfold alloc_result.
    destruct (n_size d =? size); by simplify_eq.
  - destruct (alloc_nodes size l) as [[a' r']|]; [|done].
    intros [= <- <-].
    destruct (IH _ _ eq_refl) as (l1 & d' & l2 & -> & Hl1 & Hd' & -> & ->).
    exists (d :: l1), d', l2. split; [done|]. split; [by constructor|]. done.
Qed.

Lemma alloc_nodes_inv size l : forall a b pf v r,
  0 <= size -> 0 <= a -> b < SIZE_MODULUS ->
  chain a l b -> no_free_pair pf l ->
  alloc_nodes size l = Some (v, r) ->
  chain a r b /\ no_free_pair pf r /\ used_bytes r = used_bytes l + size.
Proof.
  induction l as [|d l IH]; intros a b pf v r Hsz Ha Hb Hch Hnf; simpl; [done|].
  simpl in Hch, Hnf. destruct Hch as (Hs & Hz & Hch). destruct Hnf as (Hpf & Hnf).
  pose proof (chain_end _ _ _ Hch) as [_ Hle].
  destruct (fits size d) eqn:Hd.
  - apply andb_prop in Hd as [Hu Hfit].
    apply negb_true_iff in Hu. apply Z.leb_le in Hfit. rewrite Hu in *. simpl in *.
    destruct (Z.eqb_spec (n_size d) size) as [Heq|Hne]; intros [= <- <-]; simpl.
    + repeat split; try done; try lia. by eapply no_free_pair_weaken.
    + rewrite !wrap_small by lia.
      repeat split; try done; try lia.
      replace (a + size + (n_size d - size)) with (a + n_size d) by lia. done.
  - destruct (alloc_nodes size l) as [[a' r']|] eqn:Hal; [|done].
    intros [= <- <-].
    destruct (IH (a + n_size d) b _ _ _ Hsz ltac:(lia) Hb Hch Hnf eq_refl)
      as (Hch' & Hnf' & Hub).
    simpl. repeat split; try done. lia.
Qed.

(** *** [alloc_at_nodes] *)

Lemma alloc_at_nodes_Some size address l a r :
  alloc_at_nodes size address l = Some (a, r) ->
  exists l1 d l2,
    l = l1 ++ d :: l2 /\
    Forall (fun x => n_contains address x = false) l1 /\
    n_contains address d = true /\ n_used d = false /\
    (n_size d = size \/ size <= wrap (n_size d - wrap (address - n_start d))) /\
    a = (if n_size d =? size then n_start d else address) /\
    r = l1 ++ alloc_at_result size address d ++ l2.
Proof.
  revert a r. induction l as [|d l IH]; intros a r; simpl; [done|].
  destruct (n_contains address d) eqn:Hd.
  - destruct (n_used d) eqn:Hu; [done|]. unfold alloc_at_result.
    destruct (Z.eqb_spec (n_size d) size) as [Heq|Hne].
    + intros [= <- <-]. exists [], d, l. rewrite Heq, Z.eqb_refl.
      repeat split; try done; eauto.
    + destruct (Z.geb_spec (wrap (n_size d - wrap (address - n_start d))) size);
        [|done].
      intros [= <- <-]. exists [], d, l.
      destruct (Z.eqb_spec (n_size d) size); [done|].
      rewrite <- !app_assoc. repeat split; try done; eauto.
  - destruct (alloc_at_nodes size address l) as [[a' r']|]; [|done].
    intros [= <- <-].
    destruct (IH _ _ eq_refl) as (l1 & d' & l2 & -> & Hl1 & Hd' & Hu & Hsz & -> & ->).
    exists (d :: l1), d', l2. repeat split; try done. by constructor.
Qed.

Lemma alloc_at_nodes_found size address l1 d l2 :
  Forall (fun x => n_contains address x = false) l1 ->
  n_contains address d = true -> n_used d = false ->
  n_size d = size \/ size <= wrap (n_size d - wrap (address - n_start d)) ->
  alloc_at_nodes size address (l1 ++ d :: l2)
  = Some (if n_size d =? size then n_start d else address,
          l1 ++ alloc_at_result size address d ++ l2).
Proof.
  intros Hl1 Hd Hu Hsz. induction Hl1 as [|x l1 Hx _ IH]; simpl.
  - rewrite Hd, Hu. unfold alloc_at_result.
    destruct (Z.eqb_spec (n_size d) size); [done|].
    destruct (Z.geb_spec (wrap (n_size d - wrap (address - n_start d))) size);
      [|lia].
    by rewrite <- !app_assoc.
  - by rewrite Hx, IH.
Qed.

Lemma alloc_at_nodes_inv size address l : forall a b pf v r,
  0 <= size -> 0 <= a -> b < SIZE_MODULUS ->
  chain a l b -> no_free_pair pf l ->
  alloc_at_nodes size address l = Some (v, r) ->
  chain a r b /\ no_free_pair pf r /\ used_bytes r = used_bytes l + size.
Proof.
  induction l as [|d l IH]; intros a b pf v r Hsz Ha Hb Hch Hnf; simpl; [done|].
  simpl in Hch, Hnf. destruct Hch as (Hs & Hz & Hch). destruct Hnf as (Hpf & Hnf).
  pose proof (chain_end _ _ _ Hch) as [_ Hle].
  destruct (n_contains address d) eqn:Hd.
  - destruct (n_used d) eqn:Hu; [done|]. simpl in *.
    assert (pf = false) as -> by (destruct pf; [by specialize (Hpf eq_refl)|done]).
    unfold n_contains, n_end in Hd. rewrite wrap_small in Hd by lia.
    apply andb_prop in Hd as [Hd1 Hd2]. apply Z.leb_le in Hd1. apply Z.ltb_lt in Hd2.
    destruct (Z.eqb_spec (n_size d) size) as [Heq|Hne].
    + intros [= <- <-]; simpl.
      repeat split; try done; try lia. by eapply no_free_pair_weaken.
    + unwrap.
      destruct (Z.geb_spec (n_size d - (address - n_start d)) size); [|done].
      intros [= <- <-]. unfold at_prefix, at_suffix, n_end.
      unwrap.
      destruct (Z.ltb_spec (n_start d) address);
        destruct (Z.gtb_spec (n_start d + n_size d) (address + size));
        simpl; rewrite ?Hu; simpl;
        repeat split; try done; try lia.
      all: try (by eapply no_free_pair_weaken).
      all: match goal with
           | H : chain ?y ?k ?e |- chain ?x ?k ?e =>
               replace x with y by lia; exact H
           end.
  - destruct (alloc_at_nodes size address l) as [[a' r']|] eqn:Hal; [|done].
    intros [= <- <-].
    destruct (IH (a + n_size d) b _ _ _ Hsz ltac:(lia) Hb Hch Hnf eq_refl)
      as (Hch' & Hnf' & Hub).
    simpl. repeat split; try done. lia.
Qed.

(** *** [free_nodes] *)

Lemma free_nodes_Some size address l : forall pre r,
  free_nodes size address pre l = Some r ->
  exists l1 d l2,
    l = l1 ++ d :: l2 /\
    Forall (fun x => n_start x <> address) l1 /\
    n_start d = address /\ n_size d = size /\
    r = free_result (pre ++ l1) d l2.
Proof.
  induction l as [|d l IH]; intros pre r; simpl; [done|].
  destruct (Z.eqb_spec (n_start d) address) as [Hs|Hs].
  - destruct (Z.eqb_spec (n_size d) size) as [Hz|Hz]; [|done].
    intros H. exists [], d, l. rewrite app_nil_r.
    repeat split; try done. unfold free_result.
    destruct (merge_previous_nodes _ _) as [pre' d1].
    destruct (merge_next_nodes _ _) as [d2 l'']. by simplify_eq.
  - intros H. destruct (IH _ _ H) as (l1 & d' & l2 & -> & Hl1 & Hs' & Hz' & ->).
    exists (d :: l1), d', l2. rewrite <- app_assoc.
    repeat split; try done. by constructor.
Qed.

Lemma free_nodes_found size address l1 d l2 : forall pre,
  Forall (fun x => n_start x <> address) l1 ->
  n_start d = address -> n_size d = size ->
  free_nodes size address pre (l1 ++ d :: l2)
  = Some (free_result (pre ++ l1) d l2).
Proof.
  intros pre Hl1 Hs Hz. revert pre.
  induction Hl1 as [|x l1 Hx _ IH]; intros pre; simpl.
  - rewrite app_nil_r. destruct (Z.eqb_spec (n_start d) address); [|done].
    destruct (Z.eqb_spec (n_size d) size); [|done]. unfold free_result.
    destruct (merge_previous_nodes _ _) as [pre' d1].
    by destruct (merge_next_nodes _ _) as [d2 l''].
  - destruct (Z.eqb_spec (n_start x) address); [done|].
    by rewrite IH, <- app_assoc.
Qed.

Lemma free_result_inv a b pre d l :
  0 <= a -> b < SIZE_MODULUS ->
  chain a (pre ++ d :: l) b -> no_free_pair false (pre ++ d :: l) ->
  chain a (free_result pre d l) b /\
  no_free_pair false (free_result pre d l) /\
  used_bytes (free_result pre d l)
  = used_bytes (pre ++ d :: l) - (if n_used d then n_size d else 0).
Proof.
  intros Ha Hb Hch Hnf.
  apply chain_app in Hch as [Hc1 Hc2]. simpl in Hc2.
  destruct Hc2 as (Hs & Hz & Hc2).
  apply no_free_pair_app in Hnf as [Hn1 Hn2]. simpl in Hn2.
  destruct Hn2 as (Hlf & Hn2).
  pose proof (chain_end _ _ _ Hc1) as [_ Hle1].
  pose proof (chain_end _ _ _ Hc2) as [_ Hle2].
  pose proof (chain_size_nonneg _ _ _ Hc1) as Hp0.
  unfold free_result.
  (* merging the previous node *)
  assert (exists pre1 d1,
    merge_previous_nodes pre (Node (n_start d) (n_size d) false) = (pre1, d1) /\
    n_used d1 = false /\ 0 <= n_size d1 /\
    chain a pre1 (n_start d1) /\ n_start d1 + n_size d1 = n_start d + n_size d /\
    no_free_pair false pre1 /\ last_free false pre1 = false /\
    used_bytes pre1 = used_bytes pre) as (pre1 & d1 & -> & Hu1 & Hz1 & Hch1 & He1 & Hnf1 & Hlf1 & Hub1).
  { unfold merge_previous_nodes.
    destruct (snoc_cases pre) as [->|(pre' & dp & ->)].
    - simpl in *. eexists [], _. repeat split; simpl; try done; lia.
    - rewrite last_snoc. rewrite last_free_snoc in Hlf.
      apply chain_app in Hc1 as [Hc1 Hc1']. simpl in Hc1'.
      destruct Hc1' as (Hsp & Hzp & Hep).
      apply no_free_pair_app in Hn1 as [Hn1 Hn1']. simpl in Hn1'.
      destruct Hn1' as (Hlfp & _).
      rewrite total_size_app in *. simpl in *.
      pose proof (chain_end _ _ _ Hc1) as [_ Hle0].
      pose proof (chain_size_nonneg _ _ _ Hc1) as Hp0'.
      destruct (n_used dp) eqn:Hup.
      + eexists _, _. split; [done|]. simpl.
        rewrite last_free_snoc, Hup, used_bytes_app. simpl.
        repeat split; try done; try lia.
        * apply chain_app. simpl. repeat split; try done; lia.
        * apply no_free_pair_app. simpl. done.
      + eexists _, _. rewrite removelast_last. split; [done|]. simpl.
        unwrap. rewrite used_bytes_app. simpl. rewrite Hup.
        repeat split; try done; try lia.
        * replace (n_start d - n_size dp) with (a + total_size pre') by lia. done.
        * destruct (last_free false pre'); [|done]. by specialize (Hlfp eq_refl). }
  (* merging the next node *)
  assert (exists d2 l2,
    merge_next_nodes d1 l = (d2, l2) /\
    n_used d2 = false /\ 0 <= n_size d2 /\ n_start d2 = n_start d1 /\
    chain (n_start d2 + n_size d2) l2 b /\
    no_free_pair true l2 /\ used_bytes l2 = used_bytes l)
    as (d2 & l2 & -> & Hu2 & Hz2 & Hs2 & Hch2 & Hnf2 & Hub2).
  { pose proof (chain_end _ _ _ Hch1) as [_ Hle4].
    unfold merge_next_nodes. destruct l as [|dn l'].
    - eexists _, _. split; [done|]. repeat split; try done.
      simpl in *. lia.
    - simpl in Hc2, Hn2. destruct Hc2 as (Hsn & Hzn & Hc2). destruct Hn2 as (Hun & Hn2).
      pose proof (chain_end _ _ _ Hc2) as [_ Hle3].
      destruct (n_used dn) eqn:Hudn.
      + eexists _, _. split; [done|]. simpl. rewrite Hudn.
        repeat split; try done; try lia; try chain_tac.
      + eexists _, _. split; [done|]. simpl. unwrap. rewrite Hudn.
        repeat split; try done; try lia; try chain_tac. }
  split; [|split].
  - apply chain_app. pose proof (chain_end _ _ _ Hch1) as [E _].
    rewrite <- E. split; [done|]. simpl. rewrite Hs2 in Hch2. done.
  - apply no_free_pair_app. split; [done|]. rewrite Hlf1. simpl. by rewrite Hu2.
  - rewrite !used_bytes_app. simpl. rewrite Hu2, Hub1, Hub2.
    destruct (n_used d); lia.
Qed.

(** *** From the inductive invariants to the properties on positions *)

Lemma chain_lookup a l b (i : nat) d :
  chain a l b -> l !! i = Some d ->
  a <= n_start d /\ 0 <= n_size d /\ n_start d + n_size d <= b.
Proof.
  revert a i. induction l as [|x l IH]; intros a i Hch Hi; [done|].
  simpl in Hch. destruct Hch as (Hs & Hz & Hch).
  pose proof (chain_end _ _ _ Hch) as [_ Hle].
  destruct i as [|i]; simpl in Hi.
  - simplify_eq. lia.
  - destruct (IH _ _ Hch Hi) as (? & ? & ?). lia.
Qed.

Lemma chain_ordered a l b (i j : nat) d1 d2 :
  chain a l b -> (i < j)%nat -> l !! i = Some d1 -> l !! j = Some d2 ->
  0 <= n_size d1 /\ 0 <= n_size d2 /\ n_start d1 + n_size d1 <= n_start d2.
Proof.
  revert a i j. induction l as [|x l IH]; intros a i j Hch Hij Hi Hj; [done|].
  simpl in Hch. destruct Hch as (Hs & Hz & Hch).
  destruct j as [|j]; [lia|]. simpl in Hj.
  destruct i as [|i]; simpl in Hi.
  - simplify_eq. destruct (chain_lookup _ _ _ _ _ Hch Hj) as (? & ? & ?). lia.
  - eapply IH; [done| |done..]. lia.
Qed.

Lemma chain_sorted a l b : chain a l b -> sorted_by_start l.
Proof.
  intros Hch i j d1 d2 Hij Hi Hj.
  destruct (chain_ordered _ _ _ _ _ _ _ Hch Hij Hi Hj) as (? & ? & ?). lia.
Qed.

Lemma chain_non_overlapping a l b : chain a l b -> non_overlapping l.
Proof.
  intros Hch i j d1 d2 x Hij Hi Hj [H1 H2].
  destruct (decide (i < j)%nat).
  - destruct (chain_ordered _ _ _ _ _ _ _ Hch ltac:(done) Hi Hj) as (? & ? & ?). lia.
  - destruct (chain_ordered _ _ _ j i _ _ Hch ltac:(lia) Hj Hi) as (? & ? & ?). lia.
Qed.

Lemma chain_contiguous a l b : chain a l b -> contiguous l.
Proof.
  revert a. induction l as [|x l IH]; intros a Hch i d1 d2 Hi Hj; [done|].
  simpl in Hch. destruct Hch as (Hs & Hz & Hch).
  destruct i as [|i]; simpl in Hi, Hj.
  - simplify_eq. destruct l as [|y l]; [done|]. simpl in Hj, Hch. simplify_eq.
    by destruct Hch as (-> & _).
  - by eapply IH.
Qed.

Lemma no_free_pair_adjacent pf l : no_free_pair pf l -> no_adjacent_free l.
Proof.
  revert pf. induction l as [|x l IH]; intros pf Hnf i d1 d2 Hi Hj; [done|].
  simpl in Hnf. destruct Hnf as (_ & Hnf).
  destruct i as [|i]; simpl in Hi, Hj.
  - simplify_eq. destruct l as [|y l]; [done|]. simpl in Hj, Hnf. simplify_eq.
    destruct Hnf as (H & _). destruct (n_used d1); [by left|right; by apply H].
  - by eapply IH.
Qed.

(** *** Every call keeps the invariant *)

Lemma find_first address (l1 : list node) d l2 :
  Forall (fun x => n_start x <> address) l1 -> n_start d = address ->
  List.find (fun d => n_start d =? address) (l1 ++ d :: l2) = Some d.
Proof.
  intros Hl1 Hd. induction Hl1 as [|x l1 Hx _ IH]; simpl.
  - by rewrite Hd, Z.eqb_refl.
  - by destruct (Z.eqb_spec (n_start x) address).
Qed.

Lemma VMSpace_init_inv start size :
  valid_space start size -> state_inv start size (VMSpace_init start size).
Proof.
  intros (H1 & H2 & H3). split; [apply VMSpace_init_well_formed|].
  rewrite VMSpace_init_node_list. simpl.
  repeat split; try done; unfold SIZE_MODULUS; lia.
Qed.

Lemma step_inv start size s r s' :
  valid_space start size ->
  state_inv start size s -> step s r s' ->
  state_inv start size s' /\
  (m_used s = used_bytes (node_list s) -> frees_used_node s r ->
   m_used s' = used_bytes (node_list s')).
Proof.
  intros (Hv1 & Hv2 & Hv3) (Hwf & Hch & Hnf & Hu) Hstep.
  pose proof (used_bytes_bound _ _ _ Hch) as Hub.
  pose proof (chain_end _ _ _ Hch) as [Htot _].
  destruct r as [sz|sz addr|sz addr]; simpl in Hstep.
  - destruct Hstep as ([Hsz0 Hsz1] & v & Hrun).
    destruct (aligned_dec sz) as [Hal|Hal];
      [|by rewrite alloc_space_unaligned in Hrun].
    pose proof (alloc_space_refines s sz Hwf Hal) as Href.
    destruct (alloc_nodes sz (node_list s)) as [[a r]|] eqn:Hnodes.
    + destruct Href as (s1 & Hrun1 & Hwf1 & Hl1 & Hu1).
      rewrite Hrun1 in Hrun. simplify_eq.
      destruct (alloc_nodes_inv _ _ _ _ _ _ _ Hsz0 Hv1 Hv3 Hch Hnf Hnodes)
        as (Hch' & Hnf' & Hub').
      split; [split; [done|]; split; [done|]; split; [done|]|].
      * rewrite Hu1. apply wrap_range.
      * intros Hm _. rewrite Hu1, Hub', Hm.
        pose proof (used_bytes_bound _ _ _ Hch') as Hb'.
        pose proof (chain_end _ _ _ Hch') as [Htot' _].
        apply wrap_small. lia.
    + rewrite Href in Hrun. simplify_eq. done.
  - destruct Hstep as ([Hsz0 Hsz1] & _ & v & Hrun).
    destruct (aligned_dec sz) as [Hal|Hal];
      [|rewrite alloc_space_at_unaligned in Hrun; [done|by left]].
    destruct (aligned_dec addr) as [Hal'|Hal'];
      [|rewrite alloc_space_at_unaligned in Hrun; [done|by right]].
    pose proof (alloc_space_at_refines s sz addr Hwf Hal Hal') as Href.
    destruct (alloc_at_nodes sz addr (node_list s)) as [[a r]|] eqn:Hnodes.
    + destruct Href as (s1 & Hrun1 & Hwf1 & Hl1 & Hu1).
      rewrite Hrun1 in Hrun. simplify_eq.
      destruct (alloc_at_nodes_inv _ _ _ _ _ _ _ _ Hsz0 Hv1 Hv3 Hch Hnf Hnodes)
        as (Hch' & Hnf' & Hub').
      split; [split; [done|]; split; [done|]; split; [done|]|].
      * rewrite Hu1. apply wrap_range.
      * intros Hm _. rewrite Hu1, Hub', Hm.
        pose proof (used_bytes_bound _ _ _ Hch') as Hb'.
        pose proof (chain_end _ _ _ Hch') as [Htot' _].
        apply wrap_small. lia.
    + rewrite Href in Hrun. simplify_eq. done.
  - destruct Hstep as ([Hsz0 Hsz1] & _ & v & Hrun).
    destruct (aligned_dec sz) as [Hal|Hal];
      [|rewrite free_space_unaligned in Hrun; [done|by left]].
    destruct (aligned_dec addr) as [Hal'|Hal'];
      [|rewrite free_space_unaligned in Hrun; [done|by right]].
    pose proof (free_space_refines s sz addr Hwf Hal Hal') as Href.
    destruct (free_nodes sz addr [] (node_list s)) as [r|] eqn:Hnodes;
      [|by rewrite Href in Hrun].
    destruct Href as (s1 & Hrun1 & Hwf1 & Hnl & Hu1).
    rewrite Hrun1 in Hrun. injection Hrun as _ <-.
    destruct (free_nodes_Some _ _ _ _ _ Hnodes) as (l1 & d & l2 & Hl & Hl1 & Hs & Hz & Hr).
    simpl in Hr. rewrite Hl in Hch, Hnf.
    destruct (free_result_inv _ _ _ _ _ Hv1 Hv3 Hch Hnf) as (Hch' & Hnf' & Hub').
    rewrite <- Hr, <- Hnl in Hch', Hnf', Hub'.
    split; [split; [done|]; split; [done|]; split; [done|]|].
    + rewrite Hu1. apply wrap_range.
    + intros Hm (d' & Hfind & Hused). rewrite Hl in Hfind.
      rewrite (find_first _ _ _ _ Hl1 Hs) in Hfind. simplify_eq.
      pose proof (used_bytes_bound _ _ _ Hch') as Hb'.
      pose proof (chain_end _ _ _ Hch') as [Htot' _].
      rewrite Hu1, Hub', Hm, Hl, Hused.
      rewrite Hub', Hused in Hb'.
      apply wrap_small. lia.
Qed.

Lemma reachable_by_inv ok start size s :
  valid_space start size -> reachable_by ok start size s -> state_inv start size s.
Proof.
  intros Hv Hr. induction Hr as [|s r s' _ IH _ Hstep].
  - by apply VMSpace_init_inv.
  - by destruct (step_inv _ _ _ _ _ Hv IH Hstep).
Qed.

Lemma reachable_used_bytes start size s :
  valid_space start size -> reachable_without_stray_free start size s ->
  m_used s = used_bytes (node_list s).
Proof.
  intros Hv Hr. induction Hr as [|s r s' Hr IH Hok Hstep].
  - by rewrite VMSpace_init_node_list.
  - pose proof (reachable_by_inv _ _ _ _ Hv Hr) as Hinv.
    destruct (step_inv _ _ _ _ _ Hv Hinv Hstep) as [_ H]. by apply H.
Qed.

(** *** [alloc_at_nodes] followed by [free_nodes] *)

Lemma chain_starts_below a l m :
  chain a l m -> Forall (fun x => 0 < n_size x) l ->
  Forall (fun x => n_start x < m) l.
Proof.
  revert a. induction l as [|x l IH]; intros a Hch Hpos; [constructor|].
  simpl in Hch. destruct Hch as (Hs & Hz & Hch).
  apply Forall_cons in Hpos as [Hx Hpos].
  pose proof (chain_end _ _ _ Hch) as [_ Hle].
  constructor; [lia|]. by eapply IH.
Qed.

Lemma merge_previous_nodes_used pre d :
  last_free false pre = false -> merge_previous_nodes pre d = (pre, d).
Proof.
  unfold merge_previous_nodes, last_free.
  destruct (last pre) as [dp|]; [|done].
  intros H. apply negb_false_iff in H. by rewrite H.
Qed.

Lemma merge_next_nodes_used d l :
  no_free_pair true l -> merge_next_nodes d l = (d, l).
Proof.
  unfold merge_next_nodes. destruct l as [|dn l]; [done|]. simpl.
  intros [H _]. by rewrite H.
Qed.

Lemma node_eq s1 s2 z1 z2 u : s1 = s2 -> z1 = z2 -> Node s1 z1 u = Node s2 z2 u.
Proof. by intros -> ->. Qed.

Lemma alloc_at_free_nodes a b l size address r :
  0 <= a -> b < SIZE_MODULUS -> 0 <= size ->
  chain a l b -> no_free_pair false l ->
  Forall (fun d => 0 < n_size d) l ->
  alloc_at_nodes size address l = Some (address, r) ->
  free_nodes size address [] r = Some l.
Proof.
  intros Ha Hb Hsz Hch Hnf Hpos Hal.
  destruct (alloc_at_nodes_Some _ _ _ _ _ Hal)
    as (l1 & d & l2 & -> & Hl1 & Hd & Hu & Hfit & Haddr & ->).
  apply chain_app in Hch as [Hc1 Hc2]. simpl in Hc2.
  destruct Hc2 as (Hs & Hz & Hc2).
  pose proof (chain_end _ _ _ Hc1) as [_ Hle1].
  pose proof (chain_end _ _ _ Hc2) as [_ Hle2].
  apply Forall_app in Hpos as [Hpos1 _].
  pose proof (chain_starts_below _ _ _ Hc1 Hpos1) as Hbelow.
  apply no_free_pair_app in Hnf as [Hn1 Hn2]. simpl in Hn2.
  destruct Hn2 as (Hlf & Hn2). rewrite Hu in Hn2, Hlf. simpl in Hn2.
  assert (Hlf' : last_free false l1 = false).
  { destruct (last_free false l1); [by specialize (Hlf eq_refl)|done]. }
  unfold n_contains, n_end in Hd. rewrite wrap_small in Hd by lia.
  apply andb_prop in Hd as [Hd1 Hd2]. apply Z.leb_le in Hd1. apply Z.ltb_lt in Hd2.
  destruct d as [ds dz du]. simpl in *. subst du.
  unfold alloc_at_result in *. simpl in *.
  destruct (Z.eqb_spec dz size) as [->|Hne].
  - subst address. simpl.
    rewrite (free_nodes_found size ds l1 (Node ds size true) l2 []); try done.
    + unfold free_result. simpl.
      rewrite merge_previous_nodes_used by done.
      rewrite merge_next_nodes_used by done. done.
    + eapply Forall_impl; [exact Hbelow|]. simpl. intros x Hx. lia.
  - destruct Hfit as [?|Hfit]; [done|]. revert Hfit. unwrap. intros Hfit.
    unfold at_prefix, at_suffix, n_end. simpl. unwrap.
    destruct (Z.ltb_spec ds address) as [Hlt|Hge];
      destruct (Z.gtb_spec (ds + dz) (address + size)) as [Hgt|Hle]; simpl.
    + (* a prefix and a suffix *)
      rewrite (cons_middle (Node ds (address - ds) false) l1), app_assoc.
      rewrite (free_nodes_found size address
                 (l1 ++ [Node ds (address - ds) false])
                 (Node address size true)
                 (Node (address + size) (ds + dz - (address + size)) false :: l2) []);
        try done.
      * unfold free_result. simpl. unfold merge_previous_nodes.
        rewrite last_snoc. simpl. rewrite removelast_last. simpl. unwrap.
        do 3 f_equal. apply node_eq; lia.
      * apply Forall_app. split.
        -- eapply Forall_impl; [exact Hbelow|]. simpl. intros x Hx. lia.
        -- constructor; [simpl; lia|constructor].
    + (* a prefix, no suffix *)
      rewrite (cons_middle (Node ds (address - ds) false) l1), app_assoc.
      rewrite (free_nodes_found size address
                 (l1 ++ [Node ds (address - ds) false])
                 (Node address size true) l2 []); try done.
      * unfold free_result. simpl. unfold merge_previous_nodes.
        rewrite last_snoc. simpl. rewrite removelast_last.
        rewrite merge_next_nodes_used by done. unwrap.
        do 3 f_equal. apply node_eq; lia.
      * apply Forall_app. split.
        -- eapply Forall_impl; [exact Hbelow|]. simpl. intros x Hx. lia.
        -- constructor; [simpl; lia|constructor].
    + (* no prefix, a suffix *)
      assert (address = ds) as -> by lia.
      rewrite (free_nodes_found size ds l1 (Node ds size true)
                 (Node (ds + size) (ds + dz - (ds + size)) false :: l2) []);
        try done.
      * unfold free_result. simpl.
        rewrite merge_previous_nodes_used by done. simpl. unwrap.
        do 3 f_equal. apply node_eq; lia.
      * eapply Forall_impl; [exact Hbelow|]. simpl. intros x Hx. lia.
    + (* neither *)
      assert (address = ds) as -> by lia.
      rewrite (free_nodes_found size ds l1 (Node ds size true) l2 []); try done.
      * unfold free_result. simpl.
        rewrite merge_previous_nodes_used by done.
        rewrite merge_next_nodes_used by done.
        do 3 f_equal. apply node_eq; lia.
      * eapply Forall_impl; [exact Hbelow|]. simpl. intros x Hx. lia.
Qed.

(** * The claims *)

(** ** Range allocator *)

(** The two range-list scenarios of the design document, run on the
    pointer-level code. *)
Example scenario_split_coalesce :
  observe ((let* a := alloc_space 4096 in
            let* b := alloc_space 8192 in
            (free_space 4096 4096 ;;; free_space 8192 8192 ;;; ret (a, b)))
             (VMSpace_init 4096 61440))
  = Some ((Value 4096, Value 8192), [Node 4096 61440 false], 0).
Proof. vm_compute. reflexivity. Qed.

Example scenario_fixed_allocation :
  observe (alloc_space_at 4096 16384 (VMSpace_init 0 65536))
  = Some (Value 16384,
          [Node 0 16384 false; Node 16384 4096 true; Node 20480 45056 false],
          4096).
Proof. vm_compute. reflexivity. Qed.

(** On a well-formed store a call returns or stops at an [ASSERT]: it never
    follows a dangling pointer and never exhausts the loop bound. *)
Lemma calls_return_or_panic s size address :
  well_formed s ->
  ((exists v s', alloc_space size s = Done v s') \/ alloc_space size s = Panic) /\
  ((exists v s', alloc_space_at size address s = Done v s') \/
   alloc_space_at size address s = Panic) /\
  ((exists v s', free_space size address s = Done v s') \/
   free_space size address s = Panic).
Proof.
  intros Hwf.
  destruct (aligned_dec size) as [Hs|Hs]; destruct (aligned_dec address) as [Ha|Ha].
  - pose proof (alloc_space_refines s size Hwf Hs) as H1.
    pose proof (alloc_space_at_refines s size address Hwf Hs Ha) as H2.
    pose proof (free_space_refines s size address Hwf Hs Ha) as H3.
    repeat split.
    + destruct (alloc_nodes _ _) as [[a r]|];
        [destruct H1 as (s' & -> & _)|rewrite H1]; left; eauto.
    + destruct (alloc_at_nodes _ _ _) as [[a r]|];
        [destruct H2 as (s' & -> & _)|rewrite H2]; left; eauto.
    + destruct (free_nodes _ _ _ _) as [r|];
        [destruct H3 as (s' & -> & _); left; eauto|by right].
  - pose proof (alloc_space_refines s size Hwf Hs) as H1.
    rewrite alloc_space_at_unaligned, free_space_unaligned by (by right).
    repeat split; try (by right).
    destruct (alloc_nodes _ _) as [[a r]|];
      [destruct H1 as (s' & -> & _)|rewrite H1]; left; eauto.
  - rewrite alloc_space_unaligned, alloc_space_at_unaligned,
      free_space_unaligned by (done || by left).
    repeat split; by right.
  - rewrite alloc_space_unaligned, alloc_space_at_unaligned,
      free_space_unaligned by (done || by left).
    repeat split; by right.
Qed.

Lemma reachable_by_weaken (ok ok' : RangeMap -> request -> Prop) start size s :
  (forall s r, ok s r -> ok' s r) ->
  reachable_by ok start size s -> reachable_by ok' start size s.
Proof.
  intros Hok Hr. induction Hr as [|s r s' _ IH Hs Hstep].
  - constructor.
  - econstructor; eauto.
Qed.

Lemma scenario_state_reachable :
  reachable_without_stray_free 4096 61440 scenario_state.
Proof.
  eapply reach_step with (r := Alloc 8192);
    [eapply reach_step with (r := Alloc 4096); [apply reach_init|done|]|done|].
  - split; [unfold in_size_t, SIZE_MODULUS; lia|]. eexists. vm_compute. reflexivity.
  - split; [unfold in_size_t, SIZE_MODULUS; lia|]. eexists. vm_compute. reflexivity.
Qed.

Lemma size_t_4096 : in_size_t 4096.
Proof. unfold in_size_t, SIZE_MODULUS. lia. Qed.

Lemma size_t_0 : in_size_t 0.
Proof. unfold in_size_t, SIZE_MODULUS. lia. Qed.

(** C2, as stated, fails at the counter: [free_space] does not look at the
    [used] flag of the node it is given, so a [free] of a node that is
    already free (here the single free node of a fresh space) returns
    [SUCCESS] and subtracts from [m_used] all the same.  The state is
    reachable, its one node is free, and [m_used] is [2^32 - 0x1000]. *)
Lemma stray_free_breaks_used_counter :
  exists s',
    free_space 4096 0 (VMSpace_init 0 4096) = Done SUCCESS s' /\
    valid_space 0 4096 /\
    reachable 0 4096 s' /\
    node_list s' = [Node 0 4096 false] /\
    m_used s' = 4294963200 /\
    m_used s' <> used_bytes (node_list s').
Proof.
  pose proof (free_space_refines (VMSpace_init 0 4096) 4096 0
                (VMSpace_init_well_formed _ _) eq_refl eq_refl) as H.
  rewrite VMSpace_init_node_list in H. simpl in H.
  destruct H as (s' & Hrun & _ & Hl & Hu).
  exists s'. split; [done|]. split; [unfold valid_space, SIZE_MODULUS; lia|].
  split; [|split; [done|]].
  - eapply reach_step with (r := Free 4096 0); [apply reach_init|done|].
    split; [apply size_t_4096|]. split; [apply size_t_0|]. by eexists.
  - rewrite Hl, Hu. simpl. by vm_compute.
Qed.

(** C2 (amended): in every state reachable from the initial single free node
    by any sequence of [alloc_space], [alloc_space_at] and [free_space]
    calls, the node list is sorted by start, contiguous, non-overlapping,
    its sizes add up to the capacity and no two neighbours are both free;
    when every [free_space] of the sequence named a node in use, [m_used] is
    the sum of the sizes of the used nodes. *)
Theorem range_map_consistency start size s :
  valid_space start size ->
  reachable start size s ->
  sorted_by_start (node_list s) /\
  contiguous (node_list s) /\
  non_overlapping (node_list s) /\
  total_size (node_list s) = size /\
  no_adjacent_free (node_list s) /\
  (reachable_without_stray_free start size s ->
   m_used s = used_bytes (node_list s)).
Proof.
  intros Hv Hr.
  destruct (reachable_by_inv _ _ _ _ Hv Hr) as (Hwf & Hch & Hnf & Hu).
  split; [by eapply chain_sorted|].
  split; [by eapply chain_contiguous|].
  split; [by eapply chain_non_overlapping|].
  split; [apply chain_end in Hch; lia|].
  split; [by eapply no_free_pair_adjacent|].
  intros Hr'. by eapply reachable_used_bytes.
Qed.

Lemma range_map_consistency_witness :
  valid_space 4096 61440 /\
  reachable 4096 61440 scenario_state /\
  sorted_by_start (node_list scenario_state) /\
  contiguous (node_list scenario_state) /\
  non_overlapping (node_list scenario_state) /\
  total_size (node_list scenario_state) = 61440 /\
  no_adjacent_free (node_list scenario_state) /\
  (reachable_without_stray_free 4096 61440 scenario_state ->
   m_used scenario_state = used_bytes (node_list scenario_state)).
Proof.
  assert (Hv : valid_space 4096 61440) by (unfold valid_space, SIZE_MODULUS; lia).
  assert (Hr : reachable 4096 61440 scenario_state).
  { eapply reachable_by_weaken; [|apply scenario_state_reachable]. done. }
  split; [exact Hv|]. split; [exact Hr|].
  exact (range_map_consistency 4096 61440 scenario_state Hv Hr).
Defined.

Lemma find_Some_split {A} (f : A -> bool) l d :
  List.find f l = Some d ->
  exists l1 l2, l = l1 ++ d :: l2 /\ Forall (fun x => f x = false) l1 /\ f d = true.
Proof.
  induction l as [|x l IH]; simpl; [done|].
  destruct (f x) eqn:Hx.
  - intros [= ->]. exists [], l. split; [done|]. split; [constructor|done].
  - intros H. destruct (IH H) as (l1 & l2 & -> & Hl1 & Hd).
    exists (x :: l1), l2. split; [done|]. split; [by constructor|done].
Qed.

Lemma find_None_Forall {A} (f : A -> bool) l :
  List.find f l = None -> Forall (fun x => f x = false) l.
Proof.
  induction l as [|x l IH]; simpl; [constructor|].
  destruct (f x) eqn:Hx; [done|]. intros H. constructor; [done|by apply IH].
Qed.

(** C5: on a reachable state and for a page-aligned size, [alloc_space]
    takes the first free node that is large enough, scanning from the head.
    When that node has exactly the size asked for it becomes used; when it
    is larger, a used node of exactly that size is split off at its start
    and the rest stays a free node right after it.  The address returned is
    the start of the node taken, and no free node that fits starts lower.
    When no free node fits, the result is [ENOMEM] and the state is
    unchanged. *)
Theorem alloc_space_first_fit start size s sz :
  valid_space start size ->
  reachable start size s ->
  in_size_t sz ->
  sz mod PAGE_SIZE = 0 ->
  match List.find (fits sz) (node_list s) with
  | Some d =>
      exists l1 l2 s',
        node_list s = l1 ++ d :: l2 /\
        Forall (fun x => fits sz x = false) l1 /\
        n_used d = false /\ sz <= n_size d /\
        alloc_space sz s = Done (Value (n_start d)) s' /\
        node_list s' =
          l1 ++ (if decide (n_size d = sz)
                 then [Node (n_start d) sz true]
                 else [Node (n_start d) sz true;
                       Node (n_start d + sz) (n_size d - sz) false]) ++ l2 /\
        m_used s' = wrap (m_used s + sz) /\
        (forall x, x ∈ node_list s -> fits sz x = true -> n_start d <= n_start x)
  | None =>
      Forall (fun x => n_used x = true \/ n_size x < sz) (node_list s) /\
      alloc_space sz s = Done (Error ENOMEM) s
  end.
Proof.
  intros Hv Hr [Hsz0 Hsz1] Hal.
  destruct (reachable_by_inv _ _ _ _ Hv Hr) as (Hwf & Hch & Hnf & Hu).
  destruct Hv as (Hv1 & Hv2 & Hv3).
  pose proof (alloc_space_refines s sz Hwf Hal) as Href.
  destruct (List.find (fits sz) (node_list s)) as [d|] eqn:Hfind.
  - destruct (find_Some_split _ _ _ Hfind) as (l1 & l2 & Hl & Hl1 & Hd).
    rewrite Hl in Href. rewrite (alloc_nodes_first_fit _ _ _ _ Hl1 Hd) in Href.
    destruct Href as (s' & Hrun & _ & Hl' & Hu').
    pose proof Hd as Hd'. apply andb_prop in Hd' as [Hud Hfit].
    apply negb_true_iff in Hud. apply Z.leb_le in Hfit.
    exists l1, l2, s'. repeat split; try done.
    + rewrite Hl'. f_equal. f_equal. unfold alloc_result.
      rewrite Hl in Hch. apply chain_app in Hch as [Hc1 Hc2]. simpl in Hc2.
      destruct Hc2 as (Hs & Hz & Hc2).
      pose proof (chain_end _ _ _ Hc1) as [_ ?].
      pose proof (chain_end _ _ _ Hc2) as [_ ?].
      destruct (Z.eqb_spec (n_size d) sz) as [->|Hne].
      * by rewrite decide_True.
      * rewrite decide_False by done. by unwrap.
    + intros x Hx Hfx. rewrite Hl in Hx.
      apply list_elem_of_lookup in Hx as [j Hj].
      destruct (lt_eq_lt_dec j (length l1)) as [[Hlt|Heq]|Hgt].
      * rewrite lookup_app_l in Hj by done.
        apply list_elem_of_lookup_2 in Hj.
        rewrite Forall_forall in Hl1. rewrite (Hl1 x) in Hfx; done.
      * subst j. rewrite list_lookup_middle in Hj by done. by simplify_eq.
      * rewrite Hl in Hch.
        pose proof (chain_sorted _ _ _ Hch (length l1) j d x Hgt) as Hs.
        apply Hs; [by rewrite list_lookup_middle|done].
  - pose proof (find_None_Forall _ _ Hfind) as Hnone.
    rewrite (proj2 (alloc_nodes_None sz (node_list s)) Hnone) in Href.
    split; [|done].
    eapply Forall_impl; [exact Hnone|]. intros x Hx. unfold fits in Hx.
    destruct (n_used x); [by left|right]. simpl in Hx. by apply Z.leb_gt in Hx.
Qed.

Lemma alloc_space_first_fit_witness :
  valid_space 4096 61440 /\
  reachable 4096 61440 scenario_state /\
  in_size_t 4096 /\
  4096 mod PAGE_SIZE = 0 /\
  match List.find (fits 4096) (node_list scenario_state) with
  | Some d =>
      exists l1 l2 s',
        node_list scenario_state = l1 ++ d :: l2 /\
        Forall (fun x => fits 4096 x = false) l1 /\
        n_used d = false /\ 4096 <= n_size d /\
        alloc_space 4096 scenario_state = Done (Value (n_start d)) s' /\
        node_list s' =
          l1 ++ (if decide (n_size d = 4096)
                 then [Node (n_start d) 4096 true]
                 else [Node (n_start d) 4096 true;
                       Node (n_start d + 4096) (n_size d - 4096) false]) ++ l2 /\
        m_used s' = wrap (m_used scenario_state + 4096) /\
        (forall x, x ∈ node_list scenario_state -> fits 4096 x = true ->
                   n_start d <= n_start x)
  | None =>
      Forall (fun x => n_used x = true \/ n_size x < 4096) (node_list scenario_state) /\
      alloc_space 4096 scenario_state = Done (Error ENOMEM) scenario_state
  end.
Proof.
  assert (Hv : valid_space 4096 61440) by (unfold valid_space, SIZE_MODULUS; lia).
  assert (Hr : reachable 4096 61440 scenario_state).
  { eapply reachable_by_weaken; [|apply scenario_state_reachable]. done. }
  split; [exact Hv|]. split; [exact Hr|]. split; [exact size_t_4096|].
  split; [reflexivity|].
  exact (alloc_space_first_fit 4096 61440 scenario_state 4096 Hv Hr size_t_4096 eq_refl).
Defined.

(** C1: the code departs from the claim.  On the free node [[0, 0x2000)],
    [alloc_space_at(size = 0x2000, address = 0x1000)] finds that the node
    contains the address and has exactly the size asked for, marks the whole
    node used and returns the start of the node, [0], not the address asked
    for: the test [cur_region->size == size] does not look at where in the
    node the address lies.  (The path below it, which splits the node,
    returns [address].) *)
Theorem alloc_space_at_exact_size_ignores_address :
  exists s',
    alloc_space_at 8192 4096 (VMSpace_init 0 8192) = Done (Value 0) s' /\
    node_list s' = [Node 0 8192 true] /\
    m_used s' = 8192.
Proof.
  pose proof (alloc_space_at_refines (VMSpace_init 0 8192) 8192 4096
                (VMSpace_init_well_formed _ _) eq_refl eq_refl) as H.
  rewrite VMSpace_init_node_list in H.
  change (alloc_at_nodes 8192 4096 [Node 0 8192 false])
    with (Some (0, [Node 0 8192 true])) in H.
  destruct H as (s' & Hrun & _ & Hl & Hu). exists s'.
  split; [done|]. split; [done|]. rewrite Hu. reflexivity.
Qed.

(** C6, as stated, fails in two ways.  First, where [alloc_space_at] takes a
    whole node of exactly the size asked for without looking at the address
    (see C1), the range it reports is not the one asked for and the matching
    [free_space] finds no node at the address: it stops the kernel.  Second,
    a request of size zero is page-aligned and leaves a node of size zero
    behind; a later node can then start at the same address, and
    [free_space], which takes the first node starting at the address, meets
    the empty node and stops at [ASSERT(cur_region->size == size)]. *)
Lemma alloc_at_then_free_can_panic :
  (exists s1,
     alloc_space_at 8192 4096 (VMSpace_init 0 8192) = Done (Value 0) s1 /\
     free_space 8192 4096 s1 = Panic) /\
  (exists s0 s1,
     alloc_space 0 (VMSpace_init 0 8192) = Done (Value 0) s0 /\
     reachable 0 8192 s0 /\
     node_list s0 = [Node 0 0 true; Node 0 8192 false] /\
     alloc_space_at 4096 0 s0 = Done (Value 0) s1 /\
     free_space 4096 0 s1 = Panic).
Proof.
  split.
  - pose proof (alloc_space_at_refines (VMSpace_init 0 8192) 8192 4096
                  (VMSpace_init_well_formed _ _) eq_refl eq_refl) as H.
    rewrite VMSpace_init_node_list in H.
    change (alloc_at_nodes 8192 4096 [Node 0 8192 false])
      with (Some (0, [Node 0 8192 true])) in H.
    destruct H as (s1 & Hrun & Hwf & Hl & Hu). exists s1. split; [done|].
    pose proof (free_space_refines s1 8192 4096 Hwf eq_refl eq_refl) as H.
    rewrite Hl in H. exact H.
  - pose proof (alloc_space_refines (VMSpace_init 0 8192) 0
                  (VMSpace_init_well_formed _ _) eq_refl) as H.
    rewrite VMSpace_init_node_list in H.
    change (alloc_nodes 0 [Node 0 8192 false])
      with (Some (0, [Node 0 0 true; Node 0 8192 false])) in H.
    destruct H as (s0 & Hrun0 & Hwf0 & Hl0 & Hu0).
    pose proof (alloc_space_at_refines s0 4096 0 Hwf0 eq_refl eq_refl) as H.
    rewrite Hl0 in H.
    change (alloc_at_nodes 4096 0 [Node 0 0 true; Node 0 8192 false])
      with (Some (0, [Node 0 0 true; Node 0 4096 true; Node 4096 4096 false])) in H.
    destruct H as (s1 & Hrun1 & Hwf1 & Hl1 & Hu1).
    exists s0, s1. split; [done|]. split; [|split; [done|split; [done|]]].
    + eapply reach_step with (r := Alloc 0); [apply reach_init|done|].
      split; [apply size_t_0|]. by eexists.
    + pose proof (free_space_refines s1 4096 0 Hwf1 eq_refl eq_refl) as H.
      rewrite Hl1 in H. exact H.
Qed.

(** C6 (amended): on a reachable state none of whose nodes is empty, when
    [alloc_space_at(size, address)] succeeds and returns [address], the
    [free_space(size, address)] that follows succeeds and gives back the
    node list and the counter of the state before the allocation. *)
Theorem alloc_at_free_round_trip start size s sz addr s1 :
  valid_space start size ->
  reachable start size s ->
  Forall (fun d => 0 < n_size d) (node_list s) ->
  in_size_t sz -> in_size_t addr ->
  alloc_space_at sz addr s = Done (Value addr) s1 ->
  exists s2,
    free_space sz addr s1 = Done SUCCESS s2 /\
    node_list s2 = node_list s /\
    m_used s2 = m_used s.
Proof.
  intros Hv Hr Hpos [Hsz0 Hsz1] Haddr Hrun.
  destruct (reachable_by_inv _ _ _ _ Hv Hr) as (Hwf & Hch & Hnf & Hu).
  destruct Hv as (Hv1 & Hv2 & Hv3).
  destruct (aligned_dec sz) as [Hal|Hal];
    [|rewrite alloc_space_at_unaligned in Hrun; [done|by left]].
  destruct (aligned_dec addr) as [Hal'|Hal'];
    [|rewrite alloc_space_at_unaligned in Hrun; [done|by right]].
  pose proof (alloc_space_at_refines s sz addr Hwf Hal Hal') as Href.
  destruct (alloc_at_nodes sz addr (node_list s)) as [[a r]|] eqn:Hnodes;
    [|by rewrite Href in Hrun].
  destruct Href as (s1' & Hrun1 & Hwf1 & Hl1 & Hu1).
  rewrite Hrun1 in Hrun. injection Hrun as -> ->.
  pose proof (alloc_at_free_nodes _ _ _ _ _ _ Hv1 Hv3 Hsz0 Hch Hnf Hpos Hnodes)
    as Hfree.
  pose proof (free_space_refines s1 sz addr Hwf1 Hal Hal') as Href.
  rewrite Hl1, Hfree in Href.
  destruct Href as (s2 & Hrun2 & _ & Hl2 & Hu2).
  exists s2. split; [done|]. split; [done|].
  rewrite Hu2, Hu1. unfold wrap. rewrite Zminus_mod_idemp_l.
  replace (m_used s + sz - sz) with (m_used s) by lia.
  by apply Z.mod_small.
Qed.

Lemma alloc_at_free_round_trip_witness :
  valid_space 0 65536 /\
  reachable 0 65536 (VMSpace_init 0 65536) /\
  Forall (fun d => 0 < n_size d) (node_list (VMSpace_init 0 65536)) /\
  in_size_t 4096 /\ in_size_t 16384 /\
  alloc_space_at 4096 16384 (VMSpace_init 0 65536)
    = Done (Value 16384) fixed_alloc_state /\
  exists s2,
    free_space 4096 16384 fixed_alloc_state = Done SUCCESS s2 /\
    node_list s2 = node_list (VMSpace_init 0 65536) /\
    m_used s2 = m_used (VMSpace_init 0 65536).
Proof.
  assert (Hv : valid_space 0 65536) by (unfold valid_space, SIZE_MODULUS; lia).
  assert (Hr : reachable 0 65536 (VMSpace_init 0 65536)) by apply reach_init.
  assert (Hp : Forall (fun d => 0 < n_size d) (node_list (VMSpace_init 0 65536))).
  { rewrite VMSpace_init_node_list. constructor; [simpl; lia|constructor]. }
  assert (H1 : in_size_t 4096) by apply size_t_4096.
  assert (H2 : in_size_t 16384) by (unfold in_size_t, SIZE_MODULUS; lia).
  assert (Hrun : alloc_space_at 4096 16384 (VMSpace_init 0 65536)
                 = Done (Value 16384) fixed_alloc_state)
    by (vm_compute; reflexivity).
  repeat (split; [assumption|]).
  exact (alloc_at_free_round_trip 0 65536 (VMSpace_init 0 65536) 4096 16384
           fixed_alloc_state Hv Hr Hp H1 H2 Hrun).
Defined.

(** What [alloc_space_at] does on the path that splits a node, where the
    free node containing the address does not have exactly the size asked
    for:
    when the range fits in the node, the address returned is the address
    asked for, the range [[address, address + size)] becomes one used node,
    and what is left of the node before and after it stays free. *)
Lemma alloc_space_at_split_places_request start size s sz addr l1 d l2 :
  valid_space start size ->
  reachable start size s ->
  in_size_t sz -> sz mod PAGE_SIZE = 0 -> addr mod PAGE_SIZE = 0 ->
  node_list s = l1 ++ d :: l2 ->
  n_start d <= addr < n_start d + n_size d ->
  n_used d = false -> n_size d <> sz ->
  addr + sz <= n_start d + n_size d ->
  exists s',
    alloc_space_at sz addr s = Done (Value addr) s' /\
    node_list s' =
      l1 ++ (if decide (n_start d < addr)
             then [Node (n_start d) (addr - n_start d) false] else [])
         ++ [Node addr sz true]
         ++ (if decide (addr + sz < n_start d + n_size d)
             then [Node (addr + sz) (n_start d + n_size d - (addr + sz)) false]
             else [])
         ++ l2.
Proof.
  intros Hv Hr [Hsz0 Hsz1] Hal Hal' Hl [Hd1 Hd2] Hu Hne Hfit.
  destruct (reachable_by_inv _ _ _ _ Hv Hr) as (Hwf & Hch & Hnf & _).
  destruct Hv as (Hv1 & Hv2 & Hv3).
  rewrite Hl in Hch. apply chain_app in Hch as [Hc1 Hc2]. simpl in Hc2.
  destruct Hc2 as (Hs & Hz & Hc2).
  pose proof (chain_end _ _ _ Hc1) as [_ Hle1].
  pose proof (chain_end _ _ _ Hc2) as [_ Hle2].
  assert (Hl1 : Forall (fun x => n_contains addr x = false) l1).
  { apply Forall_forall. intros x Hx.
    apply list_elem_of_lookup in Hx as [j Hj].
    pose proof (lookup_lt_Some _ _ _ Hj) as Hlt.
    pose proof (chain_lookup _ _ _ _ _ Hc1 Hj) as (? & ? & ?).
    unfold n_contains, n_end. rewrite wrap_small by lia.
    apply andb_false_iff. right. apply Z.ltb_ge. lia. }
  assert (Hcont : n_contains addr d = true).
  { unfold n_contains, n_end. rewrite wrap_small by lia.
    apply andb_true_iff. split; [apply Z.leb_le|apply Z.ltb_lt]; lia. }
  assert (Hfit' : n_size d = sz \/ sz <= wrap (n_size d - wrap (addr - n_start d))).
  { right. unwrap. lia. }
  pose proof (alloc_space_at_refines s sz addr Hwf Hal Hal') as Href.
  rewrite Hl, (alloc_at_nodes_found _ _ _ _ _ Hl1 Hcont Hu Hfit') in Href.
  destruct Href as (s' & Hrun & _ & Hl' & _).
  destruct (Z.eqb_spec (n_size d) sz); [done|].
  exists s'. split; [done|]. rewrite Hl'. f_equal.
  unfold alloc_at_result, at_prefix, at_suffix, n_end.
  destruct (Z.eqb_spec (n_size d) sz); [done|]. unwrap.
  rewrite <- !app_assoc. f_equal; [|f_equal; f_equal].
  - destruct (Z.ltb_spec (n_start d) addr);
      [by rewrite decide_True|by rewrite decide_False by lia].
  - destruct (Z.gtb_spec (n_start d + n_size d) (addr + sz));
      [by rewrite decide_True by lia|by rewrite decide_False by lia].
Qed.

(** ** [VMSpace::map_object] *)

Section MapObject.
Context {PageDirectory : Type}.
Variable pd_map : VMRegion -> PageDirectory -> ResultRet unit * PageDirectory.

Lemma alloc_space_error s size e s' :
  well_formed s -> alloc_space size s = Done (Error e) s' ->
  e = ENOMEM /\ s' = s.
Proof.
  intros Hwf Hrun.
  destruct (aligned_dec size) as [Hal|Hal];
    [|by rewrite alloc_space_unaligned in Hrun].
  pose proof (alloc_space_refines s size Hwf Hal) as Href.
  destruct (alloc_nodes size (node_list s)) as [[a r]|].
  - destruct Href as (s1 & Hrun1 & _). congruence.
  - rewrite Href in Hrun. by simplify_eq.
Qed.

Lemma alloc_space_at_error s size address e s' :
  well_formed s -> alloc_space_at size address s = Done (Error e) s' ->
  e = ENOMEM /\ s' = s.
Proof.
  intros Hwf Hrun.
  destruct (aligned_dec size) as [Hal|Hal];
    [|rewrite alloc_space_at_unaligned in Hrun; [done|by left]].
  destruct (aligned_dec address) as [Hal'|Hal'];
    [|rewrite alloc_space_at_unaligned in Hrun; [done|by right]].
  pose proof (alloc_space_at_refines s size address Hwf Hal Hal') as Href.
  destruct (alloc_at_nodes size address (node_list s)) as [[a r]|].
  - destruct Href as (s1 & Hrun1 & _). congruence.
  - rewrite Href in Hrun. by simplify_eq.
Qed.

Lemma try_alloc_error object prot alloc (sp : VMSpace PageDirectory) e sp' :
  (forall e rm, alloc = Done (Error e) rm -> e = ENOMEM /\ rm = range_map sp) ->
  try_alloc_then_register pd_map object prot alloc sp = Done (Error e) sp' ->
  e = ENOMEM /\ sp' = sp.
Proof.
  intros Hal. unfold try_alloc_then_register, register_region.
  destruct alloc as [[v|code] rm| | |]; try done.
  intros [= <- <-]. destruct (Hal _ _ eq_refl) as [-> ->].
  by destruct sp.
Qed.

Lemma try_alloc_value object prot alloc (sp : VMSpace PageDirectory) v rm :
  alloc = Done (Value v) rm ->
  try_alloc_then_register pd_map object prot alloc sp
  = Done (Value {| reg_addr := next_region_addr sp;
                   reg_object := object; reg_start := v;
                   reg_size := obj_size object; reg_prot := prot |})
      {| range_map := rm;
         m_regions := m_regions sp ++
           [{| reg_addr := next_region_addr sp;
               reg_object := object; reg_start := v;
               reg_size := obj_size object; reg_prot := prot |}];
         m_page_directory :=
           (pd_map {| reg_addr := next_region_addr sp;
                      reg_object := object; reg_start := v;
                      reg_size := obj_size object; reg_prot := prot |}
              (m_page_directory sp)).2;
         next_region_addr := Pos.succ (next_region_addr sp) |}.
Proof. by intros ->. Qed.

Lemma try_alloc_region object prot alloc (sp : VMSpace PageDirectory) r sp' :
  try_alloc_then_register pd_map object prot alloc sp = Done (Value r) sp' ->
  exists v rm, alloc = Done (Value v) rm /\
    r = {| reg_addr := next_region_addr sp;
           reg_object := object; reg_start := v;
           reg_size := obj_size object; reg_prot := prot |} /\
    range_map sp' = rm /\ m_regions sp' = m_regions sp ++ [r].
Proof.
  unfold try_alloc_then_register, register_region.
  destruct alloc as [[v|code] rm| | |]; try done.
  intros [= <- <-]. by exists v, rm.
Qed.

(** C3 (amended): [map_object] (either overload) fails only when the range
    allocation fails; the error is then [ENOMEM] and the space is exactly
    as it was.  Once the range allocation has succeeded, [map_object]
    returns the region and keeps the range allocated, whatever the
    page-table step reports: its result is not looked at. *)
Theorem map_object_fails_only_on_allocation object prot address
  (sp : VMSpace PageDirectory) :
  well_formed (range_map sp) ->
  (forall e sp',
     map_object pd_map object prot sp = Done (Error e) sp' ->
     e = ENOMEM /\ sp' = sp) /\
  (forall e sp',
     map_object_at pd_map object address prot sp = Done (Error e) sp' ->
     e = ENOMEM /\ sp' = sp) /\
  (forall v rm,
     alloc_space (obj_size object) (range_map sp) = Done (Value v) rm ->
     exists region sp',
       map_object pd_map object prot sp = Done (Value region) sp' /\
       reg_start region = v /\ reg_size region = obj_size object /\
       range_map sp' = rm /\ m_regions sp' = m_regions sp ++ [region]) /\
  (forall v rm,
     alloc_space_at (obj_size object) address (range_map sp) = Done (Value v) rm ->
     exists region sp',
       map_object_at pd_map object address prot sp = Done (Value region) sp' /\
       reg_start region = v /\ reg_size region = obj_size object /\
       range_map sp' = rm /\ m_regions sp' = m_regions sp ++ [region]).
Proof.
  intros Hwf. split; [|split; [|split]].
  - intros e sp'. apply try_alloc_error.
    intros e' rm. by apply alloc_space_error.
  - intros e sp'. apply try_alloc_error.
    intros e' rm. by apply alloc_space_at_error.
  - intros v rm Hal. unfold map_object.
    rewrite (try_alloc_value _ _ _ _ _ _ Hal). eexists _, _. done.
  - intros v rm Hal. unfold map_object_at.
    rewrite (try_alloc_value _ _ _ _ _ _ Hal). eexists _, _. done.
Qed.
End MapObject.

(** C3, as stated, fails: with a page directory whose [map] reports failure,
    [map_object] on a fresh space still returns the region, not [ENOMEM],
    and the range it allocated stays marked used. *)
Lemma map_object_ignores_page_map_failure :
  exists region sp',
    failing_map region (m_page_directory example_space) = (Error ENOMEM, tt) /\
    map_object failing_map example_object VMProt_RW example_space
      = Done (Value region) sp' /\
    node_list (range_map sp') = [Node 0 4096 true; Node 4096 61440 false] /\
    m_used (range_map sp') = 4096 /\
    node_list (range_map example_space) = [Node 0 65536 false].
Proof.
  pose proof (alloc_space_refines (VMSpace_init 0 65536) 4096
                (VMSpace_init_well_formed _ _) eq_refl) as H.
  rewrite VMSpace_init_node_list in H.
  change (alloc_nodes 4096 [Node 0 65536 false])
    with (Some (0, [Node 0 4096 true; Node 4096 61440 false])) in H.
  destruct H as (rm & Hrun & _ & Hl & Hu).
  eexists _, _. split; [reflexivity|]. split.
  - unfold map_object. simpl. by rewrite (try_alloc_value _ _ _ _ _ _ _ Hrun).
  - simpl. split; [done|]. split; [rewrite Hu; reflexivity|].
    apply VMSpace_init_node_list.
Qed.

Lemma map_object_fails_only_on_allocation_witness :
  well_formed (range_map example_space) /\
  (forall e sp',
     map_object failing_map example_object VMProt_RW example_space
       = Done (Error e) sp' ->
     e = ENOMEM /\ sp' = example_space) /\
  (forall e sp',
     map_object_at failing_map example_object 16384 VMProt_RW example_space
       = Done (Error e) sp' ->
     e = ENOMEM /\ sp' = example_space) /\
  (forall v rm,
     alloc_space (obj_size example_object) (range_map example_space)
       = Done (Value v) rm ->
     exists region sp',
       map_object failing_map example_object VMProt_RW example_space
         = Done (Value region) sp' /\
       reg_start region = v /\ reg_size region = obj_size example_object /\
       range_map sp' = rm /\
       m_regions sp' = m_regions example_space ++ [region]) /\
  (forall v rm,
     alloc_space_at (obj_size example_object) 16384 (range_map example_space)
       = Done (Value v) rm ->
     exists region sp',
       map_object_at failing_map example_object 16384 VMProt_RW example_space
         = Done (Value region) sp' /\
       reg_start region = v /\ reg_size region = obj_size example_object /\
       range_map sp' = rm /\
       m_regions sp' = m_regions example_space ++ [region]).
Proof.
  assert (Hwf : well_formed (range_map example_space))
    by apply VMSpace_init_well_formed.
  split; [exact Hwf|].
  exact (map_object_fails_only_on_allocation failing_map example_object
           VMProt_RW 16384 example_space Hwf).
Defined.

(** ** The memory system calls *)

Section Syscalls.
Context {PageDirectory : Type}.
Variable pd_map : VMRegion -> PageDirectory -> ResultRet unit * PageDirectory.

Lemma land_bit_to_bool x (n : Z) :
  0 <= n -> to_bool (Z.land x (2 ^ n)) = Z.testbit x n.
Proof.
  intros Hn. unfold to_bool.
  destruct (Z.testbit x n) eqn:Hb.
  - apply negb_true_iff, Z.eqb_neq. intros H0.
    assert (Z.testbit (Z.land x (2 ^ n)) n = true) as Ht.
    { rewrite Z.land_spec, Hb, Z.pow2_bits_true by done. done. }
    rewrite H0, Z.bits_0 in Ht. done.
  - apply negb_false_iff, Z.eqb_eq. apply Z.bits_inj'. intros m Hm.
    rewrite Z.land_spec, Z.bits_0.
    destruct (decide (m = n)) as [->|Hne].
    + by rewrite Hb.
    + rewrite Z.pow2_bits_false by lia. apply andb_false_r.
Qed.

Lemma land_read_write_to_bool x :
  to_bool (Z.land x (Z.lor SHM_READ SHM_WRITE))
  = Z.testbit x 0 || Z.testbit x 1.
Proof.
  unfold to_bool.
  destruct (Z.testbit x 0 || Z.testbit x 1) eqn:Hb.
  - apply negb_true_iff, Z.eqb_neq. intros H0.
    apply orb_true_iff in Hb as [Hb|Hb].
    + assert (Z.testbit (Z.land x (Z.lor SHM_READ SHM_WRITE)) 0 = true) as Ht.
      { rewrite Z.land_spec, Hb. reflexivity. }
      rewrite H0, Z.bits_0 in Ht. done.
    + assert (Z.testbit (Z.land x (Z.lor SHM_READ SHM_WRITE)) 1 = true) as Ht.
      { rewrite Z.land_spec, Hb. reflexivity. }
      rewrite H0, Z.bits_0 in Ht. done.
  - apply orb_false_iff in Hb as [Hb0 Hb1].
    apply negb_false_iff, Z.eqb_eq. apply Z.bits_inj'. intros m Hm.
    rewrite Z.land_spec, Z.bits_0.
    destruct (decide (m = 0)) as [->|Hne0]; [by rewrite Hb0|].
    destruct (decide (m = 1)) as [->|Hne1]; [by rewrite Hb1|].
    change (Z.lor SHM_READ SHM_WRITE) with 3.
    replace m with (Z.succ (Z.succ (m - 2))) by lia.
    change 3 with (Z.succ_double (Z.succ_double 0)) at 1.
    replace (Z.testbit (Z.succ_double (Z.succ_double 0)) (Z.succ (Z.succ (m - 2))))
      with false; [apply andb_false_r|].
    symmetry. rewrite Z.succ_double_spec.
    rewrite Z.testbit_odd_succ by lia. rewrite Z.succ_double_spec.
    rewrite Z.testbit_odd_succ by lia. apply Z.bits_0.
Qed.

Lemma land_SHM_READ x : to_bool (Z.land x SHM_READ) = Z.testbit x 0.
Proof. exact (land_bit_to_bool x 0 ltac:(lia)). Qed.

Lemma land_SHM_WRITE x : to_bool (Z.land x SHM_WRITE) = Z.testbit x 1.
Proof. exact (land_bit_to_bool x 1 ltac:(lia)). Qed.

Lemma land_SHM_SHARE x : to_bool (Z.land x SHM_SHARE) = Z.testbit x 2.
Proof. exact (land_bit_to_bool x 2 ltac:(lia)). Qed.

(** C9: [sys_shmallow] answers [-EINVAL] when [perms] has the [SHM_SHARE]
    bit, when it has neither [SHM_READ] nor [SHM_WRITE], when it has
    [SHM_WRITE] without [SHM_READ], and when [pid] is not a live process,
    and leaves the kernel state alone in each case.  When all four checks
    pass and [id] names a shared object, it returns [SUCCESS] and the
    sharing table of that object maps [pid] to read, the [SHM_WRITE] bit
    as write, no execute and no copy-on-write, replacing any earlier
    entry of [pid]; the entries of other processes, the object itself and
    every other shared object stay as they were. *)
Theorem sys_shmallow_validation id pid perms (k : Kernel) :
  (Z.testbit perms 2 = true -> sys_shmallow id pid perms k = (- EINVAL, k)) /\
  (Z.testbit perms 0 = false -> Z.testbit perms 1 = false ->
   sys_shmallow id pid perms k = (- EINVAL, k)) /\
  (Z.testbit perms 1 = true -> Z.testbit perms 0 = false ->
   sys_shmallow id pid perms k = (- EINVAL, k)) /\
  (pid ∉ live_processes k -> sys_shmallow id pid perms k = (- EINVAL, k)) /\
  (forall object,
     Z.testbit perms 2 = false -> Z.testbit perms 0 = true ->
     pid ∈ live_processes k ->
     shared_objects k !! id = Some object ->
     exists k' object',
       sys_shmallow id pid perms k = (SUCCESS, k') /\
       shared_objects k' !! id = Some object' /\
       anon_shared object' !! pid
         = Some {| prot_read := true; prot_write := Z.testbit perms 1;
                   prot_execute := false; prot_cow := false |} /\
       (forall pid', pid' <> pid ->
          anon_shared object' !! pid' = anon_shared object !! pid') /\
       anon_object object' = anon_object object /\
       anon_shm_id object' = anon_shm_id object /\
       (forall id', id' <> id ->
          shared_objects k' !! id' = shared_objects k !! id') /\
       live_processes k' = live_processes k).
Proof.
  unfold sys_shmallow.
  rewrite land_read_write_to_bool, land_SHM_SHARE, !land_SHM_READ,
    !land_SHM_WRITE.
  split; [by intros ->|].
  split; [intros -> ->; by destruct (Z.testbit perms 2)|].
  split; [intros -> ->; by destruct (Z.testbit perms 2)|].
  split.
  { intros Hpid. unfold process_for_pid. rewrite decide_False by done.
    destruct (Z.testbit perms 2), (Z.testbit perms 0), (Z.testbit perms 1); done. }
  intros object -> -> Hpid Hobj.
  destruct (Z.testbit perms 1); simpl;
    unfold process_for_pid, get_shared; rewrite decide_True by done; simpl;
    rewrite Hobj; eexists _, _; (split; [reflexivity|]); simpl;
    rewrite lookup_insert_eq; (split; [reflexivity|]); simpl;
    rewrite lookup_insert_eq; (split; [reflexivity|]);
    (split; [by intros pid' Hne; rewrite lookup_insert_ne|]);
    (split; [done|]); (split; [done|]);
    (split; [by intros id' Hne; rewrite lookup_insert_ne|done]).
Qed.

(** C8: [sys_shmattach] gives the same answer, [ENOENT] with nothing
    written and the process untouched, when [id] names no shared object,
    when the object has no entry for the caller's pid, and when the entry
    lacks read permission. *)
Theorem sys_shmattach_permission_opacity id addr (k : Kernel)
  (p : Process PageDirectory) :
  shared_objects k !! id = None \/
  (exists object,
     shared_objects k !! id = Some object /\
     (anon_shared object !! _pid p = None \/
      exists perms, anon_shared object !! _pid p = Some perms /\
                    prot_read perms = false)) ->
  sys_shmattach pd_map id addr k p = Done (ENOENT, None) p.
Proof.
  unfold sys_shmattach, get_shared, get_shared_permissions.
  intros [->|(object & -> & [->|(perms & -> & ->)])]; done.
Qed.

End Syscalls.

(** C4: the code departs from the claim.  [sys_munmap] ends in
    [return ENOENT;] and [sys_shmdetach] likewise, so a failing call of
    either returns the positive number [ENOENT]; [sys_shmallow], in the same
    file, negates the code ([return -EINVAL;]).  On the example process
    (one region of three pages at [0x4000]) a partial [munmap] of one page
    returns [2], and so does the [shmdetach] of an object the process has
    not attached; the invalid [shmallow] returns [-22]. *)
Theorem failing_munmap_returns_positive_code :
  sys_munmap example_unmap 16384 4096 example_process
    = Done ENOENT example_process /\
  sys_shmdetach example_unmap 5 example_kernel example_process
    = Done ENOENT example_process /\
  0 < ENOENT /\
  (sys_shmallow 5 8 SHM_WRITE example_kernel).1 = - EINVAL /\
  - EINVAL < 0.
Proof. repeat split. Qed.

Lemma sys_shmattach_permission_opacity_witness :
  (shared_objects example_kernel !! 9 = None \/
   (exists object,
      shared_objects example_kernel !! 9 = Some object /\
      (anon_shared object !! _pid example_process = None \/
       exists perms, anon_shared object !! _pid example_process = Some perms /\
                     prot_read perms = false))) /\
  sys_shmattach failing_map 9 0 example_kernel example_process
    = Done (ENOENT, None) example_process.
Proof.
  assert (H : shared_objects example_kernel !! 9 = None) by reflexivity.
  split; [by left|].
  exact (sys_shmattach_permission_opacity failing_map 9 0 example_kernel
           example_process (or_introl H)).
Defined.

Lemma sys_shmallow_validation_witness :
  Z.testbit SHM_WRITE 1 = true /\ Z.testbit SHM_WRITE 0 = false /\
  sys_shmallow 5 8 SHM_WRITE example_kernel = (- EINVAL, example_kernel) /\
  Z.testbit SHM_SHARE 2 = true /\
  sys_shmallow 5 8 SHM_SHARE example_kernel = (- EINVAL, example_kernel).
Proof.
  assert (H1 : Z.testbit SHM_WRITE 1 = true) by reflexivity.
  assert (H0 : Z.testbit SHM_WRITE 0 = false) by reflexivity.
  assert (H2 : Z.testbit SHM_SHARE 2 = true) by reflexivity.
  split; [exact H1|]. split; [exact H0|].
  split; [|split; [exact H2|]].
  - exact (proj1 (proj2 (proj2 (sys_shmallow_validation 5 8 SHM_WRITE example_kernel)))
             H1 H0).
  - exact (proj1 (sys_shmallow_validation 5 8 SHM_SHARE example_kernel) H2).
Defined.

(** * Further properties of the range allocator *)

(** ** More facts about node lists *)

Lemma n_contains_spec a l b address d :
  0 <= a -> b < SIZE_MODULUS -> chain a l b -> d ∈ l ->
  n_contains address d = true <-> n_start d <= address < n_start d + n_size d.
Proof.
  intros Ha Hb Hch Hd. apply list_elem_of_lookup in Hd as [i Hi].
  destruct (chain_lookup _ _ _ _ _ Hch Hi) as (? & ? & ?).
  unfold n_contains, n_end. rewrite wrap_small by lia.
  rewrite andb_true_iff, Z.leb_le, Z.ltb_lt. done.
Qed.

Lemma n_contains_false a l b address d :
  0 <= a -> b < SIZE_MODULUS -> chain a l b -> d ∈ l ->
  address < n_start d \/ n_start d + n_size d <= address ->
  n_contains address d = false.
Proof.
  intros Ha Hb Hch Hd Hout.
  destruct (n_contains address d) eqn:E; [|done].
  apply (n_contains_spec _ _ _ _ _ Ha Hb Hch Hd) in E. lia.
Qed.

(** No node of a chain contains an address that lies outside the range the
    chain tiles. *)
Lemma chain_not_contained a l b address :
  0 <= a -> b < SIZE_MODULUS -> chain a l b ->
  address < a \/ b <= address ->
  Forall (fun x => n_contains address x = false) l.
Proof.
  intros Ha Hb Hch Hout. apply Forall_forall. intros x Hx.
  eapply n_contains_false; [exact Ha|exact Hb|exact Hch|exact Hx|].
  apply list_elem_of_lookup in Hx as [i Hi].
  destruct (chain_lookup _ _ _ _ _ Hch Hi) as (? & ? & ?). lia.
Qed.

Lemma alloc_at_nodes_skip size address l1 l2 :
  Forall (fun x => n_contains address x = false) l1 ->
  alloc_at_nodes size address (l1 ++ l2)
  = match alloc_at_nodes size address l2 with
    | Some (a, r) => Some (a, l1 ++ r)
    | None => None
    end.
Proof.
  intros Hl1. induction Hl1 as [|x l1 Hx _ IH]; simpl.
  - by destruct (alloc_at_nodes size address l2) as [[a r]|].
  - rewrite Hx, IH. by destruct (alloc_at_nodes size address l2) as [[a r]|].
Qed.

Lemma alloc_at_nodes_not_contained size address l :
  Forall (fun x => n_contains address x = false) l ->
  alloc_at_nodes size address l = None.
Proof.
  intros H. rewrite <- (app_nil_r l). by rewrite alloc_at_nodes_skip.
Qed.

(** In a chain split at a node, the nodes before it end at its start. *)
Lemma chain_split a l1 d l2 b :
  chain a (l1 ++ d :: l2) b ->
  chain a l1 (n_start d) /\ 0 <= n_size d /\
  chain (n_start d + n_size d) l2 b /\
  a <= n_start d /\ n_start d + n_size d <= b.
Proof.
  intros Hch. apply chain_app in Hch as [Hc1 Hc2]. simpl in Hc2.
  destruct Hc2 as (Hs & Hz & Hc2).
  pose proof (chain_end _ _ _ Hc1) as [_ Hle1].
  pose proof (chain_end _ _ _ Hc2) as [_ Hle2].
  rewrite Hs. repeat split; try done; lia.
Qed.

(** The range list refuses a fixed request whose address lies in a node in
    use, or whose range runs past the end of the free node holding the
    address. *)
Lemma alloc_at_nodes_refused a b l1 d l2 size address :
  0 <= a -> b < SIZE_MODULUS -> chain a (l1 ++ d :: l2) b ->
  n_start d <= address < n_start d + n_size d ->
  n_used d = true \/ (n_size d <> size /\ n_start d + n_size d < address + size) ->
  alloc_at_nodes size address (l1 ++ d :: l2) = None.
Proof.
  intros Ha Hb Hch Hin Hwhy.
  destruct (chain_split _ _ _ _ _ Hch) as (Hc1 & Hz & Hc2 & Hle1 & Hle2).
  rewrite alloc_at_nodes_skip.
  2:{ eapply chain_not_contained; [exact Ha| |exact Hc1|]; lia. }
  simpl.
  assert (Hd : n_contains address d = true).
  { eapply n_contains_spec; [exact Ha|exact Hb|exact Hch| |done].
    apply elem_of_app. right. by left. }
  rewrite Hd. destruct (n_used d) eqn:Hu; [done|].
  destruct Hwhy as [?|[Hne Hover]]; [done|].
  destruct (Z.eqb_spec (n_size d) size); [done|].
  unwrap. destruct (Z.geb_spec (n_size d - (address - n_start d)) size); [lia|done].
Qed.

(** The node an allocation marks used. *)
Lemma alloc_nodes_used_node size l v r :
  alloc_nodes size l = Some (v, r) ->
  exists r1 r2, r = r1 ++ Node v size true :: r2.
Proof.
  intros H.
  destruct (alloc_nodes_Some _ _ _ _ H) as (l1 & d & l2 & -> & _ & _ & -> & ->).
  unfold alloc_result. destruct (Z.eqb_spec (n_size d) size) as [->|].
  - by exists l1, l2.
  - eexists l1, _. simpl. done.
Qed.

Lemma alloc_at_nodes_used_node size address l v r :
  alloc_at_nodes size address l = Some (v, r) ->
  exists r1 r2, r = r1 ++ Node v size true :: r2.
Proof.
  intros H.
  destruct (alloc_at_nodes_Some _ _ _ _ _ H)
    as (l1 & d & l2 & -> & _ & _ & _ & _ & -> & ->).
  unfold alloc_at_result. destruct (Z.eqb_spec (n_size d) size) as [->|].
  - by exists l1, l2.
  - exists (l1 ++ at_prefix address d), (at_suffix size address d ++ l2).
    by rewrite <- !app_assoc.
Qed.

(** ** What a returned call says about the node lists *)

Lemma alloc_space_Value s sz v s1 :
  well_formed s -> alloc_space sz s = Done (Value v) s1 ->
  sz mod PAGE_SIZE = 0 /\ well_formed s1 /\
  alloc_nodes sz (node_list s) = Some (v, node_list s1) /\
  m_used s1 = wrap (m_used s + sz).
Proof.
  intros Hwf Hrun.
  destruct (aligned_dec sz) as [Hal|Hal];
    [|by rewrite alloc_space_unaligned in Hrun].
  pose proof (alloc_space_refines s sz Hwf Hal) as Href.
  destruct (alloc_nodes sz (node_list s)) as [[a r]|];
    [|rewrite Href in Hrun; by simplify_eq].
  destruct Href as (s' & Hrun' & Hwf' & Hl & Hu).
  rewrite Hrun' in Hrun. simplify_eq. done.
Qed.

Lemma alloc_space_at_Value s sz addr v s1 :
  well_formed s -> alloc_space_at sz addr s = Done (Value v) s1 ->
  sz mod PAGE_SIZE = 0 /\ addr mod PAGE_SIZE = 0 /\ well_formed s1 /\
  alloc_at_nodes sz addr (node_list s) = Some (v, node_list s1) /\
  m_used s1 = wrap (m_used s + sz).
Proof.
  intros Hwf Hrun.
  destruct (aligned_dec sz) as [Hal|Hal];
    [|rewrite alloc_space_at_unaligned in Hrun; [done|by left]].
  destruct (aligned_dec addr) as [Hal'|Hal'];
    [|rewrite alloc_space_at_unaligned in Hrun; [done|by right]].
  pose proof (alloc_space_at_refines s sz addr Hwf Hal Hal') as Href.
  destruct (alloc_at_nodes sz addr (node_list s)) as [[a r]|];
    [|rewrite Href in Hrun; by simplify_eq].
  destruct Href as (s' & Hrun' & Hwf' & Hl & Hu).
  rewrite Hrun' in Hrun. simplify_eq. done.
Qed.

Lemma free_space_Done s sz addr v s1 :
  well_formed s -> free_space sz addr s = Done v s1 ->
  v = SUCCESS /\ sz mod PAGE_SIZE = 0 /\ addr mod PAGE_SIZE = 0 /\
  well_formed s1 /\
  free_nodes sz addr [] (node_list s) = Some (node_list s1) /\
  m_used s1 = wrap (m_used s - sz).
Proof.
  intros Hwf Hrun.
  destruct (aligned_dec sz) as [Hal|Hal];
    [|rewrite free_space_unaligned in Hrun; [done|by left]].
  destruct (aligned_dec addr) as [Hal'|Hal'];
    [|rewrite free_space_unaligned in Hrun; [done|by right]].
  pose proof (free_space_refines s sz addr Hwf Hal Hal') as Href.
  destruct (free_nodes sz addr [] (node_list s)) as [r|];
    [|by rewrite Href in Hrun].
  destruct Href as (s' & Hrun' & Hwf' & Hl & Hu).
  rewrite Hrun' in Hrun. simplify_eq. done.
Qed.

Lemma alloc_space_at_None s sz addr :
  well_formed s -> sz mod PAGE_SIZE = 0 -> addr mod PAGE_SIZE = 0 ->
  alloc_at_nodes sz addr (node_list s) = None ->
  alloc_space_at sz addr s = Done (Error ENOMEM) s.
Proof.
  intros Hwf Hal Hal' Hnone.
  pose proof (alloc_space_at_refines s sz addr Hwf Hal Hal') as Href.
  by rewrite Hnone in Href.
Qed.

(** ** Fixed requests that are turned down *)

(** X1: in a reachable state, [alloc_space_at] turns down, with [ENOMEM] and
    without touching the state, every request whose address lies in a node
    that is in use, and every request whose range would run past the end of
    the free node that holds the address (unless it asks for exactly the
    size of that node). *)
Theorem alloc_space_at_refuses_used_or_short start size s sz addr l1 d l2 :
  valid_space start size ->
  reachable start size s ->
  sz mod PAGE_SIZE = 0 -> addr mod PAGE_SIZE = 0 ->
  node_list s = l1 ++ d :: l2 ->
  n_start d <= addr < n_start d + n_size d ->
  n_used d = true \/ (n_size d <> sz /\ n_start d + n_size d < addr + sz) ->
  alloc_space_at sz addr s = Done (Error ENOMEM) s.
Proof.
  intros Hv Hr Hal Hal' Hl Hin Hwhy.
  destruct (reachable_by_inv _ _ _ _ Hv Hr) as (Hwf & Hch & _ & _).
  destruct Hv as (Hv1 & Hv2 & Hv3).
  apply alloc_space_at_None; try done.
  rewrite Hl in *.
  eapply alloc_at_nodes_refused; [exact Hv1|exact Hv3|exact Hch|done|done].
Qed.

Lemma alloc_space_at_refuses_used_or_short_witness :
  valid_space 4096 61440 /\
  reachable 4096 61440 scenario_state /\
  8192 mod PAGE_SIZE = 0 /\ 12288 mod PAGE_SIZE = 0 /\
  node_list scenario_state
    = [Node 4096 4096 true] ++ Node 8192 8192 true :: [Node 16384 49152 false] /\
  n_start (Node 8192 8192 true) <= 12288
    < n_start (Node 8192 8192 true) + n_size (Node 8192 8192 true) /\
  alloc_space_at 8192 12288 scenario_state = Done (Error ENOMEM) scenario_state.
Proof.
  assert (Hv : valid_space 4096 61440) by (unfold valid_space, SIZE_MODULUS; lia).
  assert (Hr : reachable 4096 61440 scenario_state).
  { eapply reachable_by_weaken; [|apply scenario_state_reachable]. done. }
  assert (Hl : node_list scenario_state
    = [Node 4096 4096 true] ++ Node 8192 8192 true :: [Node 16384 49152 false])
    by (vm_compute; reflexivity).
  assert (Hin : n_start (Node 8192 8192 true) <= 12288
    < n_start (Node 8192 8192 true) + n_size (Node 8192 8192 true))
    by (simpl; lia).
  repeat (split; [first [assumption | reflexivity]|]).
  exact (alloc_space_at_refuses_used_or_short 4096 61440 scenario_state 8192 12288
           _ _ _ Hv Hr eq_refl eq_refl Hl Hin (or_introl eq_refl)).
Defined.

(** X2: a fixed request for an address outside the range of the address
    space is turned down with [ENOMEM], the state untouched. *)
Theorem alloc_space_at_outside_space start size s sz addr :
  valid_space start size ->
  reachable start size s ->
  sz mod PAGE_SIZE = 0 -> addr mod PAGE_SIZE = 0 ->
  addr < start \/ start + size <= addr ->
  alloc_space_at sz addr s = Done (Error ENOMEM) s.
Proof.
  intros Hv Hr Hal Hal' Hout.
  destruct (reachable_by_inv _ _ _ _ Hv Hr) as (Hwf & Hch & _ & _).
  destruct Hv as (Hv1 & Hv2 & Hv3).
  apply alloc_space_at_None; try done.
  apply alloc_at_nodes_not_contained.
  eapply chain_not_contained; [exact Hv1|exact Hv3|exact Hch|exact Hout].
Qed.

Lemma alloc_space_at_outside_space_witness :
  valid_space 4096 61440 /\
  reachable 4096 61440 scenario_state /\
  4096 mod PAGE_SIZE = 0 /\ 0 mod PAGE_SIZE = 0 /\
  (0 < 4096 \/ 4096 + 61440 <= 0) /\
  alloc_space_at 4096 0 scenario_state = Done (Error ENOMEM) scenario_state.
Proof.
  assert (Hv : valid_space 4096 61440) by (unfold valid_space, SIZE_MODULUS; lia).
  assert (Hr : reachable 4096 61440 scenario_state).
  { eapply reachable_by_weaken; [|apply scenario_state_reachable]. done. }
  assert (Ho : 0 < 4096 \/ 4096 + 61440 <= 0) by (left; lia).
  repeat (split; [first [assumption | reflexivity]|]).
  exact (alloc_space_at_outside_space 4096 61440 scenario_state 4096 0
           Hv Hr eq_refl eq_refl Ho).
Defined.



(** ** What a step does to the node list *)

(** A step leaves the node list alone (a request turned down) or changes it
    as one of the three functions on node lists says. *)
Lemma step_nodes s r s' :
  well_formed s -> step s r s' ->
  well_formed s' /\
  ((s' = s) \/
   (exists sz v, r = Alloc sz /\ in_size_t sz /\ sz mod PAGE_SIZE = 0 /\
      alloc_nodes sz (node_list s) = Some (v, node_list s')) \/
   (exists sz addr v, r = AllocAt sz addr /\ in_size_t sz /\
      sz mod PAGE_SIZE = 0 /\ addr mod PAGE_SIZE = 0 /\
      alloc_at_nodes sz addr (node_list s) = Some (v, node_list s')) \/
   (exists sz addr, r = Free sz addr /\
      sz mod PAGE_SIZE = 0 /\ addr mod PAGE_SIZE = 0 /\
      free_nodes sz addr [] (node_list s) = Some (node_list s'))).
Proof.
  intros Hwf Hstep. destruct r as [sz|sz addr|sz addr]; simpl in Hstep.
  - destruct Hstep as (Hsz & [v|e] & Hrun).
    + destruct (alloc_space_Value _ _ _ _ Hwf Hrun) as (Hal & Hwf' & Hn & _).
      split; [done|]. right. left. by exists sz, v.
    + destruct (alloc_space_error _ _ _ _ Hwf Hrun) as [_ ->]. split; [done|by left].
  - destruct Hstep as (Hsz & Haddr & [v|e] & Hrun).
    + destruct (alloc_space_at_Value _ _ _ _ _ Hwf Hrun)
        as (Hal & Hal' & Hwf' & Hn & _).
      split; [done|]. right. right. left. by exists sz, addr, v.
    + destruct (alloc_space_at_error _ _ _ _ _ Hwf Hrun) as [_ ->].
      split; [done|by left].
  - destruct Hstep as (Hsz & Haddr & v & Hrun).
    destruct (free_space_Done _ _ _ _ _ Hwf Hrun)
      as (_ & Hal & Hal' & Hwf' & Hn & _).
    split; [done|]. right. right. right. by exists sz, addr.
Qed.

(** ** [free_space] succeeds or stops the kernel *)

Lemma free_nodes_is_Some size address l : forall pre,
  is_Some (free_nodes size address pre l) <->
  exists d, List.find (fun d => n_start d =? address) l = Some d /\ n_size d = size.
Proof.
  induction l as [|x l IH]; intros pre; simpl.
  - split; [by intros [? ?]|by intros (? & ? & ?)].
  - destruct (Z.eqb_spec (n_start x) address) as [Hs|Hs].
    + destruct (Z.eqb_spec (n_size x) size) as [Hz|Hz].
      * destruct (merge_previous_nodes _ _) as [pre' d1].
        destruct (merge_next_nodes _ _) as [d2 l''].
        split; [|by eexists]. intros _. by exists x.
      * split; [by intros [? ?]|]. intros (d & [= ->] & ?). done.
    + apply IH.
Qed.

(** X4: [free_space] never reports an error.  It looks for the first node
    that starts at the address: when there is one and it has exactly the
    size given (and both arguments are page-aligned) the call returns
    [SUCCESS] and lowers [m_used] by the size; in every other case it stops
    the kernel at an [ASSERT]. *)
Theorem free_space_success_or_panic start size s sz addr :
  valid_space start size ->
  reachable start size s ->
  match List.find (fun d => n_start d =? addr) (node_list s) with
  | Some d =>
      if decide (n_size d = sz /\ sz mod PAGE_SIZE = 0 /\ addr mod PAGE_SIZE = 0)
      then exists s', free_space sz addr s = Done SUCCESS s' /\
                      m_used s' = wrap (m_used s - sz)
      else free_space sz addr s = Panic
  | None => free_space sz addr s = Panic
  end.
Proof.
  intros Hv Hr.
  destruct (reachable_by_inv _ _ _ _ Hv Hr) as (Hwf & _).
  pose proof (free_nodes_is_Some sz addr (node_list s) []) as Hsome.
  assert (Hpanic : free_nodes sz addr [] (node_list s) = None ->
                   free_space sz addr s = Panic).
  { intros Hnone.
    destruct (aligned_dec sz) as [Hal|Hal];
      [|apply free_space_unaligned; by left].
    destruct (aligned_dec addr) as [Hal'|Hal'];
      [|apply free_space_unaligned; by right].
    pose proof (free_space_refines s sz addr Hwf Hal Hal') as Href.
    by rewrite Hnone in Href. }
  destruct (List.find _ (node_list s)) as [d|] eqn:Hfind.
  - destruct (decide _) as [(Hz & Hal & Hal')|Hno].
    + pose proof (free_space_refines s sz addr Hwf Hal Hal') as Href.
      destruct (free_nodes sz addr [] (node_list s)) as [r|].
      * destruct Href as (s' & Hrun & _ & _ & Hu). by exists s'.
      * destruct Hsome as [_ Hsome]. destruct Hsome as [? ?]; [by exists d|done].
    + destruct (aligned_dec sz) as [Hal|Hal];
        [|apply free_space_unaligned; by left].
      destruct (aligned_dec addr) as [Hal'|Hal'];
        [|apply free_space_unaligned; by right].
      apply Hpanic.
      destruct (free_nodes sz addr [] (node_list s)) as [r|]; [|done].
      destruct Hsome as [Hsome _].
      destruct Hsome as (d' & [= <-] & Hz); [by eexists|]. tauto.
  - apply Hpanic.
    destruct (free_nodes sz addr [] (node_list s)) as [r|]; [|done].
    destruct Hsome as [Hsome _]. by destruct Hsome as (d' & ? & _); [eexists|].
Qed.

Lemma free_space_success_or_panic_witness :
  valid_space 4096 61440 /\
  reachable 4096 61440 scenario_state /\
  match List.find (fun d => n_start d =? 8192) (node_list scenario_state) with
  | Some d =>
      if decide (n_size d = 4096 /\ 4096 mod PAGE_SIZE = 0 /\ 8192 mod PAGE_SIZE = 0)
      then exists s', free_space 4096 8192 scenario_state = Done SUCCESS s' /\
                      m_used s' = wrap (m_used scenario_state - 4096)
      else free_space 4096 8192 scenario_state = Panic
  | None => free_space 4096 8192 scenario_state = Panic
  end.
Proof.
  assert (Hv : valid_space 4096 61440) by (unfold valid_space, SIZE_MODULUS; lia).
  assert (Hr : reachable 4096 61440 scenario_state).
  { eapply reachable_by_weaken; [|apply scenario_state_reachable]. done. }
  split; [exact Hv|]. split; [exact Hr|].
  exact (free_space_success_or_panic 4096 61440 scenario_state 4096 8192 Hv Hr).
Defined.

(** ** [free_space] coalesces *)

Lemma free_result_covers a b pre d l :
  0 <= a -> b < SIZE_MODULUS ->
  chain a (pre ++ d :: l) b ->
  exists r1 d' r2,
    free_result pre d l = r1 ++ d' :: r2 /\ n_used d' = false /\
    n_start d' <= n_start d /\ n_start d + n_size d <= n_start d' + n_size d'.
Proof.
  intros Ha Hb Hch.
  destruct (chain_split _ _ _ _ _ Hch) as (Hc1 & Hz & Hc2 & Hle1 & Hle2).
  unfold free_result.
  assert (exists pre1 d1,
    merge_previous_nodes pre (Node (n_start d) (n_size d) false) = (pre1, d1) /\
    n_used d1 = false /\ 0 <= n_start d1 <= n_start d /\
    n_start d1 + n_size d1 = n_start d + n_size d)
    as (pre1 & d1 & -> & Hu1 & Hs1 & He1).
  { unfold merge_previous_nodes.
    destruct (snoc_cases pre) as [->|(pre' & dp & ->)].
    - simpl. eexists _, _. split; [done|]. simpl in *. lia.
    - rewrite last_snoc.
      apply chain_app in Hc1 as [Hc1 Hc1']. simpl in Hc1'.
      destruct Hc1' as (Hsp & Hzp & Hep).
      pose proof (chain_end _ _ _ Hc1) as [_ Hle0].
      destruct (n_used dp).
      + eexists _, _. split; [done|]. simpl. lia.
      + eexists _, _. split; [done|]. simpl. unwrap. lia. }
  destruct l as [|dn l'].
  - simpl. exists pre1, d1, []. split; [done|]. split; [done|]. lia.
  - simpl in Hc2. destruct Hc2 as (Hsn & Hzn & Hc2).
    pose proof (chain_end _ _ _ Hc2) as [_ Hle3].
    unfold merge_next_nodes. destruct (n_used dn).
    + exists pre1, d1, (dn :: l'). split; [done|]. split; [done|]. lia.
    + eexists pre1, _, l'. split; [done|]. simpl. unwrap. split; [done|]. lia.
Qed.

(** X5: after [free_space(size, address)] has returned, the freed range
    [[address, address + size)] lies inside one free node: the node was
    marked free and merged with the free neighbours it had. *)
Theorem free_space_leaves_range_in_free_node start size s sz addr v s' :
  valid_space start size ->
  reachable start size s ->
  free_space sz addr s = Done v s' ->
  exists d, d ∈ node_list s' /\ n_used d = false /\
            n_start d <= addr /\ addr + sz <= n_start d + n_size d.
Proof.
  intros Hv Hr Hrun.
  destruct (reachable_by_inv _ _ _ _ Hv Hr) as (Hwf & Hch & _ & _).
  destruct Hv as (Hv1 & Hv2 & Hv3).
  destruct (free_space_Done _ _ _ _ _ Hwf Hrun) as (_ & _ & _ & _ & Hn & _).
  destruct (free_nodes_Some _ _ _ _ _ Hn) as (l1 & d & l2 & Hl & _ & Hs & Hz & Hr').
  simpl in Hr'. rewrite Hl in Hch.
  destruct (free_result_covers _ _ _ _ _ Hv1 Hv3 Hch)
    as (r1 & d' & r2 & Hres & Hu & Hlo & Hhi).
  exists d'. split; [|split; [done|lia]].
  rewrite Hr', Hres. apply elem_of_app. right. by left.
Qed.

Lemma free_space_leaves_range_in_free_node_witness :
  valid_space 4096 61440 /\
  reachable 4096 61440 scenario_state /\
  free_space 8192 8192 scenario_state
    = Done SUCCESS (state_after (free_space 8192 8192 scenario_state) scenario_state) /\
  exists d,
    d ∈ node_list (state_after (free_space 8192 8192 scenario_state) scenario_state) /\
    n_used d = false /\
    n_start d <= 8192 /\ 8192 + 8192 <= n_start d + n_size d.
Proof.
  assert (Hv : valid_space 4096 61440) by (unfold valid_space, SIZE_MODULUS; lia).
  assert (Hr : reachable 4096 61440 scenario_state).
  { eapply reachable_by_weaken; [|apply scenario_state_reachable]. done. }
  assert (Hrun : free_space 8192 8192 scenario_state
    = Done SUCCESS (state_after (free_space 8192 8192 scenario_state) scenario_state))
    by (vm_compute; reflexivity).
  split; [exact Hv|]. split; [exact Hr|]. split; [exact Hrun|].
  exact (free_space_leaves_range_in_free_node 4096 61440 scenario_state 8192 8192
           _ _ Hv Hr Hrun).
Defined.


(** ** Allocations in place are left alone *)

Lemma alloc_nodes_keeps_used size l v r u :
  alloc_nodes size l = Some (v, r) -> u ∈ l -> n_used u = true -> u ∈ r.
Proof.
  intros H Hu Hused.
  destruct (alloc_nodes_Some _ _ _ _ H) as (l1 & d & l2 & -> & _ & Hfit & _ & ->).
  apply andb_prop in Hfit as [Hfree _]. apply negb_true_iff in Hfree.
  rewrite !elem_of_app. apply elem_of_app in Hu as [Hu|Hu]; [by left|].
  apply elem_of_cons in Hu as [->|Hu]; [congruence|]. right. by right.
Qed.

Lemma alloc_at_nodes_keeps_used size address l v r u :
  alloc_at_nodes size address l = Some (v, r) -> u ∈ l -> n_used u = true -> u ∈ r.
Proof.
  intros H Hu Hused.
  destruct (alloc_at_nodes_Some _ _ _ _ _ H)
    as (l1 & d & l2 & -> & _ & _ & Hfree & _ & _ & ->).
  rewrite !elem_of_app. apply elem_of_app in Hu as [Hu|Hu]; [by left|].
  apply elem_of_cons in Hu as [->|Hu]; [congruence|]. right. by right.
Qed.

Lemma free_result_keeps_used pre d l u :
  n_used u = true -> u ∈ pre \/ u ∈ l -> u ∈ free_result pre d l.
Proof.
  intros Hused Hu. unfold free_result.
  assert (exists pre1 d1,
    merge_previous_nodes pre (Node (n_start d) (n_size d) false) = (pre1, d1) /\
    (u ∈ pre -> u ∈ pre1)) as (pre1 & d1 & -> & Hpre).
  { unfold merge_previous_nodes.
    destruct (snoc_cases pre) as [->|(pre' & dp & ->)]; [by eexists _, _|].
    rewrite last_snoc. destruct (n_used dp) eqn:Hdp; [by eexists _, _|].
    eexists _, _. split; [done|]. rewrite removelast_last.
    intros [?|Hin]%elem_of_app; [done|].
    apply list_elem_of_singleton in Hin as ->. congruence. }
  assert (exists d2 l2,
    merge_next_nodes d1 l = (d2, l2) /\ (u ∈ l -> u ∈ l2))
    as (d2 & l2 & -> & Hl).
  { unfold merge_next_nodes. destruct l as [|dn l']; [by eexists _, _|].
    destruct (n_used dn) eqn:Hdn; [by eexists _, _|].
    eexists _, _. split; [done|].
    intros [->|?]%elem_of_cons; [congruence|done]. }
  apply elem_of_app. destruct Hu as [Hu|Hu]; [left; auto|].
  right. right. auto.
Qed.

Lemma find_first_split address (l : list node) d :
  List.find (fun d => n_start d =? address) l = Some d ->
  exists l1 l2, l = l1 ++ d :: l2 /\
    Forall (fun x => n_start x <> address) l1 /\ n_start d = address.
Proof.
  intros H. destruct (find_Some_split _ _ _ H) as (l1 & l2 & -> & Hl1 & Hd).
  exists l1, l2. split; [done|]. split; [|by apply Z.eqb_eq].
  eapply Forall_impl; [exact Hl1|]. simpl. intros x Hx. by apply Z.eqb_neq.
Qed.

(** X6: a call never moves, resizes or releases an allocation it was not
    asked about.  Every node in use before a call is still there, with the
    same start and size and still in use, after [alloc_space] and
    [alloc_space_at], and after a [free_space] for another address. *)
Theorem calls_keep_other_allocations start size s r s' u :
  valid_space start size ->
  reachable start size s ->
  step s r s' ->
  u ∈ node_list s -> n_used u = true ->
  (forall sz addr, r = Free sz addr -> n_start u <> addr) ->
  u ∈ node_list s'.
Proof.
  intros Hv Hr Hstep Hu Hused Hother.
  destruct (reachable_by_inv _ _ _ _ Hv Hr) as (Hwf & _).
  destruct (step_nodes _ _ _ Hwf Hstep) as (_ & Hcases).
  destruct Hcases as [->|[(sz & v & _ & _ & _ & Hn)|
    [(sz & addr & v & _ & _ & _ & _ & Hn)|(sz & addr & -> & _ & _ & Hn)]]].
  - done.
  - by eapply alloc_nodes_keeps_used.
  - by eapply alloc_at_nodes_keeps_used.
  - destruct (free_nodes_Some _ _ _ _ _ Hn) as (l1 & d & l2 & Hl & _ & Hs & _ & Hres).
    simpl in Hres. rewrite Hres. apply free_result_keeps_used; [done|].
    rewrite Hl in Hu. apply elem_of_app in Hu as [Hu|Hu]; [by left|].
    apply elem_of_cons in Hu as [->|Hu]; [|by right].
    by destruct (Hother sz addr eq_refl).
Qed.

Lemma calls_keep_other_allocations_witness :
  valid_space 4096 61440 /\
  reachable 4096 61440 scenario_state /\
  step scenario_state (Free 8192 8192)
    (state_after (free_space 8192 8192 scenario_state) scenario_state) /\
  Node 4096 4096 true ∈ node_list scenario_state /\
  n_used (Node 4096 4096 true) = true /\
  (forall sz addr, Free 8192 8192 = Free sz addr ->
                   n_start (Node 4096 4096 true) <> addr) /\
  Node 4096 4096 true
    ∈ node_list (state_after (free_space 8192 8192 scenario_state) scenario_state).
Proof.
  assert (Hv : valid_space 4096 61440) by (unfold valid_space, SIZE_MODULUS; lia).
  assert (Hr : reachable 4096 61440 scenario_state).
  { eapply reachable_by_weaken; [|apply scenario_state_reachable]. done. }
  assert (Hstep : step scenario_state (Free 8192 8192)
    (state_after (free_space 8192 8192 scenario_state) scenario_state)).
  { simpl. unfold in_size_t, SIZE_MODULUS. split; [lia|]. split; [lia|].
    exists SUCCESS. vm_compute. reflexivity. }
  assert (Hu : Node 4096 4096 true ∈ node_list scenario_state).
  { change (node_list scenario_state)
      with [Node 4096 4096 true; Node 8192 8192 true; Node 16384 49152 false].
    by left. }
  assert (Ho : forall sz addr, Free 8192 8192 = Free sz addr ->
                 n_start (Node 4096 4096 true) <> addr).
  { intros sz addr [= <- <-]. simpl. lia. }
  split; [exact Hv|]. split; [exact Hr|]. split; [exact Hstep|].
  split; [exact Hu|]. split; [reflexivity|]. split; [exact Ho|].
  exact (calls_keep_other_allocations 4096 61440 scenario_state (Free 8192 8192) _
           (Node 4096 4096 true) Hv Hr Hstep Hu eq_refl Ho).
Defined.

(** ** An allocation stays allocated until it is freed *)

Lemma step_keeps_used_node s r s' u :
  well_formed s -> step s r s' ->
  u ∈ node_list s -> n_used u = true -> not_free_at (n_start u) r ->
  u ∈ node_list s'.
Proof.
  intros Hwf Hstep Hu Hused Hother.
  destruct (step_nodes _ _ _ Hwf Hstep) as (_ & Hcases).
  destruct Hcases as [->|[(sz & v & _ & _ & _ & Hn)|
    [(sz & addr & v & _ & _ & _ & _ & Hn)|(sz & addr & -> & _ & _ & Hn)]]].
  - done.
  - by eapply alloc_nodes_keeps_used.
  - by eapply alloc_at_nodes_keeps_used.
  - destruct (free_nodes_Some _ _ _ _ _ Hn) as (l1 & d & l2 & Hl & _ & Hs & _ & Hres).
    simpl in Hres. rewrite Hres. apply free_result_keeps_used; [done|].
    rewrite Hl in Hu. apply elem_of_app in Hu as [Hu|Hu]; [by left|].
    apply elem_of_cons in Hu as [->|Hu]; [|by right].
    simpl in Hother. by destruct Hother.
Qed.

Lemma reached_without_free_at_keeps start size v s s' u :
  valid_space start size -> reachable start size s ->
  reached_without_free_at v s s' ->
  u ∈ node_list s -> n_used u = true -> n_start u = v ->
  reachable start size s' /\ u ∈ node_list s'.
Proof.
  intros Hv Hr Hlater Hu Hused Hstart.
  induction Hlater as [|s1 r s2 _ [IHr IHu] Hnot Hstep]; [done|].
  split.
  - exact (reach_step _ _ _ _ _ _ IHr I Hstep).
  - destruct (reachable_by_inv _ _ _ _ Hv IHr) as (Hwf1 & _).
    eapply step_keeps_used_node; [exact Hwf1|exact Hstep|exact IHu|exact Hused|].
    by rewrite Hstart.
Qed.

(** X3: no double allocation.  Once [alloc_space] or [alloc_space_at] has
    handed out a range of at least one byte at [v], then after any further
    calls, as long as none of them is a [free_space] at [v], every fixed
    request for an address inside that range is turned down with [ENOMEM]
    and changes nothing: the bytes stay with their first owner until they
    are freed. *)
Theorem allocated_range_is_excluded start size s sz addr v s1 s2 sz2 addr2 :
  valid_space start size ->
  reachable start size s ->
  in_size_t sz ->
  alloc_space sz s = Done (Value v) s1 \/
  (in_size_t addr /\ alloc_space_at sz addr s = Done (Value v) s1) ->
  reached_without_free_at v s1 s2 ->
  sz2 mod PAGE_SIZE = 0 -> addr2 mod PAGE_SIZE = 0 ->
  v <= addr2 < v + sz ->
  alloc_space_at sz2 addr2 s2 = Done (Error ENOMEM) s2.
Proof.
  intros Hv Hr Hsz Hrun Hlater Hal2 Hal2' Hin.
  pose proof (reachable_by_inv _ _ _ _ Hv Hr) as (Hwf & _).
  assert (Hr1 : reachable start size s1).
  { destruct Hrun as [Hrun|[Haddr Hrun]].
    - eapply reach_step with (r := Alloc sz); [exact Hr|done|].
      simpl. split; [done|]. by eexists.
    - eapply reach_step with (r := AllocAt sz addr); [exact Hr|done|].
      simpl. split; [done|]. split; [done|]. by eexists. }
  assert (Hnode : Node v sz true ∈ node_list s1).
  { assert (exists r1 r2, node_list s1 = r1 ++ Node v sz true :: r2)
      as (r1 & r2 & ->); [|apply elem_of_app; right; by left].
    destruct Hrun as [Hrun|[_ Hrun]].
    - destruct (alloc_space_Value _ _ _ _ Hwf Hrun) as (_ & _ & Hnodes & _).
      by eapply alloc_nodes_used_node.
    - destruct (alloc_space_at_Value _ _ _ _ _ Hwf Hrun) as (_ & _ & _ & Hnodes & _).
      by eapply alloc_at_nodes_used_node. }
  destruct (reached_without_free_at_keeps _ _ _ _ _ _ Hv Hr1 Hlater Hnode
              eq_refl eq_refl) as [Hr2 Hnode2].
  destruct (reachable_by_inv _ _ _ _ Hv Hr2) as (Hwf2 & Hch2 & _ & _).
  apply list_elem_of_split in Hnode2 as (r1 & r2 & Hl2).
  destruct Hv as (Hv1 & Hv2 & Hv3).
  apply alloc_space_at_None; try done.
  rewrite Hl2 in *.
  eapply alloc_at_nodes_refused; [exact Hv1|exact Hv3|exact Hch2|done|by left].
Qed.

Lemma fixed_alloc_later_state_reached :
  reached_without_free_at 16384 fixed_alloc_state fixed_alloc_later_state.
Proof.
  eapply held_step with (r := Free 8192 0);
    [eapply held_step with (r := Alloc 8192); [apply held_now|done|]| |].
  - split; [unfold in_size_t, SIZE_MODULUS; lia|]. eexists. vm_compute. reflexivity.
  - simpl. lia.
  - split; [unfold in_size_t, SIZE_MODULUS; lia|].
    split; [unfold in_size_t, SIZE_MODULUS; lia|]. eexists. vm_compute. reflexivity.
Qed.

Lemma allocated_range_is_excluded_witness :
  valid_space 0 65536 /\
  reachable 0 65536 (VMSpace_init 0 65536) /\
  in_size_t 4096 /\
  (alloc_space 4096 (VMSpace_init 0 65536) = Done (Value 16384) fixed_alloc_state \/
   (in_size_t 16384 /\
    alloc_space_at 4096 16384 (VMSpace_init 0 65536)
      = Done (Value 16384) fixed_alloc_state)) /\
  reached_without_free_at 16384 fixed_alloc_state fixed_alloc_later_state /\
  8192 mod PAGE_SIZE = 0 /\ 16384 mod PAGE_SIZE = 0 /\
  16384 <= 16384 < 16384 + 4096 /\
  alloc_space_at 8192 16384 fixed_alloc_later_state
    = Done (Error ENOMEM) fixed_alloc_later_state.
Proof.
  assert (Hv : valid_space 0 65536) by (unfold valid_space, SIZE_MODULUS; lia).
  assert (Hr : reachable 0 65536 (VMSpace_init 0 65536)) by apply reach_init.
  assert (H1 : in_size_t 4096) by apply size_t_4096.
  assert (H2 : in_size_t 16384) by (unfold in_size_t, SIZE_MODULUS; lia).
  assert (Hrun : alloc_space 4096 (VMSpace_init 0 65536)
                   = Done (Value 16384) fixed_alloc_state \/
                 (in_size_t 16384 /\
                  alloc_space_at 4096 16384 (VMSpace_init 0 65536)
                    = Done (Value 16384) fixed_alloc_state))
    by (right; split; [exact H2|vm_compute; reflexivity]).
  assert (Hin : 16384 <= 16384 < 16384 + 4096) by lia.
  split; [exact Hv|]. split; [exact Hr|]. split; [exact H1|].
  split; [exact Hrun|]. split; [exact fixed_alloc_later_state_reached|].
  split; [reflexivity|]. split; [reflexivity|]. split; [exact Hin|].
  exact (allocated_range_is_excluded 0 65536 (VMSpace_init 0 65536) 4096 16384
           16384 fixed_alloc_state fixed_alloc_later_state 8192 16384
           Hv Hr H1 Hrun fixed_alloc_later_state_reached eq_refl eq_refl Hin).
Defined.

(** ** Page alignment of the node boundaries *)

Lemma aligned_add x y :
  x mod PAGE_SIZE = 0 -> y mod PAGE_SIZE = 0 -> (x + y) mod PAGE_SIZE = 0.
Proof.
  intros Hx Hy. rewrite Z.add_mod by done. rewrite Hx, Hy. done.
Qed.

Lemma aligned_sub x y :
  x mod PAGE_SIZE = 0 -> y mod PAGE_SIZE = 0 -> (x - y) mod PAGE_SIZE = 0.
Proof.
  intros Hx Hy. rewrite Zminus_mod. rewrite Hx, Hy. done.
Qed.

Lemma wrap_mod_page x : wrap x mod PAGE_SIZE = x mod PAGE_SIZE.
Proof.
  unfold wrap. apply Z.mod_mod_divide. exists (2 ^ 20). done.
Qed.

Lemma alloc_nodes_starts_aligned size l v r :
  size mod PAGE_SIZE = 0 ->
  Forall (fun d => n_start d mod PAGE_SIZE = 0) l ->
  alloc_nodes size l = Some (v, r) ->
  Forall (fun d => n_start d mod PAGE_SIZE = 0) r.
Proof.
  intros Hal Hl H.
  destruct (alloc_nodes_Some _ _ _ _ H) as (l1 & d & l2 & -> & _ & _ & _ & ->).
  apply Forall_app in Hl as [Hl1 Hl2]. apply Forall_cons in Hl2 as [Hd Hl2].
  apply Forall_app. split; [done|]. apply Forall_app. split; [|done].
  unfold alloc_result. destruct (n_size d =? size).
  - by repeat constructor.
  - repeat constructor; simpl; [done|].
    rewrite wrap_mod_page. by apply aligned_add.
Qed.

Lemma alloc_at_nodes_starts_aligned size address l v r :
  size mod PAGE_SIZE = 0 -> address mod PAGE_SIZE = 0 ->
  Forall (fun d => n_start d mod PAGE_SIZE = 0) l ->
  alloc_at_nodes size address l = Some (v, r) ->
  Forall (fun d => n_start d mod PAGE_SIZE = 0) r.
Proof.
  intros Hal Hal' Hl H.
  destruct (alloc_at_nodes_Some _ _ _ _ _ H)
    as (l1 & d & l2 & -> & _ & _ & _ & _ & _ & ->).
  apply Forall_app in Hl as [Hl1 Hl2]. apply Forall_cons in Hl2 as [Hd Hl2].
  apply Forall_app. split; [done|]. apply Forall_app. split; [|done].
  unfold alloc_at_result, at_prefix, at_suffix.
  destruct (n_size d =? size); [by repeat constructor|].
  apply Forall_app. split; [destruct (n_start d <? address); by repeat constructor|].
  constructor; [done|].
  destruct (n_end d >? wrap (address + size)); [|constructor].
  repeat constructor. simpl. rewrite wrap_mod_page. by apply aligned_add.
Qed.

Lemma free_result_starts_aligned a b pre d l :
  0 <= a -> b < SIZE_MODULUS ->
  chain a (pre ++ d :: l) b ->
  Forall (fun d => n_start d mod PAGE_SIZE = 0) (pre ++ d :: l) ->
  Forall (fun d => n_start d mod PAGE_SIZE = 0) (free_result pre d l).
Proof.
  intros Ha Hb Hch Hall.
  destruct (chain_split _ _ _ _ _ Hch) as (Hc1 & Hz & Hc2 & Hle1 & Hle2).
  apply Forall_app in Hall as [Hpre Hdl]. apply Forall_cons in Hdl as [Hd Hl].
  unfold free_result.
  assert (exists pre1 d1,
    merge_previous_nodes pre (Node (n_start d) (n_size d) false) = (pre1, d1) /\
    Forall (fun d => n_start d mod PAGE_SIZE = 0) pre1 /\
    n_start d1 mod PAGE_SIZE = 0) as (pre1 & d1 & -> & Hpre1 & Hd1).
  { unfold merge_previous_nodes.
    destruct (snoc_cases pre) as [->|(pre' & dp & ->)]; [by eexists _, _|].
    rewrite last_snoc. destruct (n_used dp); [by eexists _, _|].
    eexists _, _. split; [done|]. rewrite removelast_last.
    apply Forall_app in Hpre as [Hpre' Hdp]. apply Forall_cons in Hdp as [Hdp _].
    split; [done|]. simpl.
    apply chain_app in Hc1 as [Hc1 Hc1']. simpl in Hc1'.
    destruct Hc1' as (Hsp & Hzp & Hep).
    replace (n_start d - n_size dp) with (n_start dp) by lia.
    by rewrite wrap_mod_page. }
  unfold merge_next_nodes. destruct l as [|dn l'].
  - apply Forall_app. split; [done|]. by constructor.
  - apply Forall_cons in Hl as [Hdn Hl'].
    destruct (n_used dn); apply Forall_app; (split; [done|]);
      by repeat constructor.
Qed.

(** In a chain whose node starts and whose end are page-aligned, the node
    sizes are page-aligned too. *)
Lemma chain_sizes_aligned a l b :
  chain a l b -> b mod PAGE_SIZE = 0 ->
  Forall (fun d => n_start d mod PAGE_SIZE = 0) l ->
  Forall (fun d => n_size d mod PAGE_SIZE = 0) l.
Proof.
  revert a. induction l as [|d l IH]; intros a Hch Hb Hall; [constructor|].
  simpl in Hch. destruct Hch as (Hs & Hz & Hch).
  apply Forall_cons in Hall as [Hd Hl].
  constructor; [|by eapply IH].
  destruct l as [|d' l'].
  - simpl in Hch. replace (n_size d) with (b - n_start d) by lia.
    by apply aligned_sub.
  - simpl in Hch. destruct Hch as (Hs' & _).
    apply Forall_cons in Hl as [Hd' _].
    replace (n_size d) with (n_start d' - n_start d) by lia.
    by apply aligned_sub.
Qed.

Lemma reachable_by_starts_aligned ok start size s :
  valid_space start size -> start mod PAGE_SIZE = 0 ->
  reachable_by ok start size s ->
  Forall (fun d => n_start d mod PAGE_SIZE = 0) (node_list s).
Proof.
  intros Hv Hal Hr. induction Hr as [|s r s' Hr IH _ Hstep].
  - rewrite VMSpace_init_node_list. by repeat constructor.
  - destruct (reachable_by_inv _ _ _ _ Hv Hr) as (Hwf & Hch & _ & _).
    destruct Hv as (Hv1 & Hv2 & Hv3).
    destruct (step_nodes _ _ _ Hwf Hstep) as (_ & Hcases).
    destruct Hcases as [->|[(sz & v & _ & _ & Hsz & Hn)|
      [(sz & addr & v & _ & _ & Hsz & Haddr & Hn)|(sz & addr & _ & _ & _ & Hn)]]].
    + done.
    + exact (alloc_nodes_starts_aligned _ _ _ _ Hsz IH Hn).
    + exact (alloc_at_nodes_starts_aligned _ _ _ _ _ Hsz Haddr IH Hn).
    + destruct (free_nodes_Some _ _ _ _ _ Hn) as (l1 & d & l2 & Hl & _ & _ & _ & Hres).
      simpl in Hres. rewrite Hres. rewrite Hl in Hch, IH.
      exact (free_result_starts_aligned _ _ _ _ _ Hv1 Hv3 Hch IH).
Qed.

(** X7: in an address space that starts on a page boundary, every node of
    every reachable state starts on a page boundary; when the size of the
    space is a whole number of pages, so is the size of every node. *)
Theorem node_boundaries_page_aligned start size s :
  valid_space start size ->
  start mod PAGE_SIZE = 0 ->
  reachable start size s ->
  Forall (fun d => n_start d mod PAGE_SIZE = 0) (node_list s) /\
  (size mod PAGE_SIZE = 0 ->
   Forall (fun d => n_size d mod PAGE_SIZE = 0) (node_list s)).
Proof.
  intros Hv Hal Hr.
  pose proof (reachable_by_starts_aligned _ _ _ _ Hv Hal Hr) as Hstarts.
  split; [done|]. intros Hsize.
  destruct (reachable_by_inv _ _ _ _ Hv Hr) as (_ & Hch & _ & _).
  eapply chain_sizes_aligned; [exact Hch| |done]. by apply aligned_add.
Qed.

Lemma node_boundaries_page_aligned_witness :
  valid_space 4096 61440 /\
  4096 mod PAGE_SIZE = 0 /\
  reachable 4096 61440 scenario_state /\
  Forall (fun d => n_start d mod PAGE_SIZE = 0) (node_list scenario_state) /\
  (61440 mod PAGE_SIZE = 0 ->
   Forall (fun d => n_size d mod PAGE_SIZE = 0) (node_list scenario_state)).
Proof.
  assert (Hv : valid_space 4096 61440) by (unfold valid_space, SIZE_MODULUS; lia).
  assert (Hr : reachable 4096 61440 scenario_state).
  { eapply reachable_by_weaken; [|apply scenario_state_reachable]. done. }
  split; [exact Hv|]. split; [reflexivity|]. split; [exact Hr|].
  exact (node_boundaries_page_aligned 4096 61440 scenario_state Hv eq_refl Hr).
Defined.


(** ** No empty node *)

Lemma alloc_nodes_positive a b size l v r :
  0 <= a -> b < SIZE_MODULUS -> chain a l b -> 0 < size ->
  Forall (fun d => 0 < n_size d) l ->
  alloc_nodes size l = Some (v, r) ->
  Forall (fun d => 0 < n_size d) r.
Proof.
  intros Ha Hb Hch Hsz Hl H.
  destruct (alloc_nodes_Some _ _ _ _ H) as (l1 & d & l2 & -> & _ & Hfit & _ & ->).
  destruct (chain_split _ _ _ _ _ Hch) as (Hc1 & Hz & Hc2 & Hle1 & Hle2).
  apply andb_prop in Hfit as [_ Hfit]. apply Z.leb_le in Hfit.
  apply Forall_app in Hl as [Hl1 Hl2]. apply Forall_cons in Hl2 as [Hd Hl2].
  apply Forall_app. split; [done|]. apply Forall_app. split; [|done].
  unfold alloc_result. destruct (Z.eqb_spec (n_size d) size).
  - by repeat constructor.
  - repeat constructor; simpl; [done|]. unwrap. lia.
Qed.

Lemma alloc_at_nodes_positive a b size address l v r :
  0 <= a -> b < SIZE_MODULUS -> chain a l b -> 0 < size ->
  Forall (fun d => 0 < n_size d) l ->
  alloc_at_nodes size address l = Some (v, r) ->
  Forall (fun d => 0 < n_size d) r.
Proof.
  intros Ha Hb Hch Hsz Hl H.
  destruct (alloc_at_nodes_Some _ _ _ _ _ H)
    as (l1 & d & l2 & -> & _ & Hd & _ & Hfit & _ & ->).
  destruct (chain_split _ _ _ _ _ Hch) as (Hc1 & Hz & Hc2 & Hle1 & Hle2).
  assert (Hin : d ∈ l1 ++ d :: l2) by (apply elem_of_app; right; by left).
  apply (n_contains_spec _ _ _ _ _ Ha Hb Hch Hin) in Hd.
  apply Forall_app in Hl as [Hl1 Hl2]. apply Forall_cons in Hl2 as [Hpos Hl2].
  apply Forall_app. split; [done|]. apply Forall_app. split; [|done].
  unfold alloc_at_result, at_prefix, at_suffix, n_end.
  destruct (Z.eqb_spec (n_size d) size); [by repeat constructor|].
  destruct Hfit as [?|Hfit]; [done|]. revert Hfit. unwrap. intros Hfit.
  apply Forall_app. split.
  - destruct (Z.ltb_spec (n_start d) address); repeat constructor. simpl. lia.
  - constructor; [done|]. unwrap.
    destruct (Z.gtb_spec (n_start d + n_size d) (address + size));
      repeat constructor. simpl. lia.
Qed.

Lemma free_result_positive a b pre d l :
  0 <= a -> b < SIZE_MODULUS ->
  chain a (pre ++ d :: l) b ->
  Forall (fun d => 0 < n_size d) (pre ++ d :: l) ->
  Forall (fun d => 0 < n_size d) (free_result pre d l).
Proof.
  intros Ha Hb Hch Hall.
  destruct (chain_split _ _ _ _ _ Hch) as (Hc1 & Hz & Hc2 & Hle1 & Hle2).
  apply Forall_app in Hall as [Hpre Hdl]. apply Forall_cons in Hdl as [Hd Hl].
  unfold free_result.
  assert (exists pre1 d1,
    merge_previous_nodes pre (Node (n_start d) (n_size d) false) = (pre1, d1) /\
    Forall (fun d => 0 < n_size d) pre1 /\
    0 < n_size d1 /\ 0 <= n_start d1 /\
    n_start d1 + n_size d1 = n_start d + n_size d)
    as (pre1 & d1 & -> & Hpre1 & Hd1 & Hs1 & He1).
  { unfold merge_previous_nodes.
    destruct (snoc_cases pre) as [->|(pre' & dp & ->)].
    - eexists _, _. split; [done|]. simpl in *. repeat split; try done; lia.
    - rewrite last_snoc.
      apply chain_app in Hc1 as [Hc1 Hc1']. simpl in Hc1'.
      destruct Hc1' as (Hsp & Hzp & Hep).
      pose proof (chain_end _ _ _ Hc1) as [_ Hle0].
      destruct (n_used dp).
      + eexists _, _. split; [done|]. simpl. repeat split; try done; lia.
      + eexists _, _. split; [done|]. rewrite removelast_last.
        apply Forall_app in Hpre as [Hpre' Hdp].
        apply Forall_cons in Hdp as [Hdp _].
        simpl. unwrap. repeat split; try done; lia. }
  unfold merge_next_nodes. destruct l as [|dn l'].
  - apply Forall_app. split; [done|]. by constructor.
  - apply Forall_cons in Hl as [Hdn Hl'].
    simpl in Hc2. destruct Hc2 as (Hsn & Hzn & Hc2).
    pose proof (chain_end _ _ _ Hc2) as [_ Hle3].
    destruct (n_used dn); apply Forall_app; (split; [done|]).
    + by repeat constructor.
    + constructor; [|done]. simpl. unwrap. lia.
Qed.

Lemma reachable_positive_sizes start size s :
  valid_space start size -> 0 < size ->
  reachable_with_positive_sizes start size s ->
  Forall (fun d => 0 < n_size d) (node_list s).
Proof.
  intros Hv Hsize Hr. induction Hr as [|s r s' Hr IH Hok Hstep].
  - rewrite VMSpace_init_node_list. by repeat constructor.
  - destruct (reachable_by_inv _ _ _ _ Hv Hr) as (Hwf & Hch & _ & _).
    destruct Hv as (Hv1 & Hv2 & Hv3).
    destruct (step_nodes _ _ _ Hwf Hstep) as (_ & Hcases).
    destruct Hcases as [->|[(sz & v & -> & _ & _ & Hn)|
      [(sz & addr & v & -> & _ & _ & _ & Hn)|(sz & addr & _ & _ & _ & Hn)]]].
    + done.
    + simpl in Hok. exact (alloc_nodes_positive _ _ _ _ _ _ Hv1 Hv3 Hch Hok IH Hn).
    + simpl in Hok.
      exact (alloc_at_nodes_positive _ _ _ _ _ _ _ Hv1 Hv3 Hch Hok IH Hn).
    + destruct (free_nodes_Some _ _ _ _ _ Hn) as (l1 & d & l2 & Hl & _ & _ & _ & Hres).
      simpl in Hres. rewrite Hres. rewrite Hl in Hch, IH.
      exact (free_result_positive _ _ _ _ _ Hv1 Hv3 Hch IH).
Qed.

Lemma chain_starts_increase a l b (i j : nat) d1 d2 :
  chain a l b -> Forall (fun d => 0 < n_size d) l ->
  (i < j)%nat -> l !! i = Some d1 -> l !! j = Some d2 ->
  n_start d1 < n_start d2.
Proof.
  intros Hch Hpos Hij Hi Hj.
  destruct (chain_ordered _ _ _ _ _ _ _ Hch Hij Hi Hj) as (_ & _ & Hle).
  pose proof (Forall_lookup_1 _ _ _ _ Hpos Hi) as Hp. simpl in Hp. lia.
Qed.

(** X8: when the space is not empty and every allocation asks for at least
    one byte, no node of a reachable state is empty, and the starts of the
    nodes increase strictly along the list: a start address names one
    node. *)
Theorem positive_requests_leave_no_empty_node start size s :
  valid_space start size -> 0 < size ->
  reachable_with_positive_sizes start size s ->
  Forall (fun d => 0 < n_size d) (node_list s) /\
  (forall (i j : nat) d1 d2, (i < j)%nat ->
     node_list s !! i = Some d1 -> node_list s !! j = Some d2 ->
     n_start d1 < n_start d2).
Proof.
  intros Hv Hsize Hr.
  pose proof (reachable_positive_sizes _ _ _ Hv Hsize Hr) as Hpos.
  split; [done|]. intros i j d1 d2 Hij Hi Hj.
  destruct (reachable_by_inv _ _ _ _ Hv Hr) as (_ & Hch & _ & _).
  by eapply chain_starts_increase.
Qed.

Lemma scenario_state_positive :
  reachable_with_positive_sizes 4096 61440 scenario_state.
Proof.
  eapply reach_step with (r := Alloc 8192);
    [eapply reach_step with (r := Alloc 4096); [apply reach_init|simpl; lia|]
    |simpl; lia|].
  - split; [unfold in_size_t, SIZE_MODULUS; lia|]. eexists. vm_compute. reflexivity.
  - split; [unfold in_size_t, SIZE_MODULUS; lia|]. eexists. vm_compute. reflexivity.
Qed.

Lemma positive_requests_leave_no_empty_node_witness :
  valid_space 4096 61440 /\ 0 < 61440 /\
  reachable_with_positive_sizes 4096 61440 scenario_state /\
  Forall (fun d => 0 < n_size d) (node_list scenario_state) /\
  (forall (i j : nat) d1 d2, (i < j)%nat ->
     node_list scenario_state !! i = Some d1 ->
     node_list scenario_state !! j = Some d2 ->
     n_start d1 < n_start d2).
Proof.
  assert (Hv : valid_space 4096 61440) by (unfold valid_space, SIZE_MODULUS; lia).
  assert (Hs : 0 < 61440) by lia.
  split; [exact Hv|]. split; [exact Hs|]. split; [exact scenario_state_positive|].
  exact (positive_requests_leave_no_empty_node 4096 61440 scenario_state Hv Hs
           scenario_state_positive).
Defined.

(** ** The counter bounds what can be allocated *)

Lemma free_node_bound a l b d :
  chain a l b -> d ∈ l -> n_used d = false ->
  n_size d + used_bytes l <= total_size l.
Proof.
  revert a. induction l as [|x l IH]; intros a Hch Hd Hfree.
  - by apply elem_of_nil in Hd.
  - simpl in Hch. destruct Hch as (Hs & Hz & Hch).
    pose proof (used_bytes_bound _ _ _ Hch) as Hub. simpl.
    apply elem_of_cons in Hd as [->|Hd].
    + rewrite Hfree. lia.
    + specialize (IH _ Hch Hd Hfree). destruct (n_used x); lia.
Qed.

Lemma alloc_space_None s sz :
  well_formed s -> sz mod PAGE_SIZE = 0 ->
  alloc_nodes sz (node_list s) = None ->
  alloc_space sz s = Done (Error ENOMEM) s.
Proof.
  intros Hwf Hal Hnone.
  pose proof (alloc_space_refines s sz Hwf Hal) as Href.
  by rewrite Hnone in Href.
Qed.

(** X9: when no [free_space] was given a node that was already free,
    [m_used] stays between [0] and the size of the space, and a request for
    more bytes than the [size - m_used] that are left is turned down with
    [ENOMEM], the state untouched. *)
Theorem allocation_is_bounded_by_free_bytes start size s :
  valid_space start size ->
  reachable_without_stray_free start size s ->
  0 <= m_used s <= size /\
  (forall sz, sz mod PAGE_SIZE = 0 -> size - m_used s < sz ->
     alloc_space sz s = Done (Error ENOMEM) s).
Proof.
  intros Hv Hr.
  pose proof (reachable_used_bytes _ _ _ Hv Hr) as Hused.
  destruct (reachable_by_inv _ _ _ _ Hv Hr) as (Hwf & Hch & _ & _).
  pose proof (used_bytes_bound _ _ _ Hch) as Hub.
  pose proof (chain_end _ _ _ Hch) as [Htot _].
  split; [lia|]. intros sz Hal Hbig.
  apply alloc_space_None; try done.
  apply alloc_nodes_None. apply Forall_forall. intros d Hd.
  unfold fits. destruct (n_used d) eqn:Hu; [done|]. simpl.
  pose proof (free_node_bound _ _ _ _ Hch Hd Hu). apply Z.leb_gt. lia.
Qed.

Lemma allocation_is_bounded_by_free_bytes_witness :
  valid_space 4096 61440 /\
  reachable_without_stray_free 4096 61440 scenario_state /\
  0 <= m_used scenario_state <= 61440 /\
  (forall sz, sz mod PAGE_SIZE = 0 -> 61440 - m_used scenario_state < sz ->
     alloc_space sz scenario_state = Done (Error ENOMEM) scenario_state).
Proof.
  assert (Hv : valid_space 4096 61440) by (unfold valid_space, SIZE_MODULUS; lia).
  split; [exact Hv|]. split; [exact scenario_state_reachable|].
  exact (allocation_is_bounded_by_free_bytes 4096 61440 scenario_state Hv
           scenario_state_reachable).
Defined.

(** ** Allocating and freeing again *)

Lemma alloc_free_nodes a b l size v r :
  0 <= a -> b < SIZE_MODULUS -> 0 <= size ->
  chain a l b -> no_free_pair false l ->
  Forall (fun d => 0 < n_size d) l ->
  alloc_nodes size l = Some (v, r) ->
  free_nodes size v [] r = Some l.
Proof.
  intros Ha Hb Hsz Hch Hnf Hpos Hal.
  destruct (alloc_nodes_Some _ _ _ _ Hal) as (l1 & d & l2 & -> & _ & Hfit & -> & ->).
  destruct (chain_split _ _ _ _ _ Hch) as (Hc1 & Hz & Hc2 & Hle1 & Hle2).
  apply Forall_app in Hpos as [Hpos1 _].
  pose proof (chain_starts_below _ _ _ Hc1 Hpos1) as Hbelow.
  apply andb_prop in Hfit as [Hu Hfit].
  apply negb_true_iff in Hu. apply Z.leb_le in Hfit.
  apply no_free_pair_app in Hnf as [Hn1 Hn2]. simpl in Hn2.
  destruct Hn2 as (Hlf & Hn2). rewrite Hu in Hn2, Hlf. simpl in Hn2.
  assert (Hlf' : last_free false l1 = false).
  { destruct (last_free false l1); [by specialize (Hlf eq_refl)|done]. }
  assert (Hne : Forall (fun x => n_start x <> n_start d) l1).
  { eapply Forall_impl; [exact Hbelow|]. simpl. intros x Hx. lia. }
  destruct d as [ds dz du]. simpl in *. subst du.
  unfold alloc_result. simpl.
  destruct (Z.eqb_spec dz size) as [->|Hne'].
  - simpl.
    rewrite (free_nodes_found size ds l1 (Node ds size true) l2 []); try done.
    unfold free_result. simpl.
    rewrite merge_previous_nodes_used by done.
    rewrite merge_next_nodes_used by done. done.
  - unwrap. simpl.
    rewrite (free_nodes_found size ds l1 (Node ds size true)
               (Node (ds + size) (dz - size) false :: l2) []); try done.
    unfold free_result. simpl.
    rewrite merge_previous_nodes_used by done. simpl. unwrap.
    do 3 f_equal. apply node_eq; lia.
Qed.

Lemma alloc_at_free_nodes_returned a b l size address v r :
  0 <= a -> b < SIZE_MODULUS -> 0 <= size ->
  chain a l b -> no_free_pair false l ->
  Forall (fun d => 0 < n_size d) l ->
  alloc_at_nodes size address l = Some (v, r) ->
  free_nodes size v [] r = Some l.
Proof.
  intros Ha Hb Hsz Hch Hnf Hpos Hal.
  destruct (alloc_at_nodes_Some _ _ _ _ _ Hal)
    as (l1 & d & l2 & Hl & Hl1 & Hd & Hu & Hfit & Hv & Hr).
  destruct (Z.eqb_spec (n_size d) size) as [Hexact|Hsplit].
  - (* the node had exactly the size: any address in it gives the same list *)
    subst l. destruct (chain_split _ _ _ _ _ Hch) as (Hc1 & Hz & Hc2 & Hle1 & Hle2).
    pose proof Hpos as Hpos'.
    apply Forall_app in Hpos' as [_ Hpd]. apply Forall_cons in Hpd as [Hpd _].
    assert (Hal' : alloc_at_nodes size (n_start d) (l1 ++ d :: l2)
                   = Some (n_start d, r)).
    { rewrite (alloc_at_nodes_found size (n_start d) l1 d l2).
      - destruct (Z.eqb_spec (n_size d) size); [|done]. rewrite Hr.
        unfold alloc_at_result. by destruct (Z.eqb_spec (n_size d) size).
      - eapply chain_not_contained; [exact Ha| |exact Hc1|]; lia.
      - eapply n_contains_spec; [exact Ha|exact Hb|exact Hch| |lia].
        apply elem_of_app. right. by left.
      - done.
      - by left. }
    rewrite Hv.
    exact (alloc_at_free_nodes _ _ _ _ _ _ Ha Hb Hsz Hch Hnf Hpos Hal').
  - subst v. rewrite Hl in Hal.
    rewrite Hl.
    rewrite Hl in Hch, Hnf, Hpos.
    exact (alloc_at_free_nodes _ _ _ _ _ _ Ha Hb Hsz Hch Hnf Hpos Hal).
Qed.


Lemma wrap_add_sub m sz : in_size_t m -> wrap (wrap (m + sz) - sz) = m.
Proof.
  intros Hm. unfold wrap. rewrite Zminus_mod_idemp_l.
  replace (m + sz - sz) with m by lia. by apply Z.mod_small.
Qed.

Lemma free_space_Some s sz addr r :
  well_formed s -> sz mod PAGE_SIZE = 0 -> addr mod PAGE_SIZE = 0 ->
  free_nodes sz addr [] (node_list s) = Some r ->
  exists s', free_space sz addr s = Done SUCCESS s' /\ well_formed s' /\
             node_list s' = r /\ m_used s' = wrap (m_used s - sz).
Proof.
  intros Hwf Hal Hal' Hsome.
  pose proof (free_space_refines s sz addr Hwf Hal Hal') as Href.
  by rewrite Hsome in Href.
Qed.

(** X10: in an address space that starts on a page boundary and has no
    empty node, freeing what [alloc_space] has just handed out, at the
    address it returned, succeeds and gives back the node list and the
    counter of the state before the allocation. *)
Theorem alloc_free_round_trip start size s sz v s1 :
  valid_space start size ->
  start mod PAGE_SIZE = 0 ->
  reachable start size s ->
  Forall (fun d => 0 < n_size d) (node_list s) ->
  in_size_t sz ->
  alloc_space sz s = Done (Value v) s1 ->
  exists s2,
    free_space sz v s1 = Done SUCCESS s2 /\
    node_list s2 = node_list s /\
    m_used s2 = m_used s.
Proof.
  intros Hv Hstart Hr Hpos [Hsz0 Hsz1] Hrun.
  destruct (reachable_by_inv _ _ _ _ Hv Hr) as (Hwf & Hch & Hnf & Hu).
  pose proof (reachable_by_starts_aligned _ _ _ _ Hv Hstart Hr) as Hal.
  destruct Hv as (Hv1 & Hv2 & Hv3).
  destruct (alloc_space_Value _ _ _ _ Hwf Hrun) as (Hsz & Hwf1 & Hnodes & Hu1).
  assert (Hv_al : v mod PAGE_SIZE = 0).
  { destruct (alloc_nodes_Some _ _ _ _ Hnodes) as (l1 & d & l2 & Hl & _ & _ & -> & _).
    rewrite Hl in Hal. apply Forall_app in Hal as [_ Hal].
    by apply Forall_cons in Hal as [Hal _]. }
  pose proof (alloc_free_nodes _ _ _ _ _ _ Hv1 Hv3 Hsz0 Hch Hnf Hpos Hnodes) as Hfree.
  destruct (free_space_Some _ _ _ _ Hwf1 Hsz Hv_al Hfree)
    as (s2 & Hrun2 & _ & Hl2 & Hu2).
  exists s2. split; [done|]. split; [done|].
  rewrite Hu2, Hu1. by apply wrap_add_sub.
Qed.

Lemma alloc_free_round_trip_witness :
  valid_space 4096 61440 /\
  4096 mod PAGE_SIZE = 0 /\
  reachable 4096 61440 scenario_state /\
  Forall (fun d => 0 < n_size d) (node_list scenario_state) /\
  in_size_t 4096 /\
  alloc_space 4096 scenario_state
    = Done (Value 16384) (state_after (alloc_space 4096 scenario_state) scenario_state) /\
  exists s2,
    free_space 4096 16384
      (state_after (alloc_space 4096 scenario_state) scenario_state)
      = Done SUCCESS s2 /\
    node_list s2 = node_list scenario_state /\
    m_used s2 = m_used scenario_state.
Proof.
  assert (Hv : valid_space 4096 61440) by (unfold valid_space, SIZE_MODULUS; lia).
  assert (Hr : reachable 4096 61440 scenario_state).
  { eapply reachable_by_weaken; [|apply scenario_state_reachable]. done. }
  assert (Hp : Forall (fun d => 0 < n_size d) (node_list scenario_state)).
  { change (node_list scenario_state)
      with [Node 4096 4096 true; Node 8192 8192 true; Node 16384 49152 false].
    repeat constructor. }
  assert (Hrun : alloc_space 4096 scenario_state
    = Done (Value 16384) (state_after (alloc_space 4096 scenario_state) scenario_state))
    by (vm_compute; reflexivity).
  split; [exact Hv|]. split; [reflexivity|]. split; [exact Hr|].
  split; [exact Hp|]. split; [exact size_t_4096|]. split; [exact Hrun|].
  exact (alloc_free_round_trip 4096 61440 scenario_state 4096 16384 _
           Hv eq_refl Hr Hp size_t_4096 Hrun).
Defined.

(** X11: the same for [alloc_space_at], whatever address it returned: also
    when the node had exactly the size asked for and the call returned the
    start of the node instead of the address given, freeing at the returned
    address restores the node list and the counter. *)
Theorem alloc_at_free_at_returned_address start size s sz addr v s1 :
  valid_space start size ->
  start mod PAGE_SIZE = 0 ->
  reachable start size s ->
  Forall (fun d => 0 < n_size d) (node_list s) ->
  in_size_t sz ->
  alloc_space_at sz addr s = Done (Value v) s1 ->
  exists s2,
    free_space sz v s1 = Done SUCCESS s2 /\
    node_list s2 = node_list s /\
    m_used s2 = m_used s.
Proof.
  intros Hv Hstart Hr Hpos [Hsz0 Hsz1] Hrun.
  destruct (reachable_by_inv _ _ _ _ Hv Hr) as (Hwf & Hch & Hnf & Hu).
  pose proof (reachable_by_starts_aligned _ _ _ _ Hv Hstart Hr) as Hal.
  destruct Hv as (Hv1 & Hv2 & Hv3).
  destruct (alloc_space_at_Value _ _ _ _ _ Hwf Hrun)
    as (Hsz & Haddr & Hwf1 & Hnodes & Hu1).
  assert (Hv_al : v mod PAGE_SIZE = 0).
  { destruct (alloc_at_nodes_Some _ _ _ _ _ Hnodes)
      as (l1 & d & l2 & Hl & _ & _ & _ & _ & -> & _).
    destruct (n_size d =? sz); [|done].
    rewrite Hl in Hal. apply Forall_app in Hal as [_ Hal].
    by apply Forall_cons in Hal as [Hal _]. }
  pose proof (alloc_at_free_nodes_returned _ _ _ _ _ _ _ Hv1 Hv3 Hsz0 Hch Hnf Hpos
                Hnodes) as Hfree.
  destruct (free_space_Some _ _ _ _ Hwf1 Hsz Hv_al Hfree)
    as (s2 & Hrun2 & _ & Hl2 & Hu2).
  exists s2. split; [done|]. split; [done|].
  rewrite Hu2, Hu1. by apply wrap_add_sub.
Qed.

Lemma alloc_at_free_at_returned_address_witness :
  valid_space 0 8192 /\
  0 mod PAGE_SIZE = 0 /\
  reachable 0 8192 (VMSpace_init 0 8192) /\
  Forall (fun d => 0 < n_size d) (node_list (VMSpace_init 0 8192)) /\
  in_size_t 8192 /\
  alloc_space_at 8192 4096 (VMSpace_init 0 8192)
    = Done (Value 0)
        (state_after (alloc_space_at 8192 4096 (VMSpace_init 0 8192))
           (VMSpace_init 0 8192)) /\
  exists s2,
    free_space 8192 0
      (state_after (alloc_space_at 8192 4096 (VMSpace_init 0 8192))
         (VMSpace_init 0 8192))
      = Done SUCCESS s2 /\
    node_list s2 = node_list (VMSpace_init 0 8192) /\
    m_used s2 = m_used (VMSpace_init 0 8192).
Proof.
  assert (Hv : valid_space 0 8192) by (unfold valid_space, SIZE_MODULUS; lia).
  assert (Hr : reachable 0 8192 (VMSpace_init 0 8192)) by apply reach_init.
  assert (Hp : Forall (fun d => 0 < n_size d) (node_list (VMSpace_init 0 8192))).
  { rewrite VMSpace_init_node_list. repeat constructor. }
  assert (Hsz : in_size_t 8192) by (unfold in_size_t, SIZE_MODULUS; lia).
  assert (Hrun : alloc_space_at 8192 4096 (VMSpace_init 0 8192)
    = Done (Value 0)
        (state_after (alloc_space_at 8192 4096 (VMSpace_init 0 8192))
           (VMSpace_init 0 8192)))
    by (vm_compute; reflexivity).
  split; [exact Hv|]. split; [reflexivity|]. split; [exact Hr|].
  split; [exact Hp|]. split; [exact Hsz|]. split; [exact Hrun|].
  exact (alloc_at_free_at_returned_address 0 8192 (VMSpace_init 0 8192) 8192 4096 0 _
           Hv eq_refl Hr Hp Hsz Hrun).
Defined.

(** ** Memory safety *)

(** X12: in a reachable state none of the three calls follows a pointer to
    a node that is not live, and none of their loops runs past the number
    of live nodes: whatever the arguments, a call returns or stops at an
    [ASSERT]. *)
Theorem reachable_calls_are_memory_safe start size s sz addr :
  valid_space start size ->
  reachable start size s ->
  (alloc_space sz s <> Fault /\ alloc_space sz s <> OutOfFuel) /\
  (alloc_space_at sz addr s <> Fault /\ alloc_space_at sz addr s <> OutOfFuel) /\
  (free_space sz addr s <> Fault /\ free_space sz addr s <> OutOfFuel).
Proof.
  intros Hv Hr.
  destruct (reachable_by_inv _ _ _ _ Hv Hr) as (Hwf & _).
  destruct (calls_return_or_panic s sz addr Hwf) as (H1 & H2 & H3).
  split; [|split].
  - destruct H1 as [(v & s' & ->)| ->]; done.
  - destruct H2 as [(v & s' & ->)| ->]; done.
  - destruct H3 as [(v & s' & ->)| ->]; done.
Qed.

Lemma reachable_calls_are_memory_safe_witness :
  valid_space 4096 61440 /\
  reachable 4096 61440 scenario_state /\
  (alloc_space 4096 scenario_state <> Fault /\
   alloc_space 4096 scenario_state <> OutOfFuel) /\
  (alloc_space_at 4096 8192 scenario_state <> Fault /\
   alloc_space_at 4096 8192 scenario_state <> OutOfFuel) /\
  (free_space 4096 8192 scenario_state <> Fault /\
   free_space 4096 8192 scenario_state <> OutOfFuel).
Proof.
  assert (Hv : valid_space 4096 61440) by (unfold valid_space, SIZE_MODULUS; lia).
  assert (Hr : reachable 4096 61440 scenario_state).
  { eapply reachable_by_weaken; [|apply scenario_state_reachable]. done. }
  split; [exact Hv|]. split; [exact Hr|].
  exact (reachable_calls_are_memory_safe 4096 61440 scenario_state 4096 8192 Hv Hr).
Defined.


(** * Properties of the address space: regions and their ranges *)

(** ** More facts about node lists *)

Lemma chain_contains_unique a l b d1 d2 x :
  chain a l b -> d1 ∈ l -> d2 ∈ l ->
  n_start d1 <= x < n_start d1 + n_size d1 ->
  n_start d2 <= x < n_start d2 + n_size d2 ->
  d1 = d2.
Proof.
  intros Hch [i Hi]%list_elem_of_lookup [j Hj]%list_elem_of_lookup H1 H2.
  destruct (decide (i = j)) as [->|Hij]; [congruence|].
  by destruct (chain_non_overlapping _ _ _ Hch i j d1 d2 x Hij Hi Hj).
Qed.

Lemma node_is_first_with_its_start a l b d :
  chain a l b -> Forall (fun d => 0 < n_size d) l -> d ∈ l ->
  exists l1 l2, l = l1 ++ d :: l2 /\
    Forall (fun x => n_start x <> n_start d) l1.
Proof.
  intros Hch Hpos Hd. apply list_elem_of_split in Hd as (l1 & l2 & ->).
  exists l1, l2. split; [done|].
  destruct (chain_split _ _ _ _ _ Hch) as (Hc1 & _).
  apply Forall_app in Hpos as [Hpos1 _].
  pose proof (chain_starts_below _ _ _ Hc1 Hpos1) as Hbelow.
  eapply Forall_impl; [exact Hbelow|]. simpl. intros x Hx. lia.
Qed.

Lemma alloc_nodes_from_free size l v r :
  Forall (fun d => 0 < n_size d) l ->
  alloc_nodes size l = Some (v, r) ->
  exists d, d ∈ l /\ n_used d = false /\ n_start d <= v < n_start d + n_size d.
Proof.
  intros Hpos H.
  destruct (alloc_nodes_Some _ _ _ _ H) as (l1 & d & l2 & -> & _ & Hfit & -> & _).
  apply andb_prop in Hfit as [Hu _]. apply negb_true_iff in Hu.
  apply Forall_app in Hpos as [_ Hpos]. apply Forall_cons in Hpos as [Hd _].
  exists d. split; [apply elem_of_app; right; by left|]. split; [done|]. lia.
Qed.

Lemma alloc_at_nodes_from_free a b size address l v r :
  0 <= a -> b < SIZE_MODULUS -> chain a l b ->
  Forall (fun d => 0 < n_size d) l ->
  alloc_at_nodes size address l = Some (v, r) ->
  exists d, d ∈ l /\ n_used d = false /\ n_start d <= v < n_start d + n_size d.
Proof.
  intros Ha Hb Hch Hpos H.
  destruct (alloc_at_nodes_Some _ _ _ _ _ H)
    as (l1 & d & l2 & -> & _ & Hd & Hu & _ & -> & _).
  assert (Hin : d ∈ l1 ++ d :: l2) by (apply elem_of_app; right; by left).
  apply (n_contains_spec _ _ _ _ _ Ha Hb Hch Hin) in Hd.
  apply Forall_app in Hpos as [_ Hpos]. apply Forall_cons in Hpos as [Hp _].
  exists d. split; [done|]. split; [done|].
  destruct (n_size d =? size); lia.
Qed.

Lemma NoDup_fmap_delete_ne {A B} (f : A -> B) (l : list A) (i : nat) x y :
  NoDup (f <$> l) -> l !! i = Some x -> y ∈ delete i l -> f y <> f x.
Proof.
  intros Hnd Hi Hy.
  rewrite <- (take_drop_middle _ _ _ Hi) in Hnd, Hy.
  assert (Hlen : length (take i l) = i).
  { apply length_take_le. apply lookup_lt_Some in Hi. lia. }
  rewrite <- Hlen in Hy at 1. rewrite delete_middle in Hy.
  rewrite fmap_app, fmap_cons in Hnd.
  apply NoDup_app in Hnd as (_ & Hfront & Hback).
  apply NoDup_cons in Hback as [Hback _].
  intros Heq. apply elem_of_app in Hy as [Hy|Hy].
  - apply (Hfront (f y)); [by apply list_elem_of_fmap_2|]. rewrite Heq. by left.
  - apply Hback. rewrite <- Heq. by apply list_elem_of_fmap_2.
Qed.

Lemma list_find_unique {A B} `{EqDecision B} (f : A -> B) (l : list A) x :
  NoDup (f <$> l) -> x ∈ l ->
  exists i, list_find (fun y => f y = f x) l = Some (i, x).
Proof.
  intros Hnd [i Hi]%list_elem_of_lookup. exists i.
  apply list_find_Some. split; [done|]. split; [done|].
  intros j y Hj Hlt Heq.
  assert (i = j); [|lia].
  apply (NoDup_lookup (f <$> l) i j (f x) Hnd).
  - by rewrite list_lookup_fmap, Hi.
  - rewrite list_lookup_fmap, Hj. simpl. by rewrite Heq.
Qed.


Section VMSpaceProperties.
Context {PageDirectory : Type}.
Variable pd_map : VMRegion -> PageDirectory -> ResultRet unit * PageDirectory.
Variable pd_unmap : VMRegion -> PageDirectory -> ResultRet unit * PageDirectory.

Lemma VMSpace_new_inv start size (pd : PageDirectory) :
  valid_space start size -> 0 < size -> start mod PAGE_SIZE = 0 ->
  vm_inv start size (VMSpace_new start size pd).
Proof.
  intros Hv Hsize Hal. unfold vm_inv, VMSpace_new. simpl.
  rewrite VMSpace_init_node_list.
  split; [by apply VMSpace_init_inv|]. split; [done|].
  split; [by repeat constructor|]. split; [by repeat constructor|].
  split; constructor.
Qed.

(** What an allocation that returned [v] leaves behind. *)
Lemma alloc_vm_facts start size (sp : VMSpace PageDirectory) rm' v sz :
  valid_space start size -> vm_inv start size sp ->
  0 < sz < SIZE_MODULUS ->
  alloc_space sz (range_map sp) = Done (Value v) rm' \/
  (exists addr, in_size_t addr /\
     alloc_space_at sz addr (range_map sp) = Done (Value v) rm') ->
  state_inv start size rm' /\
  m_used rm' = used_bytes (node_list rm') /\
  Forall (fun d => 0 < n_size d) (node_list rm') /\
  Forall (fun d => n_start d mod PAGE_SIZE = 0) (node_list rm') /\
  Forall (fun r => region_node r ∈ node_list rm' /\
                   reg_size r mod PAGE_SIZE = 0) (m_regions sp) /\
  Node v sz true ∈ node_list rm' /\ sz mod PAGE_SIZE = 0 /\
  (v ∉ reg_start <$> m_regions sp) /\
  m_used rm' = m_used (range_map sp) + sz.
Proof.
  intros Hv (Hinv & Hused & Hpos & Hal & Hregs & Hnd) Hsz Hrun.
  pose proof Hinv as (Hwf & Hch & Hnf & Hu).
  pose proof Hv as (Hv1 & Hv2 & Hv3).
  assert (Hsz' : in_size_t sz) by (unfold in_size_t; lia).
  (* the step of the range allocator *)
  assert (exists req, step (range_map sp) req rm' /\
                      frees_used_node (range_map sp) req) as (req & Hstep & Hok).
  { destruct Hrun as [Hrun|(addr & Haddr & Hrun)].
    - exists (Alloc sz). split; [|done]. simpl. split; [done|]. by eexists.
    - exists (AllocAt sz addr). split; [|done]. simpl.
      split; [done|]. split; [done|]. by eexists. }
  destruct (step_inv _ _ _ _ _ Hv Hinv Hstep) as [Hinv' Hused'].
  specialize (Hused' Hused Hok).
  (* the lists before and after *)
  assert (sz mod PAGE_SIZE = 0 /\
          m_used rm' = wrap (m_used (range_map sp) + sz) /\
          Forall (fun d => 0 < n_size d) (node_list rm') /\
          Forall (fun d => n_start d mod PAGE_SIZE = 0) (node_list rm') /\
          (forall u, u ∈ node_list (range_map sp) -> n_used u = true ->
                     u ∈ node_list rm') /\
          (exists r1 r2, node_list rm' = r1 ++ Node v sz true :: r2) /\
          (exists d, d ∈ node_list (range_map sp) /\ n_used d = false /\
                     n_start d <= v < n_start d + n_size d) /\
          used_bytes (node_list rm') = used_bytes (node_list (range_map sp)) + sz)
    as (Hsz_al & Hu' & Hpos' & Hal' & Hkeep & Hnew & Hfree & Hbytes).
  { destruct Hrun as [Hrun|(addr & Haddr & Hrun)].
    - destruct (alloc_space_Value _ _ _ _ Hwf Hrun) as (Hsza & _ & Hn & Hu').
      split; [done|]. split; [done|].
      split; [exact (alloc_nodes_positive _ _ _ _ _ _ Hv1 Hv3 Hch (proj1 Hsz) Hpos Hn)|].
      split; [exact (alloc_nodes_starts_aligned _ _ _ _ Hsza Hal Hn)|].
      split; [intros u Hu1 Hu2; exact (alloc_nodes_keeps_used _ _ _ _ _ Hn Hu1 Hu2)|].
      split; [exact (alloc_nodes_used_node _ _ _ _ Hn)|].
      split; [exact (alloc_nodes_from_free _ _ _ _ Hpos Hn)|].
      by destruct (alloc_nodes_inv _ _ _ _ _ _ _ (proj1 Hsz') Hv1 Hv3 Hch Hnf Hn)
        as (_ & _ & ?).
    - destruct (alloc_space_at_Value _ _ _ _ _ Hwf Hrun)
        as (Hsza & Haddra & _ & Hn & Hu').
      split; [done|]. split; [done|].
      split; [exact (alloc_at_nodes_positive _ _ _ _ _ _ _ Hv1 Hv3 Hch (proj1 Hsz)
                       Hpos Hn)|].
      split; [exact (alloc_at_nodes_starts_aligned _ _ _ _ _ Hsza Haddra Hal Hn)|].
      split; [intros u Hu1 Hu2;
              exact (alloc_at_nodes_keeps_used _ _ _ _ _ _ Hn Hu1 Hu2)|].
      split; [exact (alloc_at_nodes_used_node _ _ _ _ _ Hn)|].
      split; [exact (alloc_at_nodes_from_free _ _ _ _ _ _ _ Hv1 Hv3 Hch Hpos Hn)|].
      by destruct (alloc_at_nodes_inv _ _ _ _ _ _ _ _ (proj1 Hsz') Hv1 Hv3 Hch Hnf Hn)
        as (_ & _ & ?). }
  destruct Hnew as (r1 & r2 & Hnew). destruct Hfree as (d & Hd & Hdfree & Hdv).
  split; [done|]. split; [done|]. split; [done|]. split; [done|].
  split; [|split; [|split; [done|split]]].
  - eapply Forall_impl; [exact Hregs|]. simpl. intros r [Hr Hra].
    split; [|done]. by apply Hkeep.
  - rewrite Hnew. apply elem_of_app. right. by left.
  - intros (r & Hstart & Hr)%list_elem_of_fmap.
    pose proof (proj1 (Forall_forall _ _) Hregs r Hr) as [Hnode _].
    pose proof (proj1 (Forall_forall _ _) Hpos _ Hnode) as Hrpos.
    unfold region_node in *. simpl in Hrpos.
    assert (d = Node (reg_start r) (reg_size r) true) as ->; [|done].
    eapply (chain_contains_unique _ _ _ _ _ v); [exact Hch|done|done|done|].
    simpl. lia.
  - rewrite Hused', Hbytes, Hused. done.
Qed.


(** What [unmap_region_at] finds when a region starts at the address: the
    range of the region is a used node, and freeing it cannot fail. *)
Lemma unmap_vm_facts start size (sp : VMSpace PageDirectory) address i region :
  valid_space start size -> vm_inv start size sp ->
  list_find (fun r => reg_start r = address) (m_regions sp) = Some (i, region) ->
  exists rm',
    free_space (reg_size region) (reg_start region) (range_map sp)
      = Done SUCCESS rm' /\
    state_inv start size rm' /\
    m_used rm' = used_bytes (node_list rm') /\
    Forall (fun d => 0 < n_size d) (node_list rm') /\
    Forall (fun d => n_start d mod PAGE_SIZE = 0) (node_list rm') /\
    Forall (fun r => region_node r ∈ node_list rm' /\
                     reg_size r mod PAGE_SIZE = 0) (delete i (m_regions sp)) /\
    NoDup (reg_start <$> delete i (m_regions sp)) /\
    m_used rm' = m_used (range_map sp) - reg_size region /\
    (exists d, d ∈ node_list rm' /\ n_used d = false /\
       n_start d <= reg_start region /\
       reg_start region + reg_size region <= n_start d + n_size d).
Proof.
  intros Hv (Hinv & Hused & Hpos & Hal & Hregs & Hnd) Hfind.
  pose proof Hinv as (Hwf & Hch & Hnf & Hu).
  pose proof Hv as (Hv1 & Hv2 & Hv3).
  apply list_find_Some in Hfind as (Hi & Hstart & _).
  assert (Hin : region ∈ m_regions sp) by (by eapply list_elem_of_lookup_2).
  pose proof (proj1 (Forall_forall _ _) Hregs _ Hin) as [Hnode Hsz_al].
  destruct (node_is_first_with_its_start _ _ _ _ Hch Hpos Hnode)
    as (l1 & l2 & Hl & Hl1).
  assert (Hst_al : reg_start region mod PAGE_SIZE = 0).
  { exact (proj1 (Forall_forall _ _) Hal _ Hnode). }
  assert (Hfree : free_nodes (reg_size region) (reg_start region) []
                    (node_list (range_map sp))
                  = Some (free_result l1 (region_node region) l2)).
  { rewrite Hl. by apply (free_nodes_found _ _ l1 (region_node region) l2 []). }
  destruct (free_space_Some _ _ _ _ Hwf Hsz_al Hst_al Hfree)
    as (rm' & Hrun & Hwf' & Hl' & Hu').
  exists rm'. split; [done|].
  assert (Hstep : step (range_map sp) (Free (reg_size region) (reg_start region)) rm').
  { simpl.
    pose proof (proj1 (Forall_forall _ _) Hpos _ Hnode) as Hrpos.
    pose proof (list_elem_of_lookup_1 _ _ Hnode) as [k Hk].
    destruct (chain_lookup _ _ _ _ _ Hch Hk) as (Hk1 & Hk2 & Hk3).
    unfold region_node in *. simpl in *.
    unfold in_size_t. split; [lia|]. split; [lia|]. by eexists. }
  assert (Hok : frees_used_node (range_map sp)
                  (Free (reg_size region) (reg_start region))).
  { simpl. exists (region_node region). split; [|done].
    rewrite Hl. by apply find_first. }
  destruct (step_inv _ _ _ _ _ Hv Hinv Hstep) as [Hinv' Hused'].
  specialize (Hused' Hused Hok).
  rewrite Hl in Hch, Hpos, Hal, Hnf.
  split; [done|]. split; [done|].
  split; [rewrite Hl'; exact (free_result_positive _ _ _ _ _ Hv1 Hv3 Hch Hpos)|].
  split; [rewrite Hl'; exact (free_result_starts_aligned _ _ _ _ _ Hv1 Hv3 Hch Hal)|].
  split; [|split; [|split]].
  - apply Forall_forall. intros r Hr.
    pose proof (NoDup_fmap_delete_ne reg_start _ _ _ _ Hnd Hi Hr) as Hne.
    apply list_elem_of_delete_inv in Hr.
    pose proof (proj1 (Forall_forall _ _) Hregs _ Hr) as [Hrnode Hral].
    split; [|done]. rewrite Hl'. apply free_result_keeps_used; [done|].
    rewrite Hl in Hrnode. apply elem_of_app in Hrnode as [?|Hrnode]; [by left|].
    apply elem_of_cons in Hrnode as [Heq|?]; [|by right].
    unfold region_node in Heq. by injection Heq as ? _.
  - rewrite list_fmap_delete. eapply sublist_NoDup; [exact Hnd|].
    apply sublist_delete.
  - destruct (free_result_inv _ _ _ _ _ Hv1 Hv3 Hch Hnf) as (_ & _ & Hbytes).
    rewrite Hused', Hl', Hbytes, Hused, Hl. done.
  - destruct (free_result_covers _ _ _ _ _ Hv1 Hv3 Hch)
      as (r1 & d' & r2 & Hres & Hd'u & Hlo & Hhi).
    exists d'. rewrite Hl', Hres. split; [apply elem_of_app; right; by left|].
    done.
Qed.

(** Every operation keeps the invariant of the address space. *)
Lemma vm_step_inv start size (sp : VMSpace PageDirectory) r sp' :
  valid_space start size ->
  vm_inv start size sp -> vm_step pd_map pd_unmap sp r sp' ->
  vm_inv start size sp'.
Proof.
  intros Hv Hinv Hstep.
  pose proof Hinv as (Hsi & Hused & Hpos & Hal & Hregs & Hnd).
  pose proof Hsi as (Hwf & _).
  destruct r as [object prot|object address prot|address|rstart rsize];
    simpl in Hstep.
  - (* map_object *)
    destruct Hstep as (Hsz & [region|e] & Hrun).
    + unfold map_object in Hrun.
      destruct (try_alloc_region _ _ _ _ _ _ _ Hrun)
        as (v & rm & Halloc & Hregion & Hrm & Hlist).
      destruct (alloc_vm_facts _ _ _ _ _ _ Hv Hinv Hsz (or_introl Halloc))
        as (H1 & H2 & H3 & H4 & H5 & H6 & H7 & H8 & _).
      unfold vm_inv. rewrite Hrm, Hlist.
      split; [done|]. split; [done|]. split; [done|]. split; [done|]. split.
      * apply Forall_app. split; [done|]. constructor; [|constructor].
        subst region. unfold region_node. simpl. done.
      * rewrite fmap_app. apply NoDup_app. split; [done|]. split.
        -- intros x Hx. subst region. simpl.
           intros ->%list_elem_of_singleton. done.
        -- apply NoDup_singleton.
    + unfold map_object in Hrun.
      destruct (try_alloc_error pd_map _ _ _ _ _ _
                  (fun e rm => alloc_space_error _ _ e rm Hwf) Hrun) as [_ ->].
      done.
  - (* map_object at an address *)
    destruct Hstep as (Hsz & Haddr & [region|e] & Hrun).
    + unfold map_object_at in Hrun.
      destruct (try_alloc_region _ _ _ _ _ _ _ Hrun)
        as (v & rm & Halloc & Hregion & Hrm & Hlist).
      destruct (alloc_vm_facts _ _ _ _ _ _ Hv Hinv Hsz
                  (or_intror (ex_intro _ address (conj Haddr Halloc))))
        as (H1 & H2 & H3 & H4 & H5 & H6 & H7 & H8 & _).
      unfold vm_inv. rewrite Hrm, Hlist.
      split; [done|]. split; [done|]. split; [done|]. split; [done|]. split.
      * apply Forall_app. split; [done|]. constructor; [|constructor].
        subst region. unfold region_node. simpl. done.
      * rewrite fmap_app. apply NoDup_app. split; [done|]. split.
        -- intros x Hx. subst region. simpl.
           intros ->%list_elem_of_singleton. done.
        -- apply NoDup_singleton.
    + unfold map_object_at in Hrun.
      destruct (try_alloc_error pd_map _ _ _ _ _ _
                  (fun e rm => alloc_space_at_error _ _ _ e rm Hwf) Hrun) as [_ ->].
      done.
  - (* unmap_region *)
    destruct Hstep as (v & Hrun). unfold unmap_region_at in Hrun.
    destruct (list_find _ (m_regions sp)) as [[i region]|] eqn:Hfind;
      [|by simplify_eq].
    destruct (unmap_vm_facts _ _ _ _ _ _ Hv Hinv Hfind)
      as (rm' & Hfree & H1 & H2 & H3 & H4 & H5 & H6 & _).
    rewrite Hfree in Hrun. simpl in Hrun. simplify_eq.
    unfold vm_inv. simpl. done.
  - (* reserve_region *)
    destruct Hstep as (Hsz & Haddr & v & Hrun). unfold reserve_region in Hrun.
    destruct (alloc_space_at rsize rstart (range_map sp))
      as [[a|e] rm| | |] eqn:Halloc; simplify_eq.
    + destruct (alloc_vm_facts _ _ _ _ _ _ Hv Hinv Hsz
                  (or_intror (ex_intro _ rstart (conj Haddr Halloc))))
        as (H1 & H2 & H3 & H4 & H5 & _).
      unfold vm_inv. simpl. done.
    + destruct (alloc_space_at_error _ _ _ _ _ Hwf Halloc) as [_ ->].
      unfold vm_inv. simpl. done.
Qed.

Lemma vm_reachable_inv start size (sp : VMSpace PageDirectory) :
  valid_space start size -> 0 < size -> start mod PAGE_SIZE = 0 ->
  vm_reachable pd_map pd_unmap start size sp -> vm_inv start size sp.
Proof.
  intros Hv Hsize Hal Hr. induction Hr as [pd|sp r sp' _ IH Hstep].
  - by apply VMSpace_new_inv.
  - by eapply vm_step_inv.
Qed.

End VMSpaceProperties.


Lemma alloc_at_nodes_address a b size address l v r :
  0 <= a -> b < SIZE_MODULUS -> chain a l b -> 0 < size ->
  alloc_at_nodes size address l = Some (v, r) ->
  (exists d, d ∈ l /\ n_used d = false /\
             n_start d <= address < n_start d + n_size d) /\
  v <= address < v + size.
Proof.
  intros Ha Hb Hch Hsz H.
  destruct (alloc_at_nodes_Some _ _ _ _ _ H)
    as (l1 & d & l2 & -> & _ & Hd & Hu & _ & -> & _).
  assert (Hin : d ∈ l1 ++ d :: l2) by (apply elem_of_app; right; by left).
  apply (n_contains_spec _ _ _ _ _ Ha Hb Hch Hin) in Hd.
  split; [by exists d|].
  destruct (Z.eqb_spec (n_size d) size); lia.
Qed.

Lemma list_find_snoc_new {A} (P : A -> Prop) `{forall x, Decision (P x)}
    (l : list A) x :
  Forall (fun y => ~ P y) l -> P x ->
  list_find P (l ++ [x]) = Some (length l, x).
Proof.
  intros Hl Hx. apply list_find_Some. split; [|split; [done|]].
  - by rewrite lookup_app_r, Nat.sub_diag.
  - intros j y Hj Hlt. rewrite lookup_app_l in Hj by done.
    exact (proj1 (Forall_forall _ _) Hl y (list_elem_of_lookup_2 _ _ _ Hj)).
Qed.

Section VMSpaceTheorems.
Context {PageDirectory : Type}.
Variable pd_map : VMRegion -> PageDirectory -> ResultRet unit * PageDirectory.
Variable pd_unmap : VMRegion -> PageDirectory -> ResultRet unit * PageDirectory.

(** X13: in every address space reached through [map_object],
    [unmap_region] and [reserve_region] (space starting on a page boundary,
    objects and reservations of at least one byte), each region of
    [m_regions] sits on a node of the range list that is in use and has
    exactly the start and size of the region, inside the space; the ranges
    of two regions never overlap; and [m_used] is the number of bytes in
    use. *)
Theorem live_regions_sit_on_used_nodes start size (sp : VMSpace PageDirectory) :
  valid_space start size -> 0 < size -> start mod PAGE_SIZE = 0 ->
  vm_reachable pd_map pd_unmap start size sp ->
  (forall r, r ∈ m_regions sp ->
     Node (reg_start r) (reg_size r) true ∈ node_list (range_map sp) /\
     start <= reg_start r /\ 0 < reg_size r /\
     reg_start r + reg_size r <= start + size) /\
  (forall (i j : nat) r1 r2, i <> j ->
     m_regions sp !! i = Some r1 -> m_regions sp !! j = Some r2 ->
     reg_start r1 + reg_size r1 <= reg_start r2 \/
     reg_start r2 + reg_size r2 <= reg_start r1) /\
  m_used (range_map sp) = used_bytes (node_list (range_map sp)).
Proof.
  intros Hv Hsize Hal Hr.
  destruct (vm_reachable_inv _ _ _ _ _ Hv Hsize Hal Hr)
    as ((Hwf & Hch & _) & Hused & Hpos & _ & Hregs & Hnd).
  assert (Hnode : forall r, r ∈ m_regions sp ->
            exists k : nat, node_list (range_map sp) !! k = Some (region_node r)).
  { intros r Hin. apply list_elem_of_lookup_1.
    exact (proj1 (proj1 (Forall_forall _ _) Hregs r Hin)). }
  split; [|split; [|done]].
  - intros r Hin. destruct (Hnode r Hin) as [k Hk].
    destruct (chain_lookup _ _ _ _ _ Hch Hk) as (H1 & H2 & H3).
    pose proof (Forall_lookup_1 _ _ _ _ Hpos Hk) as H4.
    unfold region_node in *. simpl in *.
    split; [by eapply list_elem_of_lookup_2|]. lia.
  - intros i j r1 r2 Hij Hi Hj.
    destruct (Hnode r1 (list_elem_of_lookup_2 _ _ _ Hi)) as [k1 Hk1].
    destruct (Hnode r2 (list_elem_of_lookup_2 _ _ _ Hj)) as [k2 Hk2].
    assert (Hne : reg_start r1 <> reg_start r2).
    { intros Heq. apply Hij.
      apply (NoDup_lookup (reg_start <$> m_regions sp) i j (reg_start r1) Hnd).
      - by rewrite list_lookup_fmap, Hi.
      - rewrite list_lookup_fmap, Hj. simpl. by rewrite Heq. }
    destruct (decide (k1 < k2)%nat) as [Hlt|Hge].
    + left.
      destruct (chain_ordered _ _ _ _ _ _ _ Hch Hlt Hk1 Hk2) as (_ & _ & Hord).
      exact Hord.
    + assert (Hk : k1 <> k2) by (intros ->; rewrite Hk1 in Hk2; by simplify_eq).
      right.
      destruct (chain_ordered _ _ _ k2 k1 _ _ Hch ltac:(lia) Hk2 Hk1)
        as (_ & _ & Hord).
      exact Hord.
Qed.

(** X14: in such an address space [unmap_region] (by address) never stops
    the kernel: neither its own [ASSERT] nor those of [free_space] can
    fail.  When no region starts at the address it returns [ENOENT] and
    changes nothing; otherwise it returns [SUCCESS], erases that one
    region, lowers [m_used] by the size of the region, and leaves the range
    of the region inside a free node. *)
Theorem unmap_region_at_never_panics start size (sp : VMSpace PageDirectory)
    address :
  valid_space start size -> 0 < size -> start mod PAGE_SIZE = 0 ->
  vm_reachable pd_map pd_unmap start size sp ->
  match list_find (fun r => reg_start r = address) (m_regions sp) with
  | None => unmap_region_at pd_unmap address sp = Done ENOENT sp
  | Some (i, region) =>
      exists rm',
        unmap_region_at pd_unmap address sp
        = Done SUCCESS
            {| range_map := rm';
               m_regions := delete i (m_regions sp);
               m_page_directory := (pd_unmap region (m_page_directory sp)).2;
               next_region_addr := next_region_addr sp |} /\
        m_used rm' = m_used (range_map sp) - reg_size region /\
        exists d, d ∈ node_list rm' /\ n_used d = false /\
          n_start d <= reg_start region /\
          reg_start region + reg_size region <= n_start d + n_size d
  end.
Proof.
  intros Hv Hsize Hal Hr.
  pose proof (vm_reachable_inv _ _ _ _ _ Hv Hsize Hal Hr) as Hinv.
  unfold unmap_region_at.
  destruct (list_find _ (m_regions sp)) as [[i region]|] eqn:Hfind; [|done].
  destruct (unmap_vm_facts _ _ _ _ _ _ Hv Hinv Hfind)
    as (rm' & Hfree & _ & _ & _ & _ & _ & _ & Hm & Hd).
  exists rm'. rewrite Hfree. simpl. done.
Qed.

(** X15: once [unmap_region] has returned for an address, no region starts
    there any more: [get_region] for that address answers [ENOENT], and so
    does a second [unmap_region], which changes nothing. *)
Theorem unmapped_region_is_gone start size (sp : VMSpace PageDirectory)
    address v sp' :
  valid_space start size -> 0 < size -> start mod PAGE_SIZE = 0 ->
  vm_reachable pd_map pd_unmap start size sp ->
  unmap_region_at pd_unmap address sp = Done v sp' ->
  get_region address sp' = Error ENOENT /\
  unmap_region_at pd_unmap address sp' = Done ENOENT sp'.
Proof.
  intros Hv Hsize Hal Hr Hrun.
  pose proof (vm_reachable_inv _ _ _ _ _ Hv Hsize Hal Hr) as Hinv.
  assert (Hnone : list_find (fun r => reg_start r = address) (m_regions sp') = None).
  { unfold unmap_region_at in Hrun.
    destruct (list_find _ (m_regions sp)) as [[i region]|] eqn:Hfind.
    - destruct (unmap_vm_facts _ _ _ _ _ _ Hv Hinv Hfind) as (rm' & Hfree & _).
      rewrite Hfree in Hrun. simpl in Hrun. simplify_eq. simpl.
      destruct Hinv as (_ & _ & _ & _ & _ & Hnd).
      apply list_find_Some in Hfind as (Hi & Hstart & _).
      apply list_find_None. apply Forall_forall. intros r Hin.
      rewrite <- Hstart.
      exact (NoDup_fmap_delete_ne reg_start _ _ _ _ Hnd Hi Hin).
    - by simplify_eq. }
  unfold get_region, unmap_region_at. by rewrite Hnone.
Qed.

(** X16: a region that [map_object] (either overload) has just returned is
    the one [get_region] finds at its start address; it has the size of the
    object. *)
Theorem mapped_region_is_found start size (sp : VMSpace PageDirectory)
    object prot address region sp' :
  valid_space start size -> 0 < size -> start mod PAGE_SIZE = 0 ->
  vm_reachable pd_map pd_unmap start size sp ->
  0 < obj_size object < SIZE_MODULUS ->
  map_object pd_map object prot sp = Done (Value region) sp' \/
  (in_size_t address /\
   map_object_at pd_map object address prot sp = Done (Value region) sp') ->
  get_region (reg_start region) sp' = Value region /\
  reg_size region = obj_size object /\ reg_object region = object.
Proof.
  intros Hv Hsize Hal Hr Hsz Hrun.
  assert (Hr' : vm_reachable pd_map pd_unmap start size sp').
  { destruct Hrun as [Hrun|[Haddr Hrun]].
    - eapply vm_reach_step with (r := MapObject object prot); [exact Hr|].
      simpl. split; [done|]. by eexists.
    - eapply vm_reach_step with (r := MapObjectAt object address prot); [exact Hr|].
      simpl. split; [done|]. split; [done|]. by eexists. }
  destruct (vm_reachable_inv _ _ _ _ _ Hv Hsize Hal Hr')
    as (_ & _ & _ & _ & _ & Hnd).
  assert (exists alloc, try_alloc_then_register pd_map object prot alloc sp
                        = Done (Value region) sp') as (alloc & Htry).
  { destruct Hrun as [Hrun|[_ Hrun]]; eexists; exact Hrun. }
  destruct (try_alloc_region _ _ _ _ _ _ _ Htry)
    as (v & rm & _ & Hregion & _ & Hlist).
  assert (Hin : region ∈ m_regions sp').
  { rewrite Hlist. apply elem_of_app. right. by left. }
  destruct (list_find_unique reg_start _ _ Hnd Hin) as [i Hfind].
  unfold get_region. rewrite Hfind. by subst region.
Qed.

(** X17: mapping an object and unmapping the region again, at the start
    address of the region, gives back the node list, the counter and the
    region list of the address space. *)
Theorem map_then_unmap_round_trip start size (sp : VMSpace PageDirectory)
    object prot address region sp1 :
  valid_space start size -> 0 < size -> start mod PAGE_SIZE = 0 ->
  vm_reachable pd_map pd_unmap start size sp ->
  0 < obj_size object < SIZE_MODULUS ->
  map_object pd_map object prot sp = Done (Value region) sp1 \/
  (in_size_t address /\
   map_object_at pd_map object address prot sp = Done (Value region) sp1) ->
  exists sp2,
    unmap_region_at pd_unmap (reg_start region) sp1 = Done SUCCESS sp2 /\
    node_list (range_map sp2) = node_list (range_map sp) /\
    m_used (range_map sp2) = m_used (range_map sp) /\
    m_regions sp2 = m_regions sp.
Proof.
  intros Hv Hsize Hal Hr Hsz Hrun.
  pose proof (vm_reachable_inv _ _ _ _ _ Hv Hsize Hal Hr) as Hinv.
  pose proof Hinv as ((Hwf & Hch & Hnf & Hu) & Hused & Hpos & Halign & Hregs & Hnd).
  pose proof Hv as (Hv1 & Hv2 & Hv3).
  assert (exists v rm,
    (alloc_space (obj_size object) (range_map sp) = Done (Value v) rm \/
     (exists addr, in_size_t addr /\
        alloc_space_at (obj_size object) addr (range_map sp) = Done (Value v) rm)) /\
    region = {| reg_addr := next_region_addr sp;
                reg_object := object; reg_start := v;
                reg_size := obj_size object; reg_prot := prot |} /\
    range_map sp1 = rm /\ m_regions sp1 = m_regions sp ++ [region] /\
    free_nodes (obj_size object) v [] (node_list rm)
      = Some (node_list (range_map sp)))
    as (v & rm & Halloc & Hregion & Hrm & Hlist & Hfree).
  { destruct Hrun as [Hrun|[Haddr Hrun]].
    - destruct (try_alloc_region _ _ _ _ _ _ _ Hrun)
        as (v & rm & Halloc & Hregion & Hrm & Hlist).
      exists v, rm. split; [by left|]. repeat (split; [done|]).
      destruct (alloc_space_Value _ _ _ _ Hwf Halloc) as (_ & _ & Hn & _).
      exact (alloc_free_nodes _ _ _ _ _ _ Hv1 Hv3 (Z.lt_le_incl _ _ (proj1 Hsz))
               Hch Hnf Hpos Hn).
    - destruct (try_alloc_region _ _ _ _ _ _ _ Hrun)
        as (v & rm & Halloc & Hregion & Hrm & Hlist).
      exists v, rm. split; [right; by exists address|]. repeat (split; [done|]).
      destruct (alloc_space_at_Value _ _ _ _ _ Hwf Halloc) as (_ & _ & _ & Hn & _).
      exact (alloc_at_free_nodes_returned _ _ _ _ _ _ _ Hv1 Hv3
               (Z.lt_le_incl _ _ (proj1 Hsz)) Hch Hnf Hpos Hn). }
  destruct (alloc_vm_facts _ _ _ _ _ _ Hv Hinv Hsz Halloc)
    as ((Hwf' & _) & _ & _ & Hal' & _ & Hnew & Hsz_al & Hfresh & Hm).
  assert (Hv_al : v mod PAGE_SIZE = 0).
  { exact (proj1 (Forall_forall _ _) Hal' _ Hnew). }
  destruct (free_space_Some _ _ _ _ Hwf' Hsz_al Hv_al Hfree)
    as (rm2 & Hrun2 & _ & Hl2 & Hu2).
  assert (Hfind : list_find (fun r => reg_start r = reg_start region) (m_regions sp1)
                  = Some (length (m_regions sp), region)).
  { rewrite Hlist. apply list_find_snoc_new; [|done].
    apply Forall_forall. intros r Hin Heq. apply Hfresh.
    subst region. simpl in Heq. rewrite <- Heq. by apply list_elem_of_fmap_2. }
  unfold unmap_region_at. rewrite Hfind, Hrm.
  subst region. simpl. rewrite Hrun2. simpl.
  eexists. split; [done|]. simpl. split; [done|]. split.
  - rewrite Hu2, Hm.
    replace (m_used (range_map sp) + obj_size object - obj_size object)
      with (m_used (range_map sp)) by lia.
    by apply wrap_small.
  - rewrite Hlist.
    set (r := {| reg_addr := next_region_addr sp;
                 reg_object := object; reg_start := v;
                 reg_size := obj_size object; reg_prot := prot |}).
    rewrite (delete_middle (m_regions sp) [] r). by rewrite app_nil_r.
Qed.

(** A used node that no region sits on outlives every operation: no
    [map_object] lands on it and no [unmap_region] frees it. *)
Lemma node_without_region_survives start size (sp sp2 : VMSpace PageDirectory) u :
  valid_space start size -> vm_inv start size sp ->
  vm_reached_from pd_map pd_unmap sp sp2 ->
  u ∈ node_list (range_map sp) -> n_used u = true ->
  Forall (fun r => reg_start r <> n_start u) (m_regions sp) ->
  vm_inv start size sp2 /\
  u ∈ node_list (range_map sp2) /\
  Forall (fun r => reg_start r <> n_start u) (m_regions sp2).
Proof.
  intros Hv Hinv Hfrom Hu Hused Hnone.
  induction Hfrom as [|sp1 r sp2 _ (IHinv & IHu & IHnone) Hstep]; [done|].
  split; [exact (vm_step_inv pd_map pd_unmap _ _ _ _ _ Hv IHinv Hstep)|].
  pose proof IHinv as ((Hwf & Hch & Hnf & _) & _ & Hpos & _ & Hregs & _).
  pose proof Hv as (Hv1 & Hv2 & Hv3).
  (* an allocation that returns keeps [u] and lands elsewhere *)
  assert (Halloc_case : forall object prot v rm region (sp' : VMSpace PageDirectory),
    0 < obj_size object < SIZE_MODULUS ->
    alloc_space (obj_size object) (range_map sp1) = Done (Value v) rm \/
    (exists addr, in_size_t addr /\
       alloc_space_at (obj_size object) addr (range_map sp1) = Done (Value v) rm) ->
    region = {| reg_addr := next_region_addr sp1; reg_object := object;
                reg_start := v; reg_size := obj_size object; reg_prot := prot |} ->
    range_map sp' = rm -> m_regions sp' = m_regions sp1 ++ [region] ->
    u ∈ node_list (range_map sp') /\
    Forall (fun r => reg_start r <> n_start u) (m_regions sp')).
  { intros object prot v rm region sp' Hsz Halloc -> <- Hlist.
    assert (u ∈ node_list (range_map sp') /\
            exists d, d ∈ node_list (range_map sp1) /\ n_used d = false /\
                      n_start d <= v < n_start d + n_size d) as [Hu' (d & Hd & Hfree & Hdv)].
    { destruct Halloc as [Halloc|(addr & Haddr & Halloc)].
      - destruct (alloc_space_Value _ _ _ _ Hwf Halloc) as (_ & _ & Hn & _).
        split; [exact (alloc_nodes_keeps_used _ _ _ _ _ Hn IHu Hused)|].
        exact (alloc_nodes_from_free _ _ _ _ Hpos Hn).
      - destruct (alloc_space_at_Value _ _ _ _ _ Hwf Halloc) as (_ & _ & _ & Hn & _).
        split; [exact (alloc_at_nodes_keeps_used _ _ _ _ _ _ Hn IHu Hused)|].
        exact (alloc_at_nodes_from_free _ _ _ _ _ _ _ Hv1 Hv3 Hch Hpos Hn). }
    split; [done|]. rewrite Hlist. apply Forall_app. split; [done|].
    constructor; [|constructor]. simpl. intros Heq.
    pose proof (proj1 (Forall_forall _ _) Hpos _ IHu) as Hupos. simpl in Hupos.
    assert (d = u) as ->; [|congruence].
    eapply (chain_contains_unique _ _ _ _ _ v); [exact Hch|done|done|done|lia]. }
  destruct r as [object prot|object address prot|address|rstart rsize];
    simpl in Hstep.
  - destruct Hstep as (Hsz & [region|e] & Hrun); unfold map_object in Hrun.
    + destruct (try_alloc_region _ _ _ _ _ _ _ Hrun)
        as (v & rm & Halloc & Hregion & Hrm & Hlist).
      eapply Halloc_case; [exact Hsz|left; exact Halloc|exact Hregion|done|done].
    + destruct (try_alloc_error pd_map _ _ _ _ _ _
                  (fun e rm => alloc_space_error _ _ e rm Hwf) Hrun) as [_ ->].
      done.
  - destruct Hstep as (Hsz & Haddr & [region|e] & Hrun); unfold map_object_at in Hrun.
    + destruct (try_alloc_region _ _ _ _ _ _ _ Hrun)
        as (v & rm & Halloc & Hregion & Hrm & Hlist).
      eapply Halloc_case; [exact Hsz| |exact Hregion|done|done].
      right. by exists address.
    + destruct (try_alloc_error pd_map _ _ _ _ _ _
                  (fun e rm => alloc_space_at_error _ _ _ e rm Hwf) Hrun) as [_ ->].
      done.
  - destruct Hstep as (v & Hrun). unfold unmap_region_at in Hrun.
    destruct (list_find _ (m_regions sp1)) as [[i region]|] eqn:Hfind;
      [|by simplify_eq].
    destruct (unmap_vm_facts _ _ _ _ _ _ Hv IHinv Hfind) as (rm' & Hfree & _).
    rewrite Hfree in Hrun. simpl in Hrun. simplify_eq. simpl.
    apply list_find_Some in Hfind as (Hi & Hstart & _).
    split.
    + destruct (free_space_Done _ _ _ _ _ Hwf Hfree) as (_ & _ & _ & _ & Hn & _).
      destruct (free_nodes_Some _ _ _ _ _ Hn) as (l1 & d & l2 & Hl & _ & Hs & _ & Hres).
      simpl in Hres. rewrite Hres. apply free_result_keeps_used; [done|].
      rewrite Hl in IHu. apply elem_of_app in IHu as [?|IHu]; [by left|].
      apply elem_of_cons in IHu as [->|?]; [|by right].
      pose proof (proj1 (Forall_forall _ _) IHnone _
                    (list_elem_of_lookup_2 _ _ _ Hi)) as Hne.
      by destruct Hne.
    + by apply Forall_delete.
  - destruct Hstep as (Hsz & Haddr & v & Hrun). unfold reserve_region in Hrun.
    destruct (alloc_space_at rsize rstart (range_map sp1))
      as [[a|e] rm| | |] eqn:Halloc; simplify_eq; simpl.
    + split; [|done].
      destruct (alloc_space_at_Value _ _ _ _ _ Hwf Halloc) as (_ & _ & _ & Hn & _).
      exact (alloc_at_nodes_keeps_used _ _ _ _ _ _ Hn IHu Hused).
    + destruct (alloc_space_at_error _ _ _ _ _ Hwf Halloc) as [_ ->]. done.
Qed.

(** X18: [reserve_region] registers no region and leaves the page directory
    alone.  When it fails the code is [ENOMEM] and nothing has changed.
    When it succeeds [m_used] has grown by the size, and from then on,
    whatever [map_object], [unmap_region] (by address) and
    [reserve_region] calls follow, every [map_object] fixed at the
    reserved address is turned down with [ENOMEM] and [unmap_region] for
    that address answers [ENOENT]: none of these operations gives the
    reservation back. *)
Theorem reserve_region_holds_the_range start size (sp : VMSpace PageDirectory)
    rstart rsize code sp' :
  valid_space start size -> 0 < size -> start mod PAGE_SIZE = 0 ->
  vm_reachable pd_map pd_unmap start size sp ->
  0 < rsize < SIZE_MODULUS -> in_size_t rstart ->
  reserve_region rstart rsize sp = Done code sp' ->
  m_regions sp' = m_regions sp /\
  m_page_directory sp' = m_page_directory sp /\
  ((code = ENOMEM /\ sp' = sp) \/
   (code = SUCCESS /\
    m_used (range_map sp') = m_used (range_map sp) + rsize /\
    forall sp2, vm_reached_from pd_map pd_unmap sp' sp2 ->
      (forall object prot, obj_size object mod PAGE_SIZE = 0 ->
         map_object_at pd_map object rstart prot sp2 = Done (Error ENOMEM) sp2) /\
      unmap_region_at pd_unmap rstart sp2 = Done ENOENT sp2)).
Proof.
  intros Hv Hsize Hal Hr Hsz Haddr Hrun.
  pose proof (vm_reachable_inv _ _ _ _ _ Hv Hsize Hal Hr) as Hinv.
  pose proof Hinv as ((Hwf & Hch & Hnf & Hu) & Hused & Hpos & Halign & Hregs & Hnd).
  pose proof Hv as (Hv1 & Hv2 & Hv3).
  assert (Hstep : vm_step pd_map pd_unmap sp (ReserveRegion rstart rsize) sp').
  { simpl. split; [done|]. split; [done|]. by eexists. }
  pose proof (vm_step_inv pd_map pd_unmap _ _ _ _ _ Hv Hinv Hstep) as Hinv'.
  unfold reserve_region in Hrun.
  destruct (alloc_space_at rsize rstart (range_map sp))
    as [[v|e] rm| | |] eqn:Halloc; simplify_eq; simpl.
  - split; [done|]. split; [done|]. right. split; [done|].
    destruct (alloc_vm_facts _ _ _ _ _ _ Hv Hinv Hsz
                (or_intror (ex_intro _ rstart (conj Haddr Halloc))))
      as (_ & _ & _ & _ & _ & Hnew & _ & Hfresh & Hm).
    destruct (alloc_space_at_Value _ _ _ _ _ Hwf Halloc)
      as (_ & Haddr_al & _ & Hn & _).
    destruct (alloc_at_nodes_address _ _ _ _ _ _ _ Hv1 Hv3 Hch (proj1 Hsz) Hn)
      as (_ & Hvin).
    split; [done|]. intros sp2 Hfrom.
    destruct (node_without_region_survives start size _ sp2 (Node v rsize true)
                Hv Hinv' Hfrom) as (Hinv2 & Hu2 & Hnone2); [done|done| |].
    { simpl. apply Forall_forall. intros r Hin Heq. apply Hfresh.
      rewrite <- Heq. by apply list_elem_of_fmap_2. }
    pose proof Hinv2 as ((Hwf2 & Hch2 & _) & _ & Hpos2 & _ & Hregs2 & _).
    split.
    + intros object prot Hobj. unfold map_object_at.
      apply list_elem_of_split in Hu2 as (r1 & r2 & Hl2).
      rewrite (alloc_space_at_None _ (obj_size object) rstart Hwf2 Hobj Haddr_al).
      * simpl. by destruct sp2.
      * rewrite Hl2 in *.
        eapply alloc_at_nodes_refused; [exact Hv1|exact Hv3|exact Hch2|done|by left].
    + unfold unmap_region_at.
      assert (Hnone : list_find (fun r => reg_start r = rstart) (m_regions sp2) = None).
      { apply list_find_None. apply Forall_forall. intros r Hin Hstart.
        pose proof (proj1 (Forall_forall _ _) Hregs2 r Hin) as [Hnode _].
        pose proof (proj1 (Forall_forall _ _) Hpos2 _ Hnode) as Hrpos.
        pose proof (proj1 (Forall_forall _ _) Hnone2 r Hin) as Hne.
        unfold region_node in *. simpl in Hrpos, Hne.
        assert (Node v rsize true = Node (reg_start r) (reg_size r) true) as Heq.
        { eapply (chain_contains_unique _ _ _ _ _ rstart);
            [exact Hch2|done|done|done|]. simpl. lia. }
        injection Heq as Heq _. by destruct Hne. }
      by rewrite Hnone.
  - destruct (alloc_space_at_error _ _ _ _ _ Hwf Halloc) as [-> ->].
    split; [done|]. split; [done|]. left. split; [done|]. by destruct sp.
Qed.

End VMSpaceTheorems.


(** * Properties of the memory system calls *)

Section SyscallProperties.
Context {PageDirectory : Type}.
Variable pd_map : VMRegion -> PageDirectory -> ResultRet unit * PageDirectory.

Lemma sys_shmallow_SUCCESS id pid perms (k k' : Kernel) :
  sys_shmallow id pid perms k = (SUCCESS, k') ->
  exists object,
    Z.testbit perms 0 = true /\
    shared_objects k !! id = Some object /\
    k' = {| shared_objects :=
              <[id := share pid
                        {| prot_read := true; prot_write := Z.testbit perms 1;
                           prot_execute := false; prot_cow := false |}
                        object]> (shared_objects k);
            live_processes := live_processes k |}.
Proof.
  unfold sys_shmallow.
  rewrite land_read_write_to_bool, land_SHM_SHARE, !land_SHM_READ,
    !land_SHM_WRITE.
  destruct (Z.testbit perms 2); [done|].
  destruct (Z.testbit perms 0), (Z.testbit perms 1); try done.
  - change (if true && negb true then (- EINVAL, k) else ?x) with x.
    change (negb (true || true)) with false.
    destruct (is_error (process_for_pid pid (live_processes k))); [done|].
    unfold get_shared.
    destruct (shared_objects k !! id) as [object|]; [|done].
    intros [= <-]. by exists object.
  - change (negb (true || false)) with false.
    change (false && negb true) with false.
    destruct (is_error (process_for_pid pid (live_processes k))); [done|].
    unfold get_shared.
    destruct (shared_objects k !! id) as [object|]; [|done].
    intros [= <-]. by exists object.
Qed.

(** X19: share and attach.  After [sys_shmallow(id, pid, perms)] has
    returned [SUCCESS], a [sys_shmattach(id, addr)] by process [pid] passes
    the permission check, and on a well-formed range list its outcome is
    that of the range allocation ([alloc_space_at] when [addr] is not null,
    [alloc_space] otherwise).  When the allocation stops at an [ASSERT], so
    does the call.  When it fails, the call returns [ENOMEM] and the
    process is as it was.  When it returns [v], the call returns [SUCCESS]:
    the [shm] written holds [v], the size of the object and the identifier
    stored in the object; one region of the object at [v] is added to the
    process and to its address space, with read access, write access as the
    [SHM_WRITE] bit of [perms] says, no execute and no copy-on-write; and
    [m_used_shmem] grows by the size of the object. *)
Theorem shmallow_then_shmattach id pid perms addr (k k' : Kernel)
    (p : Process PageDirectory) :
  sys_shmallow id pid perms k = (SUCCESS, k') ->
  _pid p = pid ->
  well_formed (range_map (_vm_space p)) ->
  exists object,
    shared_objects k !! id = Some object /\
    let size := obj_size (anon_object object) in
    let prot := {| prot_read := true; prot_write := Z.testbit perms 1;
                   prot_execute := false; prot_cow := false |} in
    match (if to_bool addr
           then alloc_space_at size addr (range_map (_vm_space p))
           else alloc_space size (range_map (_vm_space p))) with
    | Done (Value v) rm =>
        let region := {| reg_addr := next_region_addr (_vm_space p);
                         reg_object := anon_object object; reg_start := v;
                         reg_size := size; reg_prot := prot |} in
        sys_shmattach pd_map id addr k' p
        = Done (SUCCESS,
                Some {| shm_ptr := v; shm_size := size;
                        shm_id := anon_shm_id object |})
            {| _pid := pid;
               _vm_space :=
                 {| range_map := rm;
                    m_regions := m_regions (_vm_space p) ++ [region];
                    m_page_directory :=
                      (pd_map region (m_page_directory (_vm_space p))).2;
                    next_region_addr := Pos.succ (next_region_addr (_vm_space p)) |};
               _vm_regions := _vm_regions p ++ [region];
               m_used_pmem := m_used_pmem p;
               m_used_shmem := wrap (m_used_shmem p + size) |}
    | Done (Error _) _ =>
        sys_shmattach pd_map id addr k' p = Done (ENOMEM, None) p
    | Panic => sys_shmattach pd_map id addr k' p = Panic
    | Fault | OutOfFuel => False
    end.
Proof.
  intros Hallow <- Hwf.
  destruct (sys_shmallow_SUCCESS _ _ _ _ _ Hallow) as (object & Hread & Hobj & ->).
  exists object. split; [done|].
  generalize (Z.testbit perms 1). intros w. intros size prot.
  unfold sys_shmattach, get_shared, get_shared_permissions. simpl.
  rewrite lookup_insert_eq. simpl. rewrite lookup_insert_eq. simpl.
  fold size. fold prot.
  destruct (calls_return_or_panic (range_map (_vm_space p)) size addr Hwf)
    as (H1 & H2 & _).
  unfold map_object_at, map_object. simpl. fold size.
  destruct (to_bool addr).
  - destruct (alloc_space_at size addr (range_map (_vm_space p)))
      as [[v|e] rm| | |] eqn:Halloc.
    + done.
    + destruct (alloc_space_at_error _ _ _ _ _ Hwf Halloc) as [-> ->].
      simpl. by destruct p as [? [] ? ? ?].
    + done.
    + by destruct H2 as [(? & ? & ?)|?].
    + by destruct H2 as [(? & ? & ?)|?].
  - destruct (alloc_space size (range_map (_vm_space p)))
      as [[v|e] rm| | |] eqn:Halloc.
    + done.
    + destruct (alloc_space_error _ _ _ _ Hwf Halloc) as [-> ->].
      simpl. by destruct p as [? [] ? ? ?].
    + done.
    + by destruct H1 as [(? & ? & ?)|?].
    + by destruct H1 as [(? & ? & ?)|?].
Qed.
End SyscallProperties.


Section MprotectProperties.
Context {PageDirectory : Type}.
Variable pd_map : VMRegion -> PageDirectory -> ResultRet unit * PageDirectory.
Variables PROT_READ PROT_WRITE PROT_EXEC : Z.

(** X21: [sys_mprotect(addr, length, flags)] returns [SUCCESS] exactly when
    a region starts at [addr] with size [length]; otherwise it returns the
    positive number [ENOENT] and touches neither the regions nor the page
    directory.  On success it changes the protection of the first such
    region only, to the three bits of [flags] with copy-on-write cleared
    (whatever the region had before), and hands that region to
    [PageDirectory::map] once.  In both cases every region keeps its
    object, start and size: what [sys_munmap] and [sys_mprotect] match
    on is not changed by it. *)
Theorem sys_mprotect_changes_protection_only addr length prot_flags
    (regions : list VMRegion) (pd : PageDirectory) :
  let out := sys_mprotect pd_map PROT_READ PROT_WRITE PROT_EXEC
               addr length prot_flags regions pd in
  let prot := mprotect_prot PROT_READ PROT_WRITE PROT_EXEC prot_flags in
  (out.1.1 = SUCCESS <->
   exists r, r ∈ regions /\ reg_start r = addr /\ reg_size r = length) /\
  (out.1.1 <> SUCCESS -> out = (ENOENT, regions, pd) /\ 0 < ENOENT) /\
  (out.1.1 = SUCCESS ->
   exists (i : nat) r,
     regions !! i = Some r /\ reg_start r = addr /\ reg_size r = length /\
     (forall (j : nat) r', (j < i)%nat -> regions !! j = Some r' ->
        ~ (reg_start r' = addr /\ reg_size r' = length)) /\
     out.1.2 = <[i := set_prot prot r]> regions /\
     prot_cow prot = false /\
     out.2 = (pd_map (set_prot prot r) pd).2) /\
  (fun r => (reg_object r, reg_start r, reg_size r)) <$> out.1.2
  = (fun r => (reg_object r, reg_start r, reg_size r)) <$> regions.
Proof.
  intros out prot. subst out. unfold sys_mprotect. fold prot.
  destruct (list_find _ regions) as [[i r]|] eqn:Hfind; simpl.
  - apply list_find_Some in Hfind as (Hi & [Hs Hz] & Hfirst).
    split; [|split; [done|split]].
    + split; [|done]. intros _. exists r. split; [|done].
      by eapply list_elem_of_lookup_2.
    + intros _. exists i, r. repeat split; try done.
      intros j r' Hj Hr'. by eapply Hfirst.
    + rewrite list_fmap_insert. simpl. apply list_insert_id.
      by rewrite list_lookup_fmap, Hi.
  - apply list_find_None in Hfind.
    split; [|split; [done|split; [done|done]]].
    split; [done|]. intros (r & Hr & Hs & Hz).
    rewrite Forall_forall in Hfind. by destruct (Hfind r Hr).
Qed.

End MprotectProperties.


(** ** The address-space properties on the example space *)

Lemma valid_space_example : valid_space 0 65536.
Proof. unfold valid_space, SIZE_MODULUS. lia. Qed.

Lemma example_object_size : 0 < obj_size example_object < SIZE_MODULUS.
Proof. unfold SIZE_MODULUS. simpl. lia. Qed.

Lemma example_space_reachable :
  vm_reachable failing_map example_unmap 0 65536 example_space.
Proof. exact (vm_reach_init failing_map example_unmap 0 65536 tt). Qed.

Lemma map_object_example :
  map_object failing_map example_object VMProt_RW example_space
  = Done (Value mapped_region) mapped_space.
Proof. vm_compute. reflexivity. Qed.

Lemma mapped_space_reachable :
  vm_reachable failing_map example_unmap 0 65536 mapped_space.
Proof.
  eapply vm_reach_step with (r := MapObject example_object VMProt_RW);
    [exact example_space_reachable|].
  simpl. split; [exact example_object_size|].
  eexists. exact map_object_example.
Qed.

Lemma live_regions_sit_on_used_nodes_witness :
  valid_space 0 65536 /\ 0 < 65536 /\ 0 mod PAGE_SIZE = 0 /\
  vm_reachable failing_map example_unmap 0 65536 mapped_space /\
  (forall r, r ∈ m_regions mapped_space ->
     Node (reg_start r) (reg_size r) true ∈ node_list (range_map mapped_space) /\
     0 <= reg_start r /\ 0 < reg_size r /\
     reg_start r + reg_size r <= 0 + 65536) /\
  (forall (i j : nat) r1 r2, i <> j ->
     m_regions mapped_space !! i = Some r1 ->
     m_regions mapped_space !! j = Some r2 ->
     reg_start r1 + reg_size r1 <= reg_start r2 \/
     reg_start r2 + reg_size r2 <= reg_start r1) /\
  m_used (range_map mapped_space) = used_bytes (node_list (range_map mapped_space)).
Proof.
  assert (Hs : 0 < 65536) by lia.
  split; [exact valid_space_example|]. split; [exact Hs|]. split; [reflexivity|].
  split; [exact mapped_space_reachable|].
  exact (live_regions_sit_on_used_nodes failing_map example_unmap 0 65536
           mapped_space valid_space_example Hs eq_refl mapped_space_reachable).
Defined.

Lemma unmap_region_at_never_panics_witness :
  valid_space 0 65536 /\ 0 < 65536 /\ 0 mod PAGE_SIZE = 0 /\
  vm_reachable failing_map example_unmap 0 65536 mapped_space /\
  match list_find (fun r => reg_start r = 0) (m_regions mapped_space) with
  | None => unmap_region_at example_unmap 0 mapped_space = Done ENOENT mapped_space
  | Some (i, region) =>
      exists rm',
        unmap_region_at example_unmap 0 mapped_space
        = Done SUCCESS
            {| range_map := rm';
               m_regions := delete i (m_regions mapped_space);
               m_page_directory :=
                 (example_unmap region (m_page_directory mapped_space)).2;
               next_region_addr := next_region_addr mapped_space |} /\
        m_used rm' = m_used (range_map mapped_space) - reg_size region /\
        exists d, d ∈ node_list rm' /\ n_used d = false /\
          n_start d <= reg_start region /\
          reg_start region + reg_size region <= n_start d + n_size d
  end.
Proof.
  assert (Hs : 0 < 65536) by lia.
  split; [exact valid_space_example|]. split; [exact Hs|]. split; [reflexivity|].
  split; [exact mapped_space_reachable|].
  exact (unmap_region_at_never_panics failing_map example_unmap 0 65536
           mapped_space 0 valid_space_example Hs eq_refl mapped_space_reachable).
Defined.

Lemma unmapped_region_is_gone_witness :
  valid_space 0 65536 /\ 0 < 65536 /\ 0 mod PAGE_SIZE = 0 /\
  vm_reachable failing_map example_unmap 0 65536 mapped_space /\
  unmap_region_at example_unmap 0 mapped_space
    = Done SUCCESS
        (state_after (unmap_region_at example_unmap 0 mapped_space) mapped_space) /\
  get_region 0
    (state_after (unmap_region_at example_unmap 0 mapped_space) mapped_space)
    = Error ENOENT /\
  unmap_region_at example_unmap 0
    (state_after (unmap_region_at example_unmap 0 mapped_space) mapped_space)
    = Done ENOENT
        (state_after (unmap_region_at example_unmap 0 mapped_space) mapped_space).
Proof.
  assert (Hs : 0 < 65536) by lia.
  assert (Hrun : unmap_region_at example_unmap 0 mapped_space
    = Done SUCCESS
        (state_after (unmap_region_at example_unmap 0 mapped_space) mapped_space))
    by (vm_compute; reflexivity).
  split; [exact valid_space_example|]. split; [exact Hs|]. split; [reflexivity|].
  split; [exact mapped_space_reachable|]. split; [exact Hrun|].
  exact (unmapped_region_is_gone failing_map example_unmap 0 65536 mapped_space
           0 _ _ valid_space_example Hs eq_refl mapped_space_reachable Hrun).
Defined.

Lemma mapped_region_is_found_witness :
  valid_space 0 65536 /\ 0 < 65536 /\ 0 mod PAGE_SIZE = 0 /\
  vm_reachable failing_map example_unmap 0 65536 example_space /\
  0 < obj_size example_object < SIZE_MODULUS /\
  (map_object failing_map example_object VMProt_RW example_space
     = Done (Value mapped_region) mapped_space \/
   (in_size_t 0 /\
    map_object_at failing_map example_object 0 VMProt_RW example_space
      = Done (Value mapped_region) mapped_space)) /\
  get_region (reg_start mapped_region) mapped_space = Value mapped_region /\
  reg_size mapped_region = obj_size example_object /\
  reg_object mapped_region = example_object.
Proof.
  assert (Hs : 0 < 65536) by lia.
  assert (Hrun : map_object failing_map example_object VMProt_RW example_space
     = Done (Value mapped_region) mapped_space \/
   (in_size_t 0 /\
    map_object_at failing_map example_object 0 VMProt_RW example_space
      = Done (Value mapped_region) mapped_space))
    by (left; exact map_object_example).
  split; [exact valid_space_example|]. split; [exact Hs|]. split; [reflexivity|].
  split; [exact example_space_reachable|]. split; [exact example_object_size|].
  split; [exact Hrun|].
  exact (mapped_region_is_found failing_map example_unmap 0 65536 example_space
           example_object VMProt_RW 0 mapped_region mapped_space
           valid_space_example Hs eq_refl example_space_reachable
           example_object_size Hrun).
Defined.

Lemma map_then_unmap_round_trip_witness :
  valid_space 0 65536 /\ 0 < 65536 /\ 0 mod PAGE_SIZE = 0 /\
  vm_reachable failing_map example_unmap 0 65536 example_space /\
  0 < obj_size example_object < SIZE_MODULUS /\
  (map_object failing_map example_object VMProt_RW example_space
     = Done (Value mapped_region) mapped_space \/
   (in_size_t 0 /\
    map_object_at failing_map example_object 0 VMProt_RW example_space
      = Done (Value mapped_region) mapped_space)) /\
  exists sp2,
    unmap_region_at example_unmap (reg_start mapped_region) mapped_space
      = Done SUCCESS sp2 /\
    node_list (range_map sp2) = node_list (range_map example_space) /\
    m_used (range_map sp2) = m_used (range_map example_space) /\
    m_regions sp2 = m_regions example_space.
Proof.
  assert (Hs : 0 < 65536) by lia.
  assert (Hrun : map_object failing_map example_object VMProt_RW example_space
     = Done (Value mapped_region) mapped_space \/
   (in_size_t 0 /\
    map_object_at failing_map example_object 0 VMProt_RW example_space
      = Done (Value mapped_region) mapped_space))
    by (left; exact map_object_example).
  split; [exact valid_space_example|]. split; [exact Hs|]. split; [reflexivity|].
  split; [exact example_space_reachable|]. split; [exact example_object_size|].
  split; [exact Hrun|].
  exact (map_then_unmap_round_trip failing_map example_unmap 0 65536 example_space
           example_object VMProt_RW 0 mapped_region mapped_space
           valid_space_example Hs eq_refl example_space_reachable
           example_object_size Hrun).
Defined.

(** ** The system-call properties on the example kernel *)

Lemma shmallow_example :
  sys_shmallow 5 8 (Z.lor SHM_WRITE SHM_READ) example_kernel
  = (SUCCESS, granted_kernel).
Proof. vm_compute. reflexivity. Qed.

Lemma sys_mprotect_changes_protection_only_witness :
  (sys_mprotect failing_map 1 2 4 16384 4096 1 [example_region] tt).1.1 <> SUCCESS /\
  sys_mprotect failing_map 1 2 4 16384 4096 1 [example_region] tt
    = (ENOENT, [example_region], tt) /\
  0 < ENOENT.
Proof.
  assert (H : (sys_mprotect failing_map 1 2 4 16384 4096 1 [example_region] tt).1.1
              <> SUCCESS) by done.
  split; [exact H|].
  exact (proj1 (proj2 (sys_mprotect_changes_protection_only failing_map 1 2 4
                         16384 4096 1 [example_region] tt)) H).
Defined.

(** * No node is leaked *)

(** ** How the statements change the number of live nodes *)

Lemma change_ret {A} (a : A) : live_nodes_change_le 0 (ret a).
Proof. intros s a' s' [= _ <-]. lia. Qed.

Lemma change_bind {A B} z1 z2 (m : M A) (k : A -> M B) :
  live_nodes_change_le z1 m -> (forall a, live_nodes_change_le z2 (k a)) ->
  live_nodes_change_le (z1 + z2) (bind m k).
Proof.
  intros Hm Hk s b s'. unfold bind.
  destruct (m s) as [a s1| | |] eqn:Hrun; try done.
  intros Hrun'. specialize (Hm _ _ _ Hrun). specialize (Hk _ _ _ _ Hrun'). lia.
Qed.

Lemma change_weaken {A} z z' (m : M A) :
  live_nodes_change_le z m -> z <= z' -> live_nodes_change_le z' m.
Proof. intros Hm Hle s a s' Hrun. specialize (Hm _ _ _ Hrun). lia. Qed.

Lemma change_load p : live_nodes_change_le 0 (load p).
Proof.
  intros s a s'. unfold load. destruct (heap s !! p); [|done].
  intros [= _ <-]. lia.
Qed.

Lemma change_update p f : live_nodes_change_le 0 (update p f).
Proof.
  intros s a s'. unfold update. destruct (heap s !! p) as [r|] eqn:Hp; [|done].
  intros Hrun. injection Hrun as _ <-. unfold live_nodes. simpl.
  rewrite map_size_insert_Some by done. lia.
Qed.

Lemma change_new r : live_nodes_change_le 1 (new r).
Proof.
  intros s a s' Hrun. destruct (new_spec r s) as (q & Hq & Hnew).
  rewrite Hnew in Hrun. injection Hrun as _ <-. unfold live_nodes. simpl.
  rewrite map_size_insert_None by done. lia.
Qed.

Lemma change_delete p : live_nodes_change_le (-1) (delete_node p).
Proof.
  intros s a s'. unfold delete_node. destruct (heap s !! p) as [r|] eqn:Hp; [|done].
  intros Hrun. injection Hrun as _ <-. unfold live_nodes. simpl.
  rewrite map_size_delete_Some by done.
  assert (base.size (heap s) <> 0%nat).
  { intros H0%map_size_empty_iff. rewrite H0 in Hp. by rewrite lookup_empty in Hp. }
  lia.
Qed.

Lemma change_get_region_map : live_nodes_change_le 0 get_region_map.
Proof. intros s a s' [= _ <-]. lia. Qed.

Lemma change_set_region_map p : live_nodes_change_le 0 (set_region_map p).
Proof. intros s a s' Hrun. injection Hrun as _ <-. unfold live_nodes. simpl. lia. Qed.

Lemma change_add_used v : live_nodes_change_le 0 (add_used v).
Proof. intros s a s' Hrun. injection Hrun as _ <-. unfold live_nodes. simpl. lia. Qed.

Lemma change_sub_used v : live_nodes_change_le 0 (sub_used v).
Proof. intros s a s' Hrun. injection Hrun as _ <-. unfold live_nodes. simpl. lia. Qed.

Lemma change_ASSERT c : live_nodes_change_le 0 (ASSERT c).
Proof.
  intros s a s'. unfold ASSERT. destruct c; [|done].
  intros Hrun. injection Hrun as _ <-. lia.
Qed.

Lemma change_when_ptr p body :
  (forall q, live_nodes_change_le 0 (body q)) ->
  live_nodes_change_le 0 (when_ptr p body).
Proof. intros H. destruct p; simpl; [apply H|apply change_ret]. Qed.

Lemma change_bind_0 {A B} z (m : M A) (k : A -> M B) :
  live_nodes_change_le 0 m -> (forall a, live_nodes_change_le z (k a)) ->
  live_nodes_change_le z (bind m k).
Proof. intros Hm Hk. replace z with (0 + z) by lia. by apply change_bind. Qed.

(** Straight-line code that allocates and frees nothing. *)
Ltac change_0 :=
  repeat first
    [ apply change_ret | apply change_load | apply change_update
    | apply change_get_region_map | apply change_set_region_map
    | apply change_add_used | apply change_sub_used | apply change_ASSERT
    | apply change_when_ptr; intros ?
    | apply change_bind_0; [|intros ?]
    | match goal with
      | |- live_nodes_change_le _ (if ?c then _ else _) => destruct c
      end ].

Lemma rep_list_length s l : rep s l -> length (node_list s) = length l.
Proof. intros H. rewrite (rep_node_list _ _ H). apply length_fmap. Qed.

(** Turn a goal about one run of [m] into a goal about [m]. *)
Ltac to_change z :=
  match goal with
  | |- ?m ?s = Done ?v ?s' -> _ =>
      apply (fun H : live_nodes_change_le z m => H s v s')
  end.

(** ** The blocks of the three functions *)

Lemma alloc_space_exact_change s l1 c d l2 fuel v s' :
  rep s (l1 ++ (c, d) :: l2) -> n_used d = false ->
  alloc_space_loop (S fuel) (n_size d) (Some c) s = Done v s' ->
  Z.of_nat (live_nodes s') <= Z.of_nat (live_nodes s) + 0.
Proof.
  intros Hrep Hu. cbn [alloc_space_loop].
  rewrite (bind_Done _ _ _ _ _ (load_spec _ _ _ _ _ Hrep)).
  cbn [to_region region.used region.size]. rewrite Hu, Z.eqb_refl.
  to_change 0. change_0.
Qed.

Lemma alloc_space_split_change s l1 c d l2 sz fuel v s' :
  rep s (l1 ++ (c, d) :: l2) ->
  n_used d = false -> n_size d <> sz -> sz <= n_size d ->
  alloc_space_loop (S fuel) sz (Some c) s = Done v s' ->
  Z.of_nat (live_nodes s') <= Z.of_nat (live_nodes s) + 1.
Proof.
  intros Hrep Hu Hne Hle. cbn [alloc_space_loop].
  rewrite (bind_Done _ _ _ _ _ (load_spec _ _ _ _ _ Hrep)).
  cbn [to_region region.used region.size region.start region.prev]. rewrite Hu.
  destruct (Z.eqb_spec (n_size d) sz); [done|].
  destruct (Z.geb_spec (n_size d) sz); [|lia].
  to_change 1.
  replace 1 with (1 + 0) by lia. apply change_bind; [apply change_new|intros q].
  change_0.
Qed.

(** The surplus of live nodes over list nodes: zero when nothing is
    leaked. *)
Lemma alloc_space_loop_no_leak sz l2 : forall l1 s fuel v s',
  rep s (l1 ++ l2) -> (length l2 < fuel)%nat ->
  alloc_space_loop fuel sz (first_ptr l2 None) s = Done v s' ->
  Z.of_nat (live_nodes s') - Z.of_nat (length (node_list s'))
  <= Z.of_nat (live_nodes s) - Z.of_nat (length (node_list s)).
Proof.
  induction l2 as [|[c d] l2 IH]; intros l1 s fuel v s' Hrep Hfuel;
    (destruct fuel as [|fuel]; [simpl in Hfuel; lia|]).
  - simpl. unfold ret. intros [= _ <-]. lia.
  - cbn [first_ptr fst]. intros Hrun.
    rewrite (rep_list_length _ _ Hrep).
    destruct (fits sz d) eqn:Hfit.
    + apply andb_prop in Hfit as [Hu Hle].
      apply negb_true_iff in Hu. apply Z.leb_le in Hle.
      destruct (Z.eqb_spec (n_size d) sz) as [<-|Hne].
      * destruct (alloc_space_exact s l1 c d l2 fuel Hrep Hu) as (s1 & Hrun1 & Hrep1 & _).
        pose proof (alloc_space_exact_change _ _ _ _ _ _ _ _ Hrep Hu Hrun) as Hchange.
        rewrite Hrun1 in Hrun. injection Hrun as _ <-.
        rewrite (rep_list_length _ _ Hrep1). rewrite !length_app. simpl.
        unfold cell in *. lia.
      * destruct (alloc_space_split s l1 c d l2 sz fuel Hrep Hu Hne Hle)
          as (s1 & q & Hrun1 & Hrep1 & _).
        pose proof (alloc_space_split_change _ _ _ _ _ _ _ _ _ Hrep Hu Hne Hle Hrun)
          as Hchange.
        rewrite Hrun1 in Hrun. injection Hrun as _ <-.
        rewrite (rep_list_length _ _ Hrep1). rewrite !length_app. simpl.
        unfold cell in *. lia.
    + assert (Hskip : alloc_space_loop (S fuel) sz (Some c) s =
                      alloc_space_loop fuel sz (first_ptr l2 None) s).
      { cbn [alloc_space_loop].
        rewrite (bind_Done _ _ _ _ _ (load_spec _ _ _ _ _ Hrep)).
        cbn [to_region region.used region.size region.next].
        unfold fits in Hfit. destruct (n_used d); [done|]. simpl in Hfit.
        apply Z.leb_gt in Hfit.
        destruct (Z.eqb_spec (n_size d) sz); [lia|].
        destruct (Z.geb_spec (n_size d) sz); [lia|done]. }
      rewrite Hskip in Hrun.
      pose proof Hrep as Hrep0.
      rewrite (cons_middle _ l1 l2), app_assoc in Hrep.
      specialize (IH (l1 ++ [(c, d)]) s fuel v s' Hrep ltac:(simpl in Hfuel; lia) Hrun).
      rewrite (rep_list_length _ _ Hrep0) in IH. exact IH.
Qed.

(** *** [alloc_space_at] *)

Lemma create_region_before_change c address :
  live_nodes_change_le 1 (create_region_before c address).
Proof.
  unfold create_region_before. apply change_bind_0; [apply change_load|intros cur].
  destruct (region.start cur <? address).
  - replace 1 with (1 + 0) by lia. apply change_bind; [apply change_new|intros q].
    change_0.
  - eapply change_weaken; [apply change_ret|lia].
Qed.

Lemma create_region_after_change c size address :
  live_nodes_change_le 1 (create_region_after c size address).
Proof.
  unfold create_region_after. apply change_bind_0; [apply change_load|intros cur].
  destruct (region.end_ cur >? wrap (address + size)).
  - replace 1 with (1 + 0) by lia. apply change_bind; [apply change_new|intros q].
    change_0.
  - eapply change_weaken; [apply change_ret|lia].
Qed.

Lemma create_region_before_no_leak s l1 c d l2 address :
  rep s (l1 ++ (c, d) :: l2) ->
  exists s' pc,
    create_region_before c address s = Done tt s' /\
    rep s' ((l1 ++ pc) ++ (c, d) :: l2) /\
    pc.*2 = at_prefix address d /\
    Z.of_nat (live_nodes s') <= Z.of_nat (live_nodes s) + Z.of_nat (length pc).
Proof.
  intros Hrep. pose proof (create_region_before_spec s l1 c d l2 address Hrep) as H.
  unfold at_prefix. destruct (n_start d <? address).
  - destruct H as (q & s' & Hrun & Hrep' & Hused).
    exists s', [(q, Node (n_start d) (wrap (address - n_start d)) false)].
    rewrite <- app_assoc. split; [done|]. split; [done|]. split; [done|].
    exact (create_region_before_change c address _ _ _ Hrun).
  - exists s, []. rewrite app_nil_r. split; [done|]. split; [done|].
    split; [done|]. simpl. lia.
Qed.

Lemma create_region_after_no_leak s l1 c d l2 size address :
  rep s (l1 ++ (c, d) :: l2) ->
  exists s' sc,
    create_region_after c size address s = Done tt s' /\
    rep s' (l1 ++ (c, d) :: sc ++ l2) /\
    sc.*2 = at_suffix size address d /\
    Z.of_nat (live_nodes s') <= Z.of_nat (live_nodes s) + Z.of_nat (length sc).
Proof.
  intros Hrep. pose proof (create_region_after_spec s l1 c d l2 size address Hrep) as H.
  unfold at_suffix, n_end. destruct (_ >? _).
  - destruct H as (q & s' & Hrun & Hrep' & Hused).
    eexists s', [(q, _)]. split; [done|]. split; [done|]. split; [done|].
    exact (create_region_after_change c size address _ _ _ Hrun).
  - exists s, []. split; [done|]. split; [done|]. split; [done|]. simpl. lia.
Qed.

Lemma alloc_space_at_exact_change s l1 c d l2 address fuel v s' :
  rep s (l1 ++ (c, d) :: l2) ->
  n_contains address d = true -> n_used d = false ->
  alloc_space_at_loop (S fuel) (n_size d) address (Some c) s = Done v s' ->
  Z.of_nat (live_nodes s') <= Z.of_nat (live_nodes s) + 0.
Proof.
  intros Hrep Hcont Hu. cbn [alloc_space_at_loop].
  rewrite (bind_Done _ _ _ _ _ (load_spec _ _ _ _ _ Hrep)).
  change (region.contains address _) with (n_contains address d).
  cbn [to_region region.used region.size]. rewrite Hcont, Hu, Z.eqb_refl.
  to_change 0. change_0.
Qed.

Lemma update_change s p f s' :
  update p f s = Done tt s' -> live_nodes s' = live_nodes s.
Proof.
  unfold update. destruct (heap s !! p) as [r|] eqn:Hp; [|done].
  intros Hrun. injection Hrun as <-. unfold live_nodes. simpl.
  by rewrite map_size_insert_Some.
Qed.

Lemma alloc_space_at_split_no_leak s l1 c d l2 size address fuel v s' :
  rep s (l1 ++ (c, d) :: l2) ->
  n_contains address d = true -> n_used d = false ->
  n_size d <> size -> size <= wrap (n_size d - wrap (address - n_start d)) ->
  alloc_space_at_loop (S fuel) size address (Some c) s = Done v s' ->
  Z.of_nat (live_nodes s') - Z.of_nat (length (node_list s'))
  <= Z.of_nat (live_nodes s) - Z.of_nat (length (node_list s)).
Proof.
  intros Hrep Hcont Hu Hne Hle. rewrite (rep_list_length _ _ Hrep).
  cbn [alloc_space_at_loop].
  rewrite (bind_Done _ _ _ _ _ (load_spec _ _ _ _ _ Hrep)).
  change (region.contains address _) with (n_contains address d).
  cbn [to_region region.used region.size region.start]. rewrite Hcont, Hu.
  destruct (Z.eqb_spec (n_size d) size); [done|].
  destruct (Z.geb_spec (wrap (n_size d - wrap (address - n_start d))) size); [|lia].
  destruct (create_region_before_no_leak s l1 c d l2 address Hrep)
    as (s1 & pc & Hrun1 & Hrep1 & Hpc & Hc1).
  rewrite (bind_Done _ _ _ _ _ Hrun1).
  destruct (create_region_after_no_leak s1 _ c d l2 size address Hrep1)
    as (s2 & sc & Hrun2 & Hrep2 & Hsc & Hc2).
  rewrite (bind_Done _ _ _ _ _ Hrun2).
  destruct (update_data_spec s2 _ c d (Node address (n_size d) (n_used d)) _
              (region.set_start address) Hrep2) as (s3 & Hrun3 & Hrep3 & Hu3); [done|].
  rewrite (bind_Done _ _ _ _ _ Hrun3).
  destruct (update_data_spec s3 _ c _ (Node address size (n_used d)) _
              (region.set_size size) Hrep3) as (s4 & Hrun4 & Hrep4 & Hu4); [done|].
  rewrite (bind_Done _ _ _ _ _ Hrun4).
  destruct (update_data_spec s4 _ c _ (Node address size true) _
              (region.set_used true) Hrep4) as (s5 & Hrun5 & Hrep5 & Hu5); [done|].
  rewrite (bind_Done _ _ _ _ _ Hrun5).
  assert (Hadd : (let* cur := load c in add_used (region.size cur)) s5 =
                 Done tt {| heap := heap s5; m_region_map := m_region_map s5;
                            m_used := wrap (m_used s5 + size) |}).
  { by rewrite (bind_Done _ _ _ _ _ (load_spec _ _ _ _ _ Hrep5)). }
  rewrite (bind_Done _ _ _ _ _ Hadd). unfold ret. intros Hrun. injection Hrun as _ <-.
  apply add_used_rep with (v := wrap (m_used s5 + size)) in Hrep5.
  rewrite (rep_list_length _ _ Hrep5).
  apply update_change in Hrun3, Hrun4, Hrun5.
  unfold live_nodes in *. simpl.
  rewrite !length_app in *. simpl. rewrite !length_app. unfold cell in *. lia.
Qed.

Lemma alloc_space_at_loop_no_leak sz addr l2 : forall l1 s fuel v s',
  rep s (l1 ++ l2) -> (length l2 < fuel)%nat ->
  alloc_space_at_loop fuel sz addr (first_ptr l2 None) s = Done v s' ->
  Z.of_nat (live_nodes s') - Z.of_nat (length (node_list s'))
  <= Z.of_nat (live_nodes s) - Z.of_nat (length (node_list s)).
Proof.
  induction l2 as [|[c d] l2 IH]; intros l1 s fuel v s' Hrep Hfuel;
    (destruct fuel as [|fuel]; [simpl in Hfuel; lia|]).
  - simpl. unfold ret. intros [= _ <-]. lia.
  - cbn [first_ptr fst]. intros Hrun.
    destruct (n_contains addr d) eqn:Hcont.
    + destruct (n_used d) eqn:Hu.
      { revert Hrun. cbn [alloc_space_at_loop].
        rewrite (bind_Done _ _ _ _ _ (load_spec _ _ _ _ _ Hrep)).
        change (region.contains addr _) with (n_contains addr d).
        cbn [to_region region.used]. rewrite Hcont, Hu.
        unfold ret. intros [= _ <-]. lia. }
      destruct (Z.eqb_spec (n_size d) sz) as [<-|Hne].
      { destruct (alloc_space_at_exact s l1 c d l2 addr fuel Hrep Hcont Hu)
          as (s1 & Hrun1 & Hrep1 & _).
        pose proof (alloc_space_at_exact_change _ _ _ _ _ _ _ _ _ Hrep Hcont Hu Hrun)
          as Hchange.
        rewrite Hrun1 in Hrun. injection Hrun as _ <-.
        rewrite (rep_list_length _ _ Hrep), (rep_list_length _ _ Hrep1).
        rewrite !length_app. simpl. unfold cell in *. lia. }
      destruct (Z.geb_spec (wrap (n_size d - wrap (addr - n_start d))) sz) as [Hle|Hlt].
      { exact (alloc_space_at_split_no_leak _ _ _ _ _ _ _ _ _ _ Hrep Hcont Hu Hne
                 Hle Hrun). }
      revert Hrun. cbn [alloc_space_at_loop].
      rewrite (bind_Done _ _ _ _ _ (load_spec _ _ _ _ _ Hrep)).
      change (region.contains addr _) with (n_contains addr d).
      cbn [to_region region.used region.size region.start]. rewrite Hcont, Hu.
      destruct (Z.eqb_spec (n_size d) sz); [done|].
      destruct (Z.geb_spec (wrap (n_size d - wrap (addr - n_start d))) sz); [lia|].
      unfold ret. intros [= _ <-]. lia.
    + assert (Hskip : alloc_space_at_loop (S fuel) sz addr (Some c) s =
                      alloc_space_at_loop fuel sz addr (first_ptr l2 None) s).
      { cbn [alloc_space_at_loop].
        rewrite (bind_Done _ _ _ _ _ (load_spec _ _ _ _ _ Hrep)).
        change (region.contains addr _) with (n_contains addr d).
        by rewrite Hcont. }
      rewrite Hskip in Hrun.
      rewrite (cons_middle _ l1 l2), app_assoc in Hrep.
      exact (IH (l1 ++ [(c, d)]) s fuel v s' Hrep ltac:(simpl in Hfuel; lia) Hrun).
Qed.

(** *** [free_space] *)

Lemma merge_previous_free_change s l1 p dp c d l2 s' :
  rep s (l1 ++ (p, dp) :: (c, d) :: l2) -> n_used dp = false ->
  merge_previous_region c s = Done tt s' ->
  Z.of_nat (live_nodes s') <= Z.of_nat (live_nodes s) + -1.
Proof.
  intros Hrep Hu. unfold merge_previous_region.
  assert (Hrepc : rep s ((l1 ++ [(p, dp)]) ++ (c, d) :: l2))
    by (by rewrite <- app_assoc).
  rewrite (bind_Done _ _ _ _ _ (load_spec _ _ _ _ _ Hrepc)).
  cbn [to_region region.prev]. rewrite last_ptr_snoc. cbn [when_ptr fst].
  rewrite (bind_Done _ _ _ _ _ (load_spec _ _ _ _ _ Hrep)).
  cbn [to_region region.used]. rewrite Hu. cbn [negb].
  to_change (-1).
  repeat (apply change_bind_0; [change_0|intros ?]). apply change_delete.
Qed.

Lemma merge_next_free_change s l1 c d n dn l2 s' :
  rep s (l1 ++ (c, d) :: (n, dn) :: l2) -> n_used dn = false ->
  merge_next_region c s = Done tt s' ->
  Z.of_nat (live_nodes s') <= Z.of_nat (live_nodes s) + -1.
Proof.
  intros Hrep Hu. unfold merge_next_region.
  assert (Hrepn : rep s ((l1 ++ [(c, d)]) ++ (n, dn) :: l2))
    by (by rewrite <- app_assoc).
  rewrite (bind_Done _ _ _ _ _ (load_spec _ _ _ _ _ Hrep)).
  cbn [to_region region.next first_ptr when_ptr fst].
  rewrite (bind_Done _ _ _ _ _ (load_spec _ _ _ _ _ Hrepn)).
  cbn [to_region region.used]. rewrite Hu. cbn [negb].
  to_change (-1).
  repeat (apply change_bind_0; [change_0|intros ?]). apply change_delete.
Qed.

Lemma merge_previous_no_leak s l1 c d l2 :
  rep s (l1 ++ (c, d) :: l2) ->
  exists s' l1' d',
    merge_previous_region c s = Done tt s' /\
    rep s' (l1' ++ (c, d') :: l2) /\
    Z.of_nat (live_nodes s') - Z.of_nat (length l1')
    <= Z.of_nat (live_nodes s) - Z.of_nat (length l1).
Proof.
  intros Hrep.
  destruct (snoc_cases l1) as [->|(l1' & [p dp] & ->)].
  - exists s, [], d. split; [by eapply merge_previous_none|]. split; [done|]. lia.
  - rewrite <- app_assoc in Hrep. simpl in Hrep.
    destruct (n_used dp) eqn:Hu.
    + exists s, (l1' ++ [(p, dp)]), d. rewrite <- app_assoc.
      split; [by eapply merge_previous_used|]. split; [done|]. lia.
    + destruct (merge_previous_free s l1' p dp c d l2 Hrep Hu) as (s' & Hrun & Hrep' & _).
      pose proof (merge_previous_free_change _ _ _ _ _ _ _ _ Hrep Hu Hrun) as Hchange.
      eexists s', l1', _.
      split; [exact Hrun|]. split; [exact Hrep'|].
      rewrite length_app. simpl. lia.
Qed.

Lemma merge_next_no_leak s l1 c d l2 :
  rep s (l1 ++ (c, d) :: l2) ->
  exists s' d' l2',
    merge_next_region c s = Done tt s' /\
    rep s' (l1 ++ (c, d') :: l2') /\
    Z.of_nat (live_nodes s') - Z.of_nat (length l2')
    <= Z.of_nat (live_nodes s) - Z.of_nat (length l2).
Proof.
  intros Hrep.
  destruct l2 as [|[n dn] l2].
  - exists s, d, []. split; [by eapply merge_next_none|]. split; [done|]. lia.
  - destruct (n_used dn) eqn:Hu.
    + exists s, d, ((n, dn) :: l2).
      split; [by eapply merge_next_used|]. split; [done|]. lia.
    + destruct (merge_next_free s l1 c d n dn l2 Hrep Hu) as (s' & Hrun & Hrep' & _).
      pose proof (merge_next_free_change _ _ _ _ _ _ _ _ Hrep Hu Hrun) as Hchange.
      eexists s', _, l2.
      split; [exact Hrun|]. split; [exact Hrep'|]. simpl. lia.
Qed.

Lemma free_space_loop_no_leak sz addr l2 : forall l1 s fuel v s',
  rep s (l1 ++ l2) -> (length l2 < fuel)%nat ->
  free_space_loop fuel sz addr (first_ptr l2 None) s = Done v s' ->
  Z.of_nat (live_nodes s') - Z.of_nat (length (node_list s'))
  <= Z.of_nat (live_nodes s) - Z.of_nat (length (node_list s)).
Proof.
  induction l2 as [|[c d] l2 IH]; intros l1 s fuel v s' Hrep Hfuel;
    (destruct fuel as [|fuel]; [simpl in Hfuel; lia|]).
  - done.
  - cbn [first_ptr fst free_space_loop].
    rewrite (bind_Done _ _ _ _ _ (load_spec _ _ _ _ _ Hrep)).
    cbn [to_region region.used region.size region.start region.next].
    destruct (n_start d =? addr) eqn:Hst.
    + destruct (n_size d =? sz) eqn:Hsz; [|done].
      unfold ASSERT at 1. unfold bind at 1.
      destruct (update_data_spec s l1 c d (Node (n_start d) (n_size d) false) l2
                  (region.set_used false) Hrep) as (s1 & Hrun1 & Hrep1 & Hu1); [done|].
      rewrite (bind_Done _ _ _ _ _ Hrun1).
      destruct (merge_previous_no_leak s1 l1 c _ l2 Hrep1)
        as (s2 & l1' & d1 & Hrun2 & Hrep2 & Hc2).
      rewrite (bind_Done _ _ _ _ _ Hrun2).
      destruct (merge_next_no_leak s2 l1' c d1 l2 Hrep2)
        as (s3 & d2 & l2' & Hrun3 & Hrep3 & Hc3).
      rewrite (bind_Done _ _ _ _ _ Hrun3).
      unfold bind, sub_used, ret. intros Hrun. injection Hrun as _ <-.
      apply add_used_rep with (v := wrap (m_used s3 - sz)) in Hrep3.
      rewrite (rep_list_length _ _ Hrep3), (rep_list_length _ _ Hrep).
      apply update_change in Hrun1.
      unfold live_nodes in *. simpl.
      rewrite !length_app. simpl. unfold cell in *. lia.
    + intros Hrun.
      rewrite (cons_middle _ l1 l2), app_assoc in Hrep.
      exact (IH (l1 ++ [(c, d)]) s fuel v s' Hrep ltac:(simpl in Hfuel; lia) Hrun).
Qed.

(** ** The three calls *)

Lemma calls_do_not_leak s r s' :
  well_formed s -> step s r s' ->
  Z.of_nat (live_nodes s') - Z.of_nat (length (node_list s'))
  <= Z.of_nat (live_nodes s) - Z.of_nat (length (node_list s)).
Proof.
  intros [l Hrep] Hstep.
  pose proof (rep_length _ _ Hrep) as Hlen.
  pose proof Hrep as (Hhd & _).
  destruct r as [sz|sz addr|sz addr]; simpl in Hstep.
  - destruct Hstep as (_ & v & Hrun). unfold alloc_space, bind, ASSERT in Hrun.
    destruct (sz mod PAGE_SIZE =? 0); [|done]. rewrite Hhd in Hrun.
    exact (alloc_space_loop_no_leak sz l [] s _ v s' Hrep Hlen Hrun).
  - destruct Hstep as (_ & _ & v & Hrun).
    unfold alloc_space_at, bind, ASSERT in Hrun.
    destruct (addr mod PAGE_SIZE =? 0); [|done].
    destruct (sz mod PAGE_SIZE =? 0); [|done]. rewrite Hhd in Hrun.
    exact (alloc_space_at_loop_no_leak sz addr l [] s _ v s' Hrep Hlen Hrun).
  - destruct Hstep as (_ & _ & v & Hrun).
    unfold free_space, bind, ASSERT in Hrun.
    destruct (sz mod PAGE_SIZE =? 0); [|done].
    destruct (addr mod PAGE_SIZE =? 0); [|done]. rewrite Hhd in Hrun.
    exact (free_space_loop_no_leak sz addr l [] s _ v s' Hrep Hlen Hrun).
Qed.

Lemma list_nodes_are_live s :
  well_formed s -> (length (node_list s) <= live_nodes s)%nat.
Proof.
  intros [l Hrep]. rewrite (rep_list_length _ _ Hrep).
  pose proof (rep_length _ _ Hrep) as H. unfold loop_bound in H.
  unfold live_nodes. lia.
Qed.

Lemma reachable_by_no_leak ok start size s :
  valid_space start size -> reachable_by ok start size s ->
  live_nodes s = length (node_list s).
Proof.
  intros Hv Hr. induction Hr as [|s r s' Hr IH Hok Hstep].
  - rewrite VMSpace_init_node_list. unfold live_nodes, VMSpace_init. simpl.
    apply map_size_singleton.
  - destruct (reachable_by_inv _ _ _ _ Hv Hr) as (Hwf & _).
    pose proof (calls_do_not_leak _ _ _ Hwf Hstep) as Hle.
    assert (Hr' : reachable_by ok start size s')
      by exact (reach_step _ _ _ _ _ _ Hr Hok Hstep).
    destruct (reachable_by_inv _ _ _ _ Hv Hr') as (Hwf' & _).
    pose proof (list_nodes_are_live _ Hwf'). lia.
Qed.

(** X22: no node is leaked and none is lost.  In every reachable state the
    nodes allocated with [new] and not yet deleted are exactly the nodes of
    the list: their number is the length of the list.  Splitting a node
    links the new node in; merging two nodes deletes the one unlinked. *)
Theorem no_node_is_leaked start size s :
  valid_space start size ->
  reachable start size s ->
  live_nodes s = length (node_list s).
Proof. apply reachable_by_no_leak. Qed.

Lemma no_node_is_leaked_witness :
  valid_space 4096 61440 /\
  reachable 4096 61440 scenario_state /\
  live_nodes scenario_state = length (node_list scenario_state).
Proof.
  assert (Hv : valid_space 4096 61440) by (unfold valid_space, SIZE_MODULUS; lia).
  assert (Hr : reachable 4096 61440 scenario_state).
  { eapply reachable_by_weaken; [|apply scenario_state_reachable]. done. }
  split; [exact Hv|]. split; [exact Hr|].
  exact (no_node_is_leaked 4096 61440 scenario_state Hv Hr).
Defined.

(** ** The destructor *)

Lemma delete_regions_seg : forall l pv s fuel,
  seg (heap s) pv l None -> NoDup l.*1 -> (length l < fuel)%nat ->
  exists s',
    delete_regions fuel (first_ptr l None) s = Done tt s' /\
    forall p, heap s' !! p = if decide (p ∈ l.*1) then None else heap s !! p.
Proof.
  induction l as [|[c d] l IH]; intros pv s fuel Hseg Hnd Hfuel;
    (destruct fuel as [|fuel]; [simpl in Hfuel; lia|]).
  - exists s. split; [done|]. intros p. rewrite decide_False; [done|].
    apply not_elem_of_nil.
  - simpl in Hseg. destruct Hseg as [Hc Hl].
    rewrite fmap_cons in Hnd. apply NoDup_cons in Hnd as [Hc_new Hnd].
    set (s1 := {| heap := delete c (heap s); m_region_map := m_region_map s;
                  m_used := m_used s |}).
    destruct (IH (Some c) s1 fuel) as (s' & Hrun & Hheap).
    { eapply seg_frame; [|exact Hl]. intros x Hx. simpl.
      apply lookup_delete_ne. intros ->. by apply Hc_new. }
    { done. }
    { simpl in Hfuel. lia. }
    exists s'. split.
    + cbn [first_ptr fst delete_regions]. unfold bind at 1, load.
      rewrite Hc. cbn [to_region region.next].
      unfold bind, delete_node. rewrite Hc. exact Hrun.
    + intros p. rewrite Hheap. rewrite fmap_cons. simpl.
      destruct (decide (p = c)) as [->|Hne].
      * rewrite (decide_True (P := c ∈ c :: l.*1)) by (by left).
        destruct (decide (c ∈ l.*1)); [done|]. apply lookup_delete_eq.
      * destruct (decide (p ∈ l.*1)) as [Hin|Hin].
        -- rewrite decide_True; [done|]. by right.
        -- rewrite decide_False.
           ++ by apply lookup_delete_ne.
           ++ intros [?|?]%elem_of_cons; done.
Qed.

Lemma every_live_node_is_listed s l p :
  rep s l -> live_nodes s = length l -> is_Some (heap s !! p) -> p ∈ l.*1.
Proof.
  intros (_ & Hseg & Hnd) Hlive Hp.
  assert (Hsub : list_to_set (C := gset ptr) l.*1 ⊆ dom (heap s)).
  { intros x Hx. apply elem_of_list_to_set in Hx. apply elem_of_dom.
    by eapply seg_is_Some. }
  assert (Heq : list_to_set (C := gset ptr) l.*1 ≡ dom (heap s)).
  { apply set_subseteq_size_equiv; [done|].
    rewrite size_dom, size_list_to_set by done.
    rewrite length_fmap. unfold live_nodes in Hlive. unfold cell in *. lia. }
  apply (elem_of_list_to_set (C := gset ptr)). apply Heq. by apply elem_of_dom.
Qed.

(** X23: the destructor frees every node.  Run on any reachable state, the
    loop of [~VMSpace] returns, deletes no node twice and follows no pointer
    to a node already deleted, and leaves no node of the range list
    allocated. *)
Theorem destructor_frees_every_node start size s :
  valid_space start size ->
  reachable start size s ->
  exists s', VMSpace_destroy s = Done tt s' /\ live_nodes s' = 0%nat.
Proof.
  intros Hv Hr.
  pose proof (reachable_by_no_leak _ _ _ _ Hv Hr) as Hlive.
  destruct (reachable_by_inv _ _ _ _ Hv Hr) as ([l Hrep] & _).
  rewrite (rep_list_length _ _ Hrep) in Hlive.
  pose proof Hrep as (Hhd & Hseg & Hnd).
  destruct (delete_regions_seg l None s (loop_bound s) Hseg Hnd (rep_length _ _ Hrep))
    as (s' & Hrun & Hheap).
  exists s'. split.
  - unfold VMSpace_destroy. by rewrite Hhd.
  - unfold live_nodes. apply map_size_empty_iff. apply map_empty. intros p.
    rewrite Hheap. destruct (decide (p ∈ l.*1)) as [|Hout]; [done|].
    destruct (heap s !! p) eqn:Hp; [|done].
    destruct Hout. eapply every_live_node_is_listed; eauto.
Qed.

Lemma destructor_frees_every_node_witness :
  valid_space 4096 61440 /\
  reachable 4096 61440 scenario_state /\
  exists s', VMSpace_destroy scenario_state = Done tt s' /\ live_nodes s' = 0%nat.
Proof.
  assert (Hv : valid_space 4096 61440) by (unfold valid_space, SIZE_MODULUS; lia).
  assert (Hr : reachable 4096 61440 scenario_state).
  { eapply reachable_by_weaken; [|apply scenario_state_reachable]. done. }
  split; [exact Hv|]. split; [exact Hr|].
  exact (destructor_frees_every_node 4096 61440 scenario_state Hv Hr).
Defined.

(** ** Complete coalescing *)

Lemma used_bytes_zero_all_free a l b :
  chain a l b -> Forall (fun d => 0 < n_size d) l -> used_bytes l = 0 ->
  Forall (fun d => n_used d = false) l.
Proof.
  revert a. induction l as [|d l IH]; intros a Hch Hpos Hu; [done|].
  simpl in Hch. destruct Hch as (_ & _ & Hch).
  apply Forall_cons in Hpos as [Hd Hpos].
  pose proof (used_bytes_bound _ _ _ Hch) as Hb. simpl in Hu.
  constructor.
  - destruct (n_used d); [lia|done].
  - apply (IH _ Hch Hpos). destruct (n_used d); lia.
Qed.

Lemma all_free_single_node a l b :
  a <> b -> chain a l b -> no_free_pair false l ->
  Forall (fun d => n_used d = false) l ->
  l = [Node a (b - a) false].
Proof.
  intros Hab Hch Hnf Hfree.
  destruct l as [|[ds dz du] l]; simpl in Hch; [done|].
  destruct Hch as (Hs & Hz & Hch). simpl in Hs.
  apply Forall_cons in Hfree as [Hd Hfree]. simpl in Hd. subst du ds.
  destruct l as [|d' l].
  - simpl in Hch. f_equal. f_equal. lia.
  - simpl in Hnf. destruct Hnf as (_ & Hd' & _).
    apply Forall_cons in Hfree as [Hf _].
    rewrite Hd' in Hf; done.
Qed.

(** X24: complete coalescing.  For a caller that asks for at least one
    byte at a time and frees only nodes in use: whenever [m_used] is back at
    [0], the list is again the single free node of the constructor, however
    the space was cut up in between; so the whole space can be handed out in
    one piece again. *)
Theorem all_freed_space_is_one_free_node start size s :
  valid_space start size -> 0 < size ->
  reachable_with_matched_calls start size s ->
  m_used s = 0 ->
  node_list s = [Node start size false] /\
  (size mod PAGE_SIZE = 0 ->
   exists s', alloc_space size s = Done (Value start) s' /\
              node_list s' = [Node start size true] /\ m_used s' = size).
Proof.
  intros Hv Hsize Hr Hu.
  assert (Hr1 : reachable_without_stray_free start size s).
  { eapply reachable_by_weaken; [|exact Hr]. simpl. tauto. }
  assert (Hr2 : reachable_with_positive_sizes start size s).
  { eapply reachable_by_weaken; [|exact Hr]. simpl. tauto. }
  destruct (reachable_by_inv _ _ _ _ Hv Hr) as (Hwf & Hch & Hnf & _).
  pose proof (reachable_used_bytes _ _ _ Hv Hr1) as Hused.
  pose proof (reachable_positive_sizes _ _ _ Hv Hsize Hr2) as Hpos.
  rewrite Hu in Hused. symmetry in Hused.
  pose proof (used_bytes_zero_all_free _ _ _ Hch Hpos Hused) as Hfree.
  assert (Hl : node_list s = [Node start size false]).
  { assert (Hne : start <> start + size) by lia.
    rewrite (all_free_single_node _ _ _ Hne Hch Hnf Hfree).
    do 3 f_equal. lia. }
  split; [exact Hl|]. intros Hal.
  pose proof (alloc_space_refines s size Hwf Hal) as Href.
  rewrite Hl in Href. simpl in Href. unfold fits in Href. simpl in Href.
  rewrite Z.leb_refl, Z.eqb_refl in Href. simpl in Href.
  destruct Href as (s' & Hrun & _ & Hl' & Hu').
  exists s'. split; [done|]. split; [done|].
  rewrite Hu', Hu. destruct Hv as (? & ? & ?).
  unfold wrap. apply Z.mod_small. unfold SIZE_MODULUS in *. lia.
Qed.

Lemma released_state_reachable :
  reachable_with_matched_calls 4096 61440 released_state.
Proof.
  eapply reach_step with (r := Free 8192 8192);
    [eapply reach_step with (r := Free 4096 4096);
      [eapply reach_step with (r := Alloc 8192);
        [eapply reach_step with (r := Alloc 4096); [apply reach_init| |]| |]| |]| |].
  - simpl. split; [done|lia].
  - split; [unfold in_size_t, SIZE_MODULUS; lia|]. eexists. vm_compute. reflexivity.
  - simpl. split; [done|lia].
  - split; [unfold in_size_t, SIZE_MODULUS; lia|]. eexists. vm_compute. reflexivity.
  - split; [|done]. eexists. split; [vm_compute; reflexivity|done].
  - split; [unfold in_size_t, SIZE_MODULUS; lia|].
    split; [unfold in_size_t, SIZE_MODULUS; lia|]. eexists. vm_compute. reflexivity.
  - split; [|done]. eexists. split; [vm_compute; reflexivity|done].
  - split; [unfold in_size_t, SIZE_MODULUS; lia|].
    split; [unfold in_size_t, SIZE_MODULUS; lia|]. eexists. vm_compute. reflexivity.
Qed.

Lemma all_freed_space_is_one_free_node_witness :
  valid_space 4096 61440 /\ 0 < 61440 /\
  reachable_with_matched_calls 4096 61440 released_state /\
  m_used released_state = 0 /\
  node_list released_state = [Node 4096 61440 false] /\
  (61440 mod PAGE_SIZE = 0 ->
   exists s', alloc_space 61440 released_state = Done (Value 4096) s' /\
              node_list s' = [Node 4096 61440 true] /\ m_used s' = 61440).
Proof.
  assert (Hv : valid_space 4096 61440) by (unfold valid_space, SIZE_MODULUS; lia).
  assert (Hs : 0 < 61440) by lia.
  assert (Hu : m_used released_state = 0) by reflexivity.
  split; [exact Hv|]. split; [exact Hs|].
  split; [exact released_state_reachable|]. split; [exact Hu|].
  exact (all_freed_space_is_one_free_node 4096 61440 released_state Hv Hs
           released_state_reachable Hu).
Defined.
(** * Processes: regions are destroyed when their handle is erased *)

Lemma list_find_at_index {A B} `{EqDecision B} (f : A -> B) (l : list A)
    (i : nat) x :
  NoDup (f <$> l) -> l !! i = Some x ->
  list_find (fun y => f y = f x) l = Some (i, x).
Proof.
  intros Hnd Hi. apply list_find_Some. split; [done|]. split; [done|].
  intros j y Hj Hlt Heq.
  assert (i = j); [|lia].
  apply (NoDup_lookup (f <$> l) i j (f x) Hnd).
  - by rewrite list_lookup_fmap, Hi.
  - rewrite list_lookup_fmap, Hj. simpl. by rewrite Heq.
Qed.

Lemma Result_is_error_false code : Result_is_error code = false -> code = SUCCESS.
Proof. unfold Result_is_error. intros H%negb_false_iff. by apply Z.eqb_eq. Qed.

Section ProcessProperties.
Context {PageDirectory : Type}.
Variable pd_map : VMRegion -> PageDirectory -> ResultRet unit * PageDirectory.
Variable pd_unmap : VMRegion -> PageDirectory -> ResultRet unit * PageDirectory.

(** ** What the calls do when they return *)

Lemma try_alloc_then_register_Done object prot alloc
    (sp : VMSpace PageDirectory) res sp' :
  try_alloc_then_register pd_map object prot alloc sp = Done res sp' ->
  (exists e rm, alloc = Done (Error e) rm /\ res = Error e /\
     range_map sp' = rm /\ m_regions sp' = m_regions sp /\
     m_page_directory sp' = m_page_directory sp /\
     next_region_addr sp' = next_region_addr sp) \/
  (exists v rm region, alloc = Done (Value v) rm /\ res = Value region /\
     region = {| reg_addr := next_region_addr sp; reg_object := object;
                 reg_start := v; reg_size := obj_size object;
                 reg_prot := prot |} /\
     range_map sp' = rm /\ m_regions sp' = m_regions sp ++ [region] /\
     next_region_addr sp' = Pos.succ (next_region_addr sp)).
Proof.
  unfold try_alloc_then_register, register_region.
  destruct alloc as [[v|e] rm| | |]; try done; intros [= <- <-].
  - right. by eexists v, rm, _.
  - left. by exists e, rm.
Qed.

Lemma unmap_region_Done region (sp : VMSpace PageDirectory) code sp' :
  unmap_region pd_unmap region sp = Done code sp' ->
  (list_find (fun r => reg_addr r = reg_addr region) (m_regions sp) = None /\
   code = ENOENT /\ sp' = sp) \/
  (exists j r rm,
     list_find (fun r => reg_addr r = reg_addr region) (m_regions sp)
       = Some (j, r) /\
     free_space (reg_size region) (reg_start region) (range_map sp)
       = Done SUCCESS rm /\
     code = SUCCESS /\
     sp' = {| range_map := rm;
              m_regions := delete j (m_regions sp);
              m_page_directory := (pd_unmap region (m_page_directory sp)).2;
              next_region_addr := next_region_addr sp |}).
Proof.
  unfold unmap_region.
  destruct (list_find _ (m_regions sp)) as [[j r]|] eqn:Hfind.
  - destruct (free_space _ _ _) as [free_res rm| | |] eqn:Hfree; try done.
    destruct (Result_is_error free_res) eqn:Herr; [done|].
    apply Result_is_error_false in Herr as ->.
    intros [= <- <-]. right. by exists j, r, rm.
  - intros [= <- <-]. by left.
Qed.

Lemma VMRegion_destroy_Done region (sp sp' : VMSpace PageDirectory) :
  VMRegion_destroy pd_unmap region sp = Done tt sp' ->
  exists code, unmap_region pd_unmap region sp = Done code sp'.
Proof.
  unfold VMRegion_destroy.
  destruct (unmap_region pd_unmap region sp) as [code sp1| | |]; try done.
  intros [= <-]. by exists code.
Qed.

Lemma sys_shmattach_Done id addr (k : Kernel) (p : Process PageDirectory) v p' :
  sys_shmattach pd_map id addr k p = Done v p' ->
  (p' = p /\ v.1 <> SUCCESS) \/
  exists object perms res sp',
    shared_objects k !! id = Some object /\
    anon_shared object !! _pid p = Some perms /\
    (if to_bool addr
     then map_object_at pd_map (anon_object object) addr perms (_vm_space p)
     else map_object pd_map (anon_object object) perms (_vm_space p))
    = Done res sp' /\
    _pid p' = _pid p /\ _vm_space p' = sp' /\ m_used_pmem p' = m_used_pmem p /\
    match res with
    | Error code =>
        v = (code, None) /\
        _vm_regions p' = _vm_regions p /\ m_used_shmem p' = m_used_shmem p
    | Value region =>
        v = (SUCCESS, Some {| shm_ptr := reg_start region;
                              shm_size := reg_size region;
                              shm_id := anon_shm_id object |}) /\
        _vm_regions p' = _vm_regions p ++ [region] /\
        m_used_shmem p' = wrap (m_used_shmem p + reg_size region)
    end.
Proof.
  unfold sys_shmattach, get_shared, get_shared_permissions.
  destruct (shared_objects k !! id) as [object|] eqn:Hobj;
    [|intros [= <- <-]; by left].
  destruct (anon_shared object !! _pid p) as [perms|] eqn:Hperms;
    [|intros [= <- <-]; by left].
  destruct (negb (prot_read perms)); [intros [= <- <-]; by left|].
  destruct (if to_bool addr then _ else _) as [[region|code] sp'| | |] eqn:Hmap;
    try done; intros [= <- <-]; right; exists object, perms; eexists _, sp';
    (split; [done|]); (split; [done|]); (split; [exact Hmap|]); done.
Qed.

Lemma sys_shmdetach_Done id (k : Kernel) (p : Process PageDirectory) v p' :
  sys_shmdetach pd_unmap id k p = Done v p' ->
  (p' = p /\ v = ENOENT) \/
  exists object (i : nat) region sp',
    shared_objects k !! id = Some object /\
    list_find (fun r => reg_object r = anon_object object) (_vm_regions p)
      = Some (i, region) /\
    VMRegion_destroy pd_unmap region (_vm_space p) = Done tt sp' /\
    v = SUCCESS /\
    p' = {| _pid := _pid p; _vm_space := sp';
            _vm_regions := delete i (_vm_regions p);
            m_used_pmem := m_used_pmem p;
            m_used_shmem :=
              wrap (m_used_shmem p - obj_size (anon_object object)) |}.
Proof.
  unfold sys_shmdetach, get_shared.
  destruct (shared_objects k !! id) as [object|] eqn:Hobj;
    [|intros [= <- <-]; by left].
  destruct (list_find _ (_vm_regions p)) as [[i region]|] eqn:Hfind;
    [|intros [= <- <-]; by left].
  destruct (VMRegion_destroy pd_unmap region (_vm_space p))
    as [[] sp'| | |] eqn:Hdestroy; try done.
  intros [= <- <-]. right. by exists object, i, region, sp'.
Qed.

Lemma sys_munmap_Done addr length (p : Process PageDirectory) v p' :
  sys_munmap pd_unmap addr length p = Done v p' ->
  (list_find (fun r => reg_start r = addr /\ reg_size r = length) (_vm_regions p)
     = None /\ p' = p /\ v = ENOENT) \/
  exists (i : nat) region sp',
    list_find (fun r => reg_start r = addr /\ reg_size r = length) (_vm_regions p)
      = Some (i, region) /\
    VMRegion_destroy pd_unmap region (_vm_space p) = Done tt sp' /\
    v = SUCCESS /\
    p' = {| _pid := _pid p; _vm_space := sp';
            _vm_regions := delete i (_vm_regions p);
            m_used_pmem := wrap (m_used_pmem p - reg_size region);
            m_used_shmem := m_used_shmem p |}.
Proof.
  unfold sys_munmap.
  destruct (list_find _ (_vm_regions p)) as [[i region]|] eqn:Hfind;
    [|intros [= <- <-]; by left].
  destruct (VMRegion_destroy pd_unmap region (_vm_space p))
    as [[] sp'| | |] eqn:Hdestroy; try done.
  intros [= <- <-]. right. by exists i, region, sp'.
Qed.

(** ** What every process reached through the calls satisfies *)

(** Erasing a region the process holds erases the same position of
    [m_regions], when the two lists agree and the region objects are
    distinct. *)
Lemma destroy_held_region (p : Process PageDirectory) (i : nat) region sp' :
  m_regions (_vm_space p) = _vm_regions p ->
  region_addrs_fresh (_vm_space p) ->
  _vm_regions p !! i = Some region ->
  VMRegion_destroy pd_unmap region (_vm_space p) = Done tt sp' ->
  exists rm,
    free_space (reg_size region) (reg_start region) (range_map (_vm_space p))
      = Done SUCCESS rm /\
    sp' = {| range_map := rm;
             m_regions := delete i (m_regions (_vm_space p));
             m_page_directory :=
               (pd_unmap region (m_page_directory (_vm_space p))).2;
             next_region_addr := next_region_addr (_vm_space p) |}.
Proof.
  intros Hsame [Hnd _] Hi Hdestroy.
  destruct (VMRegion_destroy_Done _ _ _ Hdestroy) as (code & Hunmap).
  rewrite <- Hsame in Hi.
  pose proof (list_find_at_index reg_addr _ _ _ Hnd Hi) as Hfind.
  destruct (unmap_region_Done _ _ _ _ Hunmap)
    as [(Hnone & _)|(j & r & rm & Hfind' & Hfree & _ & ->)]; [congruence|].
  rewrite Hfind in Hfind'. injection Hfind' as <- <-. by exists rm.
Qed.

Lemma region_addrs_fresh_delete (sp sp' : VMSpace PageDirectory) (i : nat) :
  region_addrs_fresh sp ->
  m_regions sp' = delete i (m_regions sp) ->
  next_region_addr sp' = next_region_addr sp ->
  region_addrs_fresh sp'.
Proof.
  intros [Hnd Hlt] Hl Hn. unfold region_addrs_fresh. rewrite Hl, Hn. split.
  - rewrite list_fmap_delete. eapply sublist_NoDup; [exact Hnd|].
    apply sublist_delete.
  - by apply Forall_delete.
Qed.

Lemma region_addrs_fresh_register (sp sp' : VMSpace PageDirectory) region :
  region_addrs_fresh sp ->
  reg_addr region = next_region_addr sp ->
  m_regions sp' = m_regions sp ++ [region] ->
  next_region_addr sp' = Pos.succ (next_region_addr sp) ->
  region_addrs_fresh sp'.
Proof.
  intros [Hnd Hlt] Haddr Hl Hn. unfold region_addrs_fresh. rewrite Hl, Hn. split.
  - rewrite fmap_app. apply NoDup_app. split; [done|]. split.
    + intros a (r & -> & Hr)%list_elem_of_fmap [= Heq]%list_elem_of_singleton.
      pose proof (proj1 (Forall_forall _ _) Hlt r Hr) as Hr_lt.
      simpl in Hr_lt. rewrite Heq, Haddr in Hr_lt. lia.
    + apply NoDup_singleton.
  - apply Forall_app. split.
    + eapply Forall_impl; [exact Hlt|]. simpl. intros r Hr. lia.
    + constructor; [|constructor]. rewrite Haddr. lia.
Qed.

(** The regions the process holds are the regions registered in its address
    space, in the same order; the region objects are distinct; every region
    has the size of its object; the counters are [size_t] values. *)
Lemma process_reachable_by_inv ok pid start size (p : Process PageDirectory) :
  process_reachable_by pd_map pd_unmap ok pid start size p ->
  _pid p = pid /\
  m_regions (_vm_space p) = _vm_regions p /\
  region_addrs_fresh (_vm_space p) /\
  Forall (fun r => reg_size r = obj_size (reg_object r)) (_vm_regions p) /\
  in_size_t (m_used_pmem p) /\ in_size_t (m_used_shmem p).
Proof.
  intros Hr. induction Hr as [pd|p r p' _ (Hpid & Hsame & Hfresh & Hsizes & Hpm & Hsm) Hstep].
  - simpl. split; [done|]. split; [done|]. split; [split; constructor|].
    split; [constructor|]. split; apply size_t_0.
  - destruct r as [k id addr|k id|addr length]; simpl in Hstep.
    + destruct Hstep as (_ & _ & v & Hrun).
      destruct (sys_shmattach_Done _ _ _ _ _ _ Hrun)
        as [[-> _]|(object & perms & res & sp' & _ & _ & Hmap & Hp1 & Hp2 & Hp3 & Hres)];
        [done|].
      assert (Hreg : try_alloc_then_register pd_map (anon_object object) perms
                (if to_bool addr
                 then alloc_space_at (obj_size (anon_object object)) addr
                        (range_map (_vm_space p))
                 else alloc_space (obj_size (anon_object object))
                        (range_map (_vm_space p))) (_vm_space p) = Done res sp').
      { by destruct (to_bool addr). }
      rewrite Hp1, Hp2, Hp3.
      destruct (try_alloc_then_register_Done _ _ _ _ _ _ Hreg)
        as [(e & rm & _ & -> & _ & Hl & _ & Hn)
           |(a & rm & region & _ & -> & Hregion & _ & Hl & Hn)].
      * destruct Hres as (_ & -> & ->). rewrite Hl.
        split; [done|]. split; [done|]. split; [|done].
        destruct Hfresh as [Hnd Hlt]. split; rewrite Hl; [done|]. by rewrite Hn.
      * destruct Hres as (_ & -> & ->). rewrite Hl, Hsame.
        split; [done|]. split; [done|]. split; [|split; [|split; [done|]]].
        -- eapply region_addrs_fresh_register; [exact Hfresh| |by rewrite Hl, Hsame|done].
           by subst region.
        -- apply Forall_app. split; [done|]. constructor; [|constructor].
           by subst region.
        -- apply wrap_range.
    + destruct Hstep as (v & Hrun).
      destruct (sys_shmdetach_Done _ _ _ _ _ Hrun)
        as [[-> _]|(object & i & region & sp' & _ & Hfind & Hdestroy & _ & ->)];
        [done|].
      apply list_find_Some in Hfind as (Hi & _ & _).
      destruct (destroy_held_region _ _ _ _ Hsame Hfresh Hi Hdestroy)
        as (rm & _ & ->). simpl.
      split; [done|]. split; [by rewrite Hsame|]. split; [|split; [|split; [done|]]].
      * by eapply region_addrs_fresh_delete.
      * by apply Forall_delete.
      * apply wrap_range.
    + destruct Hstep as (v & Hrun).
      destruct (sys_munmap_Done _ _ _ _ _ Hrun)
        as [(_ & -> & _)|(i & region & sp' & Hfind & Hdestroy & _ & ->)];
        [done|].
      apply list_find_Some in Hfind as (Hi & _ & _).
      destruct (destroy_held_region _ _ _ _ Hsame Hfresh Hi Hdestroy)
        as (rm & _ & ->). simpl.
      split; [done|]. split; [by rewrite Hsame|]. split; [|split; [|split; [|done]]].
      * by eapply region_addrs_fresh_delete.
      * by apply Forall_delete.
      * apply wrap_range.
Qed.


(** With objects of at least one byte, destroying a region the process
    holds is [unmap_region] at the start of the region. *)
Lemma destroy_as_unmap_at start size (p : Process PageDirectory) (i : nat)
    region sp' :
  vm_inv start size (_vm_space p) ->
  m_regions (_vm_space p) = _vm_regions p ->
  region_addrs_fresh (_vm_space p) ->
  _vm_regions p !! i = Some region ->
  VMRegion_destroy pd_unmap region (_vm_space p) = Done tt sp' ->
  list_find (fun r => reg_start r = reg_start region) (m_regions (_vm_space p))
    = Some (i, region) /\
  unmap_region_at pd_unmap (reg_start region) (_vm_space p) = Done SUCCESS sp'.
Proof.
  intros Hinv Hsame Hfresh Hi Hdestroy.
  destruct (destroy_held_region _ _ _ _ Hsame Hfresh Hi Hdestroy) as (rm & Hfree & ->).
  destruct Hinv as (_ & _ & _ & _ & _ & Hnd).
  rewrite <- Hsame in Hi.
  pose proof (list_find_at_index reg_start _ _ _ Hnd Hi) as Hfind.
  split; [done|].
  unfold unmap_region_at. rewrite Hfind, Hfree. done.
Qed.

Lemma process_space_reachable pid start size (p : Process PageDirectory) :
  valid_space start size -> 0 < size -> start mod PAGE_SIZE = 0 ->
  process_reachable pd_map pd_unmap pid start size p ->
  vm_reachable pd_map pd_unmap start size (_vm_space p).
Proof.
  intros Hv Hsize Hal Hr. induction Hr as [pd|p r p' Hrp IH Hstep].
  - apply vm_reach_init.
  - destruct (process_reachable_by_inv _ _ _ _ _ Hrp)
      as (_ & Hsame & Hfresh & _ & _ & _).
    pose proof (vm_reachable_inv _ _ _ _ _ Hv Hsize Hal IH) as Hinv.
    destruct r as [k id addr|k id|addr length]; simpl in Hstep.
    + destruct Hstep as (Hok & Haddr & v & Hrun).
      destruct (sys_shmattach_Done _ _ _ _ _ _ Hrun)
        as [[-> _]|(object & perms & res & sp' & Hobj & _ & Hmap & _ & -> & _)];
        [done|].
      specialize (Hok _ Hobj).
      destruct (to_bool addr).
      * eapply vm_reach_step with (r := MapObjectAt (anon_object object) addr perms);
          [exact IH|]. simpl. split; [exact Hok|]. split; [exact Haddr|]. by eexists.
      * eapply vm_reach_step with (r := MapObject (anon_object object) perms);
          [exact IH|]. simpl. split; [exact Hok|]. by eexists.
    + destruct Hstep as (v & Hrun).
      destruct (sys_shmdetach_Done _ _ _ _ _ Hrun)
        as [[-> _]|(object & i & region & sp' & _ & Hfind & Hdestroy & _ & ->)];
        [done|].
      apply list_find_Some in Hfind as (Hi & _ & _).
      destruct (destroy_as_unmap_at _ _ _ _ _ _ Hinv Hsame Hfresh Hi Hdestroy)
        as [_ Hunmap].
      eapply vm_reach_step with (r := UnmapRegionAt (reg_start region));
        [exact IH|]. simpl. by eexists.
    + destruct Hstep as (v & Hrun).
      destruct (sys_munmap_Done _ _ _ _ _ Hrun)
        as [(_ & -> & _)|(i & region & sp' & Hfind & Hdestroy & _ & ->)];
        [done|].
      apply list_find_Some in Hfind as (Hi & _ & _).
      destruct (destroy_as_unmap_at _ _ _ _ _ _ Hinv Hsame Hfresh Hi Hdestroy)
        as [_ Hunmap].
      eapply vm_reach_step with (r := UnmapRegionAt (reg_start region));
        [exact IH|]. simpl. by eexists.
Qed.

(** Destroying a region that such a process holds cannot stop the kernel:
    the range of the region is freed and the region leaves [m_regions]. *)
Lemma destroy_held_region_returns pid start size (p : Process PageDirectory)
    (i : nat) region :
  valid_space start size -> 0 < size -> start mod PAGE_SIZE = 0 ->
  process_reachable pd_map pd_unmap pid start size p ->
  _vm_regions p !! i = Some region ->
  exists rm,
    free_space (reg_size region) (reg_start region) (range_map (_vm_space p))
      = Done SUCCESS rm /\
    m_used rm = m_used (range_map (_vm_space p)) - reg_size region /\
    VMRegion_destroy pd_unmap region (_vm_space p)
    = Done tt {| range_map := rm;
                 m_regions := delete i (m_regions (_vm_space p));
                 m_page_directory :=
                   (pd_unmap region (m_page_directory (_vm_space p))).2;
                 next_region_addr := next_region_addr (_vm_space p) |}.
Proof.
  intros Hv Hsize Hal Hr Hi.
  destruct (process_reachable_by_inv _ _ _ _ _ Hr)
    as (_ & Hsame & [Hnd_addr _] & _ & _ & _).
  pose proof (process_space_reachable _ _ _ _ Hv Hsize Hal Hr) as Hvr.
  pose proof (vm_reachable_inv _ _ _ _ _ Hv Hsize Hal Hvr) as Hinv.
  pose proof Hinv as (_ & _ & _ & _ & _ & Hnd).
  rewrite <- Hsame in Hi.
  pose proof (list_find_at_index reg_start _ _ _ Hnd Hi) as Hfind.
  destruct (unmap_vm_facts _ _ _ _ _ _ Hv Hinv Hfind)
    as (rm & Hfree & _ & _ & _ & _ & _ & _ & Hm & _).
  exists rm. split; [done|]. split; [done|].
  unfold VMRegion_destroy, unmap_region.
  rewrite (list_find_at_index reg_addr _ _ _ Hnd_addr Hi), Hfree. done.
Qed.


(** C10: every region a process holds, and every region registered in its
    address space, has exactly the size of the object it maps, whatever the
    sizes of the objects attached; so has the region either overload of
    [map_object] returns.  Hence [sys_shmdetach], when it returns
    [SUCCESS], has taken off [m_used_shmem] exactly the size of the region
    it erased. *)
Theorem map_object_region_covers_object pid start size
    (p : Process PageDirectory) :
  process_reachable_any pd_map pd_unmap pid start size p ->
  Forall (fun r => reg_size r = obj_size (reg_object r)) (m_regions (_vm_space p)) /\
  Forall (fun r => reg_size r = obj_size (reg_object r)) (_vm_regions p) /\
  (forall object prot address r sp',
     map_object pd_map object prot (_vm_space p) = Done (Value r) sp' \/
     map_object_at pd_map object address prot (_vm_space p) = Done (Value r) sp' ->
     reg_object r = object /\ reg_size r = obj_size object /\
     m_regions sp' = m_regions (_vm_space p) ++ [r]) /\
  (forall id k p',
     sys_shmdetach pd_unmap id k p = Done SUCCESS p' ->
     exists (i : nat) r object,
       shared_objects k !! id = Some object /\
       _vm_regions p !! i = Some r /\
       reg_object r = anon_object object /\
       _vm_regions p' = delete i (_vm_regions p) /\
       m_regions (_vm_space p') = delete i (m_regions (_vm_space p)) /\
       m_used_shmem p' = wrap (m_used_shmem p - reg_size r)).
Proof.
  intros Hr.
  destruct (process_reachable_by_inv _ _ _ _ _ Hr)
    as (_ & Hsame & Hfresh & Hsizes & _ & _).
  split; [by rewrite Hsame|]. split; [done|]. split.
  - intros object prot address r sp' [H|H]; apply try_alloc_region in H
      as (v & rm & _ & -> & _ & Hm); done.
  - intros id k p' Hrun.
    destruct (sys_shmdetach_Done _ _ _ _ _ Hrun)
      as [[_ [=]]|(object & i & region & sp' & Hobj & Hfind & Hdestroy & _ & ->)].
    apply list_find_Some in Hfind as (Hi & Ho & _).
    destruct (destroy_held_region _ _ _ _ Hsame Hfresh Hi Hdestroy) as (rm & _ & ->).
    exists i, region, object. simpl. repeat split; try done.
    rewrite Forall_forall in Hsizes.
    rewrite (Hsizes region); [by rewrite Ho|]. by eapply list_elem_of_lookup_2.
Qed.

(** X20: attach and detach.  In a process reached through the system calls
    with objects of at least one byte, when [sys_shmattach(id)] has returned
    [SUCCESS], the [sys_shmdetach(id)] that follows returns [SUCCESS] too
    and does not stop the kernel: the region it erases is destroyed and its
    range freed.  [m_used_shmem], the number of regions of the process and
    of its address space, and the bytes in use in the address space are
    back to what they were before the attach; [m_used_pmem] is left
    alone. *)
Theorem shmattach_then_shmdetach pid start size id addr (k : Kernel)
    (p p' : Process PageDirectory) out :
  valid_space start size -> 0 < size -> start mod PAGE_SIZE = 0 ->
  process_reachable pd_map pd_unmap pid start size p ->
  (forall o, shared_objects k !! id = Some o -> sized_object (anon_object o)) ->
  in_size_t addr ->
  sys_shmattach pd_map id addr k p = Done (SUCCESS, Some out) p' ->
  exists p'',
    sys_shmdetach pd_unmap id k p' = Done SUCCESS p'' /\
    m_used_shmem p'' = m_used_shmem p /\
    m_used_pmem p'' = m_used_pmem p /\
    length (_vm_regions p'') = length (_vm_regions p) /\
    length (m_regions (_vm_space p'')) = length (m_regions (_vm_space p)) /\
    m_used (range_map (_vm_space p'')) = m_used (range_map (_vm_space p)).
Proof.
  intros Hv Hsize Hal Hr Hok Haddr Hrun.
  assert (Hr' : process_reachable pd_map pd_unmap pid start size p').
  { eapply proc_reach_step with (r := ShmAttach k id addr); [exact Hr|].
    simpl. split; [exact Hok|]. split; [exact Haddr|]. by eexists. }
  destruct (process_reachable_by_inv _ _ _ _ _ Hr)
    as (_ & Hsame & _ & _ & _ & Hsm).
  destruct (process_reachable_by_inv _ _ _ _ _ Hr')
    as (_ & Hsame' & _ & Hsizes' & _ & _).
  pose proof (process_space_reachable _ _ _ _ Hv Hsize Hal Hr) as Hvr.
  pose proof (vm_reachable_inv _ _ _ _ _ Hv Hsize Hal Hvr) as Hinv.
  destruct (sys_shmattach_Done _ _ _ _ _ _ Hrun)
    as [[_ Hne]|(object & perms & res & sp' & Hobj & _ & Hmap & _ & Hsp' & Hpm & Hres)];
    [done|].
  destruct res as [region|code]; [|by destruct Hres as ([= ->] & _)].
  destruct Hres as (_ & Hregs' & Hsm').
  specialize (Hok _ Hobj).
  (* the region attached *)
  assert (reg_object region = anon_object object /\
          reg_size region = obj_size (anon_object object) /\
          m_used (range_map sp')
            = m_used (range_map (_vm_space p)) + obj_size (anon_object object))
    as (Hro & Hrz & Hused').
  { assert (exists v rm,
      (alloc_space (obj_size (anon_object object)) (range_map (_vm_space p))
         = Done (Value v) rm \/
       (exists a, in_size_t a /\
          alloc_space_at (obj_size (anon_object object)) a
            (range_map (_vm_space p)) = Done (Value v) rm)) /\
      reg_object region = anon_object object /\
      reg_size region = obj_size (anon_object object) /\
      range_map sp' = rm) as (v & rm & Halloc & ? & ? & Hrm).
    { destruct (to_bool addr);
        destruct (try_alloc_region _ _ _ _ _ _ _ Hmap)
          as (v & rm & Halloc & -> & Hrm & _); exists v, rm.
      - split; [right; by exists addr|]. done.
      - split; [by left|]. done. }
    split; [done|]. split; [done|]. rewrite Hrm.
    by destruct (alloc_vm_facts _ _ _ _ _ _ Hv Hinv Hok Halloc)
      as (_ & _ & _ & _ & _ & _ & _ & _ & ?). }
  (* the region that the detach finds *)
  assert (exists (i : nat) r,
    list_find (fun r => reg_object r = anon_object object) (_vm_regions p')
      = Some (i, r)) as (i & r & Hfind).
  { destruct (list_find (fun r => reg_object r = anon_object object)
                (_vm_regions p')) as [[i r]|] eqn:Hfind; [by eexists _, _|].
    apply list_find_None in Hfind. rewrite Hregs' in Hfind.
    apply Forall_app in Hfind as [_ Hfind].
    apply Forall_cons in Hfind as [Hfind _]. done. }
  pose proof Hfind as (Hi & Hobj_r & _)%list_find_Some.
  destruct (destroy_held_region_returns _ _ _ _ _ _ Hv Hsize Hal Hr' Hi)
    as (rm2 & Hfree & Hm2 & Hdestroy).
  assert (Hrz' : reg_size r = obj_size (anon_object object)).
  { rewrite Forall_forall in Hsizes'.
    rewrite (Hsizes' r); [by rewrite Hobj_r|]. by eapply list_elem_of_lookup_2. }
  eexists. unfold sys_shmdetach, get_shared. rewrite Hobj, Hfind, Hdestroy.
  split; [reflexivity|]. simpl.
  split; [|split; [done|split; [|split]]].
  - rewrite Hsm', Hrz. by apply wrap_add_sub.
  - rewrite length_delete by (by eexists). rewrite Hregs', length_app. simpl. lia.
  - rewrite Hsame', Hsame. rewrite length_delete by (by eexists).
    rewrite Hregs', length_app. simpl. lia.
  - rewrite Hm2, Hsp', Hused', Hrz'. lia.
Qed.

End ProcessProperties.
(** ** The reservation and the system-call properties on the examples *)

Lemma reserve_region_example :
  reserve_region 16384 8192 mapped_space = Done SUCCESS reserved_space.
Proof. vm_compute. reflexivity. Qed.

Lemma reserved_space_later_reached :
  vm_reached_from failing_map example_unmap reserved_space reserved_space_later.
Proof.
  eapply vm_from_step with (r := UnmapRegionAt 4096);
    [eapply vm_from_step with (r := MapObject example_object VMProt_RW);
       [apply vm_from_here|]|].
  - simpl. split; [exact example_object_size|]. eexists. vm_compute. reflexivity.
  - simpl. eexists. vm_compute. reflexivity.
Qed.

Lemma reserve_region_holds_the_range_witness :
  valid_space 0 65536 /\ 0 < 65536 /\ 0 mod PAGE_SIZE = 0 /\
  vm_reachable failing_map example_unmap 0 65536 mapped_space /\
  0 < 8192 < SIZE_MODULUS /\ in_size_t 16384 /\
  reserve_region 16384 8192 mapped_space = Done SUCCESS reserved_space /\
  vm_reached_from failing_map example_unmap reserved_space reserved_space_later /\
  m_regions reserved_space = m_regions mapped_space /\
  m_used (range_map reserved_space) = m_used (range_map mapped_space) + 8192 /\
  (forall object prot, obj_size object mod PAGE_SIZE = 0 ->
     map_object_at failing_map object 16384 prot reserved_space_later
     = Done (Error ENOMEM) reserved_space_later) /\
  unmap_region_at example_unmap 16384 reserved_space_later
  = Done ENOENT reserved_space_later.
Proof.
  assert (Hs : 0 < 65536) by lia.
  assert (Hsz : 0 < 8192 < SIZE_MODULUS) by (unfold SIZE_MODULUS; lia).
  assert (Ha : in_size_t 16384) by (unfold in_size_t, SIZE_MODULUS; lia).
  split; [exact valid_space_example|]. split; [exact Hs|]. split; [reflexivity|].
  split; [exact mapped_space_reachable|]. split; [exact Hsz|]. split; [exact Ha|].
  split; [exact reserve_region_example|].
  split; [exact reserved_space_later_reached|].
  destruct (reserve_region_holds_the_range failing_map example_unmap 0 65536
              mapped_space 16384 8192 SUCCESS reserved_space
              valid_space_example Hs eq_refl mapped_space_reachable Hsz Ha
              reserve_region_example)
    as (Hregs & _ & [[Hcode _]|(_ & Hused & Hlater)]); [discriminate Hcode|].
  split; [exact Hregs|]. split; [exact Hused|].
  exact (Hlater reserved_space_later reserved_space_later_reached).
Defined.

Lemma shmattach_example :
  sys_shmattach failing_map 5 0 granted_kernel example_client
  = Done (SUCCESS, Some {| shm_ptr := 0; shm_size := 4096; shm_id := 5 |})
      attached_client.
Proof. vm_compute. reflexivity. Qed.

Lemma shmallow_then_shmattach_witness :
  sys_shmallow 5 8 (Z.lor SHM_WRITE SHM_READ) example_kernel
    = (SUCCESS, granted_kernel) /\
  _pid example_client = 8 /\
  well_formed (range_map (_vm_space example_client)) /\
  exists object,
    shared_objects example_kernel !! 5 = Some object /\
    let size := obj_size (anon_object object) in
    let prot := {| prot_read := true;
                   prot_write := Z.testbit (Z.lor SHM_WRITE SHM_READ) 1;
                   prot_execute := false; prot_cow := false |} in
    match (if to_bool 0
           then alloc_space_at size 0 (range_map (_vm_space example_client))
           else alloc_space size (range_map (_vm_space example_client))) with
    | Done (Value v) rm =>
        let region := {| reg_addr := next_region_addr (_vm_space example_client);
                         reg_object := anon_object object; reg_start := v;
                         reg_size := size; reg_prot := prot |} in
        sys_shmattach failing_map 5 0 granted_kernel example_client
        = Done (SUCCESS,
                Some {| shm_ptr := v; shm_size := size;
                        shm_id := anon_shm_id object |})
            {| _pid := 8;
               _vm_space :=
                 {| range_map := rm;
                    m_regions := m_regions (_vm_space example_client) ++ [region];
                    m_page_directory :=
                      (failing_map region
                         (m_page_directory (_vm_space example_client))).2;
                    next_region_addr :=
                      Pos.succ (next_region_addr (_vm_space example_client)) |};
               _vm_regions := _vm_regions example_client ++ [region];
               m_used_pmem := m_used_pmem example_client;
               m_used_shmem := wrap (m_used_shmem example_client + size) |}
    | Done (Error _) _ =>
        sys_shmattach failing_map 5 0 granted_kernel example_client
        = Done (ENOMEM, None) example_client
    | Panic => sys_shmattach failing_map 5 0 granted_kernel example_client = Panic
    | Fault | OutOfFuel => False
    end.
Proof.
  assert (Hwf : well_formed (range_map (_vm_space example_client)))
    by apply VMSpace_init_well_formed.
  split; [exact shmallow_example|]. split; [reflexivity|]. split; [exact Hwf|].
  exact (shmallow_then_shmattach failing_map 5 8 (Z.lor SHM_WRITE SHM_READ) 0
           example_kernel granted_kernel example_client
           shmallow_example eq_refl Hwf).
Defined.

(** ** The process properties on the example client *)

Lemma granted_objects_sized o :
  shared_objects granted_kernel !! 5 = Some o -> sized_object (anon_object o).
Proof.
  intros Ho. vm_compute in Ho. injection Ho as <-.
  unfold sized_object, SIZE_MODULUS. simpl. lia.
Qed.

Lemma example_client_reachable :
  process_reachable failing_map example_unmap 8 0 65536 example_client.
Proof. exact (proc_reach_init failing_map example_unmap sized_object 8 0 65536 tt). Qed.


Lemma attached_client_reachable_any :
  process_reachable_any failing_map example_unmap 8 0 65536 attached_client.
Proof.
  eapply proc_reach_step with (r := ShmAttach granted_kernel 5 0);
    [exact (proc_reach_init failing_map example_unmap _ 8 0 65536 tt)|].
  simpl. split; [done|]. split; [exact size_t_0|].
  eexists. exact shmattach_example.
Qed.



Lemma shmdetach_example :
  exists p', sys_shmdetach example_unmap 5 granted_kernel attached_client
             = Done SUCCESS p'.
Proof. eexists. vm_compute. reflexivity. Qed.

Lemma map_object_region_covers_object_witness :
  process_reachable_any failing_map example_unmap 8 0 65536 attached_client /\
  Forall (fun r => reg_size r = obj_size (reg_object r))
    (m_regions (_vm_space attached_client)) /\
  Forall (fun r => reg_size r = obj_size (reg_object r))
    (_vm_regions attached_client) /\
  exists p' (i : nat) r object,
    sys_shmdetach example_unmap 5 granted_kernel attached_client
      = Done SUCCESS p' /\
    shared_objects granted_kernel !! 5 = Some object /\
    _vm_regions attached_client !! i = Some r /\
    reg_object r = anon_object object /\
    _vm_regions p' = delete i (_vm_regions attached_client) /\
    m_regions (_vm_space p') = delete i (m_regions (_vm_space attached_client)) /\
    m_used_shmem p' = wrap (m_used_shmem attached_client - reg_size r).
Proof.
  split; [exact attached_client_reachable_any|].
  destruct (map_object_region_covers_object failing_map example_unmap 8 0 65536
              attached_client attached_client_reachable_any)
    as (H1 & H2 & _ & H4).
  split; [exact H1|]. split; [exact H2|].
  destruct shmdetach_example as (p' & Hrun).
  destruct (H4 5 granted_kernel p' Hrun) as (i & r & object & H).
  exists p', i, r, object. split; [exact Hrun|]. exact H.
Defined.

Lemma shmattach_then_shmdetach_witness :
  valid_space 0 65536 /\ 0 < 65536 /\ 0 mod PAGE_SIZE = 0 /\
  process_reachable failing_map example_unmap 8 0 65536 example_client /\
  (forall o, shared_objects granted_kernel !! 5 = Some o ->
             sized_object (anon_object o)) /\
  in_size_t 0 /\
  sys_shmattach failing_map 5 0 granted_kernel example_client
    = Done (SUCCESS, Some {| shm_ptr := 0; shm_size := 4096; shm_id := 5 |})
        attached_client /\
  exists p'',
    sys_shmdetach example_unmap 5 granted_kernel attached_client
      = Done SUCCESS p'' /\
    m_used_shmem p'' = m_used_shmem example_client /\
    m_used_pmem p'' = m_used_pmem example_client /\
    length (_vm_regions p'') = length (_vm_regions example_client) /\
    length (m_regions (_vm_space p''))
      = length (m_regions (_vm_space example_client)) /\
    m_used (range_map (_vm_space p''))
      = m_used (range_map (_vm_space example_client)).
Proof.
  assert (Hs : 0 < 65536) by lia.
  split; [exact valid_space_example|]. split; [exact Hs|]. split; [reflexivity|].
  split; [exact example_client_reachable|].
  split; [exact granted_objects_sized|]. split; [exact size_t_0|].
  split; [exact shmattach_example|].
  exact (shmattach_then_shmdetach failing_map example_unmap 8 0 65536 5 0
           granted_kernel example_client attached_client _
           valid_space_example Hs eq_refl example_client_reachable
           granted_objects_sized size_t_0 shmattach_example).
Defined.
